(* ===== verification/_CoqProject ===== *)
-Q . S2P
Prelude.v
CLib.v
CachePolicy.v
Posix.v
Rpc.v
Server.v
DataMover.v
Threads.v
ClientState.v
CommClient.v
DoneFlag.v
Client.v
Wrappers.v
Comm.v
System.v
Failures.v
MultiClient.v
Messages.v
Stats.v
Deployment.v
Service.v
Logging.v
