(* ===== verification/Prelude.v ===== *)
(** * HVAC: a verified model of a distributed read cache

    HVAC puts a cache in front of a parallel file system.  An application is
    run with the client library preloaded; its [open], [read], [pread] and
    [close] on files of the data directory become remote procedure calls to the
    server that the hash of the file's name selects.  A server opens and reads
    the file on its behalf; when the file is closed, the server's data mover
    copies it to a local disk, and later opens are redirected to the copy.

    ** Parts and files

    - [Prelude]: ways a process can stop ([fault]: exit, failed assertion,
      uncaught exception, undefined behaviour, blocking for ever), the state
      monad with faults, invariants of computations ([keeps], with the tactic
      [keeps_step]), machine integers, [std::map] as [gmap], sums over maps.
    - [CLib]: the C and C++ library functions that compute (atoi, stoull,
      fscanf of a number and a word, paths).
    - [Posix]: the operating system as an interface: operations over a world,
      laws in terms of three observations (the regular file and the directory
      under a name, the open file behind a descriptor), a class of machines that
      do not fail, and a concrete world that satisfies everything.
    - [Rpc]: the messages of hvac_comm.h; Mercury as a record of return values
      with its documented refusals, the order in which it completes requests and
      what it reports of requests nobody answers; and the interface [FileServer] with its
      laws, which is what a server promises its clients.
    - [Server]: the four request handlers and the bulk callback of
      hvac_comm.cpp over the maps and the queue of hvac_data_mover.cpp, with a
      heap of the handles, inputs, bulk handles and blocks they acquire and give
      back; the instance of [FileServer].
    - [DataMover]: hvac_data_mover_fn as functions and as a transition system
      interleaved with the handlers.
    - [Threads]: the progress thread and the mover of one server, statement by
      statement where they share state: the close handler cut at its accesses,
      the mover at its lock operations and loop turns.
    - [CachePolicy]: hvac_cache_policy.cpp, the placement of files on two
      tiers, with an abstract ledger it refines.  No build target includes the
      file yet, and no other part calls it.
    - [ClientState], [CommClient], [Client], [Wrappers]: one application
      process with the servers around it: the globals; registration, address
      lookup, request generators, callbacks and waits (hvac_comm_client.cpp); tracking and the
      remote operations (hvac_client.cpp); the intercepted calls (wrappers.c).
    - [DoneFlag]: the completion flag of hvac_comm_client.cpp shared by
      several calling threads.
    - [Comm]: joining the network, posting the address, registration, the
      progress loop (hvac_comm.cpp) and the server's main (hvac_server.cpp).
    - [System]: applications, client and servers together: the POSIX
      specification, the simulation, and a demonstration job of two servers.
    - [Failures]: what the client does when an address is not posted yet and
      when an answer is an error.
    - [MultiClient]: the processes of a job over one set of servers, with
      starting clients and dying servers; requests in flight.
    - [Messages]: calls cut where they wait; the same job with every message of
      every client handled in a step of its own.
    - [Stats]: the lookup of the replaced symbols (hvac_internal.h), the clock
      readings and totals of wrappers.c as binary64 numbers, and the report it
      can write.
    - [Deployment]: a job from the servers' posts on, and opens that fail only
      remotely.
    - [Service]: the whole job: servers started by their main on the nodes of
      the job, their movers, and the clients at the level of messages.
    - [Logging]: verbosity, file name and message formatting of
      hvac_logging.c, and its set-up as the calls it makes of the log library.

    Definitions keep the names of the functions they model; a function is a
    computation in [M S A], from a state to a value and a state or to a fault.
    A wait of the client is [progress_until_done]: forwarded requests complete,
    in an order that the transport chooses ([hg_next]), until the flag is raised;
    with nothing left to complete the wait is the fault [FBlocked].  A server
    that faults disappears from the map of servers.  A request to a server that
    is gone either never completes, or its callback runs with an error
    ([hg_lost]).

    ** What is shown

    - The service ([Service]): start servers by main in any order, then let
      clients start and call while messages are delivered, movers run and
      servers die, in any interleaving; each client sees a POSIX history on the
      original files.  The theorem composes the groups below; what it leaves to
      the outside is the POSIX interface of the machines, a network that works,
      and that a failed mkdtemp leaves no name of a directory with directories
      in it ([scratch_clean]; [failed_mkdtemp_breaks_cache] says why).
    - Transparency ([System]): the relation [transparent] ties the client's
      tables, the requests in flight and the servers' descriptors to the
      application's open files, for any set of descriptors that other clients
      hold ([others]) and with any servers dead.  Every legal call, which
      includes that the file's home is alive, preserves it, does not fault and
      answers as POSIX allows on the original files; every execution that
      interleaves calls with delayed completions, background steps and deaths
      of the servers is a POSIX history; the constructor establishes it; the
      servers' posts in any order establish the address file it needs
      ([Deployment]).  The client's side is proved against [FileServerLaws],
      which [Server] discharges; the mover's steps are background steps by
      [DataMover].
    - Jobs ([MultiClient]): what one client's step keeps for [others] is what
      the other clients' simulations need, so in every interleaving of several
      clients each has a POSIX history of its own.  The generators of requests
      do not look at the servers, so a call may be taken to happen when its
      request is handled.
    - Messages ([Messages]): the calls themselves interleave.  A client is
      between calls, has a request on its way, has its answer, or has lost its
      server ([phase]); each of its steps keeps what the other clients rely on,
      so the histories stay POSIX when the messages of several waiting clients
      are handled in any order, also the messages of one client.  A wait ends
      once the client's own messages are handled, cutting a call at its wait does
      not change it ([call_splits]), and the executions of [MultiClient] are
      among those of [Messages].  Between calls no callback touches a client.
    - Statistics ([Stats]): lookups and clocks change no result, no total is
      negative or NaN, and a printed line reads back.
    - The limits of transparency: counts beyond 31 bits and opens that fail
      remotely, which stop the server ([read_stops_home]), seeks and reused
      descriptors, servers that die under open files,
      several calling threads ([DoneFlag]), addresses that are too long, opens
      before the home server has posted and errors in answers, which end the
      process ([Failures]).
    - The cache ([DataMover]): copies are coherent in every reachable state, a
      mover step disturbs no client, a round of the mover is complete unless a
      copy fails, which has no defined behaviour; and every close that finds the
      mover busy is missed.
    - The threads of a server ([Threads]): coherence in every interleaving of
      statements; the queue is touched only under its mutex, and a signalled
      mover finds it filled; however the mover wakes up it takes over the whole
      queue; no handler waits for a copy; the executions of
      [DataMover] are interleavings of statements; and the map of cached paths
      is accessed without a lock.
    - The policy ([CachePolicy]): refinement of a ledger, exact accounting
      modulo [2^64], no overcommitment without wrap-around, the victim, and
      that eviction never evicts.
    - Requests ([Server]): what each handler computes, what is left on the heap
      after any number of requests, and the requests that end the server.
    - Start and progress ([Comm]): callbacks run once and in order, shutdown,
      order of the start.

    ** Bounds

    [scan_ports] takes fuel one more than the length of the file;
    [find_server_lines] in [Comm] shows that this covers every file of posted
    lines.  [progress_until_done] takes the number of requests under way, each of
    which completes once.  No other definition needs fuel: loops over queues and
    lists are structural.

    ** What is not modelled

    Log messages, except for the flag they set and for those of the log's own
    set-up; contents of buffers past the bytes read; test programs.  What the
    clock reads and which symbols the linker finds are parameters of [Stats].
    [Stats] shows that a total is never negative or NaN, not how close it is to
    the time that passed.  A wait of the mover may return without a signal, as
    POSIX permits; the waits of the client test their flag in a loop, so a
    return without a signal changes nothing there and is left out.  In [System] and [MultiClient] a call is one step, in [Messages]
    it is two with its messages between them; in both a process has one calling
    thread, and two threads of one client are the subject
    of [DoneFlag].  A handler is one step in [DataMover]; [Threads] says what
    that leaves out, a mover that caches a path between the close handler's
    lookup and its lock.  hvac_multi_source_read.cpp is left out: it
    does not compile and calls a function that nobody defines.  An application
    whose callback fails an assertion ends; in [MultiClient] and [Messages] it
    takes no further step.  Writes are outside the transparency theorems: the
    files of the data set do not change while the job runs. *)
From Stdlib Require Export ZArith Lia.
From stdpp Require Export base tactics numbers option list gmap strings sorting relations.

Declare Scope hvac_scope.
Delimit Scope hvac_scope with hvac.
Open Scope hvac_scope.
Open Scope Z_scope.

(** ** Ways a process can stop *)

(** [exit(n)]; a failed [assert] or an uncaught exception ([abort]); undefined
    behaviour; a thread that blocks for ever. *)
Inductive fault :=
  | FExit (code : Z)
  | FAssert
  | FThrow (what : string)
  | FUndefined
  | FBlocked.

#[export] Instance fault_eq_dec : EqDecision fault.
Proof. solve_decision. Defined.

Inductive outcome (A : Type) :=
  | Ok (a : A)
  | Fault (f : fault).
Arguments Ok {A} a.
Arguments Fault {A} f.

#[export] Instance outcome_eq_dec {A} `{!EqDecision A} : EqDecision (outcome A).
Proof. solve_decision. Defined.

(** ** State with faults *)

Definition M (S A : Type) : Type := S → outcome (A * S).

#[export] Instance M_ret {S} : MRet (M S) := λ A a s, Ok (a, s).
#[export] Instance M_bind {S} : MBind (M S) := λ A B f m s,
  match m s with
  | Ok (a, s') => f a s'
  | Fault e => Fault e
  end.
Arguments M_ret {_ _} _ _ /.
Arguments M_bind {_ _ _} _ _ _ /.

Definition fail {S A} (f : fault) : M S A := λ _, Fault f.
Definition gets {S A} (f : S → A) : M S A := λ s, Ok (f s, s).
Definition modify {S} (f : S → S) : M S unit := λ s, Ok (tt, f s).
(** The C [assert] macro; no build of the project defines [NDEBUG]. *)
Definition cassert {S} (b : bool) : M S unit := λ s, if b then Ok (tt, s) else Fault FAssert.
Definition when {S} (b : bool) (m : M S unit) : M S unit := if b then m else mret tt.

(** A loop over [l] that threads an accumulator. *)
Fixpoint foldM {S A B} (f : A → B → M S A) (a : A) (l : list B) : M S A :=
  match l with
  | [] => mret a
  | b :: l => a' ← f a b; foldM f a' l
  end.

Section MonadLemmas.
Context {S A B C : Type}.
Implicit Types (m : M S A) (f : A → M S B) (g : B → M S C) (s : S).

Lemma bind_ret_l (a : A) f s : (mret a ≫= f) s = f a s.
Proof. reflexivity. Qed.

Lemma bind_assoc m f g s : ((m ≫= f) ≫= g) s = (m ≫= (λ a, f a ≫= g)) s.
Proof. unfold mbind, M_bind. by destruct (m s) as [[a s']|e]. Qed.

Lemma bind_Ok m f s b s'' :
  (m ≫= f) s = Ok (b, s'') ↔ ∃ a s', m s = Ok (a, s') ∧ f a s' = Ok (b, s'').
Proof.
  unfold mbind, M_bind. destruct (m s) as [[a s']|e].
  - split; [by eauto|]. by intros (? & ? & [= <- <-] & ?).
  - split; [done|]. by intros (? & ? & ? & ?).
Qed.
End MonadLemmas.

(** ** State invariants of computations *)

(** [m] keeps [P], and its result satisfies [Q]. *)
Definition keeps {S A} (P : S → Prop) (Q : A → Prop) (m : M S A) : Prop :=
  ∀ s a s', P s → m s = Ok (a, s') → P s' ∧ Q a.
Abbreviation keeps_any P m := (keeps P (λ _, True) m).

Section Keeps.
Context {S : Type} (P : S → Prop).

Lemma keeps_ret {A} (Q : A → Prop) a : Q a → keeps P Q (mret a : M S A).
Proof. by intros ? s b s' ? [= <- <-]. Qed.

Lemma keeps_bind {A B} (Q : A → Prop) (R : B → Prop) (m : M S A) (f : A → M S B) :
  keeps P Q m → (∀ a, Q a → keeps P R (f a)) → keeps P R (m ≫= f).
Proof.
  intros Hm Hf s b s' Hs (a & s1 & Ha & Hb)%bind_Ok.
  destruct (Hm _ _ _ Hs Ha) as [Hs1 Hq]. by eapply Hf.
Qed.

Lemma keeps_weaken {A} (Q R : A → Prop) (m : M S A) :
  (∀ a, Q a → R a) → keeps P Q m → keeps P R m.
Proof. intros HQR Hm s a s' Hs Ha. destruct (Hm _ _ _ Hs Ha). auto. Qed.

Lemma keeps_fail {A} (Q : A → Prop) f : keeps P Q (fail f : M S A).
Proof. done. Qed.

Lemma keeps_gets {A} (Q : A → Prop) (f : S → A) : (∀ s, P s → Q (f s)) → keeps P Q (gets f).
Proof. intros Hf s a s' Hs [= <- <-]. auto. Qed.

Lemma keeps_modify f : (∀ s, P s → P (f s)) → keeps_any P (modify f).
Proof. intros Hf s a s' Hs [= <- <-]. auto. Qed.

Lemma keeps_cassert b : keeps_any P (cassert b).
Proof. unfold cassert. by intros s a s' Hs; destruct b; [intros [= <- <-]|]. Qed.

Lemma keeps_when b m : keeps_any P m → keeps_any P (when b m).
Proof. intros Hm. destruct b; [done|by apply keeps_ret]. Qed.
End Keeps.

Create HintDb keeps.
#[export] Hint Resolve keeps_fail keeps_cassert : keeps.

(** Walk through a computation, leaving the facts about updates and results. *)
Ltac keeps_step :=
  match goal with
  | |- keeps _ _ (mret _) => apply keeps_ret
  | |- keeps _ _ (fail _) => apply keeps_fail
  | |- keeps _ _ (when _ _) => apply keeps_when
  | |- keeps _ _ (cassert _) => apply keeps_cassert
  | |- keeps _ _ (modify _) => apply keeps_modify; intros ? ?
  | |- keeps _ _ (gets _) => apply keeps_gets; intros ? ?
  | |- keeps _ _ (if ?b then _ else _) => destruct b eqn:?
  | |- keeps _ _ (match ?x with _ => _ end) => destruct x eqn:?
  | |- keeps _ _ (let _ := _ in _) => cbv zeta
  end.

(** ** Machine integers *)

Definition u32 (z : Z) : Z := z mod 2 ^ 32.
Definition u64 (z : Z) : Z := z mod 2 ^ 64.
Definition u8 (z : Z) : Z := z mod 2 ^ 8.
Definition i32 (z : Z) : Z := (z + 2 ^ 31) mod 2 ^ 32 - 2 ^ 31.
Definition i64 (z : Z) : Z := (z + 2 ^ 63) mod 2 ^ 64 - 2 ^ 63.

Definition is_u64 (z : Z) : Prop := 0 ≤ z < 2 ^ 64.
Definition is_i32 (z : Z) : Prop := - 2 ^ 31 ≤ z < 2 ^ 31.
Definition is_i64 (z : Z) : Prop := - 2 ^ 63 ≤ z < 2 ^ 63.

(** [lia] with the definitions of words and division unfolded. *)
Ltac word :=
  unfold u8, u32, u64, i32, i64, is_u64, is_i32, is_i64 in *;
  change (2 ^ 64) with 18446744073709551616 in *;
  change (2 ^ 63) with 9223372036854775808 in *;
  change (2 ^ 32) with 4294967296 in *;
  change (2 ^ 31) with 2147483648 in *;
  change (2 ^ 8) with 256 in *;
  Z.div_mod_to_equations; lia.

Create HintDb word.
Create Rewrite HintDb word.

Lemma u64_range z : is_u64 (u64 z).
Proof. word. Qed.
Lemma u64_small z : is_u64 z → u64 z = z.
Proof. word. Qed.
Lemma u64_u64 z : u64 (u64 z) = u64 z.
Proof. word. Qed.
Lemma u64_add_l x y : u64 (u64 x + y) = u64 (x + y).
Proof. unfold u64. by rewrite Zplus_mod_idemp_l. Qed.
Lemma u64_sub_l x y : u64 (u64 x - y) = u64 (x - y).
Proof. unfold u64. by rewrite Zminus_mod_idemp_l. Qed.
Lemma i32_range z : is_i32 (i32 z).
Proof. word. Qed.
Lemma i32_small z : is_i32 z → i32 z = z.
Proof. word. Qed.
Lemma i64_small z : is_i64 z → i64 z = z.
Proof. word. Qed.
Lemma u32_range z : 0 ≤ u32 z < 2 ^ 32.
Proof. word. Qed.
Lemma i32_u32 z : i32 (u32 z) = i32 z.
Proof. word. Qed.

#[export] Hint Resolve u64_range u64_small i32_range i32_small : word.
#[export] Hint Rewrite u64_u64 u64_add_l u64_sub_l i32_u32 : word.

(** ** [std::map] *)

(** [m[k]]: the value of [k], which is default-inserted when absent. *)
Definition map_index {K V} `{Countable K} (dflt : V) (m : gmap K V) (k : K) : V * gmap K V :=
  match m !! k with
  | Some v => (v, m)
  | None => (dflt, <[k := dflt]> m)
  end.

(** [m.find(k) == m.end()] *)
Definition map_absent {K V} `{Countable K} (m : gmap K V) (k : K) : bool :=
  match m !! k with Some _ => false | None => true end.

(** Iteration order of a [std::map] with [std::string] keys. *)
Definition key_le {V} (x y : string * V) : Prop := String.le x.1 y.1.
#[export] Instance key_le_dec {V} : RelDecision (@key_le V).
Proof. intros x y. unfold key_le. apply _. Defined.
Definition map_entries {V} (m : gmap string V) : list (string * V) :=
  merge_sort key_le (map_to_list m).

Section StdMap.
Context {K V : Type} `{Countable K}.
Implicit Types (m : gmap K V) (k : K).

Lemma map_absent_true m k : map_absent m k = true ↔ m !! k = None.
Proof. unfold map_absent. destruct (m !! k); naive_solver. Qed.
Lemma map_absent_false m k : map_absent m k = false ↔ is_Some (m !! k).
Proof. unfold map_absent. destruct (m !! k) eqn:E; naive_solver. Qed.
Lemma map_absent_Some m k v : m !! k = Some v → map_absent m k = false.
Proof. unfold map_absent. by intros ->. Qed.
Lemma map_index_Some d m k v : m !! k = Some v → map_index d m k = (v, m).
Proof. unfold map_index. by intros ->. Qed.
End StdMap.

Section MapEntries.
Context {V : Type}.
Implicit Types (m : gmap string V).

#[local] Instance key_le_trans : Transitive (@key_le V).
Proof. intros x y z. unfold key_le. apply transitivity. Qed.
#[local] Instance key_le_total : Total (@key_le V).
Proof. intros x y. unfold key_le. apply (total String.le). Qed.

Lemma map_entries_Permutation m : map_entries m ≡ₚ map_to_list m.
Proof. apply merge_sort_Permutation. Qed.

Lemma elem_of_map_entries m k v : (k, v) ∈ map_entries m ↔ m !! k = Some v.
Proof. by rewrite map_entries_Permutation, elem_of_map_to_list. Qed.

Lemma map_entries_sorted m : StronglySorted key_le (map_entries m).
Proof. apply (StronglySorted_merge_sort _). Qed.

Lemma NoDup_map_entries_fst m : NoDup (map_entries m).*1.
Proof. rewrite map_entries_Permutation. apply NoDup_fst_map_to_list. Qed.
End MapEntries.

(** ** Sums over the values of a map *)

Definition sum_map {K V} `{Countable K} (f : V → Z) (m : gmap K V) : Z :=
  map_fold (λ _ v acc, f v + acc) 0 m.

Section SumMap.
Context {K V : Type} `{Countable K}.
Implicit Types (m : gmap K V) (k : K) (v : V) (f : V → Z).

Lemma sum_map_empty f : sum_map f (∅ : gmap K V) = 0.
Proof. apply map_fold_empty. Qed.

Lemma sum_map_insert f m k v :
  m !! k = None → sum_map f (<[k := v]> m) = f v + sum_map f m.
Proof. intros ?. unfold sum_map. rewrite map_fold_insert_L; auto with lia. Qed.

Lemma sum_map_delete f m k v :
  m !! k = Some v → sum_map f m = f v + sum_map f (delete k m).
Proof.
  intros ?. rewrite <- (sum_map_insert f (delete k m) k v) by apply lookup_delete_eq.
  by rewrite insert_delete_id.
Qed.

Lemma sum_map_update f m k v w :
  m !! k = Some v → sum_map f (<[k := w]> m) = sum_map f m - f v + f w.
Proof.
  intros Hk. rewrite (sum_map_delete f m k v), <- insert_delete_eq by done.
  rewrite sum_map_insert by apply lookup_delete_eq. lia.
Qed.

Lemma sum_map_nonneg f m :
  (∀ k v, m !! k = Some v → 0 ≤ f v) → 0 ≤ sum_map f m.
Proof.
  induction m as [|k v m Hk IH] using map_ind; intros Hf.
  - by rewrite sum_map_empty.
  - rewrite sum_map_insert by done.
    assert (0 ≤ f v) by (apply (Hf k); simplify_map_eq; done).
    assert (0 ≤ sum_map f m); [|lia].
    apply IH. intros k' v' Hk'. apply (Hf k').
    rewrite lookup_insert_ne; [done|]. intros ->. naive_solver.
Qed.

Lemma sum_map_lookup_le f m k v :
  (∀ k v, m !! k = Some v → 0 ≤ f v) → m !! k = Some v → f v ≤ sum_map f m.
Proof.
  intros Hf Hk. rewrite (sum_map_delete f m k v) by done.
  assert (0 ≤ sum_map f (delete k m)); [|lia].
  apply sum_map_nonneg. intros k' v' [? ?]%lookup_delete_Some. eauto.
Qed.
End SumMap.

(** ** Automation *)

(** Split conjunctions and existentials of the context. *)
Ltac split_hyps :=
  repeat match goal with
  | H : _ ∧ _ |- _ => destruct H
  | H : ∃ _, _ |- _ => destruct H
  | H : Ok _ = Ok _ |- _ => injection H as H
  | H : (_, _) = (_, _) |- _ => injection H as H
  | H : Ok _ = Fault _ |- _ => discriminate H
  | H : Fault _ = Ok _ |- _ => discriminate H
  end; subst.

(** Run a monadic computation one step: unfold the combinators. *)
Ltac run_monad :=
  unfold mbind, M_bind, mret, M_ret, gets, modify, fail, cassert, when in *; simpl in *.
