(* ===== verification/CLib.v ===== *)
(** * The C and C++ library functions the program calls

    Executable models of the conversions, scans and string functions of the C
    and C++ standard libraries as the sources use them: [getenv], [atoi],
    [std::stoull], [fprintf] with a decimal conversion, [fscanf] with the format ["%d %s\n"],
    [strstr] / [std::string::find], [std::filesystem::path] decomposition and
    GNU [basename].  Nothing here models code of the repository. *)
From S2P Require Import Prelude.
From Stdlib Require Import DecimalString DecimalZ.
From Stdlib Require Import Ascii.

(** ** Environment variables *)

Definition environ : Type := gmap string string.
Definition getenv (e : environ) (name : string) : option string := e !! name.

(** ** Characters *)

Definition code (c : ascii) : Z := Z.of_N (N_of_ascii c).
Definition isspace (c : ascii) : bool :=
  (code c =? 32) || ((9 <=? code c) && (code c <=? 13)).
Definition isdigit (c : ascii) : bool := (48 <=? code c) && (code c <=? 57).

Definition newline : ascii := ascii_of_N 10.
Definition slash : ascii := ascii_of_N 47.

(** ** Scanning integers *)

Fixpoint skip_space (s : string) : string :=
  match s with
  | String c t => if isspace c then skip_space t else s
  | EmptyString => EmptyString
  end.

(** Value of a run of digits, most significant first, and what follows it. *)
Fixpoint scan_digits (acc : Z) (s : string) : Z * string :=
  match s with
  | String c t => if isdigit c then scan_digits (10 * acc + (code c - 48)) t else (acc, s)
  | EmptyString => (acc, s)
  end.

Definition scan_sign (s : string) : bool * string :=
  match s with
  | String c t =>
      if code c =? 45 then (true, t) else if code c =? 43 then (false, t) else (false, s)
  | EmptyString => (false, s)
  end.

Definition starts_digit (s : string) : bool :=
  match s with String c _ => isdigit c | EmptyString => false end.

(** Optional white space, optional sign, at least one digit: the sign, the
    magnitude and the rest of the input. *)
Definition scan_int (s : string) : option (bool * Z * string) :=
  let '(neg, t) := scan_sign (skip_space s) in
  if starts_digit t then let '(n, r) := scan_digits 0 t in Some (neg, n, r) else None.

Definition signed (neg : bool) (n : Z) : Z := if neg then - n else n.

(** glibc converts with [strtol], which saturates, and truncates to [int]. *)
Definition strtol_int (neg : bool) (n : Z) : Z :=
  i32 (Z.max (- 2 ^ 63) (Z.min (2 ^ 63 - 1) (signed neg n))).

Definition atoi (s : string) : Z :=
  match scan_int s with
  | Some (neg, n, _) => strtol_int neg n
  | None => 0
  end.

(** [std::stoull], base 10.  A minus sign negates modulo [2^64]. *)
Definition stoull (s : string) : outcome Z :=
  match scan_int s with
  | None => Fault (FThrow "invalid_argument")
  | Some (neg, n, _) =>
      if n <=? 2 ^ 64 - 1 then Ok (u64 (signed neg n)) else Fault (FThrow "out_of_range")
  end.

(** ** Printing integers *)

(** The text of the [%d] conversion. *)
Definition decimal (z : Z) : string := NilZero.string_of_int (Z.to_int z).

(** ** [fscanf(f, "%d %s\n", &i, s)] *)

(** The longest prefix without white space. *)
Fixpoint scan_token (s : string) : string * string :=
  match s with
  | String c t =>
      if isspace c then (EmptyString, s)
      else let '(w, r) := scan_token t in (String c w, r)
  | EmptyString => (EmptyString, EmptyString)
  end.

(** [Some] when both conversions succeed (the call returns 2). *)
Definition fscanf_int_token (s : string) : option (Z * string * string) :=
  match scan_int s with
  | None => None
  | Some (neg, n, r) =>
      let '(w, r') := scan_token (skip_space r) in
      match w with
      | EmptyString => None
      | _ => Some (strtol_int neg n, w, skip_space r')
      end
  end.

(** ** Searching *)

(** [strstr(hay, needle) != NULL], and [hay.find(needle) != npos]. *)
Fixpoint contains (needle hay : string) : bool :=
  String.prefix needle hay ||
  match hay with
  | EmptyString => false
  | String _ t => contains needle t
  end.

(** ** Paths *)

(** Text before and after the last slash. *)
Fixpoint split_slash (s : string) : option (string * string) :=
  match s with
  | EmptyString => None
  | String c t =>
      match split_slash t with
      | Some (d, b) => Some (String c d, b)
      | None => if Ascii.eqb c slash then Some (EmptyString, t) else None
      end
  end.

(** [path.parent_path()] of a path without doubled slashes. *)
Definition parent_path (s : string) : string :=
  match split_slash s with
  | None => EmptyString
  | Some (EmptyString, _) => "/"
  | Some (d, _) => d
  end.

(** [path.filename()], and GNU [basename]. *)
Definition filename (s : string) : string :=
  match split_slash s with
  | None => s
  | Some (_, b) => b
  end.

(** ** Lemmas *)

Lemma code_range c : 0 ≤ code c < 256.
Proof.
  unfold code. pose proof (N_ascii_bounded c). lia.
Qed.

Lemma isdigit_not_space c : isdigit c = true → isspace c = false.
Proof. unfold isdigit, isspace. lia. Qed.

Section Decimal.
Fixpoint uint_val (acc : Z) (d : Decimal.uint) : Z :=
  match d with
  | Decimal.Nil => acc
  | Decimal.D0 l => uint_val (10 * acc + 0) l
  | Decimal.D1 l => uint_val (10 * acc + 1) l
  | Decimal.D2 l => uint_val (10 * acc + 2) l
  | Decimal.D3 l => uint_val (10 * acc + 3) l
  | Decimal.D4 l => uint_val (10 * acc + 4) l
  | Decimal.D5 l => uint_val (10 * acc + 5) l
  | Decimal.D6 l => uint_val (10 * acc + 6) l
  | Decimal.D7 l => uint_val (10 * acc + 7) l
  | Decimal.D8 l => uint_val (10 * acc + 8) l
  | Decimal.D9 l => uint_val (10 * acc + 9) l
  end.

Lemma uint_val_pos d p : uint_val (Zpos p) d = Zpos (Pos.of_uint_acc d p).
Proof.
  revert p. induction d; intros p; simpl; try reflexivity;
    rewrite <- IHd; f_equal; lia.
Qed.

Lemma uint_val_of_uint d : uint_val 0 d = Z.of_N (Pos.of_uint d).
Proof. induction d; simpl; try reflexivity; try apply uint_val_pos. apply IHd. Qed.

Lemma scan_digits_uint acc d rest :
  starts_digit rest = false →
  scan_digits acc (NilEmpty.string_of_uint d +:+ rest) = (uint_val acc d, rest).
Proof.
  intros Hr. revert acc. induction d; intros acc; simpl; try (rewrite <- IHd; reflexivity).
  destruct rest as [|c t]; simpl in *; [done|]. by rewrite Hr.
Qed.

Lemma starts_digit_uint d rest :
  d ≠ Decimal.Nil → starts_digit (NilEmpty.string_of_uint d +:+ rest) = true.
Proof. by destruct d. Qed.
End Decimal.

Lemma uint_val_to_uint p : uint_val 0 (Pos.to_uint p) = Zpos p.
Proof. by rewrite uint_val_of_uint, DecimalPos.Unsigned.of_to. Qed.

Lemma NilZero_uint d : d ≠ Decimal.Nil → NilZero.string_of_uint d = NilEmpty.string_of_uint d.
Proof. by destruct d. Qed.

Lemma decimal_pos p : decimal (Zpos p) = NilEmpty.string_of_uint (Pos.to_uint p).
Proof. apply NilZero_uint, DecimalPos.Unsigned.to_uint_nonnil. Qed.

Lemma decimal_neg p :
  decimal (Zneg p) = String (ascii_of_N 45) (NilEmpty.string_of_uint (Pos.to_uint p)).
Proof.
  unfold decimal. simpl. f_equal. apply NilZero_uint, DecimalPos.Unsigned.to_uint_nonnil.
Qed.

Lemma skip_space_digit s : starts_digit s = true → skip_space s = s.
Proof.
  destruct s as [|c t]; simpl; [done|]. intros Hd. by rewrite isdigit_not_space.
Qed.

Lemma scan_sign_digit s : starts_digit s = true → scan_sign s = (false, s).
Proof.
  destruct s as [|c t]; simpl; [done|]. unfold isdigit. intros Hd.
  destruct (code c =? 45) eqn:E; [lia|]. destruct (code c =? 43) eqn:E'; [lia|done].
Qed.

(** Scanning reads back what [%d] prints. *)
Lemma scan_int_decimal z rest :
  starts_digit rest = false →
  scan_int (decimal z +:+ rest) = Some (z <? 0, Z.abs z, rest).
Proof.
  intros Hr. destruct z as [|p|p].
  - destruct rest as [|c t]; simpl in *; [done|].
    unfold scan_int. simpl. by rewrite Hr.
  - assert (Hd : starts_digit (decimal (Zpos p) +:+ rest) = true).
    { rewrite decimal_pos. apply starts_digit_uint, DecimalPos.Unsigned.to_uint_nonnil. }
    unfold scan_int. rewrite skip_space_digit, scan_sign_digit, Hd by done.
    by rewrite decimal_pos, scan_digits_uint, uint_val_to_uint.
  - assert (Hd : starts_digit (NilEmpty.string_of_uint (Pos.to_uint p) +:+ rest) = true).
    { apply starts_digit_uint, DecimalPos.Unsigned.to_uint_nonnil. }
    rewrite decimal_neg. unfold scan_int. simpl.
    by rewrite Hd, scan_digits_uint, uint_val_to_uint.
Qed.

Lemma strtol_int_abs z : is_i32 z → strtol_int (z <? 0) (Z.abs z) = z.
Proof.
  intros Hz. unfold strtol_int, signed.
  destruct (Z.ltb_spec z 0); rewrite ?Z.abs_neq, ?Z.abs_eq by lia;
    rewrite ?Z.opp_involutive, i32_small; word.
Qed.

Lemma append_cons c (s t : string) : String c s +:+ t = String c (s +:+ t).
Proof. reflexivity. Qed.

Lemma append_nil_r (s : string) : s +:+ "" = s.
Proof. induction s as [|c s IH]; [done|]. by rewrite append_cons, IH. Qed.

Lemma append_assoc (a b c : string) : (a +:+ b) +:+ c = a +:+ (b +:+ c).
Proof. induction a as [|x a IH]; [done|]. by rewrite !append_cons, IH. Qed.

Lemma atoi_decimal z : is_i32 z → atoi (decimal z) = z.
Proof.
  intros Hz. unfold atoi. rewrite <- (append_nil_r (decimal z)), scan_int_decimal by done.
  by apply strtol_int_abs.
Qed.

Lemma stoull_decimal z : is_u64 z → stoull (decimal z) = Ok z.
Proof.
  intros Hz. unfold stoull. rewrite <- (append_nil_r (decimal z)), scan_int_decimal by done.
  rewrite Z.abs_eq by word. destruct (Z.leb_spec z (2 ^ 64 - 1)); [|word].
  unfold signed. destruct (Z.ltb_spec z 0); [word|]. by rewrite u64_small.
Qed.

(** A word that [%s] reads back whole: not empty and without white space. *)
Fixpoint no_space (s : string) : bool :=
  match s with
  | String c t => negb (isspace c) && no_space t
  | EmptyString => true
  end.
Definition is_word (s : string) : bool :=
  match s with EmptyString => false | _ => no_space s end.

Definition starts_space (s : string) : bool :=
  match s with String c _ => isspace c | EmptyString => true end.

Lemma scan_token_word w rest :
  no_space w = true → starts_space rest = true → scan_token (w +:+ rest) = (w, rest).
Proof.
  induction w as [|c w IH]; rewrite ?append_cons; simpl; intros Hw Hr.
  - change ("" +:+ rest) with rest. destruct rest as [|c t]; simpl in *; [done|]. by rewrite Hr.
  - apply andb_true_iff in Hw as [Hc Hw]. apply negb_true_iff in Hc.
    by rewrite Hc, IH.
Qed.

Lemma skip_space_word w rest : is_word w = true → skip_space (w +:+ rest) = w +:+ rest.
Proof.
  destruct w as [|c w]; rewrite ?append_cons; simpl; [done|]. intros [Hc _]%andb_true_iff.
  apply negb_true_iff in Hc. by rewrite Hc.
Qed.

(** The line that [fprintf(f, "%d %s\n", z, w)] writes. *)
Definition int_token_line (z : Z) (w : string) : string :=
  decimal z +:+ " " +:+ w +:+ String newline "".

(** [fscanf] reads back such a line and stops at the next visible character. *)
Lemma fscanf_int_token_line z w rest :
  is_i32 z → is_word w = true →
  fscanf_int_token (int_token_line z w +:+ rest) = Some (z, w, skip_space rest).
Proof.
  intros Hz Hw. unfold fscanf_int_token, int_token_line.
  rewrite !append_assoc, scan_int_decimal by done.
  change (skip_space (" " +:+ (w +:+ (String newline "" +:+ rest))))
    with (skip_space (w +:+ (String newline "" +:+ rest))).
  rewrite skip_space_word by done.
  rewrite scan_token_word; [| by destruct w | done].
  rewrite strtol_int_abs by done. by destruct w.
Qed.

Lemma prefix_app (a b : string) : String.prefix a (a +:+ b) = true.
Proof.
  induction a as [|c a IH]; rewrite ?append_cons; simpl; [by destruct ("" +:+ b)|].
  by destruct (ascii_dec c c).
Qed.

Lemma contains_prefix a b : String.prefix a b = true → contains a b = true.
Proof. intros Hp. destruct b; cbn [contains]; by rewrite Hp. Qed.

Lemma contains_app (a b c : string) : contains b (a +:+ (b +:+ c)) = true.
Proof.
  induction a as [|x a IH]; rewrite ?append_cons; simpl.
  - apply (contains_prefix b (b +:+ c)), prefix_app.
  - rewrite IH. apply orb_true_r.
Qed.
