(* ===== verification/CachePolicy.v ===== *)
(** * The multi-tier cache policy ([hvac_cache_policy.cpp])

    The metadata map, the two byte counters and the mutex as a record; one
    definition per function of the file; the accounting invariant of the
    counters; and a refinement of every operation to a ledger that has no
    counters, no words and no lock. *)
From S2P Require Import Prelude CLib.

(** ** Data *)

Inductive cache_tier_t :=
  | CACHE_TIER_FSDAX
  | CACHE_TIER_SSD
  | CACHE_TIER_PFS
  | CACHE_TIER_UNKNOWN.

#[export] Instance cache_tier_eq_dec : EqDecision cache_tier_t.
Proof. solve_decision. Defined.

Record file_meta := FileMeta {
  path : string;
  current_tier : cache_tier_t;
  size : Z;
  access_count : Z;
  is_open : bool
}.

#[export] Instance file_meta_eq_dec : EqDecision file_meta.
Proof. solve_decision. Defined.

(** The value that [operator[]] of the map inserts for a missing key. *)
Definition file_meta_init : file_meta := FileMeta "" CACHE_TIER_FSDAX 0 0 false.

Definition with_tier (t : cache_tier_t) (f : file_meta) : file_meta :=
  FileMeta (path f) t (size f) (access_count f) (is_open f).
Definition with_access (n : Z) (f : file_meta) : file_meta :=
  FileMeta (path f) (current_tier f) (size f) n (is_open f).
Definition with_open (b : bool) (f : file_meta) : file_meta :=
  FileMeta (path f) (current_tier f) (size f) (access_count f) b.

(** The globals of the file. *)
Record policy := Policy {
  g_fileMetaMap : gmap string file_meta;
  g_fsdax_capacity_bytes : Z;
  g_ssd_capacity_bytes : Z;
  g_fsdax_path : string;
  g_ssd_path : string;
  g_fsdax_used_bytes : Z;
  g_ssd_used_bytes : Z;
  g_cacheMutex : bool
}.

Definition policy_globals : policy := Policy ∅ 0 0 "" "" 0 0 false.

Definition set_fileMetaMap (m : gmap string file_meta) (s : policy) : policy :=
  Policy m (g_fsdax_capacity_bytes s) (g_ssd_capacity_bytes s) (g_fsdax_path s) (g_ssd_path s)
    (g_fsdax_used_bytes s) (g_ssd_used_bytes s) (g_cacheMutex s).
Definition set_fsdax_used (n : Z) (s : policy) : policy :=
  Policy (g_fileMetaMap s) (g_fsdax_capacity_bytes s) (g_ssd_capacity_bytes s) (g_fsdax_path s)
    (g_ssd_path s) n (g_ssd_used_bytes s) (g_cacheMutex s).
Definition set_ssd_used (n : Z) (s : policy) : policy :=
  Policy (g_fileMetaMap s) (g_fsdax_capacity_bytes s) (g_ssd_capacity_bytes s) (g_fsdax_path s)
    (g_ssd_path s) (g_fsdax_used_bytes s) n (g_cacheMutex s).
Definition set_cacheMutex (b : bool) (s : policy) : policy :=
  Policy (g_fileMetaMap s) (g_fsdax_capacity_bytes s) (g_ssd_capacity_bytes s) (g_fsdax_path s)
    (g_ssd_path s) (g_fsdax_used_bytes s) (g_ssd_used_bytes s) b.
Definition set_config (fp sp : string) (fc sc : Z) (s : policy) : policy :=
  Policy (g_fileMetaMap s) fc sc fp sp (g_fsdax_used_bytes s) (g_ssd_used_bytes s)
    (g_cacheMutex s).

Arguments set_fileMetaMap m s /.
Arguments set_fsdax_used n s /.
Arguments set_ssd_used n s /.
Arguments set_cacheMutex b s /.
Arguments set_config fp sp fc sc s /.

(** ** Access to the globals *)

(** [std::lock_guard<std::mutex> lock(g_cacheMutex)] around a body.
    [std::mutex] is not recursive: a thread that already owns it blocks. *)
Definition lock_guard {A} (body : M policy A) : M policy A := λ s,
  if g_cacheMutex s then Fault FBlocked
  else match body (set_cacheMutex true s) with
       | Ok (a, s') => Ok (a, set_cacheMutex false s')
       | Fault f => Fault f
       end.

(** [g_fileMetaMap.find(path) == g_fileMetaMap.end()] *)
Definition not_found (p : string) : M policy bool :=
  gets (λ s, map_absent (g_fileMetaMap s) p).

(** [g_fileMetaMap[path]] *)
Definition meta_at (p : string) : M policy file_meta := λ s,
  let '(v, m) := map_index file_meta_init (g_fileMetaMap s) p in
  Ok (v, set_fileMetaMap m s).

(** An assignment to a field of [g_fileMetaMap[path]] *)
Definition meta_update (p : string) (f : file_meta → file_meta) : M policy unit :=
  v ← meta_at p; modify (λ s, set_fileMetaMap (<[p := f v]> (g_fileMetaMap s)) s).

Definition add_fsdax (n : Z) : M policy unit :=
  modify (λ s, set_fsdax_used (u64 (g_fsdax_used_bytes s + n)) s).
Definition sub_fsdax (n : Z) : M policy unit :=
  modify (λ s, set_fsdax_used (u64 (g_fsdax_used_bytes s - n)) s).
Definition add_ssd (n : Z) : M policy unit :=
  modify (λ s, set_ssd_used (u64 (g_ssd_used_bytes s + n)) s).
Definition sub_ssd (n : Z) : M policy unit :=
  modify (λ s, set_ssd_used (u64 (g_ssd_used_bytes s - n)) s).
Definition fits_fsdax (n : Z) : M policy bool :=
  gets (λ s, u64 (g_fsdax_used_bytes s + n) <=? g_fsdax_capacity_bytes s).
Definition fits_ssd (n : Z) : M policy bool :=
  gets (λ s, u64 (g_ssd_used_bytes s + n) <=? g_ssd_capacity_bytes s).

(** ** Operations *)

(** [std::string(getenv(name))] throws when the variable is not set. *)
Definition string_of_env (e : environ) (name : string) : M policy string := λ s,
  match getenv e name with
  | Some v => Ok (v, s)
  | None => Fault (FThrow "logic_error")
  end.
Definition stoull_of_env (e : environ) (name : string) : M policy Z := λ s,
  match getenv e name with
  | Some v => match stoull v with Ok n => Ok (n, s) | Fault f => Fault f end
  | None => Fault (FThrow "logic_error")
  end.

Definition unset (e : environ) (name : string) : bool :=
  match getenv e name with Some _ => false | None => true end.

Definition cache_policy_init (e : environ) : M policy Z :=
  if unset e "HVAC_FSDAX_PATH" || unset e "HVAC_SSD_PATH" || unset e "HVAC_PM_CAPACITY"
     || unset e "HVAC_SSD_CAPACITY"
  then fail (FExit (-1))
  else
    fp ← string_of_env e "HVAC_FSDAX_PATH";
    sp ← string_of_env e "HVAC_SSD_PATH";
    fc ← stoull_of_env e "HVAC_FSDAX_CAPACITY";
    sc ← stoull_of_env e "HVAC_SSD_CAPACITY";
    modify (set_config fp sp fc sc);;
    mret 0.

Definition cache_policy_add_file (p : string) (size_bytes : Z) : M policy unit :=
  lock_guard (
    absent ← not_found p;
    if negb absent then mret tt
    else
      let newFileMeta t := FileMeta p t size_bytes 0 true in
      let record t := modify (λ s, set_fileMetaMap (<[p := newFileMeta t]> (g_fileMetaMap s)) s) in
      fits_pm ← fits_fsdax size_bytes;
      if (fits_pm : bool) then add_fsdax size_bytes;; record CACHE_TIER_FSDAX
      else
        fits ← fits_ssd size_bytes;
        if (fits : bool) then add_ssd size_bytes;; record CACHE_TIER_SSD
        else mret tt).

Definition cache_policy_update_access (p : string) : M policy unit :=
  lock_guard (
    absent ← not_found p;
    if (absent : bool) then mret tt
    else meta_update p (λ f, with_access (u64 (access_count f + 1)) f)).

Definition cache_policy_update_tier (p : string) (new_tier : cache_tier_t) : M policy unit :=
  lock_guard (
    absent ← not_found p;
    if (absent : bool) then mret tt
    else
      f ← meta_at p;
      if decide (current_tier f = new_tier) then mret tt
      else
        when (bool_decide (new_tier = CACHE_TIER_SSD)) (
          f ← meta_at p;
          when (bool_decide (current_tier f = CACHE_TIER_FSDAX)) (
            fits ← fits_ssd (size f);
            if (fits : bool) then
              add_ssd (size f);; sub_fsdax (size f);; meta_update p (with_tier CACHE_TIER_SSD)
            else fail (FExit (-1))));;
        when (bool_decide (new_tier = CACHE_TIER_FSDAX)) (
          f ← meta_at p;
          when (bool_decide (current_tier f = CACHE_TIER_SSD)) (
            fits ← fits_fsdax (size f);
            if (fits : bool) then
              add_fsdax (size f);; sub_ssd (size f);; meta_update p (with_tier CACHE_TIER_FSDAX)
            else mret tt))).

Definition cache_policy_set_open_state (p : string) (open : bool) : M policy unit :=
  lock_guard (
    absent ← not_found p;
    if (absent : bool) then fail (FExit (-1))
    else if open then meta_update p (with_open true) else meta_update p (with_open false)).

Definition cache_policy_get_tier (p : string) : M policy cache_tier_t :=
  lock_guard (
    absent ← not_found p;
    if (absent : bool) then mret CACHE_TIER_UNKNOWN
    else f ← meta_at p; mret (current_tier f)).

(** One turn of the loop of [cache_policy_select_victim_for_eviction]. *)
Definition is_candidate (f : file_meta) : bool :=
  bool_decide (current_tier f = CACHE_TIER_FSDAX) && negb (is_open f).
Definition victim_step (victim_path : string) (file : string * file_meta) : M policy string :=
  if is_candidate file.2 then
    if String.eqb victim_path "" then mret file.1
    else
      v ← meta_at victim_path;
      if access_count file.2 <? access_count v then mret file.1 else mret victim_path
  else mret victim_path.

Definition cache_policy_select_victim_for_eviction : M policy string :=
  lock_guard (
    files ← gets (λ s, map_entries (g_fileMetaMap s));
    foldM victim_step "" files).

Definition cache_policy_remove_file (p : string) : M policy unit :=
  lock_guard (
    found ← gets (λ s, g_fileMetaMap s !! p);
    match found with
    | None => fail (FExit (-1))
    | Some f =>
        (if decide (current_tier f = CACHE_TIER_FSDAX) then sub_fsdax (size f)
         else if decide (current_tier f = CACHE_TIER_SSD) then sub_ssd (size f)
         else mret tt);;
        modify (λ s, set_fileMetaMap (delete p (g_fileMetaMap s)) s)
    end).

Definition cache_policy_evict_if_needed : M policy Z :=
  lock_guard (
    fits ← gets (λ s, g_fsdax_used_bytes s <=? g_fsdax_capacity_bytes s);
    if (fits : bool) then mret 0
    else
      victim_path ← cache_policy_select_victim_for_eviction;
      if String.eqb victim_path "" then mret (-1)
      else cache_policy_remove_file victim_path;; mret 0).

Definition cache_policy_get_usage_bytes : M policy (Z * Z) :=
  lock_guard (gets (λ s, (g_fsdax_used_bytes s, g_ssd_used_bytes s))).

(** ** The interface as one step function *)

Inductive op :=
  | AddFile (p : string) (size_bytes : Z)
  | UpdateAccess (p : string)
  | UpdateTier (p : string) (t : cache_tier_t)
  | SetOpenState (p : string) (b : bool)
  | GetTier (p : string)
  | SelectVictim
  | RemoveFile (p : string)
  | EvictIfNeeded
  | GetUsage.

Inductive reply :=
  | RUnit
  | RTier (t : cache_tier_t)
  | RPath (p : string)
  | RInt (n : Z)
  | RUsage (pm ssd : Z).

#[export] Instance reply_eq_dec : EqDecision reply.
Proof. solve_decision. Defined.

Definition run_op (o : op) : M policy reply :=
  match o with
  | AddFile p n => cache_policy_add_file p n;; mret RUnit
  | UpdateAccess p => cache_policy_update_access p;; mret RUnit
  | UpdateTier p t => cache_policy_update_tier p t;; mret RUnit
  | SetOpenState p b => cache_policy_set_open_state p b;; mret RUnit
  | GetTier p => t ← cache_policy_get_tier p; mret (RTier t)
  | SelectVictim => p ← cache_policy_select_victim_for_eviction; mret (RPath p)
  | RemoveFile p => cache_policy_remove_file p;; mret RUnit
  | EvictIfNeeded => n ← cache_policy_evict_if_needed; mret (RInt n)
  | GetUsage => u ← cache_policy_get_usage_bytes; mret (RUsage u.1 u.2)
  end.

(** The calls a process makes, in order; every call holds the mutex from its
    first statement to its return, so calls of several threads interleave
    whole. *)
Fixpoint run_ops (os : list op) : M policy (list reply) :=
  match os with
  | [] => mret []
  | o :: os => r ← run_op o; rs ← run_ops os; mret (r :: rs)
  end.

(** ** The ledger: what the module promises *)

Module Ledger.
(** Bytes of the files placed on a tier: the counters are derived. *)
Definition on_tier (t : cache_tier_t) (f : file_meta) : Z :=
  if decide (current_tier f = t) then size f else 0.
Definition tier_bytes (t : cache_tier_t) (m : gmap string file_meta) : Z :=
  sum_map (on_tier t) m.

(** Candidates in eviction order: fewest accesses, then by name. *)
Definition victim_le (x y : string * file_meta) : Prop :=
  access_count x.2 < access_count y.2 ∨
  (access_count x.2 = access_count y.2 ∧ String.le x.1 y.1).
#[export] Instance victim_le_dec : RelDecision victim_le.
Proof. intros x y. unfold victim_le. apply _. Defined.

Definition candidate (x : string * file_meta) : Prop :=
  x.1 ≠ "" ∧ is_candidate x.2 = true.
#[export] Instance candidate_dec x : Decision (candidate x).
Proof. unfold candidate. apply _. Defined.

Definition victim (m : gmap string file_meta) : string :=
  match merge_sort victim_le (filter candidate (map_to_list m)) with
  | [] => ""
  | x :: _ => x.1
  end.

Definition place (fc sc : Z) (m : gmap string file_meta) (n : Z) : option cache_tier_t :=
  if decide (tier_bytes CACHE_TIER_FSDAX m + n ≤ fc) then Some CACHE_TIER_FSDAX
  else if decide (tier_bytes CACHE_TIER_SSD m + n ≤ sc) then Some CACHE_TIER_SSD
  else None.

(** Moving a tracked file: to the other tier when it has room; leaving the
    persistent memory without room on the SSD ends the process. *)
Definition move (fc sc : Z) (m : gmap string file_meta) (p : string) (f : file_meta)
    (t : cache_tier_t) : outcome (gmap string file_meta) :=
  match current_tier f, t with
  | CACHE_TIER_FSDAX, CACHE_TIER_SSD =>
      if decide (tier_bytes CACHE_TIER_SSD m + size f ≤ sc)
      then Ok (<[p := with_tier t f]> m) else Fault (FExit (-1))
  | CACHE_TIER_SSD, CACHE_TIER_FSDAX =>
      if decide (tier_bytes CACHE_TIER_FSDAX m + size f ≤ fc)
      then Ok (<[p := with_tier t f]> m) else Ok m
  | _, _ => Ok m
  end.

Definition step (fc sc : Z) (o : op) (m : gmap string file_meta) :
    outcome (reply * gmap string file_meta) :=
  match o with
  | AddFile p n =>
      Ok (RUnit, match m !! p, place fc sc m n with
                 | None, Some t => <[p := FileMeta p t n 0 true]> m
                 | _, _ => m
                 end)
  | UpdateAccess p => Ok (RUnit, alter (λ f, with_access (u64 (access_count f + 1)) f) p m)
  | UpdateTier p t =>
      match m !! p with
      | None => Ok (RUnit, m)
      | Some f => match move fc sc m p f t with
                  | Ok m' => Ok (RUnit, m')
                  | Fault e => Fault e
                  end
      end
  | SetOpenState p b =>
      match m !! p with
      | None => Fault (FExit (-1))
      | Some f => Ok (RUnit, <[p := with_open b f]> m)
      end
  | GetTier p => Ok (RTier (from_option current_tier CACHE_TIER_UNKNOWN (m !! p)), m)
  | SelectVictim => Ok (RPath (victim m), m)
  | RemoveFile p =>
      match m !! p with
      | None => Fault (FExit (-1))
      | Some _ => Ok (RUnit, delete p m)
      end
  | EvictIfNeeded => Ok (RInt 0, m)
  | GetUsage => Ok (RUsage (tier_bytes CACHE_TIER_FSDAX m) (tier_bytes CACHE_TIER_SSD m), m)
  end.

Fixpoint steps (fc sc : Z) (os : list op) (m : gmap string file_meta) :
    outcome (list reply * gmap string file_meta) :=
  match os with
  | [] => Ok ([], m)
  | o :: os =>
      match step fc sc o m with
      | Fault e => Fault e
      | Ok (r, m') =>
          match steps fc sc os m' with
          | Fault e => Fault e
          | Ok (rs, m'') => Ok (r :: rs, m'')
          end
      end
  end.
End Ledger.
Import Ledger.

(** ** Invariants *)

(** An argument of type [uint64_t]. *)
Definition op_typed (o : op) : Prop :=
  match o with AddFile _ n => is_u64 n | _ => True end.

(** Every entry is filed under its own path, is placed on one of the two
    local tiers, and has fields of type [uint64_t]. *)
Definition meta_ok (p : string) (f : file_meta) : Prop :=
  path f = p ∧ is_u64 (size f) ∧ is_u64 (access_count f) ∧
  (current_tier f = CACHE_TIER_FSDAX ∨ current_tier f = CACHE_TIER_SSD).

(** The counters are the byte totals of the tiers modulo [2^64]. *)
Record policy_inv (s : policy) : Prop := {
  inv_unlocked : g_cacheMutex s = false;
  inv_meta : map_Forall meta_ok (g_fileMetaMap s);
  inv_fsdax : g_fsdax_used_bytes s = u64 (tier_bytes CACHE_TIER_FSDAX (g_fileMetaMap s));
  inv_ssd : g_ssd_used_bytes s = u64 (tier_bytes CACHE_TIER_SSD (g_fileMetaMap s))
}.

(** Capacities and file sizes whose sums do not wrap. *)
Definition op_fits (fc sc : Z) (o : op) : Prop :=
  match o with AddFile _ n => 0 ≤ n ∧ fc + n < 2 ^ 64 ∧ sc + n < 2 ^ 64 | _ => True end.

Record ledger_rel (fc sc : Z) (s : policy) (m : gmap string file_meta) : Prop := {
  rel_unlocked : g_cacheMutex s = false;
  rel_map : g_fileMetaMap s = m;
  rel_meta : map_Forall meta_ok m;
  rel_fcap : g_fsdax_capacity_bytes s = fc;
  rel_scap : g_ssd_capacity_bytes s = sc;
  rel_fsdax : g_fsdax_used_bytes s = tier_bytes CACHE_TIER_FSDAX m;
  rel_ssd : g_ssd_used_bytes s = tier_bytes CACHE_TIER_SSD m;
  rel_fsdax_le : tier_bytes CACHE_TIER_FSDAX m ≤ fc;
  rel_ssd_le : tier_bytes CACHE_TIER_SSD m ≤ sc
}.

(** ** Byte totals *)

Section TierBytes.
Implicit Types (m : gmap string file_meta) (f g : file_meta) (t : cache_tier_t).

Lemma on_tier_same t f : current_tier f = t → on_tier t f = size f.
Proof. intros <-. unfold on_tier. by rewrite decide_True. Qed.
Lemma on_tier_other t f : current_tier f ≠ t → on_tier t f = 0.
Proof. intros ?. unfold on_tier. by rewrite decide_False. Qed.

Lemma tier_bytes_insert t m p f :
  m !! p = None → tier_bytes t (<[p := f]> m) = on_tier t f + tier_bytes t m.
Proof. apply sum_map_insert. Qed.
Lemma tier_bytes_update t m p f g :
  m !! p = Some f → tier_bytes t (<[p := g]> m) = tier_bytes t m - on_tier t f + on_tier t g.
Proof. apply sum_map_update. Qed.
Lemma tier_bytes_delete t m p f :
  m !! p = Some f → tier_bytes t (delete p m) = tier_bytes t m - on_tier t f.
Proof. intros Hp. unfold tier_bytes. rewrite (sum_map_delete _ m p f) by done. lia. Qed.

Lemma on_tier_nonneg t m :
  map_Forall meta_ok m → ∀ p f, m !! p = Some f → 0 ≤ on_tier t f.
Proof.
  intros Hm p f Hp. destruct (Hm p f Hp) as (_ & [? _] & _).
  unfold on_tier. case_decide; lia.
Qed.
Lemma tier_bytes_nonneg t m : map_Forall meta_ok m → 0 ≤ tier_bytes t m.
Proof. intros Hm. apply sum_map_nonneg, on_tier_nonneg, Hm. Qed.
Lemma size_le_tier_bytes m p f :
  map_Forall meta_ok m → m !! p = Some f → size f ≤ tier_bytes (current_tier f) m.
Proof.
  intros Hm Hp. rewrite <- (on_tier_same (current_tier f) f) by done.
  apply (sum_map_lookup_le _ m p f); [|done]. by apply on_tier_nonneg.
Qed.

(** Changing neither tier nor size changes no total. *)
Lemma tier_bytes_same t m p f g :
  m !! p = Some f → current_tier g = current_tier f → size g = size f →
  tier_bytes t (<[p := g]> m) = tier_bytes t m.
Proof.
  intros Hp Ht Hs. rewrite (tier_bytes_update t m p f) by done.
  unfold on_tier. rewrite Ht, Hs. lia.
Qed.
End TierBytes.

(** ** What each call computes when the mutex is free *)

Ltac policy_run :=
  unfold lock_guard, not_found, meta_update, meta_at, add_fsdax, sub_fsdax, add_ssd, sub_ssd,
    fits_fsdax, fits_ssd;
  run_monad.

Section Equations.
Implicit Types (s : policy) (p : string).

Lemma add_file_eq s p n :
  g_cacheMutex s = false →
  cache_policy_add_file p n s =
  Ok (tt,
    match g_fileMetaMap s !! p with
    | Some _ => s
    | None =>
        if u64 (g_fsdax_used_bytes s + n) <=? g_fsdax_capacity_bytes s then
          set_fileMetaMap (<[p := FileMeta p CACHE_TIER_FSDAX n 0 true]> (g_fileMetaMap s))
            (set_fsdax_used (u64 (g_fsdax_used_bytes s + n)) s)
        else if u64 (g_ssd_used_bytes s + n) <=? g_ssd_capacity_bytes s then
          set_fileMetaMap (<[p := FileMeta p CACHE_TIER_SSD n 0 true]> (g_fileMetaMap s))
            (set_ssd_used (u64 (g_ssd_used_bytes s + n)) s)
        else s
    end).
Proof.
  destruct s as [m fc sc fp sp fu su mu]; simpl; intros ->.
  unfold cache_policy_add_file. policy_run. unfold map_absent.
  destruct (m !! p); simpl; [done|].
  destruct (u64 (fu + n) <=? fc); simpl; [done|]. by destruct (u64 (su + n) <=? sc).
Qed.

Lemma update_access_eq s p :
  g_cacheMutex s = false →
  cache_policy_update_access p s =
  Ok (tt, match g_fileMetaMap s !! p with
          | Some f => set_fileMetaMap
              (<[p := with_access (u64 (access_count f + 1)) f]> (g_fileMetaMap s)) s
          | None => s
          end).
Proof.
  destruct s as [m fc sc fp sp fu su mu]; simpl; intros ->.
  unfold cache_policy_update_access. policy_run. unfold map_absent, map_index.
  destruct (m !! p) as [f|] eqn:Hp; simpl; by rewrite ?Hp.
Qed.

Lemma set_open_state_eq s p b :
  g_cacheMutex s = false →
  cache_policy_set_open_state p b s =
  match g_fileMetaMap s !! p with
  | Some f => Ok (tt, set_fileMetaMap (<[p := with_open b f]> (g_fileMetaMap s)) s)
  | None => Fault (FExit (-1))
  end.
Proof.
  destruct s as [m fc sc fp sp fu su mu]; simpl; intros ->.
  unfold cache_policy_set_open_state. policy_run. unfold map_absent, map_index.
  destruct (m !! p) as [f|] eqn:Hp, b; simpl; by rewrite ?Hp.
Qed.

Lemma get_tier_eq s p :
  g_cacheMutex s = false →
  cache_policy_get_tier p s =
  Ok (from_option current_tier CACHE_TIER_UNKNOWN (g_fileMetaMap s !! p), s).
Proof.
  destruct s as [m fc sc fp sp fu su mu]; simpl; intros ->.
  unfold cache_policy_get_tier. policy_run. unfold map_absent, map_index.
  destruct (m !! p) as [f|] eqn:Hp; simpl; by rewrite ?Hp.
Qed.

Lemma remove_file_eq s p :
  g_cacheMutex s = false →
  cache_policy_remove_file p s =
  match g_fileMetaMap s !! p with
  | None => Fault (FExit (-1))
  | Some f =>
      Ok (tt, set_fileMetaMap (delete p (g_fileMetaMap s))
        (match current_tier f with
         | CACHE_TIER_FSDAX => set_fsdax_used (u64 (g_fsdax_used_bytes s - size f)) s
         | CACHE_TIER_SSD => set_ssd_used (u64 (g_ssd_used_bytes s - size f)) s
         | _ => s
         end))
  end.
Proof.
  destruct s as [m fc sc fp sp fu su mu]; simpl; intros ->.
  unfold cache_policy_remove_file. policy_run.
  destruct (m !! p) as [f|]; [|done]. by destruct (current_tier f).
Qed.

Lemma update_tier_eq s p t :
  g_cacheMutex s = false →
  cache_policy_update_tier p t s =
  match g_fileMetaMap s !! p with
  | None => Ok (tt, s)
  | Some f =>
      match current_tier f, t with
      | CACHE_TIER_FSDAX, CACHE_TIER_SSD =>
          if u64 (g_ssd_used_bytes s + size f) <=? g_ssd_capacity_bytes s then
            Ok (tt, set_fileMetaMap (<[p := with_tier CACHE_TIER_SSD f]> (g_fileMetaMap s))
              (set_fsdax_used (u64 (g_fsdax_used_bytes s - size f))
                (set_ssd_used (u64 (g_ssd_used_bytes s + size f)) s)))
          else Fault (FExit (-1))
      | CACHE_TIER_SSD, CACHE_TIER_FSDAX =>
          if u64 (g_fsdax_used_bytes s + size f) <=? g_fsdax_capacity_bytes s then
            Ok (tt, set_fileMetaMap (<[p := with_tier CACHE_TIER_FSDAX f]> (g_fileMetaMap s))
              (set_ssd_used (u64 (g_ssd_used_bytes s - size f))
                (set_fsdax_used (u64 (g_fsdax_used_bytes s + size f)) s)))
          else Ok (tt, s)
      | _, _ => Ok (tt, s)
      end
  end.
Proof.
  destruct s as [m fc sc fp sp fu su mu]; simpl; intros ->.
  unfold cache_policy_update_tier. policy_run. unfold map_absent, map_index.
  destruct (m !! p) as [f|] eqn:Hp; simpl; rewrite ?Hp; simpl; [|done].
  destruct (current_tier f) eqn:Hf, t; simpl; rewrite ?Hp; simpl; rewrite ?Hf; simpl;
    try done.
  - destruct (u64 (su + size f) <=? sc); simpl; [|done]. by rewrite Hp.
  - destruct (u64 (fu + size f) <=? fc); simpl; [|done]. by rewrite Hp.
Qed.

Lemma get_usage_eq s :
  g_cacheMutex s = false →
  cache_policy_get_usage_bytes s = Ok ((g_fsdax_used_bytes s, g_ssd_used_bytes s), s).
Proof. by destruct s as [m fc sc fp sp fu su mu]; simpl; intros ->. Qed.
End Equations.

(** ** Victim selection *)

Section Victim.
Implicit Types (s : policy) (m : gmap string file_meta) (x : string * file_meta).

Definition victim_next m (v : string) x : string :=
  if is_candidate x.2 then
    if String.eqb v "" then x.1
    else match m !! v with
         | Some w => if access_count x.2 <? access_count w then x.1 else v
         | None => v
         end
  else v.

(** The loop never inserts: the entry it compares with exists. *)
Lemma victim_loop_eq s l v :
  (v = "" ∨ is_Some (g_fileMetaMap s !! v)) →
  Forall (λ x, g_fileMetaMap s !! x.1 = Some x.2) l →
  foldM victim_step v l s = Ok (fold_left (victim_next (g_fileMetaMap s)) l v, s).
Proof.
  revert v. induction l as [|[k f] l IH]; intros v Hv Hl; [done|].
  apply Forall_cons in Hl as [Hk Hl]; simpl in *.
  assert (Hstep : victim_step v (k, f) s = Ok (victim_next (g_fileMetaMap s) v (k, f), s)).
  { unfold victim_step, victim_next; simpl. destruct (is_candidate f); [|done].
    destruct (String.eqb_spec v "") as [->|Hne]; [done|].
    destruct Hv as [?|[w Hw]]; [done|].
    destruct s; unfold meta_at, map_index; run_monad. rewrite Hw. by case_match. }
  unfold mbind, M_bind. rewrite Hstep. apply IH; [|done].
  unfold victim_next; simpl. destruct (is_candidate f); [|done].
  destruct (String.eqb_spec v ""); [eauto|].
  destruct Hv as [?|[w Hw]]; [done|]. rewrite Hw. case_match; eauto.
Qed.

(** What the loop has found after the entries [l]. *)
Definition best_of (l : list (string * file_meta)) (v : string) : Prop :=
  (v = "" ∧ ∀ x, x ∈ l → ¬ candidate x) ∨
  (∃ w, (v, w) ∈ l ∧ candidate (v, w) ∧ ∀ x, x ∈ l → candidate x → victim_le (v, w) x).

Lemma best_of_next m l x v :
  Forall (λ x, m !! x.1 = Some x.2) (l ++ [x]) → StronglySorted key_le (l ++ [x]) →
  best_of l v → best_of (l ++ [x]) (victim_next m v x).
Proof.
  intros Hm Hs Hb. destruct x as [k f].
  assert (Hle : ∀ y, y ∈ l → String.le y.1 k).
  { intros y Hy. apply (StronglySorted_app_1_elem_of key_le l [(k, f)] y (k, f) Hs Hy). set_solver. }
  unfold victim_next; simpl. destruct (is_candidate f) eqn:Hf.
  - destruct Hb as [[-> Hno]|(w & Hin & Hc & Hmin)]; simpl.
    + destruct (decide (k = "")) as [->|Hk].
      * left. split; [done|]. intros y [Hy| ->%list_elem_of_singleton]%elem_of_app [? ?]; [|done].
        by apply (Hno y).
      * right. exists f. split; [set_solver|]. split; [done|].
        intros y [Hy| ->%list_elem_of_singleton]%elem_of_app Hy'; [by destruct (Hno y)|].
        right. done.
    + assert (v ≠ "") by (by destruct Hc).
      destruct (String.eqb_spec v ""); [done|].
      assert (m !! v = Some w) as ->.
      { rewrite Forall_forall in Hm. apply (Hm (v, w)). set_solver. }
      destruct (Z.ltb_spec (access_count f) (access_count w)) as [Hlt|Hge].
      * destruct (decide (k = "")) as [->|Hk].
        { pose proof (Hle _ Hin) as Hvk. simpl in Hvk. by destruct v. }
        right. exists f. split; [set_solver|]. split; [done|].
        intros y [Hy| ->%list_elem_of_singleton]%elem_of_app Hy'; [|by right].
        left. simpl. destruct (Hmin y Hy Hy') as [?|[? _]]; simpl in *; lia.
      * right. exists w. split; [set_solver|]. split; [done|].
        intros y [Hy| ->%list_elem_of_singleton]%elem_of_app Hy'; [by apply Hmin|].
        unfold victim_le; simpl. pose proof (Hle _ Hin) as Hvk; simpl in Hvk.
        destruct (decide (access_count w = access_count f)); [by right|left; lia].
  - destruct Hb as [[-> Hno]|(w & Hin & Hc & Hmin)].
    + left. split; [done|]. intros y [Hy| ->%list_elem_of_singleton]%elem_of_app; [by apply Hno|].
      intros [_ ?]. simpl in *. congruence.
    + right. exists w. split; [set_solver|]. split; [done|].
      intros y [Hy| ->%list_elem_of_singleton]%elem_of_app; [by apply Hmin|].
      intros [_ ?]. simpl in *. congruence.
Qed.

Lemma best_of_loop m l :
  Forall (λ x, m !! x.1 = Some x.2) l → StronglySorted key_le l →
  best_of l (fold_left (victim_next m) l "").
Proof.
  induction l as [|x l IH] using rev_ind; intros Hm Hs.
  { left. split; [done|]. set_solver. }
  rewrite fold_left_app. apply best_of_next; [done..|].
  apply Forall_app in Hm as [Hm _]. apply IH; [done|]. by eapply StronglySorted_app_1_l.
Qed.

Lemma entries_in_map m : Forall (λ x, m !! x.1 = Some x.2) (map_entries m).
Proof. apply Forall_forall. intros [k f] Hin. by apply elem_of_map_entries. Qed.

Lemma select_victim_eq s :
  g_cacheMutex s = false →
  ∃ v, cache_policy_select_victim_for_eviction s = Ok (v, s) ∧
       best_of (map_entries (g_fileMetaMap s)) v.
Proof.
  intros Hu. eexists. split; [|apply best_of_loop, map_entries_sorted; apply entries_in_map].
  unfold cache_policy_select_victim_for_eviction, lock_guard. rewrite Hu.
  unfold mbind, M_bind, gets.
  rewrite victim_loop_eq; [|by left|apply entries_in_map].
  destruct s; simpl in *. by rewrite Hu.
Qed.
End Victim.

Section VictimOrder.
#[local] Instance victim_le_trans : Transitive victim_le.
Proof.
  intros x y z [?|[? ?]] [?|[? ?]]; unfold victim_le; [left; lia..|].
  right. split; [lia|]. by transitivity y.1.
Qed.
#[local] Instance victim_le_total : Total victim_le.
Proof.
  intros x y. unfold victim_le.
  destruct (Z.lt_trichotomy (access_count x.2) (access_count y.2)) as [?|[?|?]]; [tauto| |tauto].
  destruct (total String.le x.1 y.1); auto.
Qed.

Lemma victim_spec m :
  (victim m = "" ∧ ∀ k f, m !! k = Some f → ¬ candidate (k, f)) ∨
  (∃ w, m !! victim m = Some w ∧ candidate (victim m, w) ∧
        ∀ k f, m !! k = Some f → candidate (k, f) → victim_le (victim m, w) (k, f)).
Proof.
  unfold victim. set (c := filter candidate (map_to_list m)).
  assert (Hc : ∀ k f, (k, f) ∈ c ↔ candidate (k, f) ∧ m !! k = Some f).
  { intros k f. unfold c. by rewrite list_elem_of_filter, elem_of_map_to_list. }
  pose proof (StronglySorted_merge_sort victim_le c) as Hsort.
  pose proof (merge_sort_Permutation victim_le c) as Hperm.
  destruct (merge_sort victim_le c) as [|[v w] l].
  - left. split; [done|]. intros k f Hk Hcand.
    assert ((k, f) ∈ c) as Hin by (by apply Hc). rewrite <- Hperm in Hin.
    by apply not_elem_of_nil in Hin.
  - right. exists w. simpl. assert ((v, w) ∈ c) as [Hcand Hv]%Hc.
    { rewrite <- Hperm. apply list_elem_of_here. }
    split; [done|]. split; [done|]. intros k f Hk Hcand'.
    assert ((k, f) ∈ c) as Hin by (by apply Hc). rewrite <- Hperm in Hin.
    apply elem_of_cons in Hin as [[= -> ->]|Hin]; [by right|].
    apply StronglySorted_cons in Hsort as [Hall _].
    rewrite Forall_forall in Hall. by apply Hall.
Qed.

(** The loop and the sort agree. *)
Lemma best_of_victim m v : best_of (map_entries m) v → v = victim m.
Proof.
  intros Hb. destruct (victim_spec m) as [[Hv Hno]|(w & Hv & Hc & Hmin)].
  - destruct Hb as [[-> _]|(w & Hin & Hc & _)]; [done|].
    apply elem_of_map_entries in Hin. by destruct (Hno v w).
  - destruct Hb as [[_ Hno]|(w' & Hin & Hc' & Hmin')].
    + destruct (Hno (victim m, w)); [by apply elem_of_map_entries|done].
    + apply elem_of_map_entries in Hin.
      assert (victim_le (v, w') (victim m, w)) as H1.
      { apply Hmin'; [by apply elem_of_map_entries|done]. }
      assert (victim_le (victim m, w) (v, w')) as H2 by (by apply Hmin).
      destruct H1 as [?|[? H1]], H2 as [?|[? H2]]; simpl in *; try lia.
      by apply (anti_symm String.le).
Qed.

Lemma select_victim_run s :
  g_cacheMutex s = false →
  cache_policy_select_victim_for_eviction s = Ok (victim (g_fileMetaMap s), s).
Proof.
  intros Hu. destruct (select_victim_eq s Hu) as (v & -> & Hb).
  by rewrite <- (best_of_victim _ _ Hb).
Qed.
End VictimOrder.

(** ** Preservation of the accounting *)

Lemma evict_eq s :
  g_cacheMutex s = false →
  cache_policy_evict_if_needed s =
  if g_fsdax_used_bytes s <=? g_fsdax_capacity_bytes s then Ok (0, s) else Fault FBlocked.
Proof.
  destruct s as [m fc sc fp sp fu su mu]; simpl; intros ->.
  unfold cache_policy_evict_if_needed, lock_guard. run_monad. by destruct (fu <=? fc).
Qed.

Section Accounting.
Implicit Types (s : policy) (m : gmap string file_meta) (f g : file_meta) (p : string).

Lemma meta_ok_insert m p f :
  map_Forall meta_ok m → meta_ok p f → map_Forall meta_ok (<[p := f]> m).
Proof. intros. by apply map_Forall_insert_2. Qed.

Lemma meta_ok_delete m p : map_Forall meta_ok m → map_Forall meta_ok (delete p m).
Proof. apply map_Forall_delete. Qed.

Lemma meta_ok_keep m p f g :
  map_Forall meta_ok m → m !! p = Some f → path g = path f → size g = size f →
  is_u64 (access_count g) →
  (current_tier g = CACHE_TIER_FSDAX ∨ current_tier g = CACHE_TIER_SSD) →
  map_Forall meta_ok (<[p := g]> m).
Proof.
  intros Hm Hp Hpath Hsize Ha Ht. apply meta_ok_insert; [done|].
  destruct (Hm p f Hp) as (? & ? & _). unfold meta_ok. rewrite Hpath, Hsize. done.
Qed.

Lemma meta_ok_access m p f : map_Forall meta_ok m → m !! p = Some f → is_u64 (access_count f).
Proof. intros Hm Hp. by destruct (Hm p f Hp) as (_ & _ & ? & _). Qed.
Lemma meta_ok_tier m p f :
  map_Forall meta_ok m → m !! p = Some f →
  current_tier f = CACHE_TIER_FSDAX ∨ current_tier f = CACHE_TIER_SSD.
Proof. intros Hm Hp. by destruct (Hm p f Hp) as (_ & _ & _ & ?). Qed.

End Accounting.

Create HintDb policy.
#[export] Hint Resolve meta_ok_insert meta_ok_access meta_ok_tier meta_ok_delete : policy.

Section Preservation.
Implicit Types (s : policy) (m : gmap string file_meta) (f g : file_meta) (p : string).

(** Totals after the four kinds of update. *)
Lemma tier_bytes_retier m p f t t' :
  m !! p = Some f → current_tier f ≠ t →
  tier_bytes t' (<[p := with_tier t f]> m) =
  tier_bytes t' m + (if decide (t' = t) then size f else 0)
                  - (if decide (t' = current_tier f) then size f else 0).
Proof.
  intros Hp Hne. rewrite (tier_bytes_update t' m p f) by done. unfold on_tier; simpl.
  repeat case_decide; subst; try congruence; lia.
Qed.

Lemma tier_bytes_new m p n t t' :
  m !! p = None →
  tier_bytes t' (<[p := FileMeta p t n 0 true]> m) =
  tier_bytes t' m + (if decide (t = t') then n else 0).
Proof. intros Hp. rewrite tier_bytes_insert by done. unfold on_tier; simpl. lia. Qed.

Lemma policy_inv_add s p n :
  policy_inv s → is_u64 n →
  ∃ s', cache_policy_add_file p n s = Ok (tt, s') ∧ policy_inv s'.
Proof.
  intros [Hu Hm Hf Hd] Hn. rewrite add_file_eq by done. eexists. split; [done|].
  destruct (g_fileMetaMap s !! p) eqn:Hp; [by split|].
  assert (∀ t, t = CACHE_TIER_FSDAX ∨ t = CACHE_TIER_SSD → meta_ok p (FileMeta p t n 0 true)).
  { intros t Ht. unfold meta_ok; simpl. split_and!; try done; word. }
  destruct (u64 (g_fsdax_used_bytes s + n) <=? g_fsdax_capacity_bytes s);
    [|destruct (u64 (g_ssd_used_bytes s + n) <=? g_ssd_capacity_bytes s); [|by split]];
    split; simpl; auto with policy; rewrite tier_bytes_new by done; simpl;
    rewrite ?Z.add_0_r, ?Hf, ?Hd, ?u64_add_l; done.
Qed.

Lemma policy_inv_update_access s p :
  policy_inv s → ∃ s', cache_policy_update_access p s = Ok (tt, s') ∧ policy_inv s'.
Proof.
  intros [Hu Hm Hf Hd]. rewrite update_access_eq by done. eexists. split; [done|].
  destruct (g_fileMetaMap s !! p) as [f|] eqn:Hp; [|by split].
  split; simpl; [done| |by rewrite (tier_bytes_same _ _ _ f)..].
  apply (meta_ok_keep _ p f); simpl; eauto with policy word.
Qed.

Lemma policy_inv_set_open s s' p b :
  policy_inv s → cache_policy_set_open_state p b s = Ok (tt, s') → policy_inv s'.
Proof.
  intros [Hu Hm Hf Hd]. rewrite set_open_state_eq by done.
  destruct (g_fileMetaMap s !! p) as [f|] eqn:Hp; [|done]. intros [= <-].
  split; simpl; [done| |by rewrite (tier_bytes_same _ _ _ f)..].
  apply (meta_ok_keep _ p f); simpl; eauto with policy.
Qed.

Lemma policy_inv_remove s s' p :
  policy_inv s → cache_policy_remove_file p s = Ok (tt, s') → policy_inv s'.
Proof.
  intros [Hu Hm Hf Hd]. rewrite remove_file_eq by done.
  destruct (g_fileMetaMap s !! p) as [f|] eqn:Hp; [|done]. intros [= <-].
  destruct (meta_ok_tier _ _ _ Hm Hp) as [Ht|Ht]; rewrite Ht;
    split; simpl; auto with policy; rewrite (tier_bytes_delete _ _ _ f) by done;
    rewrite ?Hf, ?Hd, ?u64_sub_l; unfold on_tier; rewrite Ht; simpl; by rewrite ?Z.sub_0_r.
Qed.

Lemma policy_inv_update_tier s s' p t :
  policy_inv s → cache_policy_update_tier p t s = Ok (tt, s') → policy_inv s'.
Proof.
  intros Hs. pose proof Hs as [Hu Hm Hf Hd]. rewrite update_tier_eq by done.
  destruct (g_fileMetaMap s !! p) as [f|] eqn:Hp; [|by intros [= <-]].
  destruct (current_tier f) eqn:Ht, t; try (by intros [= <-]);
    case_match; intros [= <-]; try done;
    (split; simpl; [done| |rewrite (tier_bytes_retier _ _ f) by congruence..]);
    rewrite ?Ht, ?Hf, ?Hd, ?u64_add_l, ?u64_sub_l; simpl; try (f_equal; lia);
    apply (meta_ok_keep _ p f); simpl; eauto with policy.
Qed.

(** Every call of the interface keeps the invariant. *)
Lemma policy_inv_op o s r s' :
  policy_inv s → op_typed o → run_op o s = Ok (r, s') → policy_inv s'.
Proof.
  intros Hs Ho. destruct o; simpl; rewrite bind_Ok; intros (a & s1 & Hop & [= <- <-]).
  - destruct (policy_inv_add s p size_bytes Hs Ho) as (s2 & Hadd & ?). rewrite Hadd in Hop. by injection Hop as _ <-.
  - destruct (policy_inv_update_access s p Hs) as (s2 & Hadd & ?). rewrite Hadd in Hop. by injection Hop as _ <-.
  - destruct a. by eapply policy_inv_update_tier.
  - destruct a. by eapply policy_inv_set_open.
  - rewrite get_tier_eq in Hop by apply Hs. by simplify_eq.
  - rewrite select_victim_run in Hop by apply Hs. by simplify_eq.
  - destruct a. by eapply policy_inv_remove.
  - rewrite evict_eq in Hop by apply Hs. case_match; by simplify_eq.
  - rewrite get_usage_eq in Hop by apply Hs. by simplify_eq.
Qed.

Lemma policy_inv_run_ops os s rs s' :
  policy_inv s → Forall op_typed os → run_ops os s = Ok (rs, s') → policy_inv s'.
Proof.
  revert s rs. induction os as [|o os IH]; intros s rs Hs Hos; simpl.
  - by intros [= <- <-].
  - apply Forall_cons in Hos as [Ho Hos]. rewrite bind_Ok. intros (r & s1 & H1 & H2).
    apply bind_Ok in H2 as (rs' & s2 & H2 & [= <- <-]).
    eapply IH; [|done..]. by eapply policy_inv_op.
Qed.
End Preservation.

(** ** Refinement of the ledger *)

Section Refinement.
Implicit Types (s : policy) (m : gmap string file_meta) (f : file_meta) (p : string).

Lemma u64_sum_leb a n c : 0 ≤ a → 0 ≤ n → a + n < 2 ^ 64 → (u64 (a + n) <=? c) = bool_decide (a + n ≤ c).
Proof.
  intros. rewrite u64_small by word. case_bool_decide; [by apply Z.leb_le|by apply Z.leb_gt; lia].
Qed.

Lemma rel_nonneg fc sc s m t : ledger_rel fc sc s m → 0 ≤ tier_bytes t m.
Proof. intros Hr. apply tier_bytes_nonneg, Hr. Qed.

Lemma refines_add fc sc s m p n :
  ledger_rel fc sc s m → op_fits fc sc (AddFile p n) →
  ∃ s', cache_policy_add_file p n s = Ok (tt, s') ∧
        ledger_rel fc sc s' (match m !! p, place fc sc m n with
                             | None, Some t => <[p := FileMeta p t n 0 true]> m
                             | _, _ => m
                             end).
Proof.
  intros Hr (Hn & Hf & Hd).
  pose proof (rel_nonneg _ _ _ _ CACHE_TIER_FSDAX Hr). pose proof (rel_nonneg _ _ _ _ CACHE_TIER_SSD Hr).
  destruct Hr as [Hu <- Hm <- <- Ef Ed Lf Ld]. rewrite add_file_eq by done.
  eexists. split; [done|]. destruct (g_fileMetaMap s !! p) eqn:Hp; [by split|].
  rewrite Ef, Ed, !u64_sum_leb by lia. unfold place.
  assert (∀ t, t = CACHE_TIER_FSDAX ∨ t = CACHE_TIER_SSD → meta_ok p (FileMeta p t n 0 true)).
  { intros t Ht. unfold meta_ok; simpl. split_and!; try done; word. }
  repeat (case_bool_decide; case_decide; try done);
    (split; simpl; auto with policy; rewrite !tier_bytes_new by done; simpl;
     rewrite ?u64_small by word; lia).
Qed.

Lemma refines_keep fc sc s m p f g :
  ledger_rel fc sc s m → m !! p = Some f → path g = path f → size g = size f →
  current_tier g = current_tier f → is_u64 (access_count g) →
  ledger_rel fc sc (set_fileMetaMap (<[p := g]> m) s) (<[p := g]> m).
Proof.
  intros [Hu <- Hm <- <- Ef Ed Lf Ld] Hp Hpa Hsz Ht Ha.
  split; simpl; try done; rewrite ?(tier_bytes_same _ _ p f g) by done; try done.
  apply (meta_ok_keep _ p f); try done. rewrite Ht. by eapply meta_ok_tier.
Qed.

Lemma refines_update_access fc sc s m p :
  ledger_rel fc sc s m →
  ∃ s', cache_policy_update_access p s = Ok (tt, s') ∧
        ledger_rel fc sc s' (alter (λ f, with_access (u64 (access_count f + 1)) f) p m).
Proof.
  intros Hr. rewrite update_access_eq by apply Hr. eexists. split; [done|].
  rewrite (rel_map _ _ _ _ Hr). destruct (m !! p) as [f|] eqn:Hp.
  - rewrite <- (insert_id m p f) at 2 by done. rewrite alter_insert_eq.
    apply refines_keep with f; simpl; auto with word.
  - rewrite alter_id' by done. done.
Qed.

Lemma refines_set_open fc sc s m p b f :
  ledger_rel fc sc s m → m !! p = Some f →
  ∃ s', cache_policy_set_open_state p b s = Ok (tt, s') ∧
        ledger_rel fc sc s' (<[p := with_open b f]> m).
Proof.
  intros Hr Hp. rewrite set_open_state_eq by apply Hr. rewrite (rel_map _ _ _ _ Hr), Hp.
  eexists. split; [done|]. apply refines_keep with f; simpl; try done.
  eapply meta_ok_access; [apply Hr|done].
Qed.

Lemma refines_remove fc sc s m p f :
  ledger_rel fc sc s m → fc + sc < 2 ^ 64 → m !! p = Some f →
  ∃ s', cache_policy_remove_file p s = Ok (tt, s') ∧ ledger_rel fc sc s' (delete p m).
Proof.
  intros [Hu <- Hm <- <- Ef Ed Lf Ld] Hcap Hp. rewrite remove_file_eq, Hp by done.
  eexists. split; [done|].
  pose proof (size_le_tier_bytes _ _ _ Hm Hp) as Hle.
  pose proof (proj1 (proj2 (Hm p f Hp))) as Hsz.
  pose proof (tier_bytes_nonneg CACHE_TIER_FSDAX _ Hm). pose proof (tier_bytes_nonneg CACHE_TIER_SSD _ Hm).
  destruct (meta_ok_tier _ _ _ Hm Hp) as [Ht|Ht]; rewrite Ht in *;
    split; simpl; auto with policy; rewrite !(tier_bytes_delete _ _ _ f) by done;
    unfold on_tier; rewrite Ht; simpl; rewrite ?u64_small by word; word.
Qed.

Lemma refines_update_tier fc sc s m p t f :
  ledger_rel fc sc s m → fc + sc < 2 ^ 64 → m !! p = Some f →
  match move fc sc m p f t with
  | Ok m' => ∃ s', cache_policy_update_tier p t s = Ok (tt, s') ∧ ledger_rel fc sc s' m'
  | Fault e => cache_policy_update_tier p t s = Fault e
  end.
Proof.
  intros Hr Hcap Hp. pose proof Hr as [Hu <- Hm <- <- Ef Ed Lf Ld].
  rewrite update_tier_eq, Hp by done. unfold move.
  pose proof (size_le_tier_bytes _ _ _ Hm Hp) as Hle.
  pose proof (proj1 (proj2 (Hm p f Hp))) as Hsz.
  pose proof (tier_bytes_nonneg CACHE_TIER_FSDAX _ Hm). pose proof (tier_bytes_nonneg CACHE_TIER_SSD _ Hm).
  destruct (current_tier f) eqn:Ht, t; try (by eexists; split; [done|]);
    rewrite ?Ef, ?Ed, u64_sum_leb by word; case_bool_decide; case_decide; try done;
    try (by eexists; split; [done|]);
    (eexists; split; [done|]; split; simpl; try done;
      [apply (meta_ok_keep _ p f); simpl; eauto with policy
      |rewrite !(tier_bytes_retier _ _ f) by congruence; rewrite ?Ht; simpl;
       rewrite ?u64_small by word; word..]).
Qed.

Lemma refines_op fc sc s m o :
  fc + sc < 2 ^ 64 → ledger_rel fc sc s m → op_fits fc sc o →
  match step fc sc o m with
  | Ok (r, m') => ∃ s', run_op o s = Ok (r, s') ∧ ledger_rel fc sc s' m'
  | Fault e => run_op o s = Fault e
  end.
Proof.
  intros Hcap Hr Hfit. pose proof (rel_map _ _ _ _ Hr) as Hmap.
  pose proof (rel_unlocked _ _ _ _ Hr) as Hu. destruct o; simpl; unfold mbind, M_bind.
  - destruct (refines_add _ _ _ _ _ _ Hr Hfit) as (s' & -> & ?). eauto.
  - destruct (refines_update_access _ _ _ _ p Hr) as (s' & -> & ?). eauto.
  - destruct (m !! p) as [f|] eqn:Hp.
    + pose proof (refines_update_tier _ _ _ _ _ t _ Hr Hcap Hp) as Hmove.
      destruct (move fc sc m p f t); [|by rewrite Hmove].
      destruct Hmove as (s' & -> & ?). eauto.
    + rewrite update_tier_eq, Hmap, Hp by done. eauto.
  - destruct (m !! p) as [f|] eqn:Hp.
    + destruct (refines_set_open _ _ _ _ _ b _ Hr Hp) as (s' & -> & ?). eauto.
    + by rewrite set_open_state_eq, Hmap, Hp.
  - rewrite get_tier_eq, Hmap by done. eauto.
  - rewrite select_victim_run, Hmap by done. eauto.
  - destruct (m !! p) as [f|] eqn:Hp.
    + destruct (refines_remove _ _ _ _ _ _ Hr Hcap Hp) as (s' & -> & ?). eauto.
    + by rewrite remove_file_eq, Hmap, Hp.
  - rewrite evict_eq by done. destruct Hr as [? <- ? <- <- Ef Ed Lf Ld].
    destruct (Z.leb_spec (g_fsdax_used_bytes s) (g_fsdax_capacity_bytes s)); [|lia].
    eexists. split; [done|]. by split.
  - rewrite get_usage_eq by done. destruct Hr as [? <- ? <- <- Ef Ed Lf Ld].
    eexists. simpl. rewrite <- Ef, <- Ed. split; [done|]. by split.
Qed.
End Refinement.

(** A process that has configured its capacities and tracks nothing yet. *)
Definition configured (fc sc : Z) : policy := Policy ∅ fc sc "" "" 0 0 false.

Lemma configured_rel fc sc : 0 ≤ fc → 0 ≤ sc → ledger_rel fc sc (configured fc sc) ∅.
Proof. intros. by split. Qed.
Lemma configured_inv fc sc : policy_inv (configured fc sc).
Proof. by split. Qed.

Lemma refines_ops fc sc os s m :
  fc + sc < 2 ^ 64 → ledger_rel fc sc s m → Forall (op_fits fc sc) os →
  match steps fc sc os m with
  | Ok (rs, m') => ∃ s', run_ops os s = Ok (rs, s') ∧ ledger_rel fc sc s' m'
  | Fault e => run_ops os s = Fault e
  end.
Proof.
  intros Hcap. revert s m. induction os as [|o os IH]; intros s m Hr Hos; simpl; [by eauto|].
  apply Forall_cons in Hos as [Ho Hos]. unfold mbind, M_bind.
  pose proof (refines_op _ _ _ _ _ Hcap Hr Ho) as Hop.
  destruct (step fc sc o m) as [[r m']|e]; [|by rewrite Hop].
  destruct Hop as (s1 & -> & Hr1). pose proof (IH s1 m' Hr1 Hos) as Hrest.
  destruct (steps fc sc os m') as [[rs m'']|e]; [|by rewrite Hrest].
  destruct Hrest as (s2 & -> & Hr2). eauto.
Qed.

(** ** Properties *)

(** C6: after [configured] capacities whose sum does not wrap, every sequence
    of calls of the cache policy behaves as the ledger: same replies, same
    fatal exits, the metadata map is the ledger's map, and both byte counters
    are the exact totals of the tiers and within capacity. *)
Theorem policy_refines_ledger fc sc os :
  0 ≤ fc → 0 ≤ sc → fc + sc < 2 ^ 64 → Forall (op_fits fc sc) os →
  match steps fc sc os ∅ with
  | Ok (rs, m) => ∃ s, run_ops os (configured fc sc) = Ok (rs, s) ∧ ledger_rel fc sc s m
  | Fault e => run_ops os (configured fc sc) = Fault e
  end.
Proof. intros. apply refines_ops; [done| |done]. by apply configured_rel. Qed.

Definition demo_ops : list op :=
  [AddFile "/d/a" 60; AddFile "/d/b" 50; AddFile "/d/c" 100; SetOpenState "/d/a" false;
   UpdateAccess "/d/a"; SelectVictim; UpdateTier "/d/a" CACHE_TIER_SSD; GetTier "/d/a"; GetUsage].

Lemma policy_refines_ledger_witness :
  match steps 100 120 demo_ops ∅ with
  | Ok (rs, m) => ∃ s, run_ops demo_ops (configured 100 120) = Ok (rs, s) ∧ ledger_rel 100 120 s m
  | Fault e => run_ops demo_ops (configured 100 120) = Fault e
  end.
Proof.
  apply (policy_refines_ledger 100 120 demo_ops); [lia..|].
  repeat (apply Forall_cons; split; [simpl; lia|]). by apply Forall_nil.
Defined.

(** C7: whatever the sizes, also when the 64-bit sums wrap, every reachable
    state files each entry under its own path on one of the two local tiers,
    leaves the mutex free, and keeps each counter equal to the tier's byte
    total modulo [2^64]. *)
Theorem policy_accounting fc sc os rs s :
  Forall op_typed os → run_ops os (configured fc sc) = Ok (rs, s) → policy_inv s.
Proof. intros. eapply policy_inv_run_ops; [apply configured_inv|done..]. Qed.

Definition wrap_ops : list op := [AddFile "/d/a" 10; AddFile "/d/b" (2 ^ 64 - 5)].

Lemma policy_accounting_witness :
  ∃ rs s, run_ops wrap_ops (configured 100 100) = Ok (rs, s) ∧ policy_inv s.
Proof.
  eexists _, _. split; [vm_compute; reflexivity|].
  eapply (policy_accounting 100 100 wrap_ops); [|vm_compute; reflexivity].
  repeat (apply Forall_cons; split; [split; vm_compute; congruence|]). by apply Forall_nil.
Defined.

(** C25: with sums that do not wrap the tiers are never overcommitted, so
    [cache_policy_evict_if_needed] finds nothing to do in any reachable state. *)
Theorem policy_never_overcommits fc sc os rs s :
  0 ≤ fc → 0 ≤ sc → fc + sc < 2 ^ 64 → Forall (op_fits fc sc) os →
  run_ops os (configured fc sc) = Ok (rs, s) →
  g_fsdax_used_bytes s ≤ fc ∧ g_ssd_used_bytes s ≤ sc ∧
  cache_policy_evict_if_needed s = Ok (0, s).
Proof.
  intros Hf Hd Hcap Hos Hrun.
  pose proof (refines_ops fc sc os _ _ Hcap (configured_rel _ _ Hf Hd) Hos) as Href.
  destruct (steps fc sc os ∅) as [[rs' m]|e]; [|congruence].
  destruct Href as (s' & Hrun' & [Hu <- Hm <- <- Ef Ed Lf Ld]).
  rewrite Hrun in Hrun'. injection Hrun' as <- <-. rewrite evict_eq by done.
  rewrite Ef, Ed. split; [done|]. split; [done|].
  by destruct (Z.leb_spec (tier_bytes CACHE_TIER_FSDAX (g_fileMetaMap s)) (g_fsdax_capacity_bytes s)); [|lia].
Qed.

Lemma policy_never_overcommits_witness :
  ∃ rs s, run_ops demo_ops (configured 100 300) = Ok (rs, s) ∧
    g_fsdax_used_bytes s ≤ 100 ∧ g_ssd_used_bytes s ≤ 300 ∧
    cache_policy_evict_if_needed s = Ok (0, s).
Proof.
  eexists _, _. split; [vm_compute; reflexivity|].
  eapply (policy_never_overcommits 100 300 demo_ops); [lia..| |vm_compute; reflexivity].
  repeat (apply Forall_cons; split; [simpl; lia|]). by apply Forall_nil.
Defined.

(** When eviction is needed, [cache_policy_evict_if_needed] holds the
    mutex and calls [cache_policy_select_victim_for_eviction], which takes the
    same mutex again: the call never returns. *)
Theorem evict_over_capacity_blocks s :
  g_cacheMutex s = false → g_fsdax_capacity_bytes s < g_fsdax_used_bytes s →
  cache_policy_evict_if_needed s = Fault FBlocked.
Proof.
  intros Hu Hlt. rewrite evict_eq by done.
  by destruct (Z.leb_spec (g_fsdax_used_bytes s) (g_fsdax_capacity_bytes s)); [lia|].
Qed.

Lemma evict_over_capacity_blocks_witness :
  cache_policy_evict_if_needed (Policy ∅ 10 10 "" "" 11 0 false) = Fault FBlocked.
Proof. apply (evict_over_capacity_blocks (Policy ∅ 10 10 "" "" 11 0 false)); simpl; [done|lia]. Defined.

(** The calls that overcommit the persistent memory: two files whose sizes add
    up to [2^64], and the first one removed. *)
Definition overcommit (p q : string) (n : Z) : list op :=
  [AddFile p n; AddFile q (2 ^ 64 - n); RemoveFile p].

Lemma overcommit_eq fc sc p q n :
  p ≠ q → 1 ≤ n ≤ fc → fc + n < 2 ^ 64 →
  run_ops (overcommit p q n) (configured fc sc) =
  Ok ([RUnit; RUnit; RUnit],
      Policy {[q := FileMeta q CACHE_TIER_FSDAX (2 ^ 64 - n) 0 true]} fc sc "" "" (2 ^ 64 - n) 0 false).
Proof.
  intros Hpq Hn Hfc. unfold overcommit, configured. cbn [run_ops run_op]. unfold mbind, M_bind.
  rewrite add_file_eq by done. simpl. rewrite lookup_empty.
  replace (u64 (0 + n)) with n by word. rewrite (proj2 (Z.leb_le n fc)) by lia.
  rewrite add_file_eq by done. simpl. rewrite lookup_insert_ne, lookup_empty by done.
  replace (u64 (n + (2 ^ 64 - n))) with 0 by word. rewrite (proj2 (Z.leb_le 0 fc)) by lia.
  rewrite remove_file_eq by done. simpl. rewrite lookup_insert_ne, lookup_insert_eq by done. simpl.
  replace (u64 (0 - n)) with (2 ^ 64 - n) by word. unfold mret, M_ret. do 3 f_equal.
  rewrite delete_insert_ne, delete_insert_eq by done. by rewrite delete_empty.
Qed.

(** C26: [cache_policy_evict_if_needed] never evicts.  In every state that calls
    of the interface reach it changes nothing, or, when the counter is above the
    capacity, waits for the mutex it holds.  The second case can be reached
    under every configuration that leaves room for the counter to wrap: for any
    two names and any size [n] that fits, a file of size [2^64-n] passes the
    admission test behind one of size [n], and removing the latter wraps the
    counter above the capacity. *)
Theorem evict_never_evicts fc sc :
  (∀ os rs s, Forall op_typed os → run_ops os (configured fc sc) = Ok (rs, s) →
     cache_policy_evict_if_needed s =
     if g_fsdax_used_bytes s <=? g_fsdax_capacity_bytes s then Ok (0, s) else Fault FBlocked) ∧
  (∀ p q n, p ≠ q → 1 ≤ n ≤ fc → fc + n < 2 ^ 64 →
     Forall op_typed (overcommit p q n) ∧
     ∃ rs s, run_ops (overcommit p q n) (configured fc sc) = Ok (rs, s) ∧
       cache_policy_evict_if_needed s = Fault FBlocked).
Proof.
  split.
  - intros os rs s Hos Hrun. apply evict_eq.
    apply (policy_inv_run_ops os (configured fc sc) rs); [apply configured_inv|done..].
  - intros p q n Hpq Hn Hfc. split.
    { repeat (apply Forall_cons; split; [simpl; try done; word|]). by apply Forall_nil. }
    eexists _, _. split; [by apply overcommit_eq|]. rewrite evict_eq by done. simpl.
    by rewrite (proj2 (Z.leb_gt _ _)) by lia.
Qed.

Lemma evict_never_evicts_witness :
  ∃ rs s, run_ops (overcommit "/d/a" "/d/b" 10) (configured 100 100) = Ok (rs, s) ∧
    cache_policy_evict_if_needed s = Fault FBlocked.
Proof. apply (proj2 (evict_never_evicts 100 100) "/d/a" "/d/b" 10); [done|lia|lia]. Defined.

(** C27: [cache_policy_select_victim_for_eviction] returns the empty string
    when no closed file with a name is in persistent memory; otherwise a closed
    file in persistent memory that no other such file has fewer accesses than,
    the first by name among equals.  It changes nothing. *)
Theorem select_victim_least_accessed s :
  g_cacheMutex s = false →
  ∃ v, cache_policy_select_victim_for_eviction s = Ok (v, s) ∧
    ((v = "" ∧ ∀ k f, g_fileMetaMap s !! k = Some f → k ≠ "" →
        current_tier f = CACHE_TIER_FSDAX → is_open f = true) ∨
     (∃ w, g_fileMetaMap s !! v = Some w ∧ v ≠ "" ∧
        current_tier w = CACHE_TIER_FSDAX ∧ is_open w = false ∧
        ∀ k f, g_fileMetaMap s !! k = Some f → k ≠ "" →
          current_tier f = CACHE_TIER_FSDAX → is_open f = false →
          access_count w < access_count f ∨
          (access_count w = access_count f ∧ String.le v k))).
Proof.
  intros Hu. exists (victim (g_fileMetaMap s)). split; [by apply select_victim_run|].
  destruct (victim_spec (g_fileMetaMap s)) as [[-> Hno]|(w & Hw & [Hv Hc] & Hmin)].
  - left. split; [done|]. intros k f Hk Hne Ht. destruct (is_open f) eqn:Ho; [done|].
    destruct (Hno k f Hk). split; [done|]. unfold is_candidate; simpl. by rewrite Ht, Ho.
  - right. exists w. split; [done|]. split; [done|].
    unfold is_candidate in Hc; simpl in Hc. apply andb_true_iff in Hc as [Ht Ho].
    apply bool_decide_eq_true in Ht. apply negb_true_iff in Ho. split; [done|]. split; [done|].
    intros k f Hk Hne Htf Hof. apply (Hmin k f Hk). split; [done|].
    unfold is_candidate; simpl. by rewrite Htf, Hof.
Qed.

Lemma select_victim_least_accessed_witness :
  let s := Policy {["/b" := FileMeta "/b" CACHE_TIER_FSDAX 1 3 false;
                    "/a" := FileMeta "/a" CACHE_TIER_FSDAX 1 3 false]} 9 9 "" "" 2 0 false in
  ∃ v, cache_policy_select_victim_for_eviction s = Ok (v, s).
Proof.
  intros s. destruct (select_victim_least_accessed s) as (v & Hv & _); [done|].
  by exists v.
Defined.

(** A tier change only ever moves one file's bytes between the two
    counters: their sum modulo [2^64] is unchanged, every other entry is
    unchanged, and the entry moved keeps everything but its tier. *)
Theorem update_tier_conserves s s' p t :
  policy_inv s → cache_policy_update_tier p t s = Ok (tt, s') →
  u64 (g_fsdax_used_bytes s' + g_ssd_used_bytes s') =
    u64 (g_fsdax_used_bytes s + g_ssd_used_bytes s) ∧
  ∀ q, g_fileMetaMap s' !! q = g_fileMetaMap s !! q ∨
       (q = p ∧ g_fileMetaMap s' !! q = with_tier t <$> g_fileMetaMap s !! q).
Proof.
  intros Hs. rewrite update_tier_eq by apply Hs.
  destruct (g_fileMetaMap s !! p) as [f|] eqn:Hp; [|intros [= <-]; by auto].
  assert (∀ q, (<[p := with_tier t f]> (g_fileMetaMap s)) !! q = g_fileMetaMap s !! q ∨
     (q = p ∧ (<[p := with_tier t f]> (g_fileMetaMap s)) !! q =
        with_tier t <$> g_fileMetaMap s !! q)) as Hmap.
  { intros q. destruct (decide (q = p)) as [->|Hne].
    - right. rewrite lookup_insert_eq, Hp. done.
    - left. by rewrite lookup_insert_ne. }
  destruct (current_tier f), t; try (intros [= <-]; by auto);
    case_match; intros [= <-]; try (by auto); simpl;
    (split; [word|exact Hmap]).
Qed.

Definition demo_policy : policy :=
  Policy {["/a" := FileMeta "/a" CACHE_TIER_FSDAX 7 2 false]} 10 10 "/pm" "/ssd" 7 0 false.

Lemma demo_policy_inv : policy_inv demo_policy.
Proof.
  split; [done| |vm_compute; reflexivity..].
  apply map_Forall_insert_2; [|apply map_Forall_empty].
  unfold meta_ok, is_u64; simpl; split_and!; try lia; auto.
Qed.

Lemma update_tier_conserves_witness :
  ∃ s', cache_policy_update_tier "/a" CACHE_TIER_SSD demo_policy = Ok (tt, s') ∧
    u64 (g_fsdax_used_bytes s' + g_ssd_used_bytes s') = u64 (7 + 0).
Proof.
  eexists. split; [vm_compute; reflexivity|].
  apply (update_tier_conserves demo_policy _ "/a" CACHE_TIER_SSD demo_policy_inv).
  vm_compute; reflexivity.
Defined.

(** Registering a new file that fits on a tier and removing it gives back
    exactly the state before, counters included, even when a sum wraps. *)
Theorem add_remove_roundtrip s p n :
  policy_inv s → g_fileMetaMap s !! p = None →
  (u64 (g_fsdax_used_bytes s + n) ≤ g_fsdax_capacity_bytes s ∨
   u64 (g_ssd_used_bytes s + n) ≤ g_ssd_capacity_bytes s) →
  (cache_policy_add_file p n;; cache_policy_remove_file p) s = Ok (tt, s).
Proof.
  intros [Hu _ Hf Hd] Hp Hfit. unfold mbind, M_bind. rewrite add_file_eq, Hp by done.
  assert (is_u64 (g_fsdax_used_bytes s)) by (rewrite Hf; apply u64_range).
  assert (is_u64 (g_ssd_used_bytes s)) by (rewrite Hd; apply u64_range).
  destruct s as [m fc sc fp sp fu su mu]; simpl in *; subst mu.
  destruct (Z.leb_spec (u64 (fu + n)) fc); [|destruct (Z.leb_spec (u64 (su + n)) sc); [|lia]];
    rewrite remove_file_eq by done; simpl; rewrite lookup_insert_eq; simpl;
    rewrite delete_insert_id by done; repeat f_equal; word.
Qed.

Lemma add_remove_roundtrip_witness :
  (cache_policy_add_file "/b" 9;; cache_policy_remove_file "/b") demo_policy = Ok (tt, demo_policy).
Proof.
  apply (add_remove_roundtrip demo_policy "/b" 9 demo_policy_inv); [vm_compute; reflexivity|].
  right. vm_compute. congruence.
Defined.

(** A file for which neither tier has room is silently not registered, and
    the next [cache_policy_set_open_state] or [cache_policy_remove_file] for it
    ends the process with status -1. *)
Theorem no_room_then_fatal s p n b :
  g_cacheMutex s = false → g_fileMetaMap s !! p = None →
  g_fsdax_capacity_bytes s < u64 (g_fsdax_used_bytes s + n) →
  g_ssd_capacity_bytes s < u64 (g_ssd_used_bytes s + n) →
  cache_policy_add_file p n s = Ok (tt, s) ∧
  cache_policy_set_open_state p b s = Fault (FExit (-1)) ∧
  cache_policy_remove_file p s = Fault (FExit (-1)).
Proof.
  intros Hu Hp Hf Hd.
  rewrite add_file_eq, set_open_state_eq, remove_file_eq, Hp by done.
  destruct (Z.leb_spec (u64 (g_fsdax_used_bytes s + n)) (g_fsdax_capacity_bytes s)); [lia|].
  by destruct (Z.leb_spec (u64 (g_ssd_used_bytes s + n)) (g_ssd_capacity_bytes s)); [lia|].
Qed.

Lemma no_room_then_fatal_witness :
  cache_policy_add_file "/b" 100 demo_policy = Ok (tt, demo_policy) ∧
  cache_policy_set_open_state "/b" false demo_policy = Fault (FExit (-1)) ∧
  cache_policy_remove_file "/b" demo_policy = Fault (FExit (-1)).
Proof. apply (no_room_then_fatal demo_policy "/b" 100 false); vm_compute; reflexivity. Defined.

(** With all five variables set to decimal 64-bit capacities,
    [cache_policy_init] returns 0 and stores them. *)
Theorem init_configures e fp sp pm fc sc s :
  getenv e "HVAC_FSDAX_PATH" = Some fp → getenv e "HVAC_SSD_PATH" = Some sp →
  getenv e "HVAC_PM_CAPACITY" = Some pm →
  getenv e "HVAC_FSDAX_CAPACITY" = Some (decimal fc) →
  getenv e "HVAC_SSD_CAPACITY" = Some (decimal sc) →
  is_u64 fc → is_u64 sc →
  cache_policy_init e s = Ok (0, set_config fp sp fc sc s).
Proof.
  intros H1 H2 H3 H4 H5 Hf Hs.
  unfold cache_policy_init, unset, string_of_env, stoull_of_env.
  run_monad. rewrite H1, H2, H3, H5; simpl. rewrite H4, !stoull_decimal by done. done.
Qed.

Definition demo_env : environ :=
  {["HVAC_FSDAX_PATH" := "/pm"; "HVAC_SSD_PATH" := "/ssd"; "HVAC_PM_CAPACITY" := "64";
    "HVAC_FSDAX_CAPACITY" := "64"; "HVAC_SSD_CAPACITY" := "128"]}.

Lemma init_configures_witness :
  cache_policy_init demo_env policy_globals = Ok (0, set_config "/pm" "/ssd" 64 128 policy_globals).
Proof.
  apply (init_configures demo_env "/pm" "/ssd" "64" 64 128);
    first [vm_compute; reflexivity | split; vm_compute; congruence].
Defined.

(** The guard of [cache_policy_init] tests [HVAC_PM_CAPACITY] while the
    body reads [HVAC_FSDAX_CAPACITY]: an environment that passes the guard but
    lacks the latter ends in an uncaught [std::logic_error]. *)
Theorem init_guard_misses_capacity e fp sp pm sc s :
  getenv e "HVAC_FSDAX_PATH" = Some fp → getenv e "HVAC_SSD_PATH" = Some sp →
  getenv e "HVAC_PM_CAPACITY" = Some pm → getenv e "HVAC_SSD_CAPACITY" = Some sc →
  getenv e "HVAC_FSDAX_CAPACITY" = None →
  cache_policy_init e s = Fault (FThrow "logic_error").
Proof.
  intros H1 H2 H3 H4 H5. unfold cache_policy_init, unset, string_of_env, stoull_of_env.
  run_monad. rewrite H1, H2, H3, H4; simpl. by rewrite H5.
Qed.

Lemma init_guard_misses_capacity_witness :
  cache_policy_init (delete "HVAC_FSDAX_CAPACITY" demo_env) policy_globals =
  Fault (FThrow "logic_error").
Proof.
  apply (init_guard_misses_capacity _ "/pm" "/ssd" "64" "128"); vm_compute; reflexivity.
Defined.
