(* ===== verification/Posix.v ===== *)
(** * The operating system the program runs on

    The system and library calls whose code is outside the repository, as an
    interface: a class of operations over a process's world, and a class of
    laws that state their documented behaviour through two observations, the
    contents found under a name and the open file behind a descriptor.
    [RefPosix] is a concrete world that satisfies the laws. *)
From S2P Require Import Prelude CLib.

Definition bytes : Type := list Byte.byte.
Definition blen (b : bytes) : Z := Z.of_nat (length b).

(** The part of [b] that a transfer of [n] bytes from offset [off] covers. *)
Definition slice (b : bytes) (off n : Z) : bytes := take (Z.to_nat n) (drop (Z.to_nat off) b).

(** A name a directory entry can have, other than the entries every directory
    has. *)
Definition plain_name (s : string) : bool :=
  negb (String.eqb s "" || String.eqb s "." || String.eqb s ".." || contains "/" s).

(** Linux values of the flags the sources test. *)
Definition O_RDONLY : Z := 0.
Definition O_WRONLY : Z := 1.
Definition O_ACCMODE : Z := 3.
Definition O_CREAT : Z := 64.
Definition O_TRUNC : Z := 512.
Definition O_APPEND : Z := 1024.
Definition SEEK_SET : Z := 0.
Definition SEEK_CUR : Z := 1.
Definition SEEK_END : Z := 2.

(** ** Operations *)

Class Posix (W : Type) := {
  (** [open(path, flags, mode)]: a descriptor or -1. *)
  sys_open : string → Z → Z → W → Z * W;
  (** [read] and [pread]: the returned value and the bytes stored. *)
  sys_read : Z → Z → W → Z * bytes * W;
  sys_pread : Z → Z → Z → W → Z * bytes * W;
  sys_lseek : Z → Z → Z → W → Z * W;
  sys_close : Z → W → Z * W;
  (** [calloc(1, n)] returns a block. *)
  sys_calloc : Z → W → bool;
  (** [pthread_create] starts a thread. *)
  sys_thread : W → bool;
  (** [mkdtemp(t)]: the buffer afterwards, and whether it returned non-NULL. *)
  sys_mkdtemp : string → W → string * bool * W;
  (** [std::filesystem::copy(from, to)]: [false] when it throws. *)
  sys_copy : string → string → W → bool * W;
  (** [std::filesystem::canonical]: [None] when it throws. *)
  sys_canonical : string → W → option string;
  sys_current_path : W → string;
  (** Observations: the contents of the regular file found under a name, whether
      a directory is found there, and the name and offset behind an open
      descriptor, which may be that of a directory or a device. *)
  file_at : W → string → option bytes;
  dir_at : W → string → bool;
  fd_at : W → Z → option (string * Z)
}.

(** ** Documented behaviour *)

(** What a read of [n] bytes at [off] of a file with contents [c] may return:
    a prefix of what is there, empty only at the end of the file. *)
Definition read_result (c : bytes) (off n r : Z) (data : bytes) : Prop :=
  0 ≤ r ≤ n ∧ data = slice c off r ∧ blen data = r ∧ (r = 0 → n = 0 ∨ blen c ≤ off).

Definition same_files {W} `{Posix W} (w w' : W) : Prop := ∀ p, file_at w' p = file_at w p.
Definition same_fds {W} `{Posix W} (w w' : W) : Prop := ∀ fd, fd_at w' fd = fd_at w fd.
(** Names resolve as before, and the directories are the same. *)
Definition same_names {W} `{Posix W} (w w' : W) : Prop :=
  (∀ q, sys_canonical q w' = sys_canonical q w) ∧ sys_current_path w' = sys_current_path w ∧
  ∀ q, dir_at w' q = dir_at w q.
(** No file and no directory that exists is changed or removed. *)
Definition keeps_files {W} `{Posix W} (w w' : W) : Prop :=
  ∀ p c, file_at w p = Some c → file_at w' p = Some c.
Definition keeps_dirs {W} `{Posix W} (w w' : W) : Prop :=
  ∀ p, dir_at w p = true → dir_at w' p = true.

(** Flags that neither create nor truncate nor write. *)
Definition read_only (flags : Z) : bool :=
  (Z.land flags O_ACCMODE =? O_RDONLY) && (Z.land flags O_CREAT =? 0)
  && (Z.land flags O_TRUNC =? 0).

Definition seek_base (c : bytes) (off whence : Z) : option Z :=
  if whence =? SEEK_SET then Some 0
  else if whence =? SEEK_CUR then Some off
  else if whence =? SEEK_END then Some (blen c)
  else None.

(** Every other descriptor is as it was. *)
Definition same_other_fds {W} `{Posix W} (fd : Z) (w w' : W) : Prop :=
  ∀ fd', fd' ≠ fd → fd_at w' fd' = fd_at w fd'.

Class PosixLaws (W : Type) `{Posix W} : Prop := {
  (** A name ends in an entry of a directory when a regular file is found under
      it, and then no directory is. *)
  file_name_law : ∀ w p c,
    file_at w p = Some c → plain_name (filename p) = true ∧ dir_at w p = false;
  (** A new descriptor is an [int] that was not in use; what it stands for is
      anything that can be opened for reading. *)
  open_law : ∀ p flags mode w fd w',
    read_only flags = true → sys_open p flags mode w = (fd, w') →
    same_files w w' ∧
    ((fd = -1 ∧ same_fds w w') ∨
     (0 ≤ fd < 2 ^ 31 ∧ fd_at w fd = None ∧ fd_at w' fd = Some (p, 0) ∧ same_other_fds fd w w'));
  (** It renames nothing and does not change the working directory. *)
  open_names_law : ∀ p flags mode w fd w',
    read_only flags = true → sys_open p flags mode w = (fd, w') → same_names w w';
  (** Nor do operations on descriptors. *)
  read_names_law : ∀ fd n w, same_names w (sys_read fd n w).2;
  pread_names_law : ∀ fd n off w, same_names w (sys_pread fd n off w).2;
  lseek_names_law : ∀ fd off whence w, same_names w (sys_lseek fd off whence w).2;
  close_names_law : ∀ fd w, same_names w (sys_close fd w).2;
  (** A read may fail; of a regular file it delivers what is there. *)
  read_law : ∀ fd n w r d w',
    0 ≤ n → sys_read fd n w = (r, d, w') →
    same_files w w' ∧ same_other_fds fd w w' ∧
    ∀ p off c, fd_at w fd = Some (p, off) → file_at w p = Some c →
      (r = -1 ∧ fd_at w' fd = fd_at w fd) ∨
      (read_result c off n r d ∧ fd_at w' fd = Some (p, off + r));
  pread_law : ∀ fd n off w r d w',
    0 ≤ n → sys_pread fd n off w = (r, d, w') →
    same_files w w' ∧ same_fds w w' ∧
    ∀ p pos c, fd_at w fd = Some (p, pos) → file_at w p = Some c →
      r = -1 ∨ (0 ≤ off ∧ read_result c off n r d);
  lseek_law : ∀ fd off whence w r w',
    sys_lseek fd off whence w = (r, w') →
    same_files w w' ∧ same_other_fds fd w w' ∧
    ∀ p pos c b, fd_at w fd = Some (p, pos) → file_at w p = Some c →
      seek_base c pos whence = Some b →
      (r = -1 ∧ fd_at w' fd = fd_at w fd) ∨
      (r = b + off ∧ 0 ≤ r ∧ fd_at w' fd = Some (p, r));
  close_law : ∀ fd w r w',
    sys_close fd w = (r, w') →
    same_files w w' ∧ same_other_fds fd w w' ∧
    (r = 0 → is_Some (fd_at w fd) ∧ fd_at w' fd = None);
  (** What is not open can neither be read nor closed. *)
  read_bad_law : ∀ fd n w, fd_at w fd = None → (sys_read fd n w).1.1 = -1;
  close_bad_law : ∀ fd w, fd_at w fd = None → (sys_close fd w).1 = -1;
  (** No object is larger than [PTRDIFF_MAX]. *)
  calloc_law : ∀ n w, 2 ^ 63 ≤ n → sys_calloc n w = false;
  (** On success there is a new directory with nothing in it. *)
  mkdtemp_law : ∀ t w d ok w',
    sys_mkdtemp t w = (d, ok, w') →
    same_files w w' ∧ keeps_dirs w w' ∧ same_fds w w' ∧
    (ok = true → ∀ name, plain_name name = true →
       dir_at w' (d +:+ "/" +:+ name) = false ∧ file_at w' (d +:+ "/" +:+ name) = None);
  (** Without options [copy] overwrites nothing.  A regular file is copied to
      the new name, or into the directory of that name; a directory becomes a
      directory of the new name, with its files; nothing else is copied. *)
  copy_law : ∀ src dst w ok w',
    sys_copy src dst w = (ok, w') →
    keeps_files w w' ∧ keeps_dirs w w' ∧ same_fds w w' ∧
    (ok = true →
     (∃ c, file_at w src = Some c ∧ (dir_at w dst = false → file_at w' dst = Some c)) ∨
     (dir_at w src = true ∧ dir_at w' dst = true));
  canonical_law : ∀ p q w, sys_canonical p w = Some q → file_at w q = file_at w p
}.

(** A descriptor below the default limit of 1024 is free. *)
Definition fd_room {W} `{Posix W} (w : W) : Prop := ∃ fd, 0 ≤ fd < 1024 ∧ fd_at w fd = None.

(** A machine whose media do not fail and whose limits are not reached. *)
Class PosixReliable (W : Type) `{Posix W} : Prop := {
  open_succeeds : ∀ p flags mode w,
    read_only flags = true → is_Some (file_at w p) → fd_room w →
    (sys_open p flags mode w).1 ≠ -1;
  read_succeeds : ∀ fd n w p off c,
    0 ≤ n → 0 ≤ off → fd_at w fd = Some (p, off) → file_at w p = Some c →
    (sys_read fd n w).1.1 ≠ -1;
  pread_succeeds : ∀ fd n off w p pos c,
    0 ≤ n → 0 ≤ off → fd_at w fd = Some (p, pos) → file_at w p = Some c →
    (sys_pread fd n off w).1.1 ≠ -1;
  lseek_succeeds : ∀ fd off whence w p pos c b,
    fd_at w fd = Some (p, pos) → file_at w p = Some c → seek_base c pos whence = Some b →
    0 ≤ b + off < 2 ^ 63 → (sys_lseek fd off whence w).1 ≠ -1;
  close_succeeds : ∀ fd w, is_Some (fd_at w fd) → (sys_close fd w).1 = 0;
  calloc_succeeds : ∀ n w, 0 ≤ n < 2 ^ 31 → sys_calloc n w = true;
  thread_succeeds : ∀ w, sys_thread w = true
}.

(** ** A concrete world *)

Module RefPosix.

Record world := World {
  files : gmap string bytes;
  dirs : gset string;
  cwd : string;
  fds : gmap Z (string * Z);
  made : Z
}.

Definition put_fd (fd : Z) (o : string * Z) (w : world) : world :=
  World (files w) (dirs w) (cwd w) (<[fd := o]> (fds w)) (made w).
Definition drop_fd (fd : Z) (w : world) : world :=
  World (files w) (dirs w) (cwd w) (delete fd (fds w)) (made w).
Definition put_file (p : string) (c : bytes) (w : world) : world :=
  World (<[p := c]> (files w)) (dirs w) (cwd w) (fds w) (made w).
Definition put_dir (d : string) (w : world) : world :=
  World (files w) ({[d]} ∪ dirs w) (cwd w) (fds w) (made w).
Definition next_dir (w : world) : world :=
  World (files w) (dirs w) (cwd w) (fds w) (made w + 1).

(** The regular file and the directory found under a name. *)
Definition contents (w : world) (p : string) : option bytes :=
  if plain_name (filename p) then files w !! p else None.
Definition is_dir (w : world) (p : string) : bool :=
  bool_decide (p ∈ dirs w) && bool_decide (contents w p = None).

(** The lowest descriptor that is not open. *)
Definition free_fd (w : world) : option Z :=
  head (filter (λ fd, fds w !! fd = None) (seqZ 0 1024)).

Definition open (p : string) (flags mode : Z) (w : world) : Z * world :=
  if (bool_decide (is_Some (contents w p)) || is_dir w p) && read_only flags then
    match free_fd w with Some fd => (fd, put_fd fd (p, 0) w) | None => (-1, w) end
  else (-1, w).

Definition behind (fd : Z) (w : world) : option (string * Z * bytes) :=
  match fds w !! fd with
  | Some (p, off) => match contents w p with Some c => Some (p, off, c) | None => None end
  | None => None
  end.

Definition available (c : bytes) (off n : Z) : Z := Z.max 0 (Z.min n (blen c - off)).

Definition read (fd n : Z) (w : world) : Z * bytes * world :=
  match behind fd w with
  | Some (p, off, c) =>
      if decide (0 ≤ off) then
        let r := available c off n in (r, slice c off r, put_fd fd (p, off + r) w)
      else (-1, [], w)
  | None => (-1, [], w)
  end.

Definition pread (fd n off : Z) (w : world) : Z * bytes * world :=
  match behind fd w with
  | Some (p, _, c) =>
      if decide (0 ≤ off) then let r := available c off n in (r, slice c off r, w)
      else (-1, [], w)
  | None => (-1, [], w)
  end.

Definition lseek (fd off whence : Z) (w : world) : Z * world :=
  match behind fd w with
  | Some (p, pos, c) =>
      match seek_base c pos whence with
      | Some b => if decide (0 ≤ b + off) then (b + off, put_fd fd (p, b + off) w) else (-1, w)
      | None => (-1, w)
      end
  | None => (-1, w)
  end.

Definition close (fd : Z) (w : world) : Z * world :=
  match fds w !! fd with Some _ => (0, drop_fd fd w) | None => (-1, w) end.

(** Nothing is found below a name. *)
Definition vacant (d : string) (w : world) : bool :=
  bool_decide (map_Forall (λ p _, String.prefix (d +:+ "/") p = false) (files w)) &&
  bool_decide (set_Forall (λ p, String.prefix (d +:+ "/") p = false) (dirs w)).

(** A name longer than that of any directory. *)
Definition unused (w : world) : string := foldr String.append "-" (elements (dirs w)).

(** What the buffer holds after a failure is unspecified; here, a name below
    which there is nothing. *)
Definition mkdtemp (t : string) (w : world) : string * bool * world :=
  let d := String.substring 0 (String.length t - 6) t +:+ decimal (100000 + made w) in
  if vacant d w && bool_decide (contents w d = None) then (d, true, put_dir d (next_dir w))
  else (unused w, false, next_dir w).

(** The files of a directory, under the name of another one. *)
Definition entries (src dst : string) (w : world) : gmap string bytes :=
  list_to_map (omap (λ '(p, c),
    if String.eqb (parent_path p) src then Some (dst +:+ "/" +:+ filename p, c) else None)
    (map_to_list (files w))).

(** A file under a name nothing has. *)
Definition put_new (p : string) (c : bytes) (w : world) : bool * world :=
  if negb (is_dir w p) && bool_decide (files w !! p = None) && plain_name (filename p)
  then (true, put_file p c w) else (false, w).

Definition copy (src dst : string) (w : world) : bool * world :=
  match contents w src with
  | Some c => put_new (if is_dir w dst then dst +:+ "/" +:+ filename src else dst) c w
  | None =>
      if is_dir w src && vacant dst w && bool_decide (contents w dst = None) then
        (true, put_dir dst (World (files w ∪ entries src dst w) (dirs w) (cwd w) (fds w) (made w)))
      else (false, w)
  end.

Definition canonical (p : string) (w : world) : option string :=
  if decide (is_Some (contents w p) ∨ p ∈ dirs w) then Some p else None.

#[export] Instance world_posix : Posix world := {
  sys_open := open;
  sys_read := read;
  sys_pread := pread;
  sys_lseek := lseek;
  sys_close := close;
  sys_calloc := λ n _, n <? 2 ^ 63;
  sys_thread := λ _, true;
  sys_mkdtemp := mkdtemp;
  sys_copy := copy;
  sys_canonical := canonical;
  sys_current_path := cwd;
  file_at := contents;
  dir_at := is_dir;
  fd_at := λ w fd, fds w !! fd
}.

Lemma slice_length c off n : 0 ≤ off → blen (slice c off n) = Z.max 0 (Z.min n (blen c - off)).
Proof.
  intros. unfold slice, blen. rewrite length_take, length_drop. lia.
Qed.

Lemma available_result c off n :
  0 ≤ off → 0 ≤ n → read_result c off n (available c off n) (slice c off (available c off n)).
Proof.
  intros Ho Hn. unfold read_result. rewrite slice_length by done. unfold available.
  split_and!; [lia..|done|lia|]. intros Hz. unfold blen in *. lia.
Qed.

Lemma free_fd_fresh w fd : free_fd w = Some fd → 0 ≤ fd < 1024 ∧ fds w !! fd = None.
Proof.
  unfold free_fd. destruct (filter _ _) as [|x l] eqn:E; [done|]. intros [= ->].
  assert (fd ∈ filter (λ fd, fds w !! fd = None) (seqZ 0 1024)) as Hin by (rewrite E; left).
  apply list_elem_of_filter in Hin as [? ?%elem_of_seqZ]. split; [lia|done].
Qed.

Lemma free_fd_some w fd : 0 ≤ fd < 1024 → fds w !! fd = None → is_Some (free_fd w).
Proof.
  intros Hr Hfd. unfold free_fd. destruct (filter _ _) as [|x l] eqn:E; [|by eexists].
  assert (fd ∈ filter (λ fd, fds w !! fd = None) (seqZ 0 1024)) as Hin.
  { apply list_elem_of_filter. split; [done|]. apply elem_of_seqZ. lia. }
  rewrite E in Hin. by apply not_elem_of_nil in Hin.
Qed.

Lemma behind_Some fd w p off c :
  behind fd w = Some (p, off, c) → fds w !! fd = Some (p, off) ∧ contents w p = Some c.
Proof.
  unfold behind. destruct (fds w !! fd) as [[p' off']|]; [|done].
  destruct (contents w p') eqn:E; [|done]. by intros [= -> -> ->].
Qed.

Lemma behind_eq fd w p off c :
  fds w !! fd = Some (p, off) → contents w p = Some c → behind fd w = Some (p, off, c).
Proof. unfold behind. by intros -> ->. Qed.

Lemma contents_Some w p c :
  contents w p = Some c ↔ plain_name (filename p) = true ∧ files w !! p = Some c.
Proof. unfold contents. destruct (plain_name _); split; [auto|by intros [_ ?]|done|by intros [? _]]. Qed.

(** New directories and files under names nothing has. *)
Lemma put_dir_keeps d w :
  contents w d = None → keeps_dirs w (put_dir d w) ∧ is_dir (put_dir d w) d = true.
Proof.
  intros Hd. unfold keeps_dirs, is_dir. simpl. split.
  - intros p [Hp Hc]%andb_prop. apply bool_decide_eq_true in Hp. apply andb_true_intro.
    split; [apply bool_decide_eq_true; set_solver|done].
  - apply andb_true_intro. rewrite !bool_decide_eq_true. split; [set_solver|exact Hd].
Qed.

Lemma put_file_keeps dst c w :
  files w !! dst = None → plain_name (filename dst) = true → is_dir w dst = false →
  keeps_files w (put_file dst c w) ∧ keeps_dirs w (put_file dst c w) ∧
  contents (put_file dst c w) dst = Some c.
Proof.
  intros Hd Hn Hdir. unfold keeps_files, keeps_dirs. simpl. split_and!.
  - intros p c' [Hp Hc]%contents_Some. apply contents_Some. split; [done|]. simpl.
    rewrite lookup_insert_ne; [done|]. intros ->. congruence.
  - intros p Hp. assert (p ≠ dst) by (intros ->; congruence). unfold is_dir, contents in *. simpl.
    by rewrite lookup_insert_ne.
  - apply contents_Some. split; [done|]. simpl. by rewrite lookup_insert_eq.
Qed.

Lemma below_other d name : d +:+ "/" +:+ name ≠ d.
Proof. induction d as [|c d IH]; [done|]. intros Heq. apply IH. by injection Heq. Qed.

Lemma vacant_spec d w :
  vacant d w = true → ∀ name,
    files w !! (d +:+ "/" +:+ name) = None ∧ (d +:+ "/" +:+ name) ∉ dirs w.
Proof.
  intros [Hf Hd]%andb_prop name. apply bool_decide_eq_true in Hf, Hd.
  assert (Hp : String.prefix (d +:+ "/") (d +:+ "/" +:+ name) = true)
    by (rewrite <- append_assoc; apply prefix_app).
  split.
  - destruct (files w !! _) as [c|] eqn:E; [|done]. apply Hf in E. simpl in E. congruence.
  - intros Hin. apply Hd in Hin. congruence.
Qed.

Lemma entries_name src dst w p c : entries src dst w !! p = Some c → ∃ name, p = dst +:+ "/" +:+ name.
Proof.
  intros Hp%elem_of_list_to_map_2. apply list_elem_of_omap in Hp as ([q x] & _ & Hq).
  destruct (String.eqb _ _); [|done]. injection Hq as <- _. by eexists.
Qed.

Lemma add_entries_keeps src dst w :
  let w' := World (files w ∪ entries src dst w) (dirs w) (cwd w) (fds w) (made w) in
  vacant dst w = true → keeps_files w w' ∧ keeps_dirs w w'.
Proof.
  intros w' Hv. unfold keeps_files, keeps_dirs. simpl. split.
  - intros p c [Hp Hc]%contents_Some. apply contents_Some. split; [done|].
    by apply lookup_union_Some_l.
  - intros p [Hp Hc]%andb_prop. apply bool_decide_eq_true in Hp, Hc. unfold is_dir.
    apply andb_true_intro. rewrite !bool_decide_eq_true. split; [exact Hp|]. unfold contents in *. destruct (plain_name (filename p)); [|done].
    simpl. apply lookup_union_None. split; [done|].
    destruct (entries src dst w !! p) as [c|] eqn:E; [|done].
    apply entries_name in E as [name ->]. by destruct (vacant_spec _ _ Hv name).
Qed.

Lemma mkdtemp_obeys t w d ok w' :
  mkdtemp t w = (d, ok, w') →
  same_files w w' ∧ keeps_dirs w w' ∧ same_fds w w' ∧
  (ok = true → ∀ name, plain_name name = true →
     dir_at w' (d +:+ "/" +:+ name) = false ∧ file_at w' (d +:+ "/" +:+ name) = None).
Proof.
  unfold mkdtemp. generalize (String.substring 0 (String.length t - 6) t +:+ decimal (100000 + made w)) as x.
  intros x.
  assert (Hno : (unused w, false, next_dir w) = (d, ok, w') →
    same_files w w' ∧ keeps_dirs w w' ∧ same_fds w w' ∧ ok = false).
  { intros [= <- <- <-]. split; [done|]. split; [by intros p|done]. }
  destruct (vacant x w) eqn:Hv; simpl;
    [case_bool_decide as Hc|]; [|intros H; apply Hno in H as (? & ? & ? & ->); by split_and!..].
  intros [= <- <- <-].
  destruct (put_dir_keeps x (next_dir w) Hc) as [Hk _]. split_and!; [by intros p|exact Hk|by intros fd|].
  intros _ name _. destruct (vacant_spec _ _ Hv name) as [Hf Hd].
  simpl. unfold is_dir, contents. simpl. simpl in Hf, Hd. rewrite Hf. split.
  - apply andb_false_iff. left. apply bool_decide_eq_false. rewrite elem_of_union, elem_of_singleton.
    intros [Heq|?]; [|done]. by apply below_other in Heq.
  - by destruct (plain_name _).
Qed.

Lemma copy_obeys src dst w ok w' :
  copy src dst w = (ok, w') →
  keeps_files w w' ∧ keeps_dirs w w' ∧ same_fds w w' ∧
  (ok = true →
   (∃ c, file_at w src = Some c ∧ (dir_at w dst = false → file_at w' dst = Some c)) ∨
   (dir_at w src = true ∧ dir_at w' dst = true)).
Proof.
  assert (Hno : ∀ Q : Prop, (false, w) = (ok, w') →
    keeps_files w w' ∧ keeps_dirs w w' ∧ same_fds w w' ∧ (ok = true → Q)).
  { intros Q [= <- <-]. split_and!; by repeat intros ?. }
  unfold copy. destruct (contents w src) as [c|] eqn:Hs.
  - unfold put_new. remember (if is_dir w dst then dst +:+ "/" +:+ filename src else dst) as t eqn:Ht.
    destruct (is_dir w t) eqn:Hd; [apply Hno|]. simpl. case_bool_decide as Hf; [|apply Hno].
    destruct (plain_name (filename t)) eqn:Hn; [|apply Hno]. intros [= <- <-].
    destruct (put_file_keeps t c w Hf Hn Hd) as (? & ? & ?). split_and!; [done|done|by intros fd|].
    intros _. left. exists c. split; [done|]. simpl. intros Hdst. rewrite Hdst in Ht. by subst t.
  - destruct (is_dir w src) eqn:Hd; [|apply Hno].
    destruct (vacant dst w) eqn:Hv; [|apply Hno]. simpl.
    case_bool_decide as Hc; [|apply Hno]. intros [= <- <-].
    set (w1 := World _ _ _ _ _). destruct (add_entries_keeps src dst w Hv) as [Hk1 Hk2].
    assert (Hc1 : contents w1 dst = None).
    { destruct (contents w1 dst) as [c|] eqn:E; [|done]. apply contents_Some in E as [Hn Hu].
      apply lookup_union_Some_raw in Hu as [Hf|[_ Hf]].
      - by rewrite (proj2 (contents_Some w dst c) (conj Hn Hf)) in Hc.
      - apply entries_name in Hf as [name Heq]. by destruct (below_other dst name). }
    destruct (put_dir_keeps dst w1 Hc1) as [Hk3 Hdst]. split_and!; [exact Hk1| |by intros fd|].
    + intros p Hp. by apply Hk3, Hk2.
    + intros _. by right.
Qed.

Lemma length_append a b : String.length (a +:+ b) = (String.length a + String.length b)%nat.
Proof. induction a as [|c a IH]; [done|]. simpl. by rewrite <- IH. Qed.

Lemma mkdtemp_clean t w d w' name :
  mkdtemp t w = (d, false, w') → dir_at w' (d +:+ "/" +:+ name) = false.
Proof.
  unfold mkdtemp. destruct (_ && _); [done|]. intros [= <- <-]. unfold dir_at, world_posix, is_dir.
  apply andb_false_iff. left. apply bool_decide_eq_false. simpl. unfold unused.
  rewrite <- elem_of_elements. intros Hin.
  assert (Hlen : ∀ l p, p ∈ l → (String.length p ≤ String.length (foldr String.append "-" l))%nat).
  { induction l as [|q l IH]; intros p Hp; [by apply not_elem_of_nil in Hp|].
    cbn [foldr]. rewrite length_append. apply elem_of_cons in Hp as [->|Hp]; [lia|].
    specialize (IH p Hp). lia. }
  apply Hlen in Hin. rewrite length_append in Hin. simpl in Hin. lia.
Qed.

#[export] Instance world_laws : PosixLaws world.
Proof.
  split; simpl.
  - intros w p c Hc. pose proof Hc as [? _]%contents_Some. split; [done|].
    unfold is_dir. rewrite Hc. apply andb_false_r.
  - intros p flags mode w fd w' Hro. unfold open. rewrite Hro, andb_true_r.
    destruct (_ || _); [|intros [= <- <-]; split; [done|]; by left].
    destruct (free_fd w) as [n|] eqn:Hf; [|intros [= <- <-]; split; [done|]; by left].
    apply free_fd_fresh in Hf as [? ?]. intros [= <- <-]. split; [done|]. right. simpl.
    split_and!; [lia..|done| |]; [by rewrite lookup_insert_eq|].
    intros fd' ?. simpl. by rewrite lookup_insert_ne.
  - intros p flags mode w fd w' Hro. unfold open. rewrite Hro, andb_true_r.
    destruct (_ || _); [|by intros [= <- <-]]. by destruct (free_fd w); intros [= <- <-].
  - intros fd n w. unfold read. destruct (behind fd w) as [[[p off] c]|]; [|done]. by case_decide.
  - intros fd n off w. unfold pread. destruct (behind fd w) as [[[p pos] c]|]; [|done].
    by case_decide.
  - intros fd off whence w. unfold lseek. destruct (behind fd w) as [[[p pos] c]|]; [|done].
    destruct (seek_base c pos whence); [|done]. by case_decide.
  - intros fd w. unfold close. by destruct (fds w !! fd).
  - intros fd n w r d w' Hn. unfold read.
    assert (Hno : r = -1 → w' = w → same_files w w' ∧ same_other_fds fd w w' ∧
      ∀ p off c, fds w !! fd = Some (p, off) → contents w p = Some c →
        (r = -1 ∧ fds w' !! fd = fds w !! fd) ∨
        (read_result c off n r d ∧ fds w' !! fd = Some (p, off + r))).
    { intros -> ->. split; [done|]. split; [done|]. auto. }
    destruct (behind fd w) as [[[p off] c]|] eqn:Hb; [|intros [= <- _ <-]; by apply Hno].
    apply behind_Some in Hb as [Hfd Hc]. case_decide; [|intros [= <- _ <-]; by apply Hno].
    intros [= <- <- <-]. split; [done|]. split; [intros fd' ?; simpl; by rewrite lookup_insert_ne|].
    intros p' off' c' Hfd' Hc'. simplify_eq. right. split; [by apply available_result|].
    simpl. by rewrite lookup_insert_eq.
  - intros fd n off w r d w' Hn. unfold pread.
    destruct (behind fd w) as [[[p pos] c]|] eqn:Hb; [|intros [= <- _ <-]; do 2 (split; [done|]); by left].
    apply behind_Some in Hb as [Hfd Hc]. case_decide; [|intros [= <- _ <-]; do 2 (split; [done|]); by left].
    intros [= <- <- <-]. do 2 (split; [done|]). intros p' pos' c' Hfd' Hc'. simplify_eq. right.
    split; [done|]. by apply available_result.
  - intros fd off whence w r w'. unfold lseek.
    assert (Hno : r = -1 → w' = w → same_files w w' ∧ same_other_fds fd w w' ∧
      ∀ p pos c b, fds w !! fd = Some (p, pos) → contents w p = Some c →
        seek_base c pos whence = Some b →
        (r = -1 ∧ fds w' !! fd = fds w !! fd) ∨
        (r = b + off ∧ 0 ≤ r ∧ fds w' !! fd = Some (p, r))).
    { intros -> ->. split; [done|]. split; [done|]. auto. }
    destruct (behind fd w) as [[[p pos] c]|] eqn:Hb; [|intros [= <- <-]; by apply Hno].
    apply behind_Some in Hb as [Hfd Hc].
    destruct (seek_base c pos whence) as [b|] eqn:Hs; [|intros [= <- <-]; by apply Hno].
    case_decide; [|intros [= <- <-]; by apply Hno]. intros [= <- <-].
    split; [done|]. split; [intros fd' ?; simpl; by rewrite lookup_insert_ne|].
    intros p' pos' c' b' Hfd' Hc' Hb'. simplify_eq. right. simpl.
    split_and!; try done. by rewrite lookup_insert_eq.
  - intros fd w r w'. unfold close. destruct (fds w !! fd) eqn:Hf; intros [= <- <-]; [|done].
    split; [done|]. split; [intros ? ?; simpl; by rewrite lookup_delete_ne|].
    intros _. split; [by eauto|]. simpl. apply lookup_delete_eq.
  - intros fd n w Hf. unfold read, behind. by rewrite Hf.
  - intros fd w Hf. unfold close. by rewrite Hf.
  - intros n _ Hn. by apply Z.ltb_ge.
  - intros t w d ok w' Hm. by apply (mkdtemp_obeys t).
  - intros src dst w ok w' Hc. by apply copy_obeys.
  - intros p q w. unfold canonical. case_decide; [by intros [= <-]|done].
Qed.

Lemma available_nonneg c off n : available c off n ≠ -1.
Proof. unfold available. lia. Qed.

#[export] Instance world_reliable : PosixReliable world.
Proof.
  split; simpl.
  - intros p flags mode w Hro Hc (fd & Hr & Hfd). unfold open. rewrite Hro, andb_true_r.
    rewrite bool_decide_eq_true_2 by done. simpl.
    destruct (free_fd_some w fd Hr Hfd) as [n Hn]. rewrite Hn. simpl.
    apply free_fd_fresh in Hn. lia.
  - intros fd n w p off c Hn Ho Hf Hp. unfold read. rewrite (behind_eq _ _ _ _ _ Hf Hp).
    case_decide; [|done]. apply available_nonneg.
  - intros fd n off w p pos c Hn Ho Hf Hp. unfold pread. rewrite (behind_eq _ _ _ _ _ Hf Hp).
    case_decide; [|done]. apply available_nonneg.
  - intros fd off whence w p pos c b Hf Hp Hb Hr. unfold lseek. rewrite (behind_eq _ _ _ _ _ Hf Hp), Hb.
    case_decide; simpl; lia.
  - intros fd w [o Ho]. unfold close. simpl in *. by rewrite Ho.
  - intros n _ Hn. apply Z.ltb_lt. lia.
  - done.
Qed.

End RefPosix.

#[export] Existing Instance RefPosix.world_posix.
#[export] Existing Instance RefPosix.world_laws.
#[export] Existing Instance RefPosix.world_reliable.
