(* ===== verification/Rpc.v ===== *)
(** * RPC messages and the transport ([hvac_comm.h])

    The argument structures of the four remote procedures, and the Mercury
    library as a record of the values its calls return. *)
From S2P Require Import Prelude Posix.

(** ** Messages *)

(** What a bulk handle tells its holder: the length of the exposed memory. *)
Definition hg_bulk_t : Type := Z.

Record hvac_open_in_t := OpenIn { in_path : string }.
Record hvac_open_out_t := OpenOut { ret_status : Z }.
Record hvac_rpc_in_t := RpcIn {
  input_val : Z;
  bulk_handle : hg_bulk_t;
  accessfd : Z;
  offset : Z
}.
Record hvac_rpc_out_t := RpcOut { out_ret : Z }.
Record hvac_seek_in_t := SeekIn { seek_fd : Z; seek_offset : Z; seek_whence : Z }.
Record hvac_seek_out_t := SeekOut { seek_ret : Z }.
Record hvac_close_in_t := CloseIn { close_fd : Z }.

(** ** Mercury *)

Definition HG_SUCCESS : Z := 0.

(** Return values of the Mercury calls the sources make.  [hg_bulk_transfer]
    takes the lengths of the remote and the local memory and the size asked
    for; [hg_addr_lookup] says whether an address string resolves.
    [hg_context_create], [hg_create], [hg_disable_response] and [hg_forward] are
    told whether the class, context, class and target address they get are
    non-null.  [hg_lost] is the status with which the callback of a request runs
    whose server has stopped; [None] when the transport does not notice, so that
    the callback never runs.  Requests complete in no particular order: of [n]
    that are under way, [hg_next n] (modulo [n]) is the next one. *)
Record mercury := Mercury {
  hg_init : bool;
  hg_context_create : bool → bool;
  hg_get_input : Z;
  hg_get_info : bool;
  hg_bulk_create : Z → Z;
  hg_bulk_transfer : Z → Z → Z → Z;
  hg_bulk_status : Z;
  hg_respond : Z;
  hg_addr_lookup : string → bool;
  hg_create : bool → Z;
  hg_forward : bool → Z;
  hg_forward_status : Z;
  hg_lost : option Z;
  hg_bulk_free : Z;
  hg_free_output : Z;
  hg_destroy : Z;
  hg_addr_free : Z;
  hg_disable_response : bool → Z;
  hg_next : nat → nat
}.

Existing Class mercury.

(** Documented refusals: a transfer may not exceed the memory exposed at either
    end; null classes, contexts and addresses are invalid arguments; and a
    request without an answer does not succeed. *)
Record mercury_lawful (hg : mercury) : Prop := {
  transfer_bounded : ∀ remote local n,
    remote < n ∨ local < n → hg_bulk_transfer hg remote local n ≠ HG_SUCCESS;
  forward_needs_addr : hg_forward hg false ≠ HG_SUCCESS;
  context_needs_class : hg_context_create hg false = false;
  create_needs_context : hg_create hg false ≠ HG_SUCCESS;
  register_needs_class : hg_disable_response hg false ≠ HG_SUCCESS;
  lost_is_error : hg_lost hg ≠ Some HG_SUCCESS
}.

(** A network on which every permitted call succeeds.  Nothing is said of
    [hg_lost] and [hg_next]. *)
Record mercury_ok (hg : mercury) : Prop := {
  ok_lawful : mercury_lawful hg;
  ok_init : hg_init hg = true;
  ok_context : hg_context_create hg true = true;
  ok_get_input : hg_get_input hg = HG_SUCCESS;
  ok_get_info : hg_get_info hg = true;
  ok_bulk_create : ∀ n, 0 ≤ n → hg_bulk_create hg n = HG_SUCCESS;
  ok_bulk_transfer : ∀ remote local n,
    0 ≤ n ≤ remote → n ≤ local → hg_bulk_transfer hg remote local n = HG_SUCCESS;
  ok_bulk_status : hg_bulk_status hg = HG_SUCCESS;
  ok_respond : hg_respond hg = HG_SUCCESS;
  ok_addr_lookup : ∀ a, hg_addr_lookup hg a = true;
  ok_create : hg_create hg true = HG_SUCCESS;
  ok_forward : hg_forward hg true = HG_SUCCESS;
  ok_forward_status : hg_forward_status hg = HG_SUCCESS;
  ok_bulk_free : hg_bulk_free hg = HG_SUCCESS;
  ok_free_output : hg_free_output hg = HG_SUCCESS;
  ok_destroy : hg_destroy hg = HG_SUCCESS;
  ok_addr_free : hg_addr_free hg = HG_SUCCESS;
  ok_disable_response : hg_disable_response hg true = HG_SUCCESS
}.

(** A transport that does what the documentation says and no more. *)
Definition null_refused (given : bool) : Z := if given then 0 else 3.
Definition demo_mercury : mercury :=
  Mercury true id 0 true (λ _, 0)
    (λ remote local n, if decide (n ≤ remote ∧ n ≤ local) then 0 else 3)
    0 0 (λ _, true) null_refused null_refused 0 None 0 0 0 0 null_refused
    (λ _, 0%nat).

Lemma demo_mercury_ok : mercury_ok demo_mercury.
Proof.
  split; try done; simpl.
  - split; simpl; [|done..]. intros remote local n ?. case_decide; [lia|done].
  - intros remote local n ? ?. case_decide; [done|lia].
Qed.

(** ** What a file server promises its clients *)

(** The four remote procedures as functions of the server's state, and what a
    client may observe of it: [fs_handle s fd p off c] says that the remote
    descriptor [fd] was opened for [p], stands at offset [off], and delivers
    the bytes [c]. *)
Class FileServer (S : Type) := {
  fs_open : hvac_open_in_t → S → outcome (hvac_open_out_t * S);
  fs_read : hvac_rpc_in_t → S → outcome (hvac_rpc_out_t * bytes * S);
  fs_seek : hvac_seek_in_t → S → outcome (hvac_seek_out_t * S);
  fs_close : hvac_close_in_t → S → outcome S;
  fs_ok : S → Prop;
  fs_room : S → Prop;
  fs_file : S → string → bytes → Prop;
  fs_handle : S → Z → string → Z → bytes → Prop
}.

(** Every handle but [x] and every file survives. *)
Definition fs_frame {S} `{FileServer S} (x : option Z) (s s' : S) : Prop :=
  (∀ p c, fs_file s p c → fs_file s' p c) ∧
  (∀ fd p off c, Some fd ≠ x → fs_handle s fd p off c → fs_handle s' fd p off c).

Class FileServerLaws (S : Type) `{FileServer S} : Prop := {
  fs_handle_valid : ∀ s fd p off c, fs_handle s fd p off c → 0 ≤ fd < 2 ^ 31 ∧ 0 ≤ off;
  fs_open_law : ∀ s p c,
    fs_ok s → fs_file s p c → fs_room s →
    ∃ fd s', fs_open (OpenIn p) s = Ok (OpenOut fd, s') ∧ fs_ok s' ∧
      fs_handle s' fd p 0 c ∧ fs_frame None s s' ∧
      ∀ p' off' c', ¬ fs_handle s fd p' off' c';
  fs_read_law : ∀ s fd p off c n len,
    fs_ok s → fs_handle s fd p off c → 0 ≤ n < 2 ^ 31 → n ≤ len →
    ∃ r d s', fs_read (RpcIn n len fd (-1)) s = Ok (RpcOut r, d, s') ∧ fs_ok s' ∧
      read_result c off n r d ∧ fs_handle s' fd p (off + r) c ∧ fs_frame (Some fd) s s';
  fs_pread_law : ∀ s fd p pos c n len off,
    fs_ok s → fs_handle s fd p pos c → 0 ≤ n < 2 ^ 31 → n ≤ len → 0 ≤ off →
    ∃ r d s', fs_read (RpcIn n len fd off) s = Ok (RpcOut r, d, s') ∧ fs_ok s' ∧
      read_result c off n r d ∧ fs_frame None s s';
  (** A negative count stops the server. *)
  fs_negative_law : ∀ s n len fd off, - 2 ^ 31 ≤ n < 0 → ∃ f, fs_read (RpcIn n len fd off) s = Fault f;
  fs_seek_law : ∀ s fd p pos c off whence b,
    fs_ok s → fs_handle s fd p pos c → seek_base c pos whence = Some b → 0 ≤ b + off < 2 ^ 63 →
    ∃ s', fs_seek (SeekIn fd off whence) s = Ok (SeekOut (i32 (b + off)), s') ∧ fs_ok s' ∧
      fs_handle s' fd p (b + off) c ∧ fs_frame (Some fd) s s';
  fs_close_law : ∀ s fd p off c,
    fs_ok s → fs_handle s fd p off c →
    ∃ s', fs_close (CloseIn fd) s = Ok s' ∧ fs_ok s' ∧ fs_frame (Some fd) s s' ∧
      (fs_room s → fs_room s')
}.
