(* ===== verification/Server.v ===== *)
(** * The server's request handlers ([hvac_comm.cpp])

    State of a server process, the bulk-transfer read handler with its
    completion callback, and the open, close and seek handlers. *)
From S2P Require Import Prelude CLib Posix Rpc.

(** ** State *)

(** The data mover thread: blocked in [pthread_cond_wait], woken by a signal
    but not running yet, or running its loop body. *)
Inductive mover_pc := MoverWaiting | MoverWoken | MoverRunning.

#[export] Instance mover_pc_eq_dec : EqDecision mover_pc.
Proof. solve_decision. Defined.

(** What a process holds and has to give back: handles and decoded inputs of
    Mercury, bulk handles, heap blocks. *)
Inductive object := OHandle | OInput | OBulk | OBlock.

#[export] Instance object_eq_dec : EqDecision object.
Proof. solve_decision. Defined.

(** The objects that are alive, by an identity that is never used again. *)
Record heap := Heap {
  objects : gmap nat object;
  next_object : nat
}.

Section ServerState.
Context {W : Type}.

Record server := Server {
  fd_to_path : gmap Z string;
  path_cache_map : gmap string string;
  data_queue : list string;
  mover : mover_pc;
  local_list : list string;
  held : heap;
  srv_os : W
}.

Definition set_fd_to_path (m : gmap Z string) (s : server) : server :=
  Server m (path_cache_map s) (data_queue s) (mover s) (local_list s) (held s) (srv_os s).
Definition set_path_cache (m : gmap string string) (s : server) : server :=
  Server (fd_to_path s) m (data_queue s) (mover s) (local_list s) (held s) (srv_os s).
Definition set_data_queue (q : list string) (s : server) : server :=
  Server (fd_to_path s) (path_cache_map s) q (mover s) (local_list s) (held s) (srv_os s).
Definition set_mover (pc : mover_pc) (s : server) : server :=
  Server (fd_to_path s) (path_cache_map s) (data_queue s) pc (local_list s) (held s) (srv_os s).
Definition set_local_list (l : list string) (s : server) : server :=
  Server (fd_to_path s) (path_cache_map s) (data_queue s) (mover s) l (held s) (srv_os s).
Definition set_held (r : heap) (s : server) : server :=
  Server (fd_to_path s) (path_cache_map s) (data_queue s) (mover s) (local_list s) r (srv_os s).
Definition set_srv_os (w : W) (s : server) : server :=
  Server (fd_to_path s) (path_cache_map s) (data_queue s) (mover s) (local_list s) (held s) w.

(** A system call of the server process. *)
Definition server_os {A} (f : W → A * W) : M server A := λ s,
  let '(a, w) := f (srv_os s) in Ok (a, set_srv_os w s).

(** A new object of kind [k]. *)
Definition acquire (k : object) : M server nat := λ s,
  let h := held s in
  Ok (next_object h, set_held (Heap (<[next_object h := k]> (objects h)) (S (next_object h))) s).

(** Giving back what is not alive, or not of that kind, is undefined. *)
Definition release (k : object) (i : nat) : M server unit := λ s,
  let h := held s in
  if decide (objects h !! i = Some k)
  then Ok (tt, set_held (Heap (delete i (objects h)) (next_object h)) s)
  else Fault FUndefined.

(** [malloc] of a small block, and [free]. *)
Definition malloc : M server nat := acquire OBlock.
Definition free (p : nat) : M server unit := release OBlock p.
(** Mercury runs a handler with a handle that the handler has to destroy. *)
Definition hg_handle : M server nat := acquire OHandle.
Definition HG_Destroy (handle : nat) : M server unit := release OHandle handle.
Definition HG_Bulk_free (bulk : nat) : M server unit := release OBulk bulk.
End ServerState.

Arguments server W : clear implicits.
Arguments set_fd_to_path {W} m s /.
Arguments set_path_cache {W} m s /.
Arguments set_data_queue {W} q s /.
Arguments set_mover {W} pc s /.
Arguments set_local_list {W} l s /.
Arguments set_held {W} r s /.
Arguments set_srv_os {W} w s /.

(** ** Handlers *)

Section Handlers.
Context {W : Type} `{!Posix W}.
(** The transport. *)
Variable hg : mercury.

(** [struct hvac_rpc_state]: the state of a read across its two callbacks. *)
Record hvac_rpc_state := RpcState {
  st_size : Z;
  st_buffer : bytes;
  st_buffer_block : nat;
  st_bulk_handle : nat;
  st_handle : nat;
  st_in : hvac_rpc_in_t
}.

(** A block from [calloc(1, n)] after [data] is stored at its start. *)
Definition stored (n : Z) (data : bytes) : bytes :=
  data ++ replicate (Z.to_nat n - length data) Byte.x00.

(** [HG_Get_input]: on success there is a decoded input, to be given back to
    [HG_Free_input]. *)
Definition HG_Get_input (handle : nat) : M (server W) Z :=
  when (hg_get_input hg =? HG_SUCCESS) (acquire OInput;; mret tt);;
  mret (hg_get_input hg).

Definition HG_Bulk_create (size : Z) : M (server W) (Z * nat) :=
  if hg_bulk_create hg size =? HG_SUCCESS
  then b ← acquire OBulk; mret (hg_bulk_create hg size, b)
  else mret (hg_bulk_create hg size, 0%nat).

(** [calloc(1, size)]; [None] is the null pointer. *)
Definition calloc (size : Z) : M (server W) (option nat) :=
  allocated ← gets (λ s, sys_calloc size (srv_os s));
  if (allocated : bool) then b ← acquire OBlock; mret (Some b) else mret None.

(** Runs when the bulk transfer has completed; [arg] is the block of the state. *)
Definition hvac_rpc_handler_bulk_cb (arg : nat) (p : hvac_rpc_state) : M (server W) hvac_rpc_out_t :=
  let out := RpcOut (i32 (st_size p)) in
  cassert (hg_bulk_status hg =? 0);;
  cassert (hg_respond hg =? HG_SUCCESS);;
  HG_Bulk_free (st_bulk_handle p);;
  HG_Destroy (st_handle p);;
  free (st_buffer_block p);;
  free arg;;
  mret out.

(** The read request: what the completion callback is handed, and the bytes
    pushed to the client's memory.  The result of [HG_Get_input] is not looked
    at, so without it the fields of the input are undefined. *)
Definition hvac_rpc_handler (inp : hvac_rpc_in_t) : M (server W) (nat * hvac_rpc_state * bytes) :=
  handle ← hg_handle;
  hvac_rpc_state_p ← malloc;
  ret ← HG_Get_input handle;
  when (negb (ret =? HG_SUCCESS)) (fail FUndefined);;
  let size := u64 (input_val inp) in
  buffer ← calloc size;
  match buffer with
  | None => fail FAssert
  | Some buffer =>
      cassert (hg_get_info hg);;
      created ← HG_Bulk_create size;
      let '(ret, bulk) := created in
      cassert (ret =? 0);;
      rd ← (if offset inp =? -1
            then server_os (sys_read (accessfd inp) size)
            else server_os (sys_pread (accessfd inp) size (offset inp)));
      let '(readbytes, data) := rd in
      let p := RpcState (u64 readbytes) (stored size data) buffer bulk handle inp in
      cassert (hg_bulk_transfer hg (bulk_handle inp) size (st_size p) =? 0);;
      mret (hvac_rpc_state_p, p, take (Z.to_nat (st_size p)) (st_buffer p))
  end.

Definition hvac_open_rpc_handler (inp : hvac_open_in_t) : M (server W) hvac_open_out_t :=
  handle ← hg_handle;
  ret ← HG_Get_input handle;
  cassert (ret =? 0);;
  cached ← gets (λ s, path_cache_map s !! in_path inp);
  let redir_path := match cached with Some q => q | None => in_path inp end in
  fd ← server_os (sys_open redir_path O_RDONLY 0);
  modify (λ s, set_fd_to_path (<[fd := in_path inp]> (fd_to_path s)) s);;
  mret (OpenOut fd).

(** [fd_to_path[fd]] *)
Definition path_of_fd (fd : Z) : M (server W) string := λ s,
  let '(p, m) := map_index "" (fd_to_path s) fd in Ok (p, set_fd_to_path m s).

(** [pthread_cond_signal]: wakes the mover if it is waiting, else is lost. *)
Definition data_cond_signal : M (server W) unit :=
  modify (λ s, match mover s with MoverWaiting => set_mover MoverWoken s | _ => s end).

Definition hvac_close_rpc_handler (inp : hvac_close_in_t) : M (server W) Z :=
  handle ← hg_handle;
  ret ← HG_Get_input handle;
  cassert (ret =? HG_SUCCESS);;
  ret ← server_os (sys_close (close_fd inp));
  cassert (ret =? 0);;
  p ← path_of_fd (close_fd inp);
  uncached ← gets (λ s, map_absent (path_cache_map s) p);
  when uncached (
    data_cond_signal;;
    p ← path_of_fd (close_fd inp);
    modify (λ s, set_data_queue (data_queue s ++ [p]) s));;
  modify (λ s, set_fd_to_path (delete (close_fd inp) (fd_to_path s)) s);;
  mret ret.

Definition hvac_seek_rpc_handler (inp : hvac_seek_in_t) : M (server W) hvac_seek_out_t :=
  handle ← hg_handle;
  ret ← HG_Get_input handle;
  cassert (ret =? 0);;
  r ← server_os (sys_lseek (seek_fd inp) (seek_offset inp) (seek_whence inp));
  mret (SeekOut (i32 r)).
End Handlers.

(** ** What each handler computes *)

(** Split on the result of [HG_Get_input]. *)
Ltac on_input := destruct (hg_get_input _ =? 0) eqn:Hgi; simpl; rewrite ?Hgi; simpl; [|try done].

Ltac handler_run :=
  unfold hg_handle, malloc, HG_Get_input, HG_Bulk_create, calloc, HG_Bulk_free, HG_Destroy, free,
    acquire, server_os, path_of_fd, data_cond_signal, HG_SUCCESS; run_monad.

Section Equations.
Context {W : Type} `{!Posix W}.
Variable hg : mercury.
Implicit Types (s : server W).

Definition redirect s (p : string) : string :=
  match path_cache_map s !! p with Some q => q | None => p end.

(** The heap after acquiring objects of these kinds, in order. *)
Definition holding (ks : list object) (h : heap) : heap :=
  foldl (λ h k, Heap (<[next_object h := k]> (objects h)) (S (next_object h))) h ks.

(** The heap after a read: of its five objects, the input is left. *)
Definition after_read (h : heap) : heap :=
  let n := next_object h in
  Heap (delete (S n) (delete (S (S (S n))) (delete n (delete (S (S (S (S n))))
         (objects (holding [OHandle; OBlock; OInput; OBlock; OBulk] h))))))
    (S (S (S (S (S n))))).

Lemma open_handler_eq s p fd w :
  hg_get_input hg = 0 →
  sys_open (redirect s p) O_RDONLY 0 (srv_os s) = (fd, w) →
  hvac_open_rpc_handler hg (OpenIn p) s =
  Ok (OpenOut fd,
      Server (<[fd := p]> (fd_to_path s)) (path_cache_map s) (data_queue s) (mover s)
        (local_list s) (holding [OHandle; OInput] (held s)) w).
Proof.
  intros Hg Hopen. destruct s as [m pc q mv l h o]. unfold redirect in Hopen; simpl in *.
  unfold hvac_open_rpc_handler. handler_run. rewrite Hg; simpl. by rewrite Hopen.
Qed.

Lemma close_handler_eq s fd w :
  hg_get_input hg = 0 → sys_close fd (srv_os s) = (0, w) →
  hvac_close_rpc_handler hg (CloseIn fd) s =
  Ok (0,
      let p := default "" (fd_to_path s !! fd) in
      let queue := map_absent (path_cache_map s) p in
      Server (delete fd (fd_to_path s)) (path_cache_map s)
        (if queue then data_queue s ++ [p] else data_queue s)
        (if queue && bool_decide (mover s = MoverWaiting) then MoverWoken else mover s)
        (local_list s) (holding [OHandle; OInput] (held s)) w).
Proof.
  intros Hg Hc. destruct s as [m pc q mv l h o]; simpl in *.
  unfold hvac_close_rpc_handler. handler_run. rewrite Hg; simpl. rewrite Hc; simpl.
  unfold map_index. destruct (m !! fd) as [p|] eqn:Hfd; simpl;
    destruct (map_absent pc _); simpl; rewrite ?delete_insert_eq;
    destruct mv; simpl; rewrite ?Hfd, ?lookup_insert_eq; simpl;
    rewrite ?delete_insert_eq; done.
Qed.

Lemma seek_handler_eq s fd off whence r w :
  hg_get_input hg = 0 → sys_lseek fd off whence (srv_os s) = (r, w) →
  hvac_seek_rpc_handler hg (SeekIn fd off whence) s =
  Ok (SeekOut (i32 r), set_srv_os w (set_held (holding [OHandle; OInput] (held s)) s)).
Proof.
  intros Hg Hl. destruct s as [m pc q mv l h o]; simpl in *.
  unfold hvac_seek_rpc_handler. handler_run. rewrite Hg; simpl. by rewrite Hl.
Qed.

(** A close that is answered, whatever its result. *)
Lemma close_handler_Ok s fd r s' :
  hvac_close_rpc_handler hg (CloseIn fd) s = Ok (r, s') →
  ∃ w h, s' =
    let p := default "" (fd_to_path s !! fd) in
    let queue := map_absent (path_cache_map s) p in
    Server (delete fd (fd_to_path s)) (path_cache_map s)
      (if queue then data_queue s ++ [p] else data_queue s)
      (if queue && bool_decide (mover s = MoverWaiting) then MoverWoken else mover s)
      (local_list s) h w.
Proof.
  intros H. pose proof H as Hrun. revert Hrun. destruct s as [m pc q mv l h o].
  unfold hvac_close_rpc_handler. handler_run. destruct (hg_get_input hg =? 0) eqn:Hgi; simpl; rewrite Hgi; simpl; [|done].
  destruct (sys_close fd o) as [x w] eqn:Hs. simpl. destruct (Z.eqb_spec x 0) as [->|]; [|done]. intros _.
  rewrite (close_handler_eq (Server m pc q mv l h o) fd w) in H by (done || by apply Z.eqb_eq).
  injection H as _ <-. by eexists _, _.
Qed.

(** The data of a read request: [read] when the offset is -1, else [pread]. *)
Definition read_syscall (inp : hvac_rpc_in_t) (w : W) : Z * bytes * W :=
  if offset inp =? -1 then sys_read (accessfd inp) (u64 (input_val inp)) w
  else sys_pread (accessfd inp) (u64 (input_val inp)) (offset inp) w.

(** The state of a read, by the heap its handler started with. *)
Definition read_state (h : heap) (r : Z) (d : bytes) (inp : hvac_rpc_in_t) : hvac_rpc_state :=
  let n := next_object h in
  RpcState (u64 r) (stored (u64 (input_val inp)) d) (S (S (S n))) (S (S (S (S n)))) n inp.

Lemma read_handler_eq s inp r d w :
  hg_get_input hg = 0 →
  hg_get_info hg = true → hg_bulk_create hg (u64 (input_val inp)) = 0 →
  sys_calloc (u64 (input_val inp)) (srv_os s) = true →
  read_syscall inp (srv_os s) = (r, d, w) →
  hvac_rpc_handler hg inp s =
  if hg_bulk_transfer hg (bulk_handle inp) (u64 (input_val inp)) (u64 r) =? 0 then
    Ok ((S (next_object (held s)), read_state (held s) r d inp,
         take (Z.to_nat (u64 r)) (stored (u64 (input_val inp)) d)),
        set_srv_os w (set_held (holding [OHandle; OBlock; OInput; OBlock; OBulk] (held s)) s))
  else Fault FAssert.
Proof.
  intros Hg Hi Hb Hc Hr. destruct s as [m pc q mv l [obj k] o]; simpl in *.
  unfold hvac_rpc_handler. unfold read_syscall in Hr. handler_run. rewrite Hg; simpl. rewrite Hc; simpl.
  rewrite Hi; simpl. rewrite Hb; simpl.
  destruct (offset inp =? -1); simpl; rewrite Hr; simpl; by destruct (_ =? 0).
Qed.

Lemma release_eq k i s :
  objects (held s) !! i = Some k →
  release k i s = Ok (tt, set_held (Heap (delete i (objects (held s))) (next_object (held s))) s).
Proof. intros Hi. unfold release. by rewrite decide_True. Qed.

(** The callback of a read gives back what the handler acquired, but not the
    input. *)
Lemma bulk_cb_eq s h r d inp :
  hg_bulk_status hg = 0 → hg_respond hg = 0 →
  held s = holding [OHandle; OBlock; OInput; OBlock; OBulk] h →
  hvac_rpc_handler_bulk_cb hg (S (next_object h)) (read_state h r d inp) s =
  Ok (RpcOut (i32 (u64 r)), set_held (after_read h) s).
Proof.
  intros Hb Hr Hh. destruct s as [m pc q mv l hs o], h as [obj k]; simpl in *. subst hs.
  unfold hvac_rpc_handler_bulk_cb, HG_Bulk_free, HG_Destroy, free. run_monad.
  rewrite Hb, Hr; simpl. do 4 (rewrite release_eq by (simpl; by simplify_map_eq by lia); simpl). done.
Qed.

(** The calloc'd block with too large a size is refused. *)
Lemma read_handler_no_memory s inp :
  hg_get_input hg = 0 → sys_calloc (u64 (input_val inp)) (srv_os s) = false →
  hvac_rpc_handler hg inp s = Fault FAssert.
Proof.
  intros Hg Hc. destruct s as [m pc q mv l h o]; simpl in *.
  unfold hvac_rpc_handler. handler_run. rewrite Hg; simpl. by rewrite Hc.
Qed.

Lemma stored_prefix n d : take (length d) (stored n d) = d.
Proof. unfold stored. by rewrite take_app_length. Qed.
End Equations.

(** ** The server as a file server *)

Section FileService.
Context {W : Type} `{!Posix W} {hg : mercury}.
Implicit Types (s : server W).

(** A read request from arrival to response. *)
Definition serve_read (inp : hvac_rpc_in_t) : M (server W) (hvac_rpc_out_t * bytes) :=
  r ← hvac_rpc_handler hg inp;
  out ← hvac_rpc_handler_bulk_cb hg r.1.1 r.1.2;
  mret (out, r.2).

(** The cached copy of a regular file is a regular file with the same contents;
    the copy of a directory is a directory; nothing else is cached. *)
Definition copied (w : W) (p q : string) : Prop :=
  (∃ c, file_at w p = Some c ∧ file_at w q = Some c) ∨ (dir_at w p = true ∧ dir_at w q = true).
Definition cache_ok s : Prop :=
  ∀ p q, path_cache_map s !! p = Some q → copied (srv_os s) p q.

Definition remote_fd s (fd : Z) (p : string) (off : Z) (c : bytes) : Prop :=
  0 ≤ fd < 2 ^ 31 ∧ 0 ≤ off ∧ fd_to_path s !! fd = Some p ∧
  file_at (srv_os s) p = Some c ∧
  ∃ q, fd_at (srv_os s) fd = Some (q, off) ∧ file_at (srv_os s) q = Some c.

#[export] Instance server_file_server : FileServer (server W) := {
  fs_open := hvac_open_rpc_handler hg;
  fs_read := λ inp s, match serve_read inp s with
                      | Ok (o, d, s') => Ok (o, d, s')
                      | Fault f => Fault f
                      end;
  fs_seek := hvac_seek_rpc_handler hg;
  fs_close := λ inp s, match hvac_close_rpc_handler hg inp s with
                       | Ok (_, s') => Ok s'
                       | Fault f => Fault f
                       end;
  fs_ok := cache_ok;
  fs_room := λ s, fd_room (srv_os s);
  fs_file := λ s p c, file_at (srv_os s) p = Some c;
  fs_handle := remote_fd
}.

(** A read that is answered changes the world and the heap only. *)
Lemma serve_read_Ok inp s out s' :
  serve_read inp s = Ok (out, s') →
  ∃ r d w h, read_syscall inp (srv_os s) = (r, d, w) ∧ s' = set_srv_os w (set_held h s).
Proof.
  destruct s as [m pc q mv l h o]. unfold serve_read, hvac_rpc_handler, hvac_rpc_handler_bulk_cb,
    read_syscall, HG_Destroy, HG_Bulk_free, free, release. handler_run.
  destruct (hg_get_input hg =? 0) eqn:Hg; simpl; rewrite ?Hg; simpl; [|done].
  destruct (sys_calloc _ o); simpl; [|done]. destruct (hg_get_info hg); simpl; [|done].
  destruct (hg_bulk_create hg _ =? 0) eqn:Hb; simpl; rewrite Hb; [|done].
  destruct (offset inp =? -1); simpl;
    (destruct (sys_read _ _ _) as [[x d] w] || destruct (sys_pread _ _ _ _) as [[x d] w]); simpl;
    (destruct (hg_bulk_transfer hg _ _ _ =? 0); simpl; [|done]);
    (destruct (hg_bulk_status hg =? 0); simpl; [|done]);
    (destruct (hg_respond hg =? 0); simpl; [|done]);
    repeat (case_decide; simpl; [|done]); intros [= <- <-]; by eexists _, _, _, _.
Qed.

Context `{!PosixLaws W}.

Lemma copied_keeps w w' p q : keeps_files w w' → keeps_dirs w w' → copied w p q → copied w' p q.
Proof. intros Hf Hd [(c & ? & ?)|[? ?]]; [left; exists c; auto|right; auto]. Qed.

Lemma same_keeps w w' : same_files w w' → same_names w w' → keeps_files w w' ∧ keeps_dirs w w'.
Proof.
  intros Hf (_ & _ & Hd). split; [intros p c; by rewrite Hf|intros p; by rewrite Hd].
Qed.

Lemma cache_ok_same_files s s' :
  path_cache_map s' = path_cache_map s → same_files (srv_os s) (srv_os s') →
  same_names (srv_os s) (srv_os s') → cache_ok s → cache_ok s'.
Proof.
  intros Hp Hf Hn Hc p q. rewrite Hp. intros Hpq. destruct (same_keeps _ _ Hf Hn) as [Hkf Hkd].
  eapply copied_keeps; [done..|]. by apply Hc.
Qed.

Lemma redirect_contents s p c :
  cache_ok s → file_at (srv_os s) p = Some c → file_at (srv_os s) (redirect s p) = Some c.
Proof.
  intros Hc Hp. unfold redirect. destruct (path_cache_map s !! p) as [q|] eqn:E; [|done].
  destruct (file_name_law _ _ _ Hp) as [_ Hd].
  destruct (Hc p q E) as [(c' & ? & ?)|[? _]]; congruence.
Qed.

(** Handles survive a step that keeps the files, their table entry and their
    open file. *)
Lemma remote_fd_keep s s' fd p off c :
  same_files (srv_os s) (srv_os s') →
  fd_to_path s' !! fd = fd_to_path s !! fd →
  fd_at (srv_os s') fd = fd_at (srv_os s) fd →
  remote_fd s fd p off c → remote_fd s' fd p off c.
Proof.
  intros Hf Hm Hfd (? & ? & ? & ? & q & ? & ?). unfold remote_fd.
  rewrite Hm, Hfd, Hf. split_and!; try done; try lia. exists q. by rewrite Hf.
Qed.

Lemma frame_keep x s s' :
  same_files (srv_os s) (srv_os s') →
  (∀ fd, Some fd ≠ x → fd_to_path s' !! fd = fd_to_path s !! fd ∧
                       fd_at (srv_os s') fd = fd_at (srv_os s) fd) →
  fs_frame x s s'.
Proof.
  intros Hf Hk. split.
  - intros p c. simpl. by rewrite Hf.
  - intros fd p off c Hne. destruct (Hk fd Hne). by apply remote_fd_keep.
Qed.

Lemma serve_read_eq s inp r d w :
  mercury_ok hg → is_i32 (input_val inp) → 0 ≤ input_val inp → input_val inp ≤ bulk_handle inp →
  sys_calloc (input_val inp) (srv_os s) = true →
  read_syscall inp (srv_os s) = (r, d, w) → 0 ≤ r ≤ input_val inp → blen d = r →
  serve_read inp s =
  Ok (RpcOut r, d, set_srv_os w (set_held (after_read (held s)) s)).
Proof.
  intros Hok Hi Hn Hlen Hc Hr Hrn Hd. unfold serve_read, mbind, M_bind.
  assert (Hu : u64 (input_val inp) = input_val inp) by word.
  assert (Hru : u64 r = r) by word.
  rewrite (read_handler_eq hg s inp r d w); rewrite ?Hu, ?Hru;
    [|apply Hok|apply Hok|by apply Hok|done|done].
  rewrite (ok_bulk_transfer _ Hok) by lia. simpl.
  rewrite bulk_cb_eq; [|apply Hok|apply Hok|done]. simpl. rewrite Hru.
  replace (Z.to_nat r) with (length d) by (unfold blen in Hd; lia).
  rewrite stored_prefix. by rewrite i32_small by word.
Qed.

Context `{!PosixReliable W}.
Hypothesis Hok : mercury_ok hg.

Lemma server_open_law s p c :
  cache_ok s → file_at (srv_os s) p = Some c → fd_room (srv_os s) →
  ∃ fd s', hvac_open_rpc_handler hg (OpenIn p) s = Ok (OpenOut fd, s') ∧ cache_ok s' ∧
    remote_fd s' fd p 0 c ∧ fs_frame None s s' ∧
    ∀ p' off' c', ¬ remote_fd s fd p' off' c'.
Proof.
  intros Hc Hp Hroom.
  destruct (sys_open (redirect s p) O_RDONLY 0 (srv_os s)) as [fd w] eqn:Ho.
  pose proof (redirect_contents _ _ _ Hc Hp) as Hq.
  pose proof (open_succeeds (redirect s p) O_RDONLY 0 (srv_os s) eq_refl (mk_is_Some _ _ Hq) Hroom) as Hne.
  rewrite Ho in Hne; simpl in Hne.
  destruct (open_law _ O_RDONLY _ _ _ _ eq_refl Ho) as (Hf & [[-> _]|(Hr & Hnone & Hfd & Hoth)]); [done|].
  pose proof (open_names_law _ O_RDONLY _ _ _ _ eq_refl Ho) as Hnm.
  eexists fd, _. split; [by apply open_handler_eq; [apply Hok|]|].
  split; [by apply (cache_ok_same_files s)|]. split; [|split].
  - unfold remote_fd; simpl. split; [done|]. split; [done|]. split; [apply lookup_insert_eq|].
    rewrite Hf. split; [done|]. exists (redirect s p). by rewrite Hf.
  - split; [intros ??; simpl; by rewrite Hf|]. intros fd' p' off' c' _ Hh.
    assert (fd' ≠ fd).
    { intros ->. destruct Hh as (_ & _ & _ & _ & q & Hq' & _). congruence. }
    apply (remote_fd_keep s); simpl; [done| |by apply Hoth|done].
    by rewrite lookup_insert_ne.
  - intros p' off' c' (_ & _ & _ & _ & q & Hq' & _). congruence.
Qed.

Lemma server_read_law s fd p off c n len :
  cache_ok s → remote_fd s fd p off c → 0 ≤ n < 2 ^ 31 → n ≤ len →
  ∃ r d s', serve_read (RpcIn n len fd (-1)) s = Ok (RpcOut r, d, s') ∧ cache_ok s' ∧
    read_result c off n r d ∧ remote_fd s' fd p (off + r) c ∧ fs_frame (Some fd) s s'.
Proof.
  intros Hc Hh Hn Hlen. pose proof Hh as (Hfd & Hoff & Hm & Hp & q & Hq & Hqc).
  destruct (sys_read fd n (srv_os s)) as [[r d] w] eqn:Hr.
  pose proof (read_succeeds fd n (srv_os s) q off c (proj1 Hn) Hoff Hq Hqc) as Hne.
  rewrite Hr in Hne; simpl in Hne.
  destruct (read_law _ _ _ _ _ _ (proj1 Hn) Hr) as (Hf & Hoth & Hdata).
  destruct (Hdata _ _ _ Hq Hqc) as [[-> _]|[Hres Hfd']]; [done|]. clear Hdata.
  pose proof (read_names_law fd n (srv_os s)) as Hnm. rewrite Hr in Hnm. pose proof Hres as (Hrn & _ & Hd & _).
  eexists r, d, _. split.
  { apply serve_read_eq; simpl; [done|word|lia|done|by apply calloc_succeeds| |lia|done].
    unfold read_syscall; simpl. by rewrite u64_small by word. }
  split; [by apply (cache_ok_same_files s)|]. split; [done|]. split.
  - unfold remote_fd; simpl. split_and!; try lia; [done|by rewrite Hf|].
    eexists. split; [done|]. by rewrite Hf.
  - apply frame_keep; simpl; [done|]. intros fd' Hne'. split; [done|].
    apply Hoth. congruence.
Qed.

Lemma server_pread_law s fd p pos c n len off :
  cache_ok s → remote_fd s fd p pos c → 0 ≤ n < 2 ^ 31 → n ≤ len → 0 ≤ off →
  ∃ r d s', serve_read (RpcIn n len fd off) s = Ok (RpcOut r, d, s') ∧ cache_ok s' ∧
    read_result c off n r d ∧ fs_frame None s s'.
Proof.
  intros Hc Hh Hn Hlen Hoff. pose proof Hh as (Hfd & Hpos & Hm & Hp & q & Hq & Hqc).
  destruct (sys_pread fd n off (srv_os s)) as [[r d] w] eqn:Hr.
  pose proof (pread_succeeds fd n off (srv_os s) q pos c (proj1 Hn) Hoff Hq Hqc) as Hne.
  rewrite Hr in Hne; simpl in Hne.
  destruct (pread_law _ _ _ _ _ _ _ (proj1 Hn) Hr) as (Hf & Hfds & Hdata).
  destruct (Hdata _ _ _ Hq Hqc) as [->|[_ Hres]]; [done|]. clear Hdata.
  pose proof (pread_names_law fd n off (srv_os s)) as Hnm. rewrite Hr in Hnm. pose proof Hres as (Hrn & _ & Hd & _).
  eexists r, d, _. split.
  { apply serve_read_eq; simpl; [done|word|lia|done|by apply calloc_succeeds| |lia|done].
    unfold read_syscall; simpl. destruct (Z.eqb_spec off (-1)); [lia|].
    by rewrite u64_small by word. }
  split; [by apply (cache_ok_same_files s)|]. split; [done|].
  apply frame_keep; simpl; [done|]. intros fd' _. split; [done|]. apply Hfds.
Qed.

Lemma server_close_law s fd p off c :
  cache_ok s → remote_fd s fd p off c →
  ∃ s', hvac_close_rpc_handler hg (CloseIn fd) s = Ok (0, s') ∧ cache_ok s' ∧
    fs_frame (Some fd) s s' ∧ (fd_room (srv_os s) → fd_room (srv_os s')).
Proof.
  intros Hc (Hfd & Hoff & Hm & Hp & q & Hq & Hqc).
  destruct (sys_close fd (srv_os s)) as [r w] eqn:Hr.
  pose proof (close_succeeds fd (srv_os s) (mk_is_Some _ _ Hq)) as Hz.
  rewrite Hr in Hz; simpl in Hz; subst r.
  destruct (close_law _ _ _ _ Hr) as (Hf & Hoth & _).
  pose proof (close_names_law fd (srv_os s)) as Hnm. rewrite Hr in Hnm.
  eexists. split; [by apply close_handler_eq; [apply Hok|]|].
  split; [by apply (cache_ok_same_files s)|].
  split.
  - apply frame_keep; simpl; [done|]. intros fd' Hne. split; [|apply Hoth; congruence].
    rewrite lookup_delete_ne; [done|congruence].
  - intros (x & Hx & Hfree). exists x. split; [done|]. simpl. rewrite Hoth; congruence.
Qed.

Lemma server_seek_law s fd p pos c off whence b :
  cache_ok s → remote_fd s fd p pos c → seek_base c pos whence = Some b → 0 ≤ b + off < 2 ^ 63 →
  ∃ s', hvac_seek_rpc_handler hg (SeekIn fd off whence) s = Ok (SeekOut (i32 (b + off)), s') ∧
    cache_ok s' ∧ remote_fd s' fd p (b + off) c ∧ fs_frame (Some fd) s s'.
Proof.
  intros Hc (Hfd & Hpos & Hm & Hp & q & Hq & Hqc) Hb Hr.
  destruct (sys_lseek fd off whence (srv_os s)) as [r w] eqn:Hl.
  pose proof (lseek_succeeds _ _ _ _ _ _ _ _ Hq Hqc Hb Hr) as Hne. rewrite Hl in Hne; simpl in Hne.
  destruct (lseek_law _ _ _ _ _ _ Hl) as (Hf & Hoth & Hdata).
  destruct (Hdata _ _ _ _ Hq Hqc Hb) as [[-> _]|(-> & _ & Hnew)]; [done|]. clear Hdata.
  pose proof (lseek_names_law fd off whence (srv_os s)) as Hnm. rewrite Hl in Hnm.
  eexists. split; [by apply seek_handler_eq; [apply Hok|]|].
  split; [by apply (cache_ok_same_files s)|]. split.
  - unfold remote_fd; simpl. split; [done|]. split; [lia|]. split; [done|]. rewrite Hf. split; [done|].
    exists q. by rewrite Hf.
  - apply frame_keep; simpl; [done|]. intros fd' Hne'. split; [done|]. apply Hoth. congruence.
Qed.

Lemma server_negative_law s n len fd off :
  - 2 ^ 31 ≤ n < 0 → ∃ f, serve_read (RpcIn n len fd off) s = Fault f.
Proof.
  intros Hn. exists FAssert. unfold serve_read, mbind, M_bind.
  rewrite read_handler_no_memory; [done|apply Hok|]. apply calloc_law. simpl. word.
Qed.

#[export] Instance server_file_server_laws : FileServerLaws (server W).
Proof.
  split; simpl.
  - by intros s fd p off c (? & ? & _).
  - intros s p c Hc Hp Hr. by apply server_open_law.
  - intros s fd p off c n len Hc Hh Hn Hl.
    destruct (server_read_law _ _ _ _ _ _ _ Hc Hh Hn Hl) as (r & d & s' & -> & ?). eauto.
  - intros s fd p pos c n len off Hc Hh Hn Hl Ho.
    destruct (server_pread_law _ _ _ _ _ _ _ _ Hc Hh Hn Hl Ho) as (r & d & s' & -> & ?). eauto.
  - intros s n len fd off Hn.
    destruct (server_negative_law s n len fd off Hn) as [f Hf]. exists f. by rewrite Hf.
  - intros s fd p pos c off whence b Hc Hh Hb Hr. by eapply server_seek_law.
  - intros s fd p off c Hc Hh.
    destruct (server_close_law _ _ _ _ _ Hc Hh) as (s' & -> & ?). eauto.
Qed.
End FileService.

(** ** Properties *)

(** A server process that has just started in world [w]; its mover has not
    reached its first wait. *)
Definition fresh_server {W} (w : W) : server W :=
  Server ∅ ∅ [] MoverRunning [] (Heap ∅ 0) w.

Definition demo_world : RefPosix.world :=
  RefPosix.World {["/d/a" := [Byte.x61; Byte.x62; Byte.x63]]} {["/d"]} "/d" ∅ 0.

Section Properties.
Context {W : Type} `{!Posix W, !PosixLaws W} {hg : mercury}.
Implicit Types (s : server W).

(** A read that fails in the server ([read] or [pread] returns -1, for
    instance on a descriptor that was never opened) ends the server process:
    the size of the bulk transfer becomes [2^64-1] and the assertion on
    [HG_Bulk_transfer] fails, or an earlier one does. *)
Theorem read_error_aborts_server s inp d w :
  mercury_lawful hg → hg_get_input hg = HG_SUCCESS → is_i32 (input_val inp) →
  read_syscall inp (srv_os s) = (-1, d, w) →
  hvac_rpc_handler hg inp s = Fault FAssert.
Proof.
  intros Hl Hg Hi Hr. destruct s as [m pc q mv l h o]; simpl in *.
  unfold hvac_rpc_handler. unfold read_syscall in Hr. handler_run. rewrite Hg; simpl.
  destruct (sys_calloc (u64 (input_val inp)) o) eqn:Hc; simpl; [|done].
  destruct (hg_get_info hg); simpl; [|done].
  destruct (hg_bulk_create hg (u64 (input_val inp)) =? 0) eqn:Hb; simpl; rewrite Hb; [|done].
  assert (Hsmall : u64 (input_val inp) < u64 (-1)).
  { assert (u64 (input_val inp) ≠ u64 (-1)); [|word]. intros Heq.
    rewrite calloc_law in Hc; [done|]. rewrite Heq. word. }
  destruct (Z.eqb_spec (hg_bulk_transfer hg (bulk_handle inp) (u64 (input_val inp)) (u64 (-1))) 0)
    as [Ht|Ht]; [by apply Hl in Ht; auto|]. apply Z.eqb_neq in Ht.
  destruct (offset inp =? -1); simpl; rewrite Hr; simpl; by rewrite Ht.
Qed.

(** A read request whose 32-bit count is negative (a client count between
    [2^31] and [2^32-1]) asks [calloc] for more than any object can hold and
    ends the server process. *)
Theorem negative_count_aborts_server s inp :
  hg_get_input hg = HG_SUCCESS → - 2 ^ 31 ≤ input_val inp < 0 → hvac_rpc_handler hg inp s = Fault FAssert.
Proof.
  intros Hg Hi. apply read_handler_no_memory, calloc_law; [done|]. word.
Qed.

(** A close request for a descriptor the server does not have open, such as
    the -1 of an open that failed on the server, ends the server process. *)
Theorem close_bad_descriptor_aborts_server s fd :
  fd_at (srv_os s) fd = None → hvac_close_rpc_handler hg (CloseIn fd) s = Fault FAssert.
Proof.
  intros Hfd. apply close_bad_law in Hfd. destruct s as [m pc q mv l h o]; simpl in *.
  unfold hvac_close_rpc_handler. handler_run. on_input.
  destruct (sys_close fd o) as [r w]; simpl in *. by subst r.
Qed.

(** The close handler forgets the descriptor, appends its path to the
    mover's queue exactly when the path has no cached copy, and wakes the mover
    exactly when it enqueued and the mover was waiting. *)
Theorem close_enqueues_uncached s fd p w :
  hg_get_input hg = HG_SUCCESS → fd_to_path s !! fd = Some p →
  sys_close fd (srv_os s) = (0, w) →
  ∃ s', hvac_close_rpc_handler hg (CloseIn fd) s = Ok (0, s') ∧
    fd_to_path s' = delete fd (fd_to_path s) ∧ path_cache_map s' = path_cache_map s ∧
    srv_os s' = w ∧
    match path_cache_map s !! p with
    | Some _ => data_queue s' = data_queue s ∧ mover s' = mover s
    | None => data_queue s' = data_queue s ++ [p] ∧ mover s' ≠ MoverWaiting ∧
              (mover s ≠ MoverWaiting → mover s' = mover s)
    end.
Proof.
  intros Hg Hp Hc. eexists. split; [by apply close_handler_eq|]. simpl.
  rewrite Hp; simpl. unfold map_absent.
  destruct (path_cache_map s !! p); simpl; [done|]. by destruct (mover s).
Qed.

(** The open handler opens the cached copy when there is one, else the file
    itself, answers the server's descriptor, and files the original name under
    it, -1 included. *)
Theorem open_redirects s p fd w :
  hg_get_input hg = 0 →
  sys_open (default p (path_cache_map s !! p)) O_RDONLY 0 (srv_os s) = (fd, w) →
  ∃ s', hvac_open_rpc_handler hg (OpenIn p) s = Ok (OpenOut fd, s') ∧
    fd_to_path s' = <[fd := p]> (fd_to_path s) ∧ srv_os s' = w ∧
    path_cache_map s' = path_cache_map s ∧ data_queue s' = data_queue s.
Proof.
  intros Hg Ho. eexists. split; [apply open_handler_eq; [done|]|done].
  unfold redirect. by destruct (path_cache_map s !! p).
Qed.

(** *** What requests leave behind *)

(** A request, as the progress thread handles it. *)
Inductive rpc :=
  | RpcOpen (inp : hvac_open_in_t)
  | RpcRead (inp : hvac_rpc_in_t)
  | RpcSeek (inp : hvac_seek_in_t)
  | RpcClose (inp : hvac_close_in_t).

Definition serve (r : rpc) : M (server W) unit :=
  match r with
  | RpcOpen inp => hvac_open_rpc_handler hg inp;; mret tt
  | RpcRead inp => serve_read (hg := hg) inp;; mret tt
  | RpcSeek inp => hvac_seek_rpc_handler hg inp;; mret tt
  | RpcClose inp => hvac_close_rpc_handler hg inp;; mret tt
  end.

Fixpoint serve_all (l : list rpc) : M (server W) unit :=
  match l with
  | [] => mret tt
  | r :: l => serve r;; serve_all l
  end.

Definition is_read (r : rpc) : bool := match r with RpcRead _ => true | _ => false end.

(** No identity beyond the next one is in use. *)
Definition heap_ok (h : heap) : Prop := ∀ i, (next_object h ≤ i)%nat → objects h !! i = None.

(** How many objects of a kind are alive. *)
Definition alive (k : object) (h : heap) : nat := size (filter (λ ik, ik.2 = k) (objects h)).

Lemma heap_ok_holding ks : ∀ h, heap_ok h → heap_ok (holding ks h).
Proof.
  induction ks as [|k ks IH]; intros h Hh; [done|]. apply IH. intros i Hi. simpl in *.
  rewrite lookup_insert_ne by lia. apply Hh. lia.
Qed.

Lemma alive_insert k k' i n h :
  heap_ok h → (next_object h ≤ i)%nat →
  alive k (Heap (<[i := k']> (objects h)) n) = (alive k h + (if decide (k' = k) then 1 else 0))%nat.
Proof.
  intros Hh Hi. unfold alive. simpl. case_decide.
  - rewrite map_filter_insert_True by done. rewrite map_size_insert_None; [lia|].
    apply map_lookup_filter_None. left. by apply Hh.
  - rewrite map_filter_insert_False, delete_id by (done || by apply Hh). lia.
Qed.

(** Of the objects of a read only the decoded input is left. *)
Lemma after_read_eq h :
  heap_ok h →
  after_read h = Heap (<[S (S (next_object h)) := OInput]> (objects h)) (5 + next_object h).
Proof.
  intros Hh. unfold after_read. f_equal. apply map_eq. intros i. simpl.
  destruct (decide (i < next_object h)%nat) as [Hi|Hi]; [by simplify_map_eq by lia|].
  assert (objects h !! i = None) by (apply Hh; lia).
  destruct (decide (i = S (S (next_object h)))) as [->|]; [by simplify_map_eq by lia|].
  rewrite (lookup_insert_ne (objects h) (S (S (next_object h))) i) by lia.
  destruct (decide (i ≤ S (S (S (S (next_object h)))))%nat).
  - assert (i = next_object h ∨ i = S (next_object h) ∨ i = S (S (S (next_object h))) ∨
            i = S (S (S (S (next_object h))))) as [-> | [-> | [-> | ->]]] by lia;
      by simplify_map_eq by lia.
  - by simplify_map_eq by lia.
Qed.

Lemma read_handler_held inp s :
  hg_get_input hg = HG_SUCCESS →
  match hvac_rpc_handler hg inp s with
  | Ok (x, s') => ∃ r d, x.1 = (S (next_object (held s)), read_state (held s) r d inp) ∧
      held s' = holding [OHandle; OBlock; OInput; OBlock; OBulk] (held s)
  | Fault f => f = FAssert
  end.
Proof.
  intros Hg. destruct s as [m pc q mv l h o]. unfold hvac_rpc_handler. handler_run. rewrite Hg; simpl.
  destruct (sys_calloc _ o); simpl; [|done]. destruct (hg_get_info hg); simpl; [|done].
  destruct (hg_bulk_create hg _ =? 0) eqn:Hb; simpl; rewrite Hb; [|done].
  destruct (offset inp =? -1); simpl;
    (destruct (sys_read _ _ _) as [[x d] w] || destruct (sys_pread _ _ _ _) as [[x d] w]); simpl;
    (destruct (hg_bulk_transfer hg _ _ _ =? 0); simpl; [|done]); by exists x, d.
Qed.

(** One request: what it leaves alive, and how it can fail. *)
Lemma serve_held r s :
  hg_get_input hg = HG_SUCCESS →
  match serve r s with
  | Ok (_, s') => held s' = (if is_read r then after_read else holding [OHandle; OInput]) (held s)
  | Fault f => f = FAssert
  end.
Proof.
  intros Hg. destruct r as [inp|inp|inp|inp]; simpl.
  - destruct s as [m pc q mv l h o]. unfold hvac_open_rpc_handler. handler_run. rewrite Hg; simpl.
    by destruct (sys_open _ _ _ _).
  - pose proof (read_handler_held inp s Hg) as Hrd. unfold serve_read, mbind, M_bind.
    destruct (hvac_rpc_handler hg inp s) as [[[[arg p] data] s1]|f]; [|done].
    destruct Hrd as (r & d & [= -> ->] & Hh). cbn [fst snd].
    destruct (Z.eqb_spec (hg_bulk_status hg) 0) as [Hb|Hb].
    2: { apply Z.eqb_neq in Hb. unfold hvac_rpc_handler_bulk_cb. run_monad. by rewrite Hb. }
    destruct (Z.eqb_spec (hg_respond hg) 0) as [Hr|Hr].
    2: { apply Z.eqb_neq in Hr. unfold hvac_rpc_handler_bulk_cb, HG_SUCCESS. run_monad. by rewrite Hb, Hr. }
    by rewrite (bulk_cb_eq hg s1 (held s)).
  - destruct s as [m pc q mv l h o]. unfold hvac_seek_rpc_handler. handler_run. rewrite Hg; simpl.
    by destruct (sys_lseek _ _ _ _).
  - destruct s as [m pc q mv l h o]. unfold hvac_close_rpc_handler. handler_run. rewrite Hg; simpl.
    destruct (sys_close _ _) as [x w]; simpl. destruct (x =? 0); simpl; [|done].
    destruct (map_index "" m (close_fd inp)) as [p m']; simpl.
    destruct (map_absent pc p); simpl; destruct mv; simpl;
      by try destruct (map_index "" m' (close_fd inp)).
Qed.

Lemma serve_all_held l : ∀ s s',
  hg_get_input hg = HG_SUCCESS → heap_ok (held s) → serve_all l s = Ok (tt, s') →
  ∀ k, alive k (held s') =
    (alive k (held s) + match k with
                        | OHandle => length (filter (λ r, is_read r = false) l)
                        | OInput => length l
                        | _ => 0
                        end)%nat.
Proof.
  induction l as [|r l IH]; intros s s' Hg Hh Hrun k; simpl in Hrun.
  { injection Hrun as <-. destruct k; simpl; lia. }
  unfold mbind, M_bind in Hrun. pose proof (serve_held r s Hg) as Hr.
  destruct (serve r s) as [[[] s1]|]; [|done]. rewrite filter_cons.
  assert (Hone : heap_ok (held s1) ∧ alive k (held s1) =
    (alive k (held s) + match k with
                        | OHandle => if is_read r then 0 else 1
                        | OInput => 1
                        | _ => 0
                        end)%nat).
  { rewrite Hr. destruct (is_read r).
    - rewrite (after_read_eq _ Hh). split.
      + intros i Hi. simpl in *. rewrite lookup_insert_ne by lia. apply Hh. lia.
      + rewrite alive_insert by (done || lia). by destruct k.
    - split; [by apply heap_ok_holding|].
      pose proof (heap_ok_holding [OHandle] _ Hh) as Hh1. simpl in *.
      rewrite (alive_insert k OInput _ _ _ Hh1) by done.
      rewrite (alive_insert k OHandle _ _ _ Hh) by done. destruct k; simpl; lia. }
  destruct Hone as [Hh1 Hk1]. rewrite (IH s1 s' Hg Hh1 Hrun k), Hk1.
  destruct k, (is_read r); simpl; lia.
Qed.

(** C37: a server gives back less than it is handed.  However many requests it
    serves, each leaves its decoded input alive, and each that is not a read its
    handle, so that what is alive grows with the number of requests; of the
    buffers, states and bulk handles of reads nothing is left.  And no request
    gives back what is not alive: one that fails does so by an assertion. *)
Theorem requests_left_alive l s s' :
  hg_get_input hg = HG_SUCCESS → heap_ok (held s) → serve_all l s = Ok (tt, s') →
  alive OInput (held s') = (alive OInput (held s) + length l)%nat ∧
  alive OHandle (held s') = (alive OHandle (held s) + length (filter (λ r, is_read r = false) l))%nat ∧
  alive OBulk (held s') = alive OBulk (held s) ∧ alive OBlock (held s') = alive OBlock (held s) ∧
  ∀ r f, serve r s' = Fault f → f = FAssert.
Proof.
  intros Hg Hh Hrun. pose proof (serve_all_held l s s' Hg Hh Hrun) as Hk.
  split_and!; [apply Hk|apply Hk|by rewrite (Hk OBulk), Nat.add_0_r|by rewrite (Hk OBlock), Nat.add_0_r|].
  intros r f Hf. pose proof (serve_held r s' Hg) as Hr. by rewrite Hf in Hr.
Qed.

(** The seek handler answers the new offset cut to 32 bits: exact below
    [2^31], and never the true offset from [2^31] on. *)
Theorem seek_truncates s fd off whence r w :
  hg_get_input hg = 0 → sys_lseek fd off whence (srv_os s) = (r, w) →
  ∃ s' o, hvac_seek_rpc_handler hg (SeekIn fd off whence) s = Ok (SeekOut o, s') ∧
    srv_os s' = w ∧ (is_i32 r → o = r) ∧ (2 ^ 31 ≤ r → o ≠ r).
Proof.
  intros Hg Hl. eexists _, _. split; [by apply seek_handler_eq|]. split; [done|].
  split; [apply i32_small|]. intros Hr Heq. pose proof (i32_range r). word.
Qed.
End Properties.

(** ** Witnesses *)

#[local] Existing Instance demo_mercury.

(** The demonstration server after a client has opened its file. *)
Definition demo_serving : server RefPosix.world :=
  match hvac_open_rpc_handler demo_mercury (OpenIn "/d/a") (fresh_server demo_world) with
  | Ok (_, s) => s
  | Fault _ => fresh_server demo_world
  end.

Lemma read_error_aborts_server_witness :
  hvac_rpc_handler demo_mercury (RpcIn 4 4 9 (-1)) (fresh_server demo_world) = Fault FAssert.
Proof.
  apply (read_error_aborts_server (fresh_server demo_world) (RpcIn 4 4 9 (-1)) [] demo_world);
    [apply demo_mercury_ok|done|by vm_compute|by vm_compute].
Defined.

Lemma negative_count_aborts_server_witness :
  hvac_rpc_handler demo_mercury (RpcIn (-2) 4294967294 0 (-1)) demo_serving = Fault FAssert.
Proof. apply (negative_count_aborts_server demo_serving); [done|simpl; lia]. Defined.

Lemma close_bad_descriptor_aborts_server_witness :
  hvac_close_rpc_handler demo_mercury (CloseIn (-1)) demo_serving = Fault FAssert.
Proof. by apply (close_bad_descriptor_aborts_server demo_serving). Defined.

Lemma close_enqueues_uncached_witness :
  ∃ s', hvac_close_rpc_handler demo_mercury (CloseIn 0) demo_serving = Ok (0, s') ∧
    data_queue s' = ["/d/a"].
Proof.
  destruct (close_enqueues_uncached (hg := demo_mercury) demo_serving 0 "/d/a" demo_world)
    as (s' & Hrun & _ & _ & _ & Hq & _); [done|by vm_compute|by vm_compute|].
  exists s'. split; [exact Hrun|]. by rewrite Hq.
Defined.

Lemma open_redirects_witness :
  ∃ s', hvac_open_rpc_handler demo_mercury (OpenIn "/d/none") (fresh_server demo_world) =
        Ok (OpenOut (-1), s') ∧ fd_to_path s' = {[-1 := "/d/none"]}.
Proof.
  destruct (open_redirects (hg := demo_mercury) (fresh_server demo_world) "/d/none" (-1) demo_world)
    as (s' & Hrun & Hm & _); [done|by vm_compute|].
  exists s'. by split.
Defined.

(** Open, read and close the demonstration file. *)
Definition demo_rpcs : list rpc :=
  [RpcOpen (OpenIn "/d/a"); RpcRead (RpcIn 2 2 0 (-1)); RpcClose (CloseIn 0)].
Definition demo_served : server RefPosix.world :=
  match serve_all demo_rpcs (fresh_server demo_world) with
  | Ok (_, s) => s
  | Fault _ => fresh_server demo_world
  end.

Lemma requests_left_alive_witness :
  alive OInput (held demo_served) = 3%nat ∧ alive OHandle (held demo_served) = 2%nat.
Proof.
  destruct (requests_left_alive (hg := demo_mercury) demo_rpcs (fresh_server demo_world) demo_served)
    as (Hi & Hh & _); [done|by intros i _|by vm_compute|]. rewrite Hi, Hh. split; vm_compute; reflexivity.
Defined.

Lemma seek_truncates_witness :
  ∃ s' o, hvac_seek_rpc_handler demo_mercury (SeekIn 0 (2 ^ 32) SEEK_SET) demo_serving =
          Ok (SeekOut o, s') ∧ o ≠ 2 ^ 32.
Proof.
  destruct (sys_lseek 0 (2 ^ 32) SEEK_SET (srv_os demo_serving)) as [r w] eqn:Hl.
  destruct (seek_truncates (hg := demo_mercury) demo_serving 0 (2 ^ 32) SEEK_SET r w)
    as (s' & o & Hrun & _ & _ & Hbig); [done|exact Hl|].
  vm_compute in Hl. injection Hl as <- <-. exists s', o. split; [exact Hrun|]. apply Hbig. lia.
Defined.
