(* ===== verification/DataMover.v ===== *)
(** * The data mover ([hvac_data_mover.cpp]) and the server as a transition system

    The loop of [hvac_data_mover_fn] as a function on the server's state and as
    steps interleaved with the request handlers; coherence of the cache in
    every reachable state; completeness of a round of the mover; and the wakeup
    it can miss. *)
From S2P Require Import Prelude CLib Posix Rpc Server.

Section Mover.
Context {W : Type} `{!Posix W} {hg : mercury}.
Implicit Types (s : server W).

(** ** The thread *)

(** Before the loop: [string(getenv("BBPATH"))] throws when it is not set. *)
Definition mover_start (e : environ) : outcome string :=
  match getenv e "BBPATH" with
  | Some b => Ok (b +:+ "/XXXXXX")
  | None => Fault (FThrow "logic_error")
  end.

(** Move the shared queue to the end of the local list, one by one. *)
Fixpoint drain (queue local : list string) : list string :=
  match queue with
  | [] => local
  | x :: queue => drain queue (local ++ [x])
  end.

Definition mover_drain : M (server W) unit :=
  modify (λ s, set_data_queue [] (set_local_list (drain (data_queue s) (local_list s)) s)).

(** One turn of the copy loop, for the front [p] of the local list.  When the
    copy throws, the handler passes [std::filesystem::path] objects to [fprintf]
    for [%s], which has no defined behaviour. *)
Definition mover_copy_front (nvmepath p : string) : M (server W) unit :=
  newdir ← malloc;
  dir ← server_os (sys_mkdtemp nvmepath);
  let filename := dir.1 +:+ "/" +:+ filename p in
  copied ← server_os (sys_copy p filename);
  (if copied : bool
   then modify (λ s, set_path_cache (<[p := filename]> (path_cache_map s)) s)
   else fail FUndefined);;
  modify (λ s, set_local_list (tail (local_list s)) s).

Fixpoint mover_copy_all (nvmepath : string) (l : list string) : M (server W) unit :=
  match l with
  | [] => mret tt
  | p :: l => mover_copy_front nvmepath p;; mover_copy_all nvmepath l
  end.

(** The body of the outer loop after [pthread_cond_wait] has returned. *)
Definition mover_round (nvmepath : string) : M (server W) unit :=
  mover_drain;;
  l ← gets local_list;
  mover_copy_all nvmepath l.

(** ** Steps *)

(** [pthread_cond_wait] returns after a signal, and POSIX permits it to return
    without one: the code waits without testing anything, so either way it goes
    on with the body of the loop. *)
Inductive mover_step (nvmepath : string) : server W → server W → Prop :=
  | mover_wakes s s' :
      mover s ≠ MoverRunning → mover_drain s = Ok (tt, s') →
      mover_step nvmepath s (set_mover MoverRunning s')
  | mover_copies s p l s' :
      mover s = MoverRunning → local_list s = p :: l →
      mover_copy_front nvmepath p s = Ok (tt, s') →
      mover_step nvmepath s s'
  | mover_waits s :
      mover s = MoverRunning → local_list s = [] →
      mover_step nvmepath s (set_mover MoverWaiting s).

Inductive handler_step : server W → server W → Prop :=
  | handles_open inp o s s' : hvac_open_rpc_handler hg inp s = Ok (o, s') → handler_step s s'
  | handles_read inp o s s' : serve_read inp s = Ok (o, s') → handler_step s s'
  | handles_seek inp o s s' : hvac_seek_rpc_handler hg inp s = Ok (o, s') → handler_step s s'
  | handles_close inp o s s' : hvac_close_rpc_handler hg inp s = Ok (o, s') → handler_step s s'.

Definition server_step (nvmepath : string) (s s' : server W) : Prop :=
  mover_step nvmepath s s' ∨ handler_step s s'.

(** ** Lemmas *)

Lemma drain_app q l : drain q l = l ++ q.
Proof.
  revert l. induction q as [|x q IH]; intros l; simpl; [by rewrite app_nil_r|].
  by rewrite IH, <- app_assoc.
Qed.

Lemma mover_drain_eq s :
  mover_drain s = Ok (tt, set_data_queue [] (set_local_list (local_list s ++ data_queue s) s)).
Proof. unfold mover_drain, modify. by rewrite drain_app. Qed.

(** Copying the front caches its path, or has no defined behaviour. *)
Definition front_copied s (p : string) s' : Prop :=
  local_list s' = tail (local_list s) ∧ data_queue s' = data_queue s ∧ mover s' = mover s ∧
  fd_to_path s' = fd_to_path s ∧ ∃ dst, path_cache_map s' = <[p := dst]> (path_cache_map s).

Lemma mover_copy_front_cases nvmepath s p :
  (∃ s', mover_copy_front nvmepath p s = Ok (tt, s') ∧ front_copied s p s') ∨
  mover_copy_front nvmepath p s = Fault FUndefined.
Proof.
  destruct s as [m pc q mv l h o]. unfold mover_copy_front. handler_run.
  destruct (sys_mkdtemp nvmepath o) as [[d ok] w]; simpl.
  destruct (sys_copy p (d +:+ "/" +:+ filename p) w) as [[|] w']; simpl; [left|by right].
  eexists. split; [done|]. split_and!; try done. by eexists.
Qed.

Lemma mover_copy_front_Ok nvmepath s p s' :
  mover_copy_front nvmepath p s = Ok (tt, s') → front_copied s p s'.
Proof.
  intros H. destruct (mover_copy_front_cases nvmepath s p) as [(s1 & H1 & Hc)|H1]; [|congruence].
  rewrite H in H1. by injection H1 as <-.
Qed.

Lemma front_copied_caches s p s' p' :
  front_copied s p s' → p' = p ∨ is_Some (path_cache_map s !! p') → is_Some (path_cache_map s' !! p').
Proof.
  intros (_ & _ & _ & _ & dst & ->) Hp. rewrite lookup_insert. case_decide as Hd; [by eexists|].
  destruct Hp as [->|?]; [by destruct Hd|done].
Qed.

Context `{!PosixLaws W}.

(** An assumption on the deployment.  After a failed [mkdtemp] the source copies
    to a name below whatever is left in the buffer; no directory is found under
    that name.  [failed_mkdtemp_breaks_cache] says what happens otherwise. *)
Definition scratch_clean (nvmepath : string) : Prop :=
  ∀ w d w' name, plain_name name = true → sys_mkdtemp nvmepath w = (d, false, w') →
    dir_at w' (d +:+ "/" +:+ name) = false.

(** Handles survive a step that keeps files, table and open files. *)
Lemma remote_fd_keeps s s' fd p off c :
  keeps_files (srv_os s) (srv_os s') → fd_to_path s' = fd_to_path s →
  same_fds (srv_os s) (srv_os s') →
  remote_fd s fd p off c → remote_fd s' fd p off c.
Proof.
  intros Hf Hm Hfd (? & ? & ? & ? & q & ? & ?). unfold remote_fd.
  rewrite Hm, Hfd. split_and!; try done; try lia; [by apply Hf|]. exists q. auto.
Qed.

Lemma mover_copy_front_coherent nvmepath s p s' :
  scratch_clean nvmepath → cache_ok s → mover_copy_front nvmepath p s = Ok (tt, s') →
  cache_ok s' ∧ fs_frame None s s'.
Proof.
  intros Hclean Hc. destruct s as [m pc q mv l h o]. unfold mover_copy_front. handler_run.
  destruct (sys_mkdtemp nvmepath o) as [[d ok] w] eqn:Ht; simpl.
  set (dst := d +:+ "/" +:+ filename p).
  destruct (sys_copy p dst w) as [copied w'] eqn:Hcp; simpl.
  destruct (mkdtemp_law _ _ _ _ _ Ht) as (Hf & Hd & Hfds & Hok).
  destruct (copy_law _ _ _ _ _ Hcp) as (Hk & Hkd & Hfds' & Hdst).
  assert (Hkeep : keeps_files o w') by (intros x c Hx; apply Hk; by rewrite Hf).
  assert (Hkeepd : keeps_dirs o w') by (intros x Hx; by apply Hkd, Hd).
  destruct copied; simpl; [|done]. intros [= <-]. split.
  - intros x y. simpl. rewrite lookup_insert. case_decide as Hx.
    2: { intros Hxy. eapply copied_keeps; [exact Hkeep|exact Hkeepd|by apply Hc]. }
    intros [= <-]. subst x. destruct (Hdst eq_refl) as [(c & Hp & Hnew)|[? ?]].
    + left. exists c. split; [by apply Hk|]. apply Hnew. destruct (file_name_law _ _ _ Hp) as [Hn _].
      destruct ok; [by apply Hok|]. by apply (Hclean _ _ _ _ Hn Ht).
    + right. split; [by apply Hkd|done].
  - split; [by intros x c; apply Hkeep|].
    intros fd x off c _. apply remote_fd_keeps; simpl; [done..|]. intros fd'. by rewrite Hfds'.
Qed.

Lemma mover_step_coherent nvmepath s s' :
  scratch_clean nvmepath → mover_step nvmepath s s' → cache_ok s →
  cache_ok s' ∧ fs_frame None s s'.
Proof.
  intros Hclean Hstep Hc. destruct Hstep as [s s1 _ H1|s p l s1 _ _ H1|s _ _].
  - rewrite mover_drain_eq in H1. injection H1 as <-. split; [done|]. by split.
  - by apply (mover_copy_front_coherent nvmepath s p).
  - split; [done|]. by split.
Qed.

(** A handler that returns changes neither files nor cache. *)
Lemma handler_step_files s s' :
  handler_step s s' →
  same_files (srv_os s) (srv_os s') ∧ same_names (srv_os s) (srv_os s') ∧
  path_cache_map s' = path_cache_map s.
Proof.
  intros Hstep. destruct Hstep as [inp o s s' H|inp [o d] s s' H|inp o s s' H|inp o s s' H].
  - revert H. destruct s as [m pc q mv l h w]. unfold hvac_open_rpc_handler. handler_run. on_input.
    destruct (sys_open _ _ _ _) as [fd w'] eqn:Hs. intros [= <- <-].
    destruct (open_law _ O_RDONLY _ _ _ _ eq_refl Hs). split; [done|]. split; [|done]. by eapply (open_names_law _ O_RDONLY).
  - destruct (serve_read_Ok _ _ _ _ H) as (r & d' & w & h & Hr & ->). simpl.
    unfold read_syscall in Hr. assert (0 ≤ u64 (input_val inp)) as Hn by apply u64_range.
    destruct (offset inp =? -1).
    + destruct (read_law _ _ _ _ _ _ Hn Hr) as [Hf _].
      pose proof (read_names_law (accessfd inp) (u64 (input_val inp)) (srv_os s)) as Hnm.
      by rewrite Hr in Hnm.
    + destruct (pread_law _ _ _ _ _ _ _ Hn Hr) as [Hf _].
      pose proof (pread_names_law (accessfd inp) (u64 (input_val inp)) (offset inp) (srv_os s)) as Hnm.
      by rewrite Hr in Hnm.
  - revert H. destruct s as [m pc q mv l h w]. unfold hvac_seek_rpc_handler. handler_run. on_input.
    destruct (sys_lseek _ _ _ _) as [r w'] eqn:Hs. intros [= <- <-].
    destruct (lseek_law _ _ _ _ _ _ Hs) as [Hf _].
    pose proof (lseek_names_law (seek_fd inp) (seek_offset inp) (seek_whence inp) w) as Hnm.
    by rewrite Hs in Hnm.
  - revert H. destruct s as [m pc q mv l h w]. unfold hvac_close_rpc_handler. handler_run. on_input.
    destruct (sys_close _ _) as [x w'] eqn:Hs; simpl. destruct (close_law _ _ _ _ Hs) as [Hf _].
    pose proof (close_names_law (close_fd inp) w) as Hnm. rewrite Hs in Hnm.
    destruct (x =? 0); simpl; [|done].
    destruct (map_index "" m (close_fd inp)) as [p m']; simpl.
    destruct (map_absent pc p); simpl; destruct mv; simpl;
      try destruct (map_index "" m' (close_fd inp)); simpl; by intros [= <- <-].
Qed.

(** Only a close of a file without a cached copy touches the mover. *)
Lemma handler_step_mover s s' :
  handler_step s s' →
  mover s' = mover s ∨
  ∃ fd o, hvac_close_rpc_handler hg (CloseIn fd) s = Ok (o, s') ∧
    path_cache_map s !! default "" (fd_to_path s !! fd) = None.
Proof.
  intros Hstep. destruct Hstep as [inp o s s' H|inp [o d] s s' H|inp o s s' H|[fd] o s s' H].
  - left. revert H. destruct s as [m pc q mv l h w]. unfold hvac_open_rpc_handler. handler_run.
    on_input. destruct (sys_open _ _ _ _). by intros [= <- <-].
  - left. by destruct (serve_read_Ok _ _ _ _ H) as (r & d' & w & h & _ & ->).
  - left. revert H. destruct s as [m pc q mv l h w]. unfold hvac_seek_rpc_handler. handler_run.
    on_input. destruct (sys_lseek _ _ _ _). by intros [= <- <-].
  - destruct (path_cache_map s !! default "" (fd_to_path s !! fd)) as [q|] eqn:Hpc;
      [left|right; by eexists _, _].
    revert H. destruct s as [m pc q' mv l h w]. simpl in Hpc.
    unfold hvac_close_rpc_handler. handler_run. on_input.
    destruct (sys_close _ _) as [x w']; simpl. destruct (x =? 0); simpl; [|done].
    unfold map_index, map_absent. destruct (m !! fd); simpl in *; rewrite Hpc; simpl;
      by intros [= <- <-].
Qed.

Lemma server_step_coherent nvmepath s s' :
  scratch_clean nvmepath → server_step nvmepath s s' → cache_ok s → cache_ok s'.
Proof.
  intros Hclean [Hs|Hs] Hc; [by eapply mover_step_coherent|].
  destruct (handler_step_files _ _ Hs) as (? & ? & ?). by apply (cache_ok_same_files s).
Qed.

Lemma rtc_coherent nvmepath s s' :
  scratch_clean nvmepath → rtc (server_step nvmepath) s s' → cache_ok s → cache_ok s'.
Proof. intros Hclean. induction 1; eauto using server_step_coherent. Qed.

(** A step of a mover that is not waiting. *)
Definition busy_step (nvmepath : string) (s s' : server W) : Prop :=
  mover s = MoverRunning ∧ mover_step nvmepath s s'.

(** A mover about to copy a path that cannot be copied. *)
Definition copy_undefined (nvmepath : string) s : Prop :=
  mover s = MoverRunning ∧ ∃ p l, local_list s = p :: l ∧
    mover_copy_front nvmepath p s = Fault FUndefined.

Definition cached s (p : string) : Prop := is_Some (path_cache_map s !! p).

(** A running mover empties its list and waits, or comes to a path it cannot
    copy. *)
Lemma mover_copies_steps nvmepath l : ∀ s,
  mover s = MoverRunning → local_list s = l →
  ∃ s', rtc (busy_step nvmepath) s s' ∧
    data_queue s' = data_queue s ∧ fd_to_path s' = fd_to_path s ∧
    (copy_undefined nvmepath s' ∨
     (mover s' = MoverWaiting ∧ local_list s' = [] ∧ ∀ p, p ∈ l ∨ cached s p → cached s' p)).
Proof.
  induction l as [|p l IH]; intros s Hm Hl.
  { exists (set_mover MoverWaiting s). split; [apply rtc_once; split; [done|by apply mover_waits]|].
    do 2 (split; [done|]). right. do 2 (split; [done|]). by intros p [?%not_elem_of_nil|?]. }
  destruct (mover_copy_front_cases nvmepath s p) as [(s1 & H1 & Hc)|H1].
  2: { exists s. split; [done|]. do 2 (split; [done|]). left. split; [done|]. by exists p, l. }
  pose proof (front_copied_caches s p s1) as Hcache. pose proof Hc as (Hl1 & Hq1 & Hm1 & Hf1 & _).
  rewrite Hl in Hl1. destruct (IH s1) as (s2 & Hst & Hq & Hf & Hend); [congruence|done|].
  exists s2. split; [eapply rtc_l; [split; [done|by eapply mover_copies]|done]|].
  split; [congruence|]. split; [congruence|]. destruct Hend as [?|(? & ? & Hall)]; [by left|right].
  do 2 (split; [done|]). intros p' Hp'. apply Hall.
  destruct Hp' as [[->|Hp']%elem_of_cons|Hp']; [right|by left|right]; apply Hcache; auto.
Qed.

End Mover.

(** ** Properties *)

Section Properties.
Context {W : Type} `{!Posix W, !PosixLaws W} {hg : mercury}.
Implicit Types (s : server W).

(** In every state a server can reach by handling requests and by mover
    steps, in any interleaving, each cached copy has exactly the contents of
    the file it stands for. *)
Theorem cache_coherent_reachable nvmepath w s :
  scratch_clean (W := W) nvmepath →
  rtc (server_step nvmepath) (fresh_server w) s → cache_ok s.
Proof. intros Hclean Hr. by apply (rtc_coherent _ _ _ Hclean Hr). Qed.

(** C14: copying to the cache disturbs no client: a mover step keeps every file
    and every open handle with its offset and contents. *)
Theorem mover_preserves_handles nvmepath s s' :
  scratch_clean (W := W) nvmepath → cache_ok s → mover_step nvmepath s s' →
  cache_ok s' ∧
  (∀ p c, file_at (srv_os s) p = Some c → file_at (srv_os s') p = Some c) ∧
  (∀ fd p off c, remote_fd s fd p off c → remote_fd s' fd p off c).
Proof.
  intros Hclean Hc Hs. destruct (mover_step_coherent _ _ _ Hclean Hs Hc) as [? [Hf Hh]].
  split; [done|]. split; [exact Hf|]. intros fd p off c. by apply Hh.
Qed.

(** C13: a mover whose wait returns comes to an end.  In finitely many steps it
    either waits again with both lists empty and a cached copy of every path it
    found queued, or is at a path that [std::filesystem::copy] refuses, where
    the code that should report the failure has no defined behaviour. *)
Theorem mover_round_complete nvmepath s :
  mover s ≠ MoverRunning →
  ∃ s', rtc (mover_step nvmepath) s s' ∧ data_queue s' = [] ∧ fd_to_path s' = fd_to_path s ∧
    (copy_undefined nvmepath s' ∨
     (mover s' = MoverWaiting ∧ local_list s' = [] ∧
      ∀ p, p ∈ data_queue s ∨ p ∈ local_list s ∨ cached s p → cached s' p)).
Proof.
  intros Hm. pose proof (mover_drain_eq s) as Hd.
  set (s1 := set_mover MoverRunning
               (set_data_queue [] (set_local_list (local_list s ++ data_queue s) s))).
  destruct (mover_copies_steps nvmepath (local_list s ++ data_queue s) s1)
    as (s2 & Hst & Hq & Hf & Hend); [done..|].
  exists s2. split; [eapply rtc_l; [by apply mover_wakes|]|].
  { eapply rtc_subrel, Hst. by intros x y [_ ?]. }
  do 2 (split; [done|]). destruct Hend as [?|(? & ? & Hall)]; [by left|right].
  do 2 (split; [done|]). intros p Hp. apply Hall. rewrite elem_of_app. tauto.
Qed.


(** C24: what [scratch_clean] excludes: when [mkdtemp] fails and leaves the name of a
    directory in which there is a directory named like the file, the file is
    copied into that one, and the cache map then sends readers to a directory. *)
Theorem failed_mkdtemp_breaks_cache nvmepath s p d w w' c :
  sys_mkdtemp nvmepath (srv_os s) = (d, false, w) → file_at (srv_os s) p = Some c →
  dir_at w (d +:+ "/" +:+ filename p) = true →
  sys_copy p (d +:+ "/" +:+ filename p) w = (true, w') →
  ∃ s', mover_copy_front nvmepath p s = Ok (tt, s') ∧ ¬ cache_ok s'.
Proof.
  intros Ht Hp Hd Hcp. destruct s as [m pc q mv l h o]. simpl in *. unfold mover_copy_front.
  handler_run. rewrite Ht. simpl. rewrite Hcp. simpl. eexists. split; [done|]. intros Hc.
  destruct (mkdtemp_law _ _ _ _ _ Ht) as (Hf & _). destruct (copy_law _ _ _ _ _ Hcp) as (Hk & Hkd & _).
  rewrite <- Hf in Hp. apply Hk in Hp. apply Hkd in Hd.
  destruct (Hc p (d +:+ "/" +:+ filename p)) as [(c' & _ & Hq)|[Hdir _]]; simpl in *.
  - by rewrite lookup_insert_eq.
  - apply file_name_law in Hq as [_ Hq]. congruence.
  - apply file_name_law in Hp as [_ Hp]. congruence.
Qed.

(** The mover is signalled by one thing only: a request that closes a file
    without a cached copy, while the mover waits. *)
Theorem only_close_signals nvmepath s s' :
  server_step (hg := hg) nvmepath s s' → mover s ≠ MoverWoken → mover s' = MoverWoken →
  ∃ fd o, hvac_close_rpc_handler hg (CloseIn fd) s = Ok (o, s') ∧
    path_cache_map s !! default "" (fd_to_path s !! fd) = None.
Proof.
  intros [Hs|Hs] Hm Hm'.
  - destruct Hs as [s0 s1 _ _|s0 p l s1 Hrun _ Hcopy|s0 _ _]; [done| |done].
    apply mover_copy_front_Ok in Hcopy as (_ & _ & Hmv & _). congruence.
  - destruct (handler_step_mover _ _ Hs) as [Heq|?]; [congruence|done].
Qed.
End Properties.

(** ** Concrete runs *)

#[local] Existing Instance demo_mercury.
Abbreviation demo_server := (server RefPosix.world).
Definition demo_nvme : string := "/bb/XXXXXX".

(** States by computation: the server after one request, or one mover step. *)
Definition after {A} (r : outcome (A * demo_server)) (s : demo_server) : demo_server :=
  match r with Ok (_, s') => s' | Fault _ => s end.

Definition demo_open (s : demo_server) : demo_server :=
  after (hvac_open_rpc_handler demo_mercury (OpenIn "/d/a") s) s.
Definition demo_close (fd : Z) (s : demo_server) : demo_server :=
  after (hvac_close_rpc_handler demo_mercury (CloseIn fd) s) s.
Definition demo_wake (s : demo_server) : demo_server :=
  set_mover MoverRunning (after (mover_drain s) s).
Definition demo_copy (s : demo_server) : demo_server :=
  after (mover_copy_front demo_nvme "/d/a" s) s.

Definition is_ok {A} (r : outcome A) : bool := match r with Ok _ => true | Fault _ => false end.

Lemma demo_wake_step s : mover s ≠ MoverRunning → mover_step demo_nvme s (demo_wake s).
Proof. intros Hm. unfold demo_wake. apply mover_wakes; [done|]. by rewrite mover_drain_eq. Qed.

Lemma demo_copy_step s l :
  mover s = MoverRunning → local_list s = "/d/a" :: l →
  is_ok (mover_copy_front demo_nvme "/d/a" s) = true → mover_step demo_nvme s (demo_copy s).
Proof.
  intros Hm Hl Hok. unfold demo_copy.
  destruct (mover_copy_front demo_nvme "/d/a" s) as [[[] s']|] eqn:H; [|done].
  by eapply mover_copies.
Qed.

Lemma demo_clean : scratch_clean (W := RefPosix.world) demo_nvme.
Proof. intros w d w' name _. apply RefPosix.mkdtemp_clean. Qed.

(** Open and close a file while the mover is not waiting; then it waits. *)
Definition missed : demo_server :=
  set_mover MoverWaiting (demo_close 0 (demo_open (fresh_server demo_world))).

Lemma missed_reachable : rtc (server_step demo_nvme) (fresh_server demo_world) missed.
Proof.
  eapply rtc_l; [right; eapply (handles_open (OpenIn "/d/a")); vm_compute; reflexivity|].
  eapply rtc_l; [right; eapply (handles_close (CloseIn 0)); vm_compute; reflexivity|].
  apply rtc_once. left. apply mover_waits; vm_compute; reflexivity.
Qed.

(** A second open and close wakes the mover, which copies the file twice. *)
Definition woken : demo_server := demo_close 0 (demo_open missed).
Definition demo_cached : demo_server := demo_copy (demo_wake woken).

Lemma cached_reachable : rtc (server_step demo_nvme) (fresh_server demo_world) demo_cached.
Proof.
  etrans; [apply missed_reachable|].
  apply (rtc_l _ missed (demo_open missed));
    [right; eapply (handles_open (OpenIn "/d/a")); vm_compute; reflexivity|].
  apply (rtc_l _ (demo_open missed) woken); [right; eapply (handles_close (CloseIn 0)); vm_compute; reflexivity|].
  etrans; [|apply rtc_once; left; by apply (demo_copy_step _ ["/d/a"]); vm_compute].
  apply rtc_once. left. by apply demo_wake_step; vm_compute.
Qed.


(** A machine whose [mkdtemp] leaves the name it tried, and a disk on which it
    fails, with a directory in the way. *)
Definition stubborn_mkdtemp (t : string) (w : RefPosix.world) : string * bool * RefPosix.world :=
  ("/bb/tried", false, w).
Definition stubborn : Posix RefPosix.world := {|
  sys_open := sys_open; sys_read := sys_read; sys_pread := sys_pread; sys_lseek := sys_lseek;
  sys_close := sys_close; sys_calloc := sys_calloc; sys_thread := sys_thread;
  sys_mkdtemp := stubborn_mkdtemp; sys_copy := sys_copy; sys_canonical := sys_canonical;
  sys_current_path := sys_current_path; file_at := file_at; dir_at := dir_at; fd_at := fd_at
|}.

Lemma stubborn_laws : @PosixLaws RefPosix.world stubborn.
Proof.
  destruct RefPosix.world_laws. split; try assumption.
  intros t w d ok w' [= <- <- <-]. split_and!; by repeat intros ?.
Qed.

Definition poisoned_world : RefPosix.world :=
  RefPosix.World {["/d/a" := [Byte.x61]]} {["/d"; "/bb/tried/a"]} "/d" ∅ 0.

Lemma failed_mkdtemp_breaks_cache_witness :
  ∃ s', @mover_copy_front _ stubborn demo_nvme "/d/a" (fresh_server poisoned_world) = Ok (tt, s') ∧
    ¬ @cache_ok _ stubborn s'.
Proof.
  apply (@failed_mkdtemp_breaks_cache _ stubborn stubborn_laws demo_nvme (fresh_server poisoned_world)
    "/d/a" "/bb/tried" poisoned_world (sys_copy "/d/a" "/bb/tried/a" poisoned_world).2 [Byte.x61]);
    by vm_compute.
Defined.

Lemma cache_coherent_reachable_witness :
  path_cache_map demo_cached !! "/d/a" = Some "/bb/100000/a" ∧ cache_ok demo_cached.
Proof.
  split; [vm_compute; reflexivity|].
  exact (cache_coherent_reachable demo_nvme demo_world demo_cached demo_clean cached_reachable).
Defined.

Lemma mover_preserves_handles_witness :
  ∃ s', mover_step demo_nvme (demo_wake (demo_open woken)) s' ∧ cache_ok s' ∧
    remote_fd s' 0 "/d/a" 0 [Byte.x61; Byte.x62; Byte.x63].
Proof.
  assert (Hc : cache_ok (demo_wake (demo_open woken))).
  { intros p q Hpq. vm_compute in Hpq. discriminate. }
  assert (Hstep : mover_step demo_nvme (demo_wake (demo_open woken))
                    (demo_copy (demo_wake (demo_open woken)))).
  { by apply (demo_copy_step _ ["/d/a"]); vm_compute. }
  exists (demo_copy (demo_wake (demo_open woken))).
  destruct (mover_preserves_handles demo_nvme _ _ demo_clean Hc Hstep) as (Hc' & _ & Hh).
  split; [exact Hstep|]. split; [exact Hc'|]. apply Hh.
  split; [lia|]. split; [lia|]. split; [vm_compute; reflexivity|].
  split; [vm_compute; reflexivity|]. exists "/d/a". by split; vm_compute.
Defined.

Lemma mover_round_complete_witness :
  ∃ s', rtc (mover_step demo_nvme) woken s' ∧ data_queue s' = [] ∧
    (copy_undefined demo_nvme s' ∨ cached s' "/d/a").
Proof.
  destruct (mover_round_complete demo_nvme woken) as (s' & Hs & Hq & _ & Hend); [done|].
  exists s'. split; [exact Hs|]. split; [exact Hq|].
  destruct Hend as [Hu|(_ & _ & Hset)]; [by left|right]. apply Hset. left. vm_compute. left.
Defined.

Lemma only_close_signals_witness :
  ∃ fd o, hvac_close_rpc_handler demo_mercury (CloseIn fd) (demo_open missed) = Ok (o, woken) ∧
    path_cache_map (demo_open missed) !! default "" (fd_to_path (demo_open missed) !! fd) = None.
Proof.
  apply (only_close_signals demo_nvme (demo_open missed) woken); [|by vm_compute|by vm_compute].
  right. eapply (handles_close (CloseIn 0)). vm_compute. reflexivity.
Defined.
