(* ===== verification/Threads.v ===== *)
(** * The two threads of a server, statement by statement

    The progress thread, which runs the request handlers of [hvac_comm.cpp], and
    the data mover of [hvac_data_mover.cpp] share [data_queue], [data_mutex],
    [data_cond] and [path_cache_map].  [DataMover] lets a handler run in one
    step; here the close handler is cut at its accesses to shared state, and
    the mover at its lock operations and at each turn of its loops, so that
    what the mutex protects, and what it does not, can be stated.  As in
    [DataMover], [pthread_cond_wait] may return without a signal, as POSIX
    permits. *)
From S2P Require Import Prelude CLib Posix Rpc Server DataMover.

Inductive thread := Progress | Mover.
#[export] Instance thread_eq_dec : EqDecision thread.
Proof. solve_decision. Defined.

(** Where the progress thread is: between callbacks, before the lookups of the
    open handler, or in the close handler for a descriptor: before the lookup
    in the cache map, the lock, the signal, the push, the unlock, and the
    [erase] at the end. *)
Inductive handler_pc :=
  | HIdle
  | HOpen (inp : hvac_open_in_t)
  | HFind (fd : Z)
  | HLock (fd : Z)
  | HSignal (fd : Z)
  | HPush (fd : Z)
  | HUnlock (fd : Z)
  | HErase (fd : Z).

(** Where the mover is: before the lock, before [pthread_cond_wait], inside it,
    in the loop that empties the queue, before the unlock, in the copy loop. *)
Inductive mover_line := MLock | MWait | MSleep | MDrain | MUnlock | MCopy.

#[export] Instance mover_line_eq_dec : EqDecision mover_line.
Proof. solve_decision. Defined.

Section Threads.
Context {W : Type} `{!Posix W} {hg : mercury}.
Implicit Types (s : server W).
Variable nvmepath : string.

Record threads := Threads {
  srv : server W;
  owner : option thread;
  hpc : handler_pc;
  mpc : mover_line
}.
Implicit Types (f : threads).

(** ** The close handler in pieces *)

(** Up to the assertion on [close]. *)
Definition close_start (inp : hvac_close_in_t) : M (server W) Z :=
  handle ← hg_handle;
  ret ← HG_Get_input hg handle;
  cassert (ret =? HG_SUCCESS);;
  ret ← server_os (sys_close (close_fd inp));
  cassert (ret =? 0);;
  mret ret.
(** [path_cache_map.find(fd_to_path[in.fd]) == path_cache_map.end()] *)
Definition close_find (fd : Z) : M (server W) bool :=
  p ← path_of_fd fd;
  gets (λ s, map_absent (path_cache_map s) p).
(** [data_queue.push(fd_to_path[in.fd])] *)
Definition close_push (fd : Z) : M (server W) unit :=
  p ← path_of_fd fd;
  modify (λ s, set_data_queue (data_queue s ++ [p]) s).
(** [fd_to_path.erase(in.fd)] *)
Definition close_erase (fd : Z) : M (server W) unit :=
  modify (λ s, set_fd_to_path (delete fd (fd_to_path s)) s).

(** ** Steps *)

Inductive progress_thread : threads → threads → Prop :=
  | p_open_arrives s o m inp :
      progress_thread (Threads s o HIdle m) (Threads s o (HOpen inp) m)
  | p_open s o m inp out s' :
      hvac_open_rpc_handler hg inp s = Ok (out, s') →
      progress_thread (Threads s o (HOpen inp) m) (Threads s' o HIdle m)
  | p_read s o m inp out s' :
      serve_read (hg := hg) inp s = Ok (out, s') →
      progress_thread (Threads s o HIdle m) (Threads s' o HIdle m)
  | p_seek s o m inp out s' :
      hvac_seek_rpc_handler hg inp s = Ok (out, s') →
      progress_thread (Threads s o HIdle m) (Threads s' o HIdle m)
  | p_close_arrives s o m inp ret s' :
      close_start inp s = Ok (ret, s') →
      progress_thread (Threads s o HIdle m) (Threads s' o (HFind (close_fd inp)) m)
  | p_find s o m fd uncached s' :
      close_find fd s = Ok (uncached, s') →
      progress_thread (Threads s o (HFind fd) m)
        (Threads s' o (if uncached : bool then HLock fd else HErase fd) m)
  | p_lock s m fd :
      progress_thread (Threads s None (HLock fd) m) (Threads s (Some Progress) (HSignal fd) m)
  | p_signal s o m fd s' :
      data_cond_signal s = Ok (tt, s') →
      progress_thread (Threads s o (HSignal fd) m) (Threads s' o (HPush fd) m)
  | p_push s o m fd s' :
      close_push fd s = Ok (tt, s') →
      progress_thread (Threads s o (HPush fd) m) (Threads s' o (HUnlock fd) m)
  | p_unlock s o m fd :
      progress_thread (Threads s o (HUnlock fd) m) (Threads s None (HErase fd) m)
  | p_erase s o m fd s' :
      close_erase fd s = Ok (tt, s') →
      progress_thread (Threads s o (HErase fd) m) (Threads s' o HIdle m).

Inductive mover_thread : threads → threads → Prop :=
  | m_lock s h : mover_thread (Threads s None h MLock) (Threads s (Some Mover) h MWait)
  | m_wait s o h :
      mover_thread (Threads s o h MWait) (Threads (set_mover MoverWaiting s) None h MSleep)
  | m_wake s h :
      mover s = MoverWoken →
      mover_thread (Threads s None h MSleep) (Threads (set_mover MoverRunning s) (Some Mover) h MDrain)
  | m_wake_spurious s h :
      mover s = MoverWaiting →
      mover_thread (Threads s None h MSleep) (Threads (set_mover MoverRunning s) (Some Mover) h MDrain)
  | m_drain s o h p q :
      data_queue s = p :: q →
      mover_thread (Threads s o h MDrain)
        (Threads (set_data_queue q (set_local_list (local_list s ++ [p]) s)) o h MDrain)
  | m_drained s o h :
      data_queue s = [] → mover_thread (Threads s o h MDrain) (Threads s o h MUnlock)
  | m_unlock s o h : mover_thread (Threads s o h MUnlock) (Threads s None h MCopy)
  | m_copy s o h p l s' :
      local_list s = p :: l → mover_copy_front nvmepath p s = Ok (tt, s') →
      mover_thread (Threads s o h MCopy) (Threads s' o h MCopy)
  | m_copied s o h :
      local_list s = [] → mover_thread (Threads s o h MCopy) (Threads s o h MLock).

Definition thread_step f f' : Prop := progress_thread f f' ∨ mover_thread f f'.

(** A server whose threads have been created. *)
Definition started (w : W) : threads := Threads (fresh_server w) None HIdle MLock.

(** ** Accesses *)

Inductive variable := Queue | CacheMap.
Inductive access := Reads (x : variable) | Writes (x : variable).

Definition touches (a : access) : variable := match a with Reads x | Writes x => x end.
Definition is_write (a : access) : bool := match a with Writes _ => true | Reads _ => false end.

(** What the next statement of a thread does to shared variables that both
    threads use. *)
Definition progress_access (h : handler_pc) : option access :=
  match h with
  | HOpen _ | HFind _ => Some (Reads CacheMap)
  | HPush _ => Some (Writes Queue)
  | _ => None
  end.
Definition mover_access (s : server W) (m : mover_line) : option access :=
  match m with
  | MDrain => Some (match data_queue s with [] => Reads Queue | _ => Writes Queue end)
  | MCopy => match local_list s with [] => None | _ => Some (Writes CacheMap) end
  | _ => None
  end.

(** Both threads are about to access the variable, one of them to write it. *)
Definition data_race (x : variable) f : Prop :=
  ∃ a b, progress_access (hpc f) = Some a ∧ mover_access (srv f) (mpc f) = Some b ∧
    touches a = x ∧ touches b = x ∧ (is_write a || is_write b) = true.
End Threads.

Arguments threads W : clear implicits.

Section Discipline.
Context {W : Type} `{!Posix W} {hg : mercury}.
Variable nvmepath : string.
Implicit Types (s : server W) (f : threads W).
Abbreviation thread_step := (thread_step (hg := hg) nvmepath).

(** ** Statements that leave the mover and its lists alone *)

Definition queue_state (v : mover_pc) (q l : list string) s : Prop :=
  mover s = v ∧ data_queue s = q ∧ local_list s = l.

Section Quiet.
Variables (v : mover_pc) (q l : list string).
Abbreviation quiet m := (keeps_any (queue_state v q l) m).

Lemma acquire_quiet k : quiet (acquire (W := W) k).
Proof. intros s a s' Hs. unfold acquire. by intros [= <- <-]. Qed.
Lemma release_quiet k i : quiet (release (W := W) k i).
Proof. intros s a s' Hs. unfold release. case_decide; [|done]. by intros [= <- <-]. Qed.
Lemma server_os_quiet {A} (g : W → A * W) : quiet (server_os g).
Proof. intros s a s' Hs. unfold server_os. destruct (g _). by intros [= <- <-]. Qed.
Lemma path_of_fd_quiet fd : quiet (path_of_fd (W := W) fd).
Proof. intros s a s' Hs. unfold path_of_fd. destruct (map_index _ _ _). by intros [= <- <-]. Qed.
Hint Resolve acquire_quiet release_quiet server_os_quiet path_of_fd_quiet : keeps.

Ltac quiet :=
  unfold hg_handle, malloc, HG_Get_input, HG_Bulk_create, calloc, HG_Bulk_free, HG_Destroy, free;
  repeat first
    [ solve [eauto with keeps]
    | match goal with |- keeps _ _ (_ ≫= _) => eapply (keeps_bind _ (λ _, True)); [|intros ? ?] end
    | keeps_step ]; try done.

Lemma open_handler_quiet inp : quiet (hvac_open_rpc_handler (W := W) hg inp).
Proof. unfold hvac_open_rpc_handler. quiet. Qed.
Lemma serve_read_quiet inp : quiet (serve_read (W := W) (hg := hg) inp).
Proof. unfold serve_read, hvac_rpc_handler, hvac_rpc_handler_bulk_cb. quiet. Qed.
Lemma seek_handler_quiet inp : quiet (hvac_seek_rpc_handler (W := W) hg inp).
Proof. unfold hvac_seek_rpc_handler. quiet. Qed.
Lemma close_start_quiet inp : quiet (close_start (W := W) (hg := hg) inp).
Proof. unfold close_start. quiet. Qed.
Lemma close_find_quiet fd : quiet (close_find (W := W) fd).
Proof. unfold close_find. quiet. Qed.
Lemma close_erase_quiet fd : quiet (close_erase (W := W) fd).
Proof. unfold close_erase. quiet. Qed.
End Quiet.

Lemma quiet_run {A} (m : M (server W) A) s a s' :
  (∀ v q l, keeps_any (queue_state v q l) m) → m s = Ok (a, s') →
  mover s' = mover s ∧ data_queue s' = data_queue s ∧ local_list s' = local_list s.
Proof. intros Hm Hrun. by apply (Hm (mover s) (data_queue s) (local_list s) s a s'). Qed.

(** ** The lock discipline *)

Definition progress_holds (h : handler_pc) : bool :=
  match h with HSignal _ | HPush _ | HUnlock _ => true | _ => false end.
Definition mover_holds (m : mover_line) : bool :=
  match m with MWait | MDrain | MUnlock => true | _ => false end.
Definition pushing (h : handler_pc) : bool := match h with HPush _ => true | _ => false end.

Record discipline f : Prop := {
  di_progress : progress_holds (hpc f) = true ↔ owner f = Some Progress;
  di_mover : mover_holds (mpc f) = true ↔ owner f = Some Mover;
  di_asleep : mpc f = MSleep ↔ mover (srv f) ≠ MoverRunning;
  di_woken : mover (srv f) = MoverWoken → data_queue (srv f) ≠ [] ∨ pushing (hpc f) = true
}.

Lemma started_discipline w : discipline (started w).
Proof. by split. Qed.

(** A handler statement that touches neither the lists nor the lock. *)
Lemma discipline_quiet s s' o h h' m :
  mover s' = mover s ∧ data_queue s' = data_queue s ∧ local_list s' = local_list s →
  progress_holds h' = progress_holds h → pushing h' = pushing h →
  discipline (Threads s o h m) → discipline (Threads s' o h' m).
Proof.
  intros (Hm & Hq & _) Hh Hp [H1 H2 H3 H4]. simpl in *.
  split; simpl; by rewrite ?Hm, ?Hq, ?Hh, ?Hp.
Qed.

Lemma progress_discipline f f' :
  discipline f → progress_thread (hg := hg) f f' → discipline f'.
Proof.
  intros Hd Hstep.
  destruct Hstep as [s o m inp|s o m inp out s' H|s o m inp out s' H|s o m inp out s' H
    |s o m inp ret s' H|s o m fd un s' H|s m fd|s o m fd s' H|s o m fd s' H|s o m fd|s o m fd s' H].
  - by apply (discipline_quiet s s o HIdle).
  - eapply discipline_quiet; [eapply quiet_run, H; intros; apply open_handler_quiet|..|exact Hd]; done.
  - eapply discipline_quiet; [eapply quiet_run, H; intros; apply serve_read_quiet|..|exact Hd]; done.
  - eapply discipline_quiet; [eapply quiet_run, H; intros; apply seek_handler_quiet|..|exact Hd]; done.
  - eapply discipline_quiet; [eapply quiet_run, H; intros; apply close_start_quiet|..|exact Hd]; done.
  - eapply discipline_quiet; [eapply quiet_run, H; intros; apply close_find_quiet|..|exact Hd];
      by destruct un.
  - destruct Hd as [H1 H2 H3 H4]; simpl in *. split; simpl; try done.
    split; [|done]. intros Hm. by apply H2 in Hm.
  - injection H as <-. destruct Hd as [H1 H2 H3 H4]; simpl in *. destruct (mover s) eqn:Hm.
    + split; simpl; try done; [|by right]. split; [done|]. intros _. by apply H3.
    + split; simpl; rewrite ?Hm; try done. by right.
    + split; simpl; rewrite ?Hm; done.
  - destruct (map_index "" (fd_to_path s) fd) as [p t] eqn:Hi.
    assert (s' = set_data_queue (data_queue s ++ [p]) (set_fd_to_path t s)) as ->.
    { revert H. unfold close_push, path_of_fd. run_monad. rewrite Hi. by intros [= <-]. }
    destruct Hd as [H1 H2 H3 H4]; simpl in *. split; simpl; try done.
    intros _. left. by destruct (data_queue s).
  - destruct Hd as [H1 H2 H3 H4]; simpl in *. split; simpl; try done.
    split; [|done]. intros Hm. apply H2 in Hm. by rewrite (proj1 H1 eq_refl) in Hm.
  - eapply discipline_quiet; [eapply quiet_run, H; intros; apply close_erase_quiet|..|exact Hd]; done.
Qed.

Lemma copy_front_keeps p s s' :
  mover_copy_front nvmepath p s = Ok (tt, s') → mover s' = mover s ∧ data_queue s' = data_queue s.
Proof.
  by intros (_ & Hq & Hm & _)%mover_copy_front_Ok.
Qed.

Lemma mover_discipline f f' : discipline f → mover_thread nvmepath f f' → discipline f'.
Proof.
  intros [Hdp Hdm Hds Hdw] Hstep.
  destruct Hstep as [s h|s o h|s h Hw|s h Hw|s o h p q Hq|s o h Hq|s o h|s o h p l s' Hl H|s o h Hl];
    simpl in *.
  - split; simpl; intuition congruence.
  - split; simpl; intuition congruence.
  - split; simpl; intuition congruence.
  - split; simpl; intuition congruence.
  - split; simpl; try done. intros Hw. exfalso.
    assert (mover s ≠ MoverRunning) as Hn%Hds; [congruence|done].
  - split; simpl; intuition congruence.
  - split; simpl; intuition congruence.
  - destruct (copy_front_keeps _ _ _ H) as [Hm Hq]. split; simpl; rewrite ?Hm, ?Hq; done.
  - split; simpl; intuition congruence.
Qed.

Lemma thread_step_discipline f f' : discipline f → thread_step f f' → discipline f'.
Proof. intros Hd [H|H]; [by eapply progress_discipline|by eapply mover_discipline]. Qed.

Lemma reachable_discipline w f : rtc thread_step (started w) f → discipline f.
Proof.
  intros Hr. assert (Hd : discipline (started w)) by apply started_discipline.
  revert Hd. induction Hr; eauto using thread_step_discipline.
Qed.

Lemma no_queue_race f : discipline f → ¬ data_race Queue f.
Proof.
  intros [Hp Hm _ _] (a & b & Ha & Hb & Hqa & Hqb & _).
  assert (progress_holds (hpc f) = true) as Ho%Hp by (destruct (hpc f); by simplify_eq/=).
  assert (mover_holds (mpc f) = true) as Ho'%Hm.
  { destruct (mpc f); simplify_eq/=; try done. by destruct (local_list (srv f)); simplify_eq/=. }
  congruence.
Qed.

(** The mover gives the mutex back without copying anything. *)
Lemma drain_releases q : ∀ s h,
  data_queue s = q →
  ∃ s', nsteps (mover_thread nvmepath) (length q + 2) (Threads s (Some Mover) h MDrain)
          (Threads s' None h MCopy) ∧
    s' = set_data_queue [] (set_local_list (local_list s ++ q) s).
Proof.
  induction q as [|p q IH]; intros s h Hq.
  - eexists. split; [|reflexivity]. rewrite app_nil_r.
    eapply nsteps_l; [by apply m_drained|]. eapply nsteps_l; [apply m_unlock|].
    destruct s; simpl in *; subst. constructor.
  - set (s1 := set_data_queue q (set_local_list (local_list s ++ [p]) s)).
    destruct (IH s1 h) as (s' & Hrun & ->); [done|].
    eexists. split; [eapply nsteps_l; [by apply m_drain|exact Hrun]|].
    unfold s1. simpl. by rewrite <- app_assoc.
Qed.

Lemma mover_releases f :
  discipline f → owner f = Some Mover →
  ∃ n f', nsteps (mover_thread nvmepath) n f f' ∧ (n ≤ length (data_queue (srv f)) + 2)%nat ∧
    owner f' = None ∧ hpc f' = hpc f ∧ path_cache_map (srv f') = path_cache_map (srv f).
Proof.
  destruct f as [s o h m]. intros [_ Hm _ _] Ho. simpl in *. subst o.
  apply proj2 in Hm. specialize (Hm eq_refl). destruct m; try done.
  - exists 1%nat, (Threads (set_mover MoverWaiting s) None h MSleep).
    split; [apply nsteps_once, m_wait|]. by split; [lia|].
  - destruct (drain_releases (data_queue s) s h eq_refl) as (s' & Hrun & ->).
    eexists _, _. split; [exact Hrun|]. by split; [lia|].
  - exists 1%nat, (Threads s None h MCopy). split; [apply nsteps_once, m_unlock|]. by split; [lia|].
Qed.
End Discipline.

(** ** Waking up *)

Section Wakes.
Context {W : Type} `{!Posix W} {hg : mercury}.
Variable nvmepath : string.

(** C16: however the mover wakes up, by a signal or without one, it takes over
    the whole queue, including what was queued when a signal was lost, and it is
    then in its copy loop with the mutex free. *)
Theorem any_wakeup_takes_queue w (f : threads W) :
  rtc (thread_step (hg := hg) nvmepath) (started w) f → mpc f = MSleep → owner f = None →
  ∃ f', nsteps (mover_thread nvmepath) (length (data_queue (srv f)) + 3) f f' ∧
    mpc f' = MCopy ∧ owner f' = None ∧ hpc f' = hpc f ∧ data_queue (srv f') = [] ∧
    local_list (srv f') = local_list (srv f) ++ data_queue (srv f) ∧
    path_cache_map (srv f') = path_cache_map (srv f).
Proof.
  intros Hd%reachable_discipline Hm Ho. destruct f as [s o h m]. simpl in *. subst.
  assert (Hwake : mover_thread nvmepath (Threads s None h MSleep)
                    (Threads (set_mover MoverRunning s) (Some Mover) h MDrain)).
  { destruct (mover s) eqn:Hs; [by apply m_wake_spurious|by apply m_wake|].
    exfalso. by apply (proj1 (di_asleep _ Hd) eq_refl). }
  destruct (drain_releases nvmepath (data_queue s) (set_mover MoverRunning s) h eq_refl) as (s' & Hrun & ->).
  eexists. split.
  { replace (length (data_queue s) + 3)%nat with (S (length (data_queue s) + 2)) by lia.
    eapply nsteps_l; [exact Hwake|exact Hrun]. }
  by split_and!.
Qed.
End Wakes.

(** ** Running the handlers and the mover without interruption *)

Section Refinement.
Context {W : Type} `{!Posix W} {hg : mercury}.
Variable nvmepath : string.
Implicit Types (s : server W) (f : threads W).
Abbreviation thread_step := (thread_step (hg := hg) nvmepath).

(** The pieces of the close handler make the whole. *)
Lemma close_in_pieces inp s :
  hvac_close_rpc_handler hg inp s =
  (ret ← close_start (hg := hg) inp;
   uncached ← close_find (close_fd inp);
   when uncached (data_cond_signal;; close_push (close_fd inp));;
   close_erase (close_fd inp);;
   mret ret) s.
Proof.
  unfold hvac_close_rpc_handler, close_start, close_find, close_push, close_erase, hg_handle, HG_Get_input, acquire, server_os,
    path_of_fd, data_cond_signal. run_monad.
  destruct (hg_get_input hg =? HG_SUCCESS) eqn:Hg; simpl; rewrite ?Hg; [|done].
  destruct (sys_close _ _) as [r w]. simpl. destruct (r =? 0); [|done]. simpl. destruct (map_index "" (fd_to_path s) (close_fd inp)) as [p m].
  simpl. by destruct (map_absent _ p); simpl.
Qed.

Lemma close_runs inp s o s' m :
  hvac_close_rpc_handler hg inp s = Ok (o, s') →
  rtc (progress_thread (hg := hg)) (Threads s None HIdle m) (Threads s' None HIdle m).
Proof.
  rewrite close_in_pieces. intros (r & s1 & H1 & H2)%bind_Ok. apply bind_Ok in H2 as (un & s2 & H2 & H3).
  apply bind_Ok in H3 as ([] & s3 & H3 & ([] & s4 & H4 & [= <- <-])%bind_Ok).
  eapply rtc_l; [by eapply p_close_arrives|]. eapply rtc_l; [by eapply p_find|].
  destruct un; simpl in H3.
  - apply bind_Ok in H3 as ([] & s5 & H5 & H6).
    eapply rtc_l; [apply p_lock|]. eapply rtc_l; [by eapply p_signal|].
    eapply rtc_l; [by eapply p_push|]. eapply rtc_l; [apply p_unlock|].
    apply rtc_once. by eapply p_erase.
  - injection H3 as <-. apply rtc_once. by eapply p_erase.
Qed.

(** A handler leaves the mover's list alone and at most wakes a waiting mover. *)
Lemma handler_step_rest s s' :
  handler_step (hg := hg) s s' →
  local_list s' = local_list s ∧
  (mover s' = mover s ∨ (mover s = MoverWaiting ∧ mover s' = MoverWoken)).
Proof.
  destruct 1 as [inp o s s' H|inp o s s' H|inp o s s' H|inp o s s' H].
  - apply quiet_run in H as (-> & _ & ->); [auto|intros; apply open_handler_quiet].
  - apply quiet_run in H as (-> & _ & ->); [auto|intros; apply serve_read_quiet].
  - apply quiet_run in H as (-> & _ & ->); [auto|intros; apply seek_handler_quiet].
  - revert H. rewrite close_in_pieces. intros (r & s1 & H1 & H2)%bind_Ok.
    apply bind_Ok in H2 as (un & s2 & H2 & H3).
    apply bind_Ok in H3 as ([] & s3 & H3 & ([] & s4 & H4 & [= <- <-])%bind_Ok).
    apply quiet_run in H1 as (Hm1 & _ & Hl1); [|intros; apply close_start_quiet].
    apply quiet_run in H2 as (Hm2 & _ & Hl2); [|intros; apply close_find_quiet].
    apply quiet_run in H4 as (Hm4 & _ & Hl4); [|intros; apply close_erase_quiet].
    rewrite Hl4, Hm4, <- Hl1, <- Hm1, <- Hl2, <- Hm2.
    destruct un; [|injection H3 as <-; auto].
    revert H3. unfold data_cond_signal, close_push, path_of_fd. run_monad.
    destruct (map_index _ _ _) as [p t]. intros [= <-]. destruct (mover s2) eqn:E; simpl; rewrite ?E; auto.
Qed.

(** A state between handlers, with the mover asleep or in its copy loop. *)
Definition at_rest f s : Prop :=
  srv f = s ∧ owner f = None ∧ hpc f = HIdle ∧
  ((mpc f = MSleep ∧ mover s ≠ MoverRunning) ∨
   (mover s = MoverRunning ∧ (mpc f = MCopy ∨ (mpc f = MLock ∧ local_list s = [])))).

Lemma rtc_progress f f' : rtc (progress_thread (hg := hg)) f f' → rtc thread_step f f'.
Proof. apply rtc_subrel. intros x y ?. by left. Qed.
Lemma nsteps_mover n f f' : nsteps (mover_thread nvmepath) n f f' → rtc thread_step f f'.
Proof. intros H%rtc_nsteps_2. revert H. apply rtc_subrel. intros x y ?. by right. Qed.

Lemma handler_simulated f s s' :
  at_rest f s → handler_step (hg := hg) s s' →
  ∃ f', rtc thread_step f f' ∧ at_rest f' s'.
Proof.
  destruct f as [s0 o h m]. unfold at_rest. simpl. intros (-> & -> & -> & Hm) Hstep.
  destruct (handler_step_rest _ _ Hstep) as [Hl Hmv].
  exists (Threads s' None HIdle m). split.
  - apply rtc_progress. destruct Hstep as [inp o s s' H|inp o s s' H|inp o s s' H|inp o s s' H].
    + eapply rtc_l; [apply (p_open_arrives _ _ _ inp)|]. apply rtc_once. by eapply p_open.
    + apply rtc_once. by eapply p_read.
    + apply rtc_once. by eapply p_seek.
    + by eapply close_runs.
  - simpl. split_and!; [done..|]. rewrite Hl. destruct Hmv as [->|[Hw ->]]; [done|].
    left. destruct Hm as [[-> _]|[Hr _]]; [done|congruence].
Qed.

Lemma mover_simulated f s s' :
  at_rest f s → mover_step nvmepath s s' → ∃ f', rtc thread_step f f' ∧ at_rest f' s'.
Proof.
  destruct f as [s0 o h m]. unfold at_rest. simpl. intros (-> & -> & -> & Hm) Hstep.
  destruct Hstep as [s s1 Hw H|s p l s1 Hr Hl H|s Hr Hl].
  - destruct Hm as [[-> _]|[Hr _]]; [|congruence].
    rewrite mover_drain_eq in H. injection H as <-.
    destruct (drain_releases nvmepath (data_queue s) (set_mover MoverRunning s) HIdle eq_refl)
      as (s2 & Hrun & ->).
    eexists. split.
    { eapply rtc_l; [right; destruct (mover s) eqn:Hs; [by apply m_wake_spurious|by apply m_wake|done]|].
      by eapply nsteps_mover. }
    simpl. split_and!; auto.
  - destruct Hm as [[_ Hn]|[_ [->|[-> Hl0]]]]; [done| |congruence].
    destruct (copy_front_keeps _ _ _ _ H) as [Hm1 _].
    exists (Threads s1 None HIdle MCopy). split; [apply rtc_once; right; by eapply m_copy|].
    simpl. split_and!; [done..|]. right. rewrite Hm1. auto.
  - exists (Threads (set_mover MoverWaiting s) None HIdle MSleep). split.
    + assert (Hlock : rtc thread_step (Threads s None HIdle MLock)
                (Threads (set_mover MoverWaiting s) None HIdle MSleep)).
      { eapply rtc_l; [right; apply m_lock|]. apply rtc_once. right. apply m_wait. }
      destruct Hm as [[_ Hn]|[_ [->|[-> _]]]]; [done| |done].
      eapply rtc_l; [right; by apply m_copied|done].
    + simpl. split_and!; [done..|]. by left.
Qed.

Lemma server_step_simulated f s s' :
  at_rest f s → rtc (server_step (hg := hg) nvmepath) s s' →
  ∃ f', rtc thread_step f f' ∧ at_rest f' s'.
Proof.
  intros Hf Hr. revert f Hf. induction Hr as [s|s s1 s2 [H|H] _ IH]; intros f Hf.
  - by exists f.
  - destruct (mover_simulated _ _ _ Hf H) as (f1 & Hr1 & Hf1).
    destruct (IH f1 Hf1) as (f2 & Hr2 & Hf2). exists f2. split; [by etrans|done].
  - destruct (handler_simulated _ _ _ Hf H) as (f1 & Hr1 & Hf1).
    destruct (IH f1 Hf1) as (f2 & Hr2 & Hf2). exists f2. split; [by etrans|done].
Qed.

Lemma started_at_rest (w : W) : at_rest (started w) (fresh_server w).
Proof. unfold at_rest. simpl. split_and!; auto. Qed.
End Refinement.

(** ** Coherence, statement by statement *)

Section Coherence.
Context {W : Type} `{!Posix W, !PosixLaws W} {hg : mercury}.
Variable nvmepath : string.
Implicit Types (s : server W) (f : threads W).

Lemma close_start_files inp s r s' :
  close_start (hg := hg) inp s = Ok (r, s') →
  same_files (srv_os s) (srv_os s') ∧ same_names (srv_os s) (srv_os s') ∧
  path_cache_map s' = path_cache_map s.
Proof.
  unfold close_start, hg_handle, HG_Get_input, acquire, server_os. run_monad.
  destruct (hg_get_input hg =? HG_SUCCESS) eqn:Hg; simpl; rewrite ?Hg; [|done].
  pose proof (close_names_law (close_fd inp) (srv_os s)) as Hnm.
  destruct (sys_close _ _) as [x w] eqn:Hc. simpl. destruct (x =? 0); [|done]. intros [= <- <-].
  by apply close_law in Hc as [Hf _].
Qed.

(** Every other statement of the close handler keeps the files and the map. *)
Definition same_disk (w : W) (c : gmap string string) s : Prop := srv_os s = w ∧ path_cache_map s = c.

Lemma path_of_fd_disk w c fd : keeps_any (same_disk w c) (path_of_fd fd).
Proof. intros s a s' Hs. unfold path_of_fd. destruct (map_index _ _ _). by intros [= <- <-]. Qed.

Lemma disk_ok {A} (m : M (server W) A) s a s' :
  (∀ w c, keeps_any (same_disk w c) m) → m s = Ok (a, s') → cache_ok s → cache_ok s'.
Proof.
  intros Hm Hrun. destruct (Hm _ _ s a s' (conj eq_refl eq_refl) Hrun) as [[Ho Hc] _].
  apply cache_ok_same_files; [done|..]; by rewrite Ho.
Qed.

Lemma close_find_ok fd s un s' : close_find fd s = Ok (un, s') → cache_ok s → cache_ok s'.
Proof.
  apply disk_ok. intros w c. eapply keeps_bind; [apply path_of_fd_disk|intros p _].
  by apply keeps_gets.
Qed.
Lemma close_push_ok fd s u s' : close_push fd s = Ok (u, s') → cache_ok s → cache_ok s'.
Proof.
  apply disk_ok. intros w c. eapply keeps_bind; [apply path_of_fd_disk|intros p _].
  by apply keeps_modify.
Qed.

Lemma progress_coherent f f' :
  progress_thread (hg := hg) f f' → cache_ok (srv f) → cache_ok (srv f').
Proof.
  intros Hstep Hc.
  destruct Hstep as [s o m inp|s o m inp out s' H|s o m inp out s' H|s o m inp out s' H
    |s o m inp ret s' H|s o m fd un s' H|s m fd|s o m fd s' H|s o m fd s' H|s o m fd|s o m fd s' H];
    simpl in *; try done.
  - destruct (handler_step_files s s' (handles_open inp out s s' H)) as (? & ? & ?). by apply (cache_ok_same_files s).
  - destruct (handler_step_files s s' (handles_read inp out s s' H)) as (? & ? & ?). by apply (cache_ok_same_files s).
  - destruct (handler_step_files s s' (handles_seek inp out s s' H)) as (? & ? & ?). by apply (cache_ok_same_files s).
  - destruct (close_start_files _ _ _ _ H) as (? & ? & ?). by apply (cache_ok_same_files s).
  - by eapply close_find_ok.
  - injection H as <-. by destruct (mover s).
  - by eapply close_push_ok.
  - by injection H as <-.
Qed.

Lemma mover_coherent f f' :
  scratch_clean (W := W) nvmepath → mover_thread nvmepath f f' → cache_ok (srv f) → cache_ok (srv f').
Proof.
  intros Hclean Hstep Hc. destruct Hstep as [| | | | | | |s o h p l s' _ H|]; simpl in *; try done.
  by eapply mover_copy_front_coherent.
Qed.

(** C8: whatever way the statements of the two threads interleave, each cached
    copy of a regular file is a regular file with exactly its contents, and only
    a directory is redirected to a directory. *)
Theorem cache_coherent_every_interleaving w f :
  scratch_clean (W := W) nvmepath →
  rtc (thread_step (hg := hg) nvmepath) (started w) f → cache_ok (srv f).
Proof.
  intros Hclean Hr. assert (Hc : cache_ok (srv (started w))) by (intros p q; done).
  revert Hc. induction Hr as [|f f1 f2 [H|H] _ IH]; intros Hc; [done|apply IH..].
  - by eapply progress_coherent.
  - by eapply mover_coherent.
Qed.

(** C10: [data_mutex] does its work.  In every interleaving, the two threads are
    never both about to touch [data_queue]; and although the close handler
    signals before it pushes, a mover that was signalled finds the queue filled
    when it gets the mutex back. *)
Theorem mutex_protects_queue w f :
  rtc (thread_step (hg := hg) nvmepath) (started w) f →
  ¬ data_race Queue f ∧
  (mover (srv f) = MoverWoken → owner f = None → data_queue (srv f) ≠ []).
Proof.
  intros Hd%reachable_discipline. split; [by apply no_queue_race|].
  intros Hw Ho. destruct (di_woken _ Hd Hw) as [?|Hp]; [done|].
  assert (progress_holds (hpc f) = true) as Hh by (by destruct (hpc f)).
  apply (di_progress _ Hd) in Hh. congruence.
Qed.

(** C17: the mutex is not held while files are copied: a close handler that
    needs it waits at most for the mover to take over the queued names, never
    for a copy. *)
Theorem close_waits_for_no_copy w f fd :
  rtc (thread_step (hg := hg) nvmepath) (started w) f → hpc f = HLock fd →
  owner f = None ∨
  ∃ n f', nsteps (mover_thread nvmepath) n f f' ∧ (n ≤ length (data_queue (srv f)) + 2)%nat ∧
    owner f' = None ∧ hpc f' = HLock fd ∧ path_cache_map (srv f') = path_cache_map (srv f).
Proof.
  intros Hd%reachable_discipline Hp. destruct (owner f) as [[]|] eqn:Ho; [|right|by left].
  - apply (di_progress _ Hd) in Ho. by rewrite Hp in Ho.
  - rewrite <- Hp. by apply mover_releases.
Qed.

(** C15: the server of [DataMover], whose handlers run in one step, does nothing
    that the two threads cannot do: each of its executions is an interleaving
    of their statements. *)
Theorem atomic_server_is_interleaving w s :
  rtc (server_step (hg := hg) nvmepath) (fresh_server w) s →
  ∃ f, rtc (thread_step (hg := hg) nvmepath) (started w) f ∧ srv f = s ∧ owner f = None ∧
    hpc f = HIdle ∧ (mpc f = MSleep ↔ mover s ≠ MoverRunning).
Proof.
  intros Hr. destruct (server_step_simulated nvmepath _ _ _ (started_at_rest w) Hr)
    as (f & Hf & <- & Ho & Hh & _). exists f. split; [done|].
  do 3 (split; [done|]). by apply di_asleep, (reachable_discipline nvmepath w).
Qed.
End Coherence.

(** ** Concrete runs *)

#[local] Existing Instance demo_mercury.

(** The server while a close handler runs for descriptor 0: after the lookup,
    after the push, and at the end; then with the mover about to copy. *)
Definition asleep : demo_server := demo_open (set_mover MoverWaiting (fresh_server demo_world)).
Definition found_uncached : demo_server :=
  let s := after (close_start (CloseIn 0) asleep) asleep in after (close_find 0 s) s.
Definition pushed : demo_server :=
  let s := after (data_cond_signal found_uncached) found_uncached in after (close_push 0 s) s.
Definition copying : demo_server := demo_wake (after (close_erase 0 pushed) pushed).

(** The close handler needs the mutex while the mover sleeps; it has given the
    mutex back; and an open arrives before the mover's first copy. *)
Definition locking : threads RefPosix.world := Threads found_uncached None (HLock 0) MSleep.
Definition signalled : threads RefPosix.world := Threads pushed None (HErase 0) MSleep.
Definition racing : threads RefPosix.world := Threads copying None (HOpen (OpenIn "/d/a")) MCopy.

Ltac thread_runs side := eapply rtc_l; [side; vm_compute; reflexivity|].

Lemma locking_reachable : rtc (thread_step demo_nvme) (started demo_world) locking.
Proof.
  eapply rtc_l; [right; apply m_lock|]. eapply rtc_l; [right; apply m_wait|].
  eapply rtc_l; [left; apply (p_open_arrives _ _ _ (OpenIn "/d/a"))|].
  thread_runs ltac:(left; eapply p_open).
  thread_runs ltac:(left; eapply (p_close_arrives _ _ _ (CloseIn 0))).
  apply rtc_once. left. apply (p_find _ _ _ 0 true). vm_compute. reflexivity.
Qed.

Lemma signalled_reachable : rtc (thread_step demo_nvme) (started demo_world) signalled.
Proof.
  etrans; [apply locking_reachable|].
  eapply rtc_l; [left; apply p_lock|].
  thread_runs ltac:(left; eapply p_signal).
  thread_runs ltac:(left; eapply (p_push _ _ _ _ pushed)).
  apply rtc_once. left. apply p_unlock.
Qed.

Lemma racing_reachable : rtc (thread_step demo_nvme) (started demo_world) racing.
Proof.
  etrans; [apply signalled_reachable|].
  thread_runs ltac:(left; eapply p_erase).
  thread_runs ltac:(right; eapply m_wake).
  thread_runs ltac:(right; eapply m_drain).
  thread_runs ltac:(right; eapply m_drained).
  eapply rtc_l; [right; apply m_unlock|].
  match goal with |- rtc _ (Threads ?s _ _ _) _ =>
    replace racing with (Threads s None (HOpen (OpenIn "/d/a")) MCopy) by (vm_compute; reflexivity)
  end.
  apply rtc_once. left. apply p_open_arrives.
Qed.

(** The mover holds the mutex at its first turn while a close handler waits. *)
Definition contended : threads RefPosix.world :=
  Threads (after (close_find 0 (after (close_start (CloseIn 0) (demo_open (fresh_server demo_world)))
                                  (fresh_server demo_world))) (fresh_server demo_world))
    (Some Mover) (HLock 0) MWait.

Lemma contended_reachable : rtc (thread_step demo_nvme) (started demo_world) contended.
Proof.
  eapply rtc_l; [right; apply m_lock|].
  eapply rtc_l; [left; apply (p_open_arrives _ _ _ (OpenIn "/d/a"))|].
  thread_runs ltac:(left; eapply p_open).
  thread_runs ltac:(left; eapply (p_close_arrives _ _ _ (CloseIn 0))).
  apply rtc_once. left. apply (p_find _ _ _ 0 true). vm_compute. reflexivity.
Qed.

(** C22: nothing protects [path_cache_map]: the mover can be about to insert a
    path while the open handler is about to search the map. *)
Theorem cache_map_race_reachable :
  ∃ f : threads RefPosix.world,
    rtc (thread_step demo_nvme) (started demo_world) f ∧ data_race CacheMap f.
Proof.
  exists racing. split; [apply racing_reachable|]. exists (Reads CacheMap), (Writes CacheMap).
  by split_and!; vm_compute.
Qed.

Lemma cache_coherent_every_interleaving_witness : cache_ok (srv racing).
Proof.
  exact (cache_coherent_every_interleaving demo_nvme demo_world racing demo_clean racing_reachable).
Defined.

Lemma mutex_protects_queue_witness :
  mover (srv signalled) = MoverWoken ∧ data_queue (srv signalled) ≠ [].
Proof.
  split; [vm_compute; reflexivity|].
  apply (mutex_protects_queue demo_nvme demo_world signalled signalled_reachable);
    vm_compute; reflexivity.
Defined.

Lemma close_waits_for_no_copy_witness :
  owner contended = None ∨
  ∃ n f', nsteps (mover_thread demo_nvme) n contended f' ∧
    (n ≤ length (data_queue (srv contended)) + 2)%nat ∧
    owner f' = None ∧ hpc f' = HLock 0 ∧ path_cache_map (srv f') = path_cache_map (srv contended).
Proof.
  exact (close_waits_for_no_copy demo_nvme demo_world contended 0 contended_reachable eq_refl).
Defined.

Lemma atomic_server_is_interleaving_witness :
  ∃ f, rtc (thread_step demo_nvme) (started demo_world) f ∧ srv f = missed ∧ owner f = None ∧
    hpc f = HIdle ∧ (mpc f = MSleep ↔ mover missed ≠ MoverRunning).
Proof. exact (atomic_server_is_interleaving demo_nvme demo_world missed missed_reachable). Defined.

(** The mover sleeps beside the file whose signal was lost ([missed] of
    [DataMover]); it takes three statements more than there are files. *)
Lemma any_wakeup_takes_queue_witness :
  ∃ f f', rtc (thread_step demo_nvme) (started demo_world) f ∧ srv f = missed ∧
    nsteps (mover_thread demo_nvme) (length (data_queue missed) + 3) f f' ∧
    data_queue (srv f') = [] ∧ local_list (srv f') = local_list missed ++ data_queue missed.
Proof.
  destruct (server_step_simulated demo_nvme _ _ _ (started_at_rest demo_world) missed_reachable)
    as (f & Hf & Hsrv & Ho & _ & Hm).
  assert (Hsleep : mpc f = MSleep) by (destruct Hm as [[? _]|[Hr _]]; [done|by vm_compute in Hr]).
  destruct (any_wakeup_takes_queue demo_nvme demo_world f Hf Hsleep Ho)
    as (f' & Hrun & _ & _ & _ & Hq & Hl & _).
  rewrite Hsrv in Hrun, Hl. by exists f, f'.
Defined.
