(* ===== verification/ClientState.v ===== *)
(** * State of a client process and the servers it talks to

    The globals of [hvac_client.cpp], [hvac_comm_client.cpp], [hvac_comm.cpp]
    and [wrappers.c] in one application process, with the requests it has
    forwarded and not completed, the servers by address, and the shared address
    file. *)
From S2P Require Import Prelude CLib Posix Rpc.

(** A forwarded request with the callback argument that [HG_Forward] got. *)
Inductive request :=
  | ReqOpen (inp : hvac_open_in_t) (local_fd : Z)
  | ReqRead (inp : hvac_rpc_in_t)
  | ReqSeek (inp : hvac_seek_in_t)
  | ReqClose (inp : hvac_close_in_t).

(** The call counters of [wrappers.c]. *)
Record counts := Counts {
  open_stats : Z;
  open_data_stats : Z;
  open_system_stats : Z;
  close_stats : Z;
  read_stats : Z;
  pread_stats : Z
}.

Section State.
Context {W Srv : Type}.

(** [hg_class] and [hg_context] say whether the pointers are non-null,
    [progress_threads] how many progress threads run; [outbox] holds the
    requests that are forwarded and not complete. *)
Record system := System {
  tl_disable_redirect : bool;
  g_disable_redirect : bool;
  g_hvac_initialized : bool;
  g_mercury_init : bool;
  g_hvac_server_count : Z;
  hvac_data_dir : option string;
  fd_map : gmap Z string;
  fd_redir_map : gmap Z Z;
  address_cache : gmap Z string;
  done : Z;
  read_ret : Z;
  outbox : list (string * request);
  user_buf : bytes;
  open_streams : Z;
  server_rank : Z;
  progress_threads : Z;
  hg_class : bool;
  hg_context : bool;
  stats : counts;
  cli_os : W;
  servers : gmap string Srv;
  ports_file : option string
}.

Definition set_tl_disable_redirect (x : bool) (s : system) : system :=
  System x (g_disable_redirect s) (g_hvac_initialized s) (g_mercury_init s)
    (g_hvac_server_count s) (hvac_data_dir s) (fd_map s) (fd_redir_map s) (address_cache s)
    (done s) (read_ret s) (outbox s) (user_buf s) (open_streams s) (server_rank s)
    (progress_threads s) (hg_class s) (hg_context s) (stats s) (cli_os s) (servers s)
    (ports_file s).
Definition set_g_disable_redirect (x : bool) (s : system) : system :=
  System (tl_disable_redirect s) x (g_hvac_initialized s) (g_mercury_init s)
    (g_hvac_server_count s) (hvac_data_dir s) (fd_map s) (fd_redir_map s) (address_cache s)
    (done s) (read_ret s) (outbox s) (user_buf s) (open_streams s) (server_rank s)
    (progress_threads s) (hg_class s) (hg_context s) (stats s) (cli_os s) (servers s)
    (ports_file s).
Definition set_g_hvac_initialized (x : bool) (s : system) : system :=
  System (tl_disable_redirect s) (g_disable_redirect s) x (g_mercury_init s)
    (g_hvac_server_count s) (hvac_data_dir s) (fd_map s) (fd_redir_map s) (address_cache s)
    (done s) (read_ret s) (outbox s) (user_buf s) (open_streams s) (server_rank s)
    (progress_threads s) (hg_class s) (hg_context s) (stats s) (cli_os s) (servers s)
    (ports_file s).
Definition set_g_mercury_init (x : bool) (s : system) : system :=
  System (tl_disable_redirect s) (g_disable_redirect s) (g_hvac_initialized s) x
    (g_hvac_server_count s) (hvac_data_dir s) (fd_map s) (fd_redir_map s) (address_cache s)
    (done s) (read_ret s) (outbox s) (user_buf s) (open_streams s) (server_rank s)
    (progress_threads s) (hg_class s) (hg_context s) (stats s) (cli_os s) (servers s)
    (ports_file s).
Definition set_g_hvac_server_count (x : Z) (s : system) : system :=
  System (tl_disable_redirect s) (g_disable_redirect s) (g_hvac_initialized s)
    (g_mercury_init s) x (hvac_data_dir s) (fd_map s) (fd_redir_map s) (address_cache s)
    (done s) (read_ret s) (outbox s) (user_buf s) (open_streams s) (server_rank s)
    (progress_threads s) (hg_class s) (hg_context s) (stats s) (cli_os s) (servers s)
    (ports_file s).
Definition set_hvac_data_dir (x : option string) (s : system) : system :=
  System (tl_disable_redirect s) (g_disable_redirect s) (g_hvac_initialized s)
    (g_mercury_init s) (g_hvac_server_count s) x (fd_map s) (fd_redir_map s) (address_cache s)
    (done s) (read_ret s) (outbox s) (user_buf s) (open_streams s) (server_rank s)
    (progress_threads s) (hg_class s) (hg_context s) (stats s) (cli_os s) (servers s)
    (ports_file s).
Definition set_fd_map (x : gmap Z string) (s : system) : system :=
  System (tl_disable_redirect s) (g_disable_redirect s) (g_hvac_initialized s)
    (g_mercury_init s) (g_hvac_server_count s) (hvac_data_dir s) x (fd_redir_map s)
    (address_cache s) (done s) (read_ret s) (outbox s) (user_buf s) (open_streams s)
    (server_rank s) (progress_threads s) (hg_class s) (hg_context s) (stats s) (cli_os s)
    (servers s) (ports_file s).
Definition set_fd_redir_map (x : gmap Z Z) (s : system) : system :=
  System (tl_disable_redirect s) (g_disable_redirect s) (g_hvac_initialized s)
    (g_mercury_init s) (g_hvac_server_count s) (hvac_data_dir s) (fd_map s) x (address_cache s)
    (done s) (read_ret s) (outbox s) (user_buf s) (open_streams s) (server_rank s)
    (progress_threads s) (hg_class s) (hg_context s) (stats s) (cli_os s) (servers s)
    (ports_file s).
Definition set_address_cache (x : gmap Z string) (s : system) : system :=
  System (tl_disable_redirect s) (g_disable_redirect s) (g_hvac_initialized s)
    (g_mercury_init s) (g_hvac_server_count s) (hvac_data_dir s) (fd_map s) (fd_redir_map s) x
    (done s) (read_ret s) (outbox s) (user_buf s) (open_streams s) (server_rank s)
    (progress_threads s) (hg_class s) (hg_context s) (stats s) (cli_os s) (servers s)
    (ports_file s).
Definition set_done (x : Z) (s : system) : system :=
  System (tl_disable_redirect s) (g_disable_redirect s) (g_hvac_initialized s)
    (g_mercury_init s) (g_hvac_server_count s) (hvac_data_dir s) (fd_map s) (fd_redir_map s)
    (address_cache s) x (read_ret s) (outbox s) (user_buf s) (open_streams s) (server_rank s)
    (progress_threads s) (hg_class s) (hg_context s) (stats s) (cli_os s) (servers s)
    (ports_file s).
Definition set_read_ret (x : Z) (s : system) : system :=
  System (tl_disable_redirect s) (g_disable_redirect s) (g_hvac_initialized s)
    (g_mercury_init s) (g_hvac_server_count s) (hvac_data_dir s) (fd_map s) (fd_redir_map s)
    (address_cache s) (done s) x (outbox s) (user_buf s) (open_streams s) (server_rank s)
    (progress_threads s) (hg_class s) (hg_context s) (stats s) (cli_os s) (servers s)
    (ports_file s).
Definition set_outbox (x : list (string * request)) (s : system) : system :=
  System (tl_disable_redirect s) (g_disable_redirect s) (g_hvac_initialized s)
    (g_mercury_init s) (g_hvac_server_count s) (hvac_data_dir s) (fd_map s) (fd_redir_map s)
    (address_cache s) (done s) (read_ret s) x (user_buf s) (open_streams s) (server_rank s)
    (progress_threads s) (hg_class s) (hg_context s) (stats s) (cli_os s) (servers s)
    (ports_file s).
Definition set_user_buf (x : bytes) (s : system) : system :=
  System (tl_disable_redirect s) (g_disable_redirect s) (g_hvac_initialized s)
    (g_mercury_init s) (g_hvac_server_count s) (hvac_data_dir s) (fd_map s) (fd_redir_map s)
    (address_cache s) (done s) (read_ret s) (outbox s) x (open_streams s) (server_rank s)
    (progress_threads s) (hg_class s) (hg_context s) (stats s) (cli_os s) (servers s)
    (ports_file s).
Definition set_open_streams (x : Z) (s : system) : system :=
  System (tl_disable_redirect s) (g_disable_redirect s) (g_hvac_initialized s)
    (g_mercury_init s) (g_hvac_server_count s) (hvac_data_dir s) (fd_map s) (fd_redir_map s)
    (address_cache s) (done s) (read_ret s) (outbox s) (user_buf s) x (server_rank s)
    (progress_threads s) (hg_class s) (hg_context s) (stats s) (cli_os s) (servers s)
    (ports_file s).
Definition set_server_rank (x : Z) (s : system) : system :=
  System (tl_disable_redirect s) (g_disable_redirect s) (g_hvac_initialized s)
    (g_mercury_init s) (g_hvac_server_count s) (hvac_data_dir s) (fd_map s) (fd_redir_map s)
    (address_cache s) (done s) (read_ret s) (outbox s) (user_buf s) (open_streams s) x
    (progress_threads s) (hg_class s) (hg_context s) (stats s) (cli_os s) (servers s)
    (ports_file s).
Definition set_progress_threads (x : Z) (s : system) : system :=
  System (tl_disable_redirect s) (g_disable_redirect s) (g_hvac_initialized s)
    (g_mercury_init s) (g_hvac_server_count s) (hvac_data_dir s) (fd_map s) (fd_redir_map s)
    (address_cache s) (done s) (read_ret s) (outbox s) (user_buf s) (open_streams s)
    (server_rank s) x (hg_class s) (hg_context s) (stats s) (cli_os s) (servers s)
    (ports_file s).
Definition set_hg_class (x : bool) (s : system) : system :=
  System (tl_disable_redirect s) (g_disable_redirect s) (g_hvac_initialized s)
    (g_mercury_init s) (g_hvac_server_count s) (hvac_data_dir s) (fd_map s) (fd_redir_map s)
    (address_cache s) (done s) (read_ret s) (outbox s) (user_buf s) (open_streams s)
    (server_rank s) (progress_threads s) x (hg_context s) (stats s) (cli_os s) (servers s)
    (ports_file s).
Definition set_hg_context (x : bool) (s : system) : system :=
  System (tl_disable_redirect s) (g_disable_redirect s) (g_hvac_initialized s)
    (g_mercury_init s) (g_hvac_server_count s) (hvac_data_dir s) (fd_map s) (fd_redir_map s)
    (address_cache s) (done s) (read_ret s) (outbox s) (user_buf s) (open_streams s)
    (server_rank s) (progress_threads s) (hg_class s) x (stats s) (cli_os s) (servers s)
    (ports_file s).
Definition set_stats (x : counts) (s : system) : system :=
  System (tl_disable_redirect s) (g_disable_redirect s) (g_hvac_initialized s)
    (g_mercury_init s) (g_hvac_server_count s) (hvac_data_dir s) (fd_map s) (fd_redir_map s)
    (address_cache s) (done s) (read_ret s) (outbox s) (user_buf s) (open_streams s)
    (server_rank s) (progress_threads s) (hg_class s) (hg_context s) x (cli_os s) (servers s)
    (ports_file s).
Definition set_cli_os (x : W) (s : system) : system :=
  System (tl_disable_redirect s) (g_disable_redirect s) (g_hvac_initialized s)
    (g_mercury_init s) (g_hvac_server_count s) (hvac_data_dir s) (fd_map s) (fd_redir_map s)
    (address_cache s) (done s) (read_ret s) (outbox s) (user_buf s) (open_streams s)
    (server_rank s) (progress_threads s) (hg_class s) (hg_context s) (stats s) x (servers s)
    (ports_file s).
Definition set_servers (x : gmap string Srv) (s : system) : system :=
  System (tl_disable_redirect s) (g_disable_redirect s) (g_hvac_initialized s)
    (g_mercury_init s) (g_hvac_server_count s) (hvac_data_dir s) (fd_map s) (fd_redir_map s)
    (address_cache s) (done s) (read_ret s) (outbox s) (user_buf s) (open_streams s)
    (server_rank s) (progress_threads s) (hg_class s) (hg_context s) (stats s) (cli_os s) x
    (ports_file s).
Definition set_ports_file (x : option string) (s : system) : system :=
  System (tl_disable_redirect s) (g_disable_redirect s) (g_hvac_initialized s)
    (g_mercury_init s) (g_hvac_server_count s) (hvac_data_dir s) (fd_map s) (fd_redir_map s)
    (address_cache s) (done s) (read_ret s) (outbox s) (user_buf s) (open_streams s)
    (server_rank s) (progress_threads s) (hg_class s) (hg_context s) (stats s) (cli_os s)
    (servers s) x.

(** A library call of the client process on its own world. *)
Definition client_os {A} (f : W → A * W) : M system A := λ s,
  let '(a, w) := f (cli_os s) in Ok (a, set_cli_os w s).
End State.

Arguments system W Srv : clear implicits.
Arguments set_tl_disable_redirect {W Srv} x s /.
Arguments set_g_disable_redirect {W Srv} x s /.
Arguments set_g_hvac_initialized {W Srv} x s /.
Arguments set_g_mercury_init {W Srv} x s /.
Arguments set_g_hvac_server_count {W Srv} x s /.
Arguments set_hvac_data_dir {W Srv} x s /.
Arguments set_fd_map {W Srv} x s /.
Arguments set_fd_redir_map {W Srv} x s /.
Arguments set_address_cache {W Srv} x s /.
Arguments set_done {W Srv} x s /.
Arguments set_read_ret {W Srv} x s /.
Arguments set_outbox {W Srv} x s /.
Arguments set_user_buf {W Srv} x s /.
Arguments set_open_streams {W Srv} x s /.
Arguments set_server_rank {W Srv} x s /.
Arguments set_progress_threads {W Srv} x s /.
Arguments set_hg_class {W Srv} x s /.
Arguments set_hg_context {W Srv} x s /.
Arguments set_stats {W Srv} x s /.
Arguments set_cli_os {W Srv} x s /.
Arguments set_servers {W Srv} x s /.
Arguments set_ports_file {W Srv} x s /.
