(* ===== verification/CommClient.v ===== *)
(** * The client side of the transport ([hvac_comm_client.cpp])

    Address lookup in the ports file, the four request generators, the three
    completion callbacks, and the wait on the shared [done] flag.  A wait lets
    the progress thread complete forwarded requests, in an order that the
    transport chooses, until the flag is [HG_TRUE]; a wait that nothing can end
    is a fault. *)
From S2P Require Import Prelude CLib Posix Rpc ClientState.

Definition HG_FALSE : Z := 0.
Definition HG_TRUE : Z := 1.
Definition PATH_MAX : Z := 4096.

(** ** Addresses *)

(** The [fscanf] loop over the ports file, with an upper bound on its turns.
    A token of [PATH_MAX] characters or more overruns [svr_str]. *)
Fixpoint scan_ports (fuel : nat) (rank : Z) (text : string) : outcome (option string) :=
  match fuel with
  | O => Ok None
  | S fuel =>
      match fscanf_int_token text with
      | None => Ok None
      | Some (svr_rank, svr_str, rest) =>
          if PATH_MAX <=? Z.of_nat (String.length svr_str) then Fault FUndefined
          else if svr_rank =? rank then Ok (Some svr_str)
          else scan_ports fuel rank rest
      end
  end.

Definition find_server (rank : Z) (text : string) : outcome (option string) :=
  scan_ports (S (String.length text)) rank text.

Section Transport.
Context {W Srv : Type} `{!FileServer Srv} {hg : mercury}.
Abbreviation M := (M (system W Srv)).

(** The address of the server with this rank; [None] is a null address.  The
    stream opened on the ports file is never closed. *)
Definition hvac_client_comm_lookup_addr (rank : Z) : M (option string) :=
  cached ← gets (λ s, address_cache s !! rank);
  match cached with
  | Some a => if hg_addr_lookup hg a then mret (Some a) else fail FUndefined
  | None =>
      na_config ← gets ports_file;
      match na_config with
      | None => fail FUndefined
      | Some text =>
          modify (λ s, set_open_streams (open_streams s + 1) s);;
          match find_server rank text with
          | Fault f => fail f
          | Ok None => mret None
          | Ok (Some svr_str) =>
              modify (λ s, set_address_cache (<[rank := svr_str]> (address_cache s)) s);;
              mret (if hg_addr_lookup hg svr_str then Some svr_str else None)
          end
      end
  end.

(** ** Completion callbacks *)

Definition signal_done : M unit := modify (λ s, set_done (u8 (done s + 1)) s).

(** A callback gets the status [info->ret] of its request. *)
Definition hvac_open_cb (ret local_fd : Z) (out : hvac_open_out_t) : M unit :=
  cassert (ret =? HG_SUCCESS);;
  modify (λ s, set_fd_redir_map (<[i32 local_fd := ret_status out]> (fd_redir_map s)) s);;
  signal_done.

Definition hvac_read_cb (ret : Z) (out : hvac_rpc_out_t) : M unit :=
  cassert (ret =? HG_SUCCESS);;
  cassert (hg_bulk_free hg =? HG_SUCCESS);;
  cassert (hg_free_output hg =? HG_SUCCESS);;
  cassert (hg_destroy hg =? HG_SUCCESS);;
  signal_done;;
  modify (set_read_ret (out_ret out)).

(** It does not look at its status. *)
Definition hvac_seek_cb (out : hvac_seek_out_t) : M unit :=
  signal_done;;
  modify (set_read_ret (seek_ret out)).

(** Callbacks run on a progress thread. *)
Definition callback (cb : M unit) : M unit :=
  threads ← gets progress_threads;
  when (negb (threads =? 0)) cb.

(** The callback of a request that nobody answered has no output: the open and
    the read callback fail their assertion, the seek callback uses a structure
    that was not filled in.  A close has no callback. *)
Definition lost (req : request) : M unit :=
  match hg_lost hg with
  | None => mret tt
  | Some ret =>
      match req with
      | ReqOpen _ local_fd => callback (hvac_open_cb ret local_fd (OpenOut (-1)))
      | ReqRead _ => callback (hvac_read_cb ret (RpcOut (-1)))
      | ReqSeek _ => callback (fail FUndefined)
      | ReqClose _ => mret tt
      end
  end.

(** ** Delivery *)

(** One forwarded request: the server handles it and the callback runs.  A
    server that stops in the handler never answers and is gone. *)
Definition deliver (m : string * request) : M unit :=
  let '(addr, req) := m in
  srv ← gets (λ s, servers s !! addr);
  match srv with
  | None => lost req
  | Some srv =>
      let crashed := modify (λ s, set_servers (delete addr (servers s)) s);; lost req in
      let continue srv' := modify (λ s, set_servers (<[addr := srv']> (servers s)) s) in
      match req with
      | ReqOpen inp local_fd =>
          match fs_open inp srv with
          | Ok (out, srv') =>
              continue srv';; callback (hvac_open_cb (hg_forward_status hg) local_fd out)
          | Fault _ => crashed
          end
      | ReqRead inp =>
          match fs_read inp srv with
          | Ok (out, data, srv') =>
              continue srv';; modify (set_user_buf data);;
              callback (hvac_read_cb (hg_forward_status hg) out)
          | Fault _ => crashed
          end
      | ReqSeek inp =>
          match fs_seek inp srv with
          | Ok (out, srv') => continue srv';; callback (hvac_seek_cb out)
          | Fault _ => crashed
          end
      | ReqClose inp =>
          match fs_close inp srv with
          | Ok srv' => continue srv'
          | Fault _ => crashed
          end
      end
  end.

(** The request that completes next, and the others. *)
Definition next_request (box : list (string * request)) :
    option ((string * request) * list (string * request)) :=
  let i := (hg_next hg (length box) mod length box)%nat in
  m ← box !! i; Some (m, delete i box).

(** At most [n] requests complete before [done] is set. *)
Fixpoint progress_until_done (n : nat) (box : list (string * request)) : M unit :=
  d ← gets done;
  if d =? HG_TRUE then modify (set_outbox box)
  else match n, next_request box with
       | S n, Some (m, box) => deliver m;; progress_until_done n box
       | _, _ => fail FBlocked
       end.

(** [while (done != HG_TRUE) pthread_cond_wait(...)]: requests complete until
    the flag is set, in the order of the transport; when all have completed and
    it is not, the wait never ends. *)
Definition hvac_client_block : M unit :=
  box ← gets outbox;
  modify (set_outbox []);;
  progress_until_done (length box) box.

Definition hvac_read_block : M Z := hvac_client_block;; gets read_ret.
(** The result passes through a [size_t]. *)
Definition hvac_seek_block : M Z := hvac_client_block;; r ← gets read_ret; mret (i64 (u64 r)).

(** ** Registration *)

(** The procedures get their identifiers; the close procedure is told that it
    has no response. *)
Definition hvac_client_comm_register_rpc : M unit :=
  class ← gets hg_class;
  cassert (hg_disable_response hg class =? HG_SUCCESS).

(** ** Request generators *)

Definition hvac_comm_create_handle : M unit :=
  context ← gets hg_context;
  cassert (hg_create hg context =? HG_SUCCESS).
Definition hvac_comm_free_addr : M unit := cassert (hg_addr_free hg =? HG_SUCCESS).

(** [HG_Forward] to an address, with the assertion on its result. *)
Definition forward (addr : option string) (req : request) : M unit :=
  cassert (hg_forward hg (match addr with Some _ => true | None => false end) =? 0);;
  match addr with
  | Some a => modify (λ s, set_outbox (outbox s ++ [(a, req)]) s)
  | None => mret tt
  end.

(** [fd_redir_map[fd]] *)
Definition remote_of (fd : Z) : M Z := λ s,
  let '(r, m) := map_index 0 (fd_redir_map s) fd in Ok (r, set_fd_redir_map m s).

Definition hvac_client_comm_gen_close_rpc (svr_hash fd : Z) : M unit :=
  svr_addr ← hvac_client_comm_lookup_addr (i32 svr_hash);
  hvac_comm_create_handle;;
  rfd ← remote_of fd;
  forward svr_addr (ReqClose (CloseIn rfd));;
  modify (λ s, set_fd_redir_map (delete fd (fd_redir_map s)) s);;
  hvac_comm_free_addr.

Definition hvac_client_comm_gen_open_rpc (svr_hash : Z) (path : string) (fd : Z) : M unit :=
  modify (set_done HG_FALSE);;
  svr_addr ← hvac_client_comm_lookup_addr (i32 svr_hash);
  hvac_comm_create_handle;;
  forward svr_addr (ReqOpen (OpenIn path) (u32 fd));;
  hvac_comm_free_addr.

(** [buffer] says whether the caller's pointer is non-null. *)
Definition hvac_client_comm_gen_read_rpc (svr_hash localfd : Z) (buffer : bool) (count offset : Z) :
    M unit :=
  modify (set_done HG_FALSE);;
  modify (set_read_ret (-1));;
  svr_addr ← hvac_client_comm_lookup_addr (i32 svr_hash);
  let size := u64 count in
  cassert buffer;;
  hvac_comm_create_handle;;
  cassert (hg_get_info hg);;
  cassert (hg_bulk_create hg size =? HG_SUCCESS);;
  rfd ← remote_of localfd;
  forward svr_addr (ReqRead (RpcIn (i32 count) size rfd offset));;
  hvac_comm_free_addr.

Definition hvac_client_comm_gen_seek_rpc (svr_hash fd offset whence : Z) : M unit :=
  modify (set_read_ret (-1));;
  modify (set_done HG_FALSE);;
  svr_addr ← hvac_client_comm_lookup_addr (i32 svr_hash);
  hvac_comm_create_handle;;
  rfd ← remote_of fd;
  forward svr_addr (ReqSeek (SeekIn rfd offset whence));;
  hvac_comm_free_addr.
End Transport.

(** ** The order of completion *)

(** As long as a request is under way, one completes. *)
Lemma next_request_Some {hg : mercury} box :
  box ≠ [] → ∃ b1 m b2, box = b1 ++ m :: b2 ∧ next_request (hg := hg) box = Some (m, b1 ++ b2).
Proof.
  intros Hbox. unfold next_request.
  destruct (lookup_lt_is_Some_2 box (hg_next hg (length box) mod length box)) as [m Hm].
  { apply Nat.mod_upper_bound. by destruct box. }
  rewrite Hm. eexists _, m, _. split; [symmetry; by apply take_drop_middle|].
  simpl. by rewrite delete_take_drop.
Qed.

Lemma next_request_one {hg : mercury} m : next_request (hg := hg) [m] = Some (m, []).
Proof. unfold next_request. change (length [m]) with 1%nat. by rewrite Nat.mod_1_r. Qed.

(** ** Addresses that are too long *)

(** An address as long as the client's buffer overruns it: the lookup that
    reaches such a line has no defined behaviour. *)
Theorem long_address_overruns r a rank rest :
  is_i32 r → is_word a = true → PATH_MAX ≤ Z.of_nat (String.length a) →
  find_server rank (int_token_line r a +:+ rest) = Fault FUndefined.
Proof.
  intros Hr Ha Hlen. unfold find_server. simpl. rewrite fscanf_int_token_line by done.
  by apply Z.leb_le in Hlen as ->.
Qed.

(** A word of a given length. *)
Fixpoint long_word (n : nat) : string :=
  match n with O => "" | S n => "x" +:+ long_word n end.

Lemma long_address_overruns_witness :
  find_server 5 (int_token_line 0 (long_word 4096) +:+ "") = Fault FUndefined.
Proof. apply (long_address_overruns 0 (long_word 4096) 5 ""); [word|by vm_compute|by vm_compute]. Defined.
