(* ===== verification/DoneFlag.v ===== *)
(** * One completion flag for all threads ([hvac_comm_client.cpp])

    Every blocking call of a client process waits on the same two variables,
    [done] and [read_ret].  Application threads as state machines over them:
    one caller at a time always gets its own answer; two callers can get each
    other's answer or wait for ever. *)
From S2P Require Import Prelude CommClient.

(** Where a thread is: outside the library, waiting for [done], or returned
    with a value. *)
Inductive caller := Outside | Waits | Returned (v : Z).

#[export] Instance caller_eq_dec : EqDecision caller.
Proof. solve_decision. Defined.

(** The shared variables, the threads, and the requests not answered yet. *)
Record flag := Flag {
  fl_done : Z;
  fl_read_ret : Z;
  fl_callers : gmap nat caller;
  fl_pending : list nat
}.

Definition caller_of (s : flag) (i : nat) : caller := default Outside (fl_callers s !! i).

(** The request generator of a read: it clears the shared variables, without
    the mutex, and forwards. *)
Definition gen_read (i : nat) (s : flag) : flag :=
  Flag HG_FALSE (-1) (<[i := Waits]> (fl_callers s)) (fl_pending s ++ [i]).

(** The completion callback for caller [i] with answer [v]. *)
Definition read_cb (i : nat) (v : Z) (s : flag) : flag :=
  Flag (u8 (fl_done s + 1)) v (fl_callers s) (filter (λ j, j ≠ i) (fl_pending s)).

(** The end of [while (done != HG_TRUE) pthread_cond_wait]. *)
Definition read_block_returns (s : flag) : bool := fl_done s =? HG_TRUE.
Definition read_block (i : nat) (s : flag) : flag :=
  Flag (fl_done s) (fl_read_ret s) (<[i := Returned (fl_read_ret s)]> (fl_callers s)) (fl_pending s).

Section Threads.
(** The answer the servers give to each caller. *)
Variable answer : nat → Z.
(** Which threads call. *)
Variable active : nat → Prop.

Inductive flag_step : flag → flag → Prop :=
  | step_call s i :
      active i → caller_of s i ≠ Waits → flag_step s (gen_read i s)
  | step_answer s i :
      i ∈ fl_pending s → flag_step s (read_cb i (answer i) s)
  | step_return s i :
      caller_of s i = Waits → read_block_returns s = true → flag_step s (read_block i s).

Definition flag_start : flag := Flag HG_FALSE (-1) ∅ [].

Definition reachable (s : flag) : Prop := rtc flag_step flag_start s.

Lemma caller_of_insert s i j c d r p :
  caller_of (Flag d r (<[i := c]> (fl_callers s)) p) j = if decide (i = j) then c else caller_of s j.
Proof. unfold caller_of; simpl. rewrite lookup_insert. by case_decide. Qed.

(** What holds while only thread [i] calls. *)
Definition one_caller (i : nat) (s : flag) : Prop :=
  (∀ j, j ≠ i → caller_of s j = Outside) ∧
  match caller_of s i with
  | Outside => fl_pending s = []
  | Waits => (fl_pending s = [i] ∧ fl_done s = HG_FALSE) ∨
             (fl_pending s = [] ∧ fl_done s = HG_TRUE ∧ fl_read_ret s = answer i)
  | Returned v => v = answer i ∧ fl_pending s = []
  end.

Lemma one_caller_step i s s' :
  (∀ j, active j → j = i) → one_caller i s → flag_step s s' → one_caller i s'.
Proof.
  intros Hact [Hoth Hi] Hstep. destruct Hstep as [s j Hj Hc|s j Hj|s j Hj Hd].
  - apply Hact in Hj as ->. unfold one_caller, gen_read. split.
    + intros k Hk. rewrite caller_of_insert, decide_False by congruence. by apply Hoth.
    + rewrite caller_of_insert, decide_True by done. left. simpl. split; [|done].
      destruct (caller_of s i); [|done|destruct Hi as [_ Hi]]; by rewrite Hi.
  - assert (Hw : caller_of s i = Waits ∧ fl_pending s = [i] ∧ fl_done s = HG_FALSE).
    { destruct (caller_of s i); [|destruct Hi as [[? ?]|(Hp & _)]; [done|]|destruct Hi as [_ Hp]];
        (rewrite Hi in Hj || rewrite Hp in Hj); by apply not_elem_of_nil in Hj. }
    destruct Hw as (Hw & Hp & Hd). rewrite Hp in Hj. apply list_elem_of_singleton in Hj as ->.
    unfold one_caller, read_cb. change (caller_of (Flag _ _ (fl_callers s) _)) with (caller_of s).
    split; [done|]. rewrite Hw. right. simpl. rewrite Hp, Hd. simpl.
    split; [by rewrite filter_cons_False, filter_nil by auto|done].
  - destruct (decide (j = i)) as [->|Hne]; [|by rewrite (Hoth j Hne) in Hj].
    apply Z.eqb_eq in Hd. rewrite Hj in Hi.
    destruct Hi as [[_ Hf]|(Hp & _ & Hr)]; [by rewrite Hf in Hd|].
    unfold one_caller, read_block. split.
    + intros k Hk. rewrite caller_of_insert, decide_False by congruence. by apply Hoth.
    + by rewrite caller_of_insert, decide_True by done.
Qed.

Lemma one_caller_reachable i s :
  (∀ j, active j → j = i) → reachable s → one_caller i s.
Proof.
  intros Hact Hr. apply (rtc_ind_r (R := flag_step) (one_caller i) flag_start); [done| |exact Hr].
  intros s1 s2 _ Hstep Hs. by eapply one_caller_step.
Qed.

(** C11: when one thread of the process reads, each of its reads returns the
    answer to its own request, and a read that waits can always go on: its
    answer is on the way, or has come and the wait is over. *)
Theorem single_caller_gets_own_answer i s :
  (∀ j, active j → j = i) → reachable s →
  (∀ v, caller_of s i = Returned v → v = answer i) ∧
  (caller_of s i = Waits →
     i ∈ fl_pending s ∨ (read_block_returns s = true ∧ fl_read_ret s = answer i)).
Proof.
  intros Hact Hr. destruct (one_caller_reachable i s Hact Hr) as [_ Hi]. split.
  - intros v Hv. rewrite Hv in Hi. apply Hi.
  - intros Hw. rewrite Hw in Hi. destruct Hi as [[-> _]|(_ & Hd & Hr')]; [left; left|].
    right. split; [|done]. unfold read_block_returns. by apply Z.eqb_eq.
Qed.

(** C12: two threads that read at the same time can both wait for ever although
    every request has been answered: [done] went to 2 and is never 1 again
    unless a third thread calls. *)
Theorem two_callers_can_deadlock i j :
  i ≠ j → active i → active j →
  ∃ s, reachable s ∧ caller_of s i = Waits ∧ caller_of s j = Waits ∧ fl_pending s = [] ∧
       (∀ s', flag_step s s' → ∃ k, k ≠ i ∧ k ≠ j ∧ active k).
Proof.
  intros Hij Hi Hj.
  set (s := read_cb j (answer j) (read_cb i (answer i) (gen_read j (gen_read i flag_start)))).
  assert (Hci : caller_of s i = Waits) by (unfold caller_of; simpl; by simplify_map_eq).
  assert (Hcj : caller_of s j = Waits) by (unfold caller_of; simpl; by simplify_map_eq).
  assert (Hp : fl_pending s = []).
  { simpl. rewrite filter_cons_False, filter_cons_True, filter_nil by auto.
    by rewrite filter_cons_False, filter_nil by auto. }
  exists s. split; [|split; [done|split; [done|split; [done|]]]].
  - unfold reachable. eapply rtc_l; [by apply (step_call _ i)|].
    eapply rtc_l; [apply (step_call _ j); [done|]|].
    { unfold caller_of; simpl. by rewrite lookup_insert_ne by done. }
    eapply rtc_l; [apply (step_answer _ i); simpl; left|].
    apply rtc_once. apply (step_answer _ j). simpl.
    rewrite filter_cons_False, filter_cons_True by auto. left.
  - intros s' Hstep. assert (Hd : fl_done s = 2) by done. remember s as t eqn:Et.
    destruct Hstep as [t k Hk Hc|t k Hk|t k _ Hret].
    + exists k. split_and!; [| |done]; intros ->; congruence.
    + rewrite Hp in Hk. by apply not_elem_of_nil in Hk.
    + unfold read_block_returns in Hret. by rewrite Hd in Hret.
Qed.

(** A thread can return with the answer to another thread's request. *)
Theorem two_callers_can_swap i j :
  i ≠ j → active i → active j →
  ∃ s, reachable s ∧ caller_of s i = Returned (answer j).
Proof.
  intros Hij Hi Hj.
  exists (read_block i (read_cb j (answer j) (gen_read j (gen_read i flag_start)))). split.
  - unfold reachable. eapply rtc_l; [by apply (step_call _ i)|].
    eapply rtc_l; [apply (step_call _ j); [done|]|].
    { unfold caller_of; simpl. by rewrite lookup_insert_ne by done. }
    eapply rtc_l; [apply (step_answer _ j); simpl; right; left|].
    apply rtc_once, step_return; [|done]. unfold caller_of; simpl. by simplify_map_eq.
  - unfold caller_of; simpl. by simplify_map_eq.
Qed.
End Threads.

(** ** Witnesses *)

Definition demo_answer (i : nat) : Z := Z.of_nat i + 100.

Lemma single_caller_gets_own_answer_witness :
  caller_of (read_block 7 (read_cb 7 107 (gen_read 7 flag_start))) 7 = Returned 107 ∧
  ∀ v, caller_of (read_block 7 (read_cb 7 107 (gen_read 7 flag_start))) 7 = Returned v → v = 107.
Proof.
  split; [done|].
  apply (single_caller_gets_own_answer demo_answer (λ j, j = 7%nat) 7); [done|].
  unfold reachable. eapply rtc_l; [by apply (step_call _ _ _ 7)|].
  eapply rtc_l; [apply (step_answer demo_answer _ _ 7); simpl; left|].
  apply rtc_once. by apply (step_return _ _ _ 7).
Defined.

Lemma two_callers_can_deadlock_witness :
  ∃ s, reachable demo_answer (λ j, j < 2)%nat s ∧ caller_of s 0 = Waits ∧ caller_of s 1 = Waits ∧
       fl_pending s = [] ∧ ∀ s', ¬ flag_step demo_answer (λ j, j < 2)%nat s s'.
Proof.
  destruct (two_callers_can_deadlock demo_answer (λ j, j < 2)%nat 0 1) as (s & Hr & H0 & H1 & Hp & Hs);
    [done|lia|lia|].
  exists s. split_and!; try done. intros s' Hstep. destruct (Hs s' Hstep) as (k & ? & ? & ?). lia.
Defined.

Lemma two_callers_can_swap_witness :
  ∃ s, reachable demo_answer (λ j, j < 2)%nat s ∧ caller_of s 0 = Returned 101.
Proof. apply (two_callers_can_swap demo_answer (λ j, j < 2)%nat 0 1); [done|lia|lia]. Defined.
