(* ===== verification/Client.v ===== *)
(** * The client library ([hvac_client.cpp])

    Which opens are tracked, and the remote read, pread, lseek and close of a
    tracked descriptor. *)
From S2P Require Import Prelude CLib Posix Rpc ClientState CommClient.

(** [std::hash<std::string>]: some function to [size_t], the same in every
    process. *)
Class StringHash := {
  string_hash : string → Z;
  string_hash_range : ∀ s, is_u64 (string_hash s)
}.

Section ClientLibrary.
Context {W Srv : Type} `{!Posix W, !FileServer Srv, !StringHash} {hg : mercury}.
(** The environment of the process. *)
Variable env : environ.
Abbreviation M := (M (system W Srv)).

(** ** Initialisation *)

(** [hvac_init_comm(false)].  A class, a context or a thread that cannot be
    created is only logged. *)
Definition hvac_init_comm : M unit :=
  match getenv env "SLURM_PROCID" with
  | None => fail (FExit 1)
  | Some rank_str =>
      modify (set_server_rank (atoi rank_str));;
      modify (set_hg_class (hg_init hg));;
      class ← gets hg_class;
      modify (set_hg_context (hg_context_create hg class));;
      started ← gets (λ s, sys_thread (cli_os s));
      when started (modify (λ s, set_progress_threads (progress_threads s + 1) s))
  end.

Definition hvac_client_init : M unit :=
  initialized ← gets g_hvac_initialized;
  if (initialized : bool) then mret tt
  else
    match getenv env "HVAC_SERVER_COUNT" with
    | None => fail (FExit (-1))
    | Some n =>
        modify (set_g_hvac_server_count (u32 (atoi n)));;
        match getenv env "HVAC_DATA_DIR" with
        | Some d => modify (set_hvac_data_dir (Some d))
        | None => mret tt
        end;;
        modify (set_g_hvac_initialized true);;
        modify (set_g_disable_redirect false)
    end.

(** ** Tracking *)

Definition hvac_file_tracked (fd : Z) : M bool :=
  gets (λ s, negb (map_absent (fd_map s) fd)).

Definition hvac_get_path (fd : Z) : M (option string) := gets (λ s, fd_map s !! fd).

(** [fd_map[fd]] *)
Definition path_of (fd : Z) : M string := λ s,
  let '(p, m) := map_index "" (fd_map s) fd in Ok (p, set_fd_map m s).

(** [std::hash<std::string>{}(path) % g_hvac_server_count], as an [int]. *)
Definition host_of (path : string) : M Z :=
  n ← gets g_hvac_server_count;
  if n =? 0 then fail FUndefined else mret (i32 (string_hash path mod n)).

(** Whether the file is one to redirect: [Some] of its canonical path when it
    is in the data directory, or in the working directory when no data
    directory is set.  Exceptions are caught. *)
Definition track_decision (data_dir : option string) (w : W) (path : string) : option string :=
  match sys_canonical path w with
  | None => None
  | Some canon =>
      let ppath := parent_path canon in
      match data_dir with
      | Some dir =>
          match sys_canonical dir w with
          | None => None
          | Some test => if contains test ppath then Some canon else None
          end
      | None => if String.eqb ppath (sys_current_path w) then Some canon else None
      end
  end.

Definition hvac_track_file (path : string) (flags fd : Z) : M bool :=
  if contains ".ports.cfg." path then mret false
  else if Z.land flags O_ACCMODE =? O_WRONLY then mret false
  else if negb (Z.land flags O_APPEND =? 0) then mret false
  else
    decision ← gets (λ s, track_decision (hvac_data_dir s) (cli_os s) path);
    match decision with
    | None => mret false
    | Some canon =>
        modify (λ s, set_fd_map (<[fd := canon]> (fd_map s)) s);;
        init ← gets g_mercury_init;
        (if (init : bool) then mret tt
         else hvac_init_comm;; hvac_client_comm_register_rpc;; modify (set_g_mercury_init true));;
        p ← path_of fd;
        host ← host_of p;
        p ← path_of fd;
        hvac_client_comm_gen_open_rpc (u32 host) p fd;;
        hvac_client_block;;
        mret true
    end.

(** ** Operations on a tracked descriptor *)

Definition hvac_remote_read (fd : Z) (buf : bool) (count : Z) : M Z :=
  tracked ← hvac_file_tracked fd;
  if (tracked : bool) then
    p ← path_of fd;
    host ← host_of p;
    hvac_client_comm_gen_read_rpc (u32 host) fd buf (i64 count) (-1);;
    hvac_read_block
  else mret (-1).

Definition hvac_remote_pread (fd : Z) (buf : bool) (count offset : Z) : M Z :=
  tracked ← hvac_file_tracked fd;
  if (tracked : bool) then
    rfd ← remote_of fd;
    if negb (rfd =? 0) then
      p ← path_of fd;
      host ← host_of p;
      hvac_client_comm_gen_read_rpc (u32 host) fd buf (i64 count) offset;;
      hvac_read_block
    else mret (-1)
  else mret (-1).

(** The [off_t] a caller passes is cut to an [int] parameter. *)
Definition hvac_remote_lseek (fd offset whence : Z) : M Z :=
  tracked ← hvac_file_tracked fd;
  if (tracked : bool) then
    p ← path_of fd;
    host ← host_of p;
    hvac_client_comm_gen_seek_rpc (u32 host) fd (i32 offset) whence;;
    hvac_seek_block
  else mret (-1).

Definition hvac_remote_close (fd : Z) : M unit :=
  tracked ← hvac_file_tracked fd;
  when tracked (
    p ← path_of fd;
    host ← host_of p;
    hvac_client_comm_gen_close_rpc (u32 host) fd).

Definition hvac_remove_fd (fd : Z) : M bool :=
  hvac_remote_close fd;;
  tracked ← hvac_file_tracked fd;
  modify (λ s, set_fd_map (delete fd (fd_map s)) s);;
  mret tracked.
End ClientLibrary.

(** ** Which files are tracked *)

Section Tracking.
Context {W Srv : Type} `{!Posix W, !FileServer Srv, !StringHash} {hg : mercury}.
Implicit Types (s : system W Srv).

(** With a data directory set, a readable file is tracked as soon as the
    directory's canonical name occurs anywhere in the canonical name of the
    file's parent: below the directory at any depth ([pre] empty), but also
    beside it ([suf] not starting with a slash) or inside an unrelated tree. *)
Theorem tracks_paths_that_contain_dir dir d path canon pre suf (w : W) :
  sys_canonical dir w = Some d → sys_canonical path w = Some canon →
  parent_path canon = pre +:+ d +:+ suf →
  track_decision (Some dir) w path = Some canon.
Proof.
  intros Hd Hp Hpar. unfold track_decision. by rewrite Hp, Hd, Hpar, contains_app.
Qed.

(** Without a data directory, exactly the files whose parent is the working
    directory are tracked. *)
Theorem tracks_working_directory path (w : W) :
  is_Some (track_decision None w path) ↔
  ∃ canon, sys_canonical path w = Some canon ∧ parent_path canon = sys_current_path w.
Proof.
  unfold track_decision. destruct (sys_canonical path w) as [canon|].
  - destruct (String.eqb_spec (parent_path canon) (sys_current_path w)) as [Heq|Hne].
    + split; [by eexists|by eexists].
    + split; [by intros [? ?]|]. by intros (? & [= <-] & ?).
  - split; [by intros [? ?]|]. by intros (? & ? & ?).
Qed.

(** An open for writing only, an appending open, and an open of a
    file never reach the network and leave the client as it was, while an open
    for reading and writing is tracked like one for reading. *)
Theorem never_tracked env s path flags fd :
  contains ".ports.cfg." path = true ∨ Z.land flags O_ACCMODE = O_WRONLY ∨
  Z.land flags O_APPEND ≠ 0 ∨ track_decision (hvac_data_dir s) (cli_os s) path = None →
  hvac_track_file (hg := hg) env path flags fd s = Ok (false, s).
Proof.
  intros Hc. unfold hvac_track_file.
  destruct (contains ".ports.cfg." path) eqn:Hports; [done|].
  destruct (Z.eqb_spec (Z.land flags O_ACCMODE) O_WRONLY); [done|].
  destruct (Z.eqb_spec (Z.land flags O_APPEND) 0); [|done]. simpl. run_monad.
  destruct Hc as [?|[?|[?|Hd]]]; [done..|]. by rewrite Hd.
Qed.
End Tracking.

(** ** Witnesses *)

Definition sibling_world : RefPosix.world :=
  RefPosix.World {["/x/data2/f" := []]} {["/data"]} "/" ∅ 0.

Lemma tracks_paths_that_contain_dir_witness :
  track_decision (Some "/data") sibling_world "/x/data2/f" = Some "/x/data2/f".
Proof.
  by apply (tracks_paths_that_contain_dir "/data" "/data" "/x/data2/f" "/x/data2/f" "/x" "2").
Defined.

Section Witnesses.
#[local] Existing Instance demo_mercury.

(** A server of which nothing is asked. *)
#[local] Instance no_server : FileServer unit := {
  fs_open := λ _ _, Fault FAssert;
  fs_read := λ _ _, Fault FAssert;
  fs_seek := λ _ _, Fault FAssert;
  fs_close := λ _ _, Fault FAssert;
  fs_ok := λ _, True;
  fs_room := λ _, True;
  fs_file := λ _ _ _, False;
  fs_handle := λ _ _ _ _ _, False
}.
#[local] Instance zero_hash : StringHash.
Proof. by refine {| string_hash := λ _, 0 |}. Defined.

(** A process that tracks nothing and has no server. *)
Definition alone (w : RefPosix.world) : system RefPosix.world unit :=
  System false false true false 0 (Some "/data") ∅ ∅ ∅ 0 0 [] [] 0 0 0 false false
    (Counts 0 0 0 0 0 0) w ∅ None.

Lemma never_tracked_witness :
  hvac_track_file ∅ "/x/data2/f" O_WRONLY 3 (alone sibling_world) = Ok (false, alone sibling_world).
Proof. apply (never_tracked ∅ (alone sibling_world) "/x/data2/f" O_WRONLY 3). by right; left. Defined.
End Witnesses.
