(* ===== verification/Wrappers.v ===== *)
(** * The intercepted calls ([wrappers.c])

    [open], [close], [read] and [pread] as an application sees them when the
    client library is preloaded.  [__real_open] and its siblings are the calls
    of the process's own world; the call counters are kept here, the elapsed
    times and the lookup of the symbols in [Stats]. *)
From S2P Require Import Prelude CLib Posix Rpc ClientState CommClient Client.

Section Intercepted.
Context {W Srv : Type} `{!Posix W, !FileServer Srv, !StringHash} {hg : mercury}.
Variable env : environ.
Abbreviation M := (M (system W Srv)).

Definition redirect_disabled : M bool := gets (λ s, g_disable_redirect s || tl_disable_redirect s).

(** A log macro sets the thread's flag around the call to the log library. *)
Definition log_message : M unit :=
  modify (set_tl_disable_redirect true);;
  modify (set_tl_disable_redirect false).

Definition count_open (c : counts) : counts :=
  Counts (u64 (open_stats c + 1)) (open_data_stats c) (open_system_stats c) (close_stats c) (read_stats c)
    (pread_stats c).
Definition count_open_data (c : counts) : counts :=
  Counts (open_stats c) (u64 (open_data_stats c + 1)) (open_system_stats c) (close_stats c) (read_stats c)
    (pread_stats c).
Definition count_open_system (c : counts) : counts :=
  Counts (open_stats c) (open_data_stats c) (u64 (open_system_stats c + 1)) (close_stats c) (read_stats c)
    (pread_stats c).
Definition count_close (c : counts) : counts :=
  Counts (open_stats c) (open_data_stats c) (open_system_stats c) (u64 (close_stats c + 1)) (read_stats c)
    (pread_stats c).
Definition count_read (c : counts) : counts :=
  Counts (open_stats c) (open_data_stats c) (open_system_stats c) (close_stats c) (u64 (read_stats c + 1))
    (pread_stats c).
Definition count_pread (c : counts) : counts :=
  Counts (open_stats c) (open_data_stats c) (open_system_stats c) (close_stats c) (read_stats c)
    (u64 (pread_stats c + 1)).
Definition count (f : counts → counts) : M unit := modify (λ s, set_stats (f (stats s)) s).

Definition data_set_dir : string :=
  "/mnt/beegfs/ghu4/hvac/cosmoUniverse_2019_05_4parE_tf_v2_mini/".

(** [open(pathname, flags, mode)]; the mode counts only with [O_CREAT]. *)
Definition wrap_open (pathname : string) (flags mode_arg : Z) : M Z :=
  let mode := if negb (Z.land flags O_CREAT =? 0) then mode_arg else 0 in
  off ← redirect_disabled;
  if (off : bool) then client_os (sys_open pathname flags mode)
  else
    ret ← client_os (sys_open pathname flags mode);
    (if negb (ret =? -1) then
       tracked ← hvac_track_file env pathname flags ret;
       if (tracked : bool) then count count_open
       else if contains data_set_dir pathname then count count_open_data
       else count count_open_system
     else mret tt);;
    mret ret.

Definition wrap_close (fd : Z) : M Z :=
  off ← redirect_disabled;
  if (off : bool) then client_os (sys_close fd)
  else
    path ← hvac_get_path fd;
    match path with
    | Some _ => log_message;; _ ← hvac_remove_fd fd; mret tt
    | None => mret tt
    end;;
    ret ← client_os (sys_close fd);
    if negb (ret =? 0) then log_message;; mret ret
    else count count_close;; mret ret.

(** A read of the local descriptor into the caller's buffer. *)
Definition real_read (fd n : Z) : M Z :=
  rd ← client_os (sys_read fd n);
  modify (set_user_buf rd.2);;
  mret rd.1.
Definition real_pread (fd n offset : Z) : M Z :=
  rd ← client_os (sys_pread fd n offset);
  modify (set_user_buf rd.2);;
  mret rd.1.

(** The result goes through a variable of type [int]. *)
Definition wrap_read (fd : Z) (buf : bool) (n : Z) : M Z :=
  r ← hvac_remote_read fd buf n;
  let ret := i32 r in
  ret ← (if ret =? -1 then r ← real_read fd n; mret (i32 r) else mret ret);
  count count_read;;
  mret ret.

Definition wrap_pread (fd : Z) (buf : bool) (n offset : Z) : M Z :=
  path ← hvac_get_path fd;
  match path with
  | Some _ =>
      log_message;;
      ret ← hvac_remote_pread fd buf n offset;
      ret ← (if ret =? -1 then r ← real_pread fd n offset; log_message;; mret r else mret ret);
      count count_pread;;
      mret ret
  | None =>
      ret ← real_pread fd n offset;
      count count_pread;;
      mret ret
  end.
End Intercepted.

(** ** Files the client does not track *)

Section Untracked.
Context {W Srv : Type} `{!Posix W, !FileServer Srv, !StringHash} {hg : mercury}.
Variable env : environ.
Implicit Types (s : system W Srv).

(** Servers, pending requests and descriptor tables are as before. *)
Definition network_untouched s s' : Prop :=
  servers s' = servers s ∧ outbox s' = outbox s ∧ fd_map s' = fd_map s ∧
  fd_redir_map s' = fd_redir_map s.

(** C34: read, pread and close of a descriptor that is not tracked are the local
    calls: same result, same data, same effect on the local world, and nothing
    is sent.  ([read] passes its result through an [int].) *)
Theorem untracked_calls_are_local s fd b :
  fd_map s !! fd = None →
  (∀ n r d w, sys_read fd n (cli_os s) = (r, d, w) →
     ∃ s', wrap_read (hg := hg) fd b n s = Ok (i32 r, s') ∧ user_buf s' = d ∧ cli_os s' = w ∧
           network_untouched s s') ∧
  (∀ n off r d w, sys_pread fd n off (cli_os s) = (r, d, w) →
     ∃ s', wrap_pread (hg := hg) fd b n off s = Ok (r, s') ∧ user_buf s' = d ∧ cli_os s' = w ∧
           network_untouched s s') ∧
  (∀ r w, sys_close fd (cli_os s) = (r, w) →
     ∃ s', wrap_close (hg := hg) fd s = Ok (r, s') ∧ cli_os s' = w ∧ network_untouched s s').
Proof.
  intros Hfd. split_and!.
  - intros n r d w Hr. unfold wrap_read, hvac_remote_read, hvac_file_tracked, real_read, client_os, count.
    run_monad. unfold map_absent. rewrite Hfd; simpl. rewrite Hr; simpl. by eexists.
  - intros n off r d w Hr. unfold wrap_pread, hvac_get_path, real_pread, client_os, count.
    run_monad. rewrite Hfd; simpl. rewrite Hr; simpl. by eexists.
  - intros r w Hr. unfold wrap_close, redirect_disabled, hvac_get_path, log_message, client_os, count.
    run_monad. destruct (g_disable_redirect s || tl_disable_redirect s); simpl.
    + rewrite Hr. by eexists.
    + rewrite Hfd; simpl. rewrite Hr; simpl. destruct (r =? 0); simpl; by eexists.
Qed.

(** With redirection switched off, as it is before the constructor has run
    and inside a log message, [open] is the local call and tracks nothing. *)
Theorem disabled_open_is_local s path flags mode fd w :
  g_disable_redirect s || tl_disable_redirect s = true →
  sys_open path flags (if negb (Z.land flags O_CREAT =? 0) then mode else 0) (cli_os s) = (fd, w) →
  wrap_open (hg := hg) env path flags mode s = Ok (fd, set_cli_os w s).
Proof.
  intros Hoff Ho. unfold wrap_open, redirect_disabled, client_os. run_monad. rewrite Hoff.
  by rewrite Ho.
Qed.
End Untracked.

(** ** Witnesses *)

Section Witnesses.
#[local] Existing Instance demo_mercury.

Definition quiet_world : RefPosix.world :=
  RefPosix.World {["/t" := [Byte.x61]]} ∅ "/" {[5 := ("/t", 0)]} 0.
#[local] Existing Instances no_server zero_hash.
(** Redirection is off and nothing is tracked. *)
Definition quiet : system RefPosix.world unit := set_g_disable_redirect true (alone quiet_world).

Lemma untracked_calls_are_local_witness :
  ∃ s', wrap_read 5 true 4 quiet = Ok (1, s') ∧ user_buf s' = [Byte.x61] ∧ outbox s' = [].
Proof.
  destruct (untracked_calls_are_local (hg := demo_mercury) quiet 5 true) as [Hr _]; [done|].
  edestruct (Hr 4 1) as (s' & Hrun & Hb & _ & _ & Ho & _); [by vm_compute|].
  exists s'. by split_and!.
Defined.

Lemma disabled_open_is_local_witness :
  wrap_open ∅ "/t" 0 0 quiet = Ok (0, set_cli_os (RefPosix.put_fd 0 ("/t", 0) quiet_world) quiet).
Proof. by apply (disabled_open_is_local ∅ quiet). Defined.
End Witnesses.
