(* ===== verification/Comm.v ===== *)
(** * Starting a server process ([hvac_comm.cpp], [hvac_server.cpp])

    Joining the network, posting the server's address in the shared ports file,
    registering the remote procedures, the loop of the progress thread, and the
    order in which [main] does these things. *)
From S2P Require Import Prelude CLib Posix Rpc CommClient.

(** ** State *)

(** The globals of [hvac_comm.cpp] in one process, with the names registered
    with Mercury, the threads created, and the ports file of the job. *)
Record comm := Comm {
  hg_class : bool;
  hg_context : bool;
  hvac_progress_thread_shutdown_flags : bool;
  hvac_server_rank : Z;
  server_rank : Z;
  threads : list string;
  registered : list string;
  ports : option string;
  messages : list string
}.

Definition set_hg_class (b : bool) (s : comm) : comm :=
  Comm b (hg_context s) (hvac_progress_thread_shutdown_flags s) (hvac_server_rank s)
    (server_rank s) (threads s) (registered s) (ports s) (messages s).
Definition set_hg_context (b : bool) (s : comm) : comm :=
  Comm (hg_class s) b (hvac_progress_thread_shutdown_flags s) (hvac_server_rank s)
    (server_rank s) (threads s) (registered s) (ports s) (messages s).
Definition set_shutdown (b : bool) (s : comm) : comm :=
  Comm (hg_class s) (hg_context s) b (hvac_server_rank s)
    (server_rank s) (threads s) (registered s) (ports s) (messages s).
Definition set_hvac_server_rank (r : Z) (s : comm) : comm :=
  Comm (hg_class s) (hg_context s) (hvac_progress_thread_shutdown_flags s) r
    (server_rank s) (threads s) (registered s) (ports s) (messages s).
Definition set_rank (r : Z) (s : comm) : comm :=
  Comm (hg_class s) (hg_context s) (hvac_progress_thread_shutdown_flags s) (hvac_server_rank s)
    r (threads s) (registered s) (ports s) (messages s).
Definition set_ports (t : option string) (s : comm) : comm :=
  Comm (hg_class s) (hg_context s) (hvac_progress_thread_shutdown_flags s) (hvac_server_rank s)
    (server_rank s) (threads s) (registered s) t (messages s).
Definition create_thread (x : string) (s : comm) : comm :=
  Comm (hg_class s) (hg_context s) (hvac_progress_thread_shutdown_flags s) (hvac_server_rank s)
    (server_rank s) (threads s ++ [x]) (registered s) (ports s) (messages s).
Definition register (x : string) (s : comm) : comm :=
  Comm (hg_class s) (hg_context s) (hvac_progress_thread_shutdown_flags s) (hvac_server_rank s)
    (server_rank s) (threads s) (registered s ++ [x]) (ports s) (messages s).
(** [L4C_FATAL] and [L4C_ERR] write a message and return. *)
Definition log (x : string) (s : comm) : comm :=
  Comm (hg_class s) (hg_context s) (hvac_progress_thread_shutdown_flags s) (hvac_server_rank s)
    (server_rank s) (threads s) (registered s) (ports s) (messages s ++ [x]).

Definition fresh_comm (text : option string) : comm :=
  Comm false false false (-1) (-1) [] [] text [].

Section Bootstrap.
Variable hg : mercury.
(** The environment of the process and the results of the calls it makes:
    whether [pthread_create], [fopen] with mode ["a+"] and [flock] succeed, and
    the address Mercury listens on. *)
Variable env : environ.
Variable thread_ok : bool.
Variable fopen_ok : bool.
Variable flock_ok : bool.
Variable self_addr_string : string.

(** ** Joining the network *)

Definition pthread_create (f : string) : M comm unit :=
  if thread_ok then modify (create_thread f)
  else modify (log "Failed to initialized mecury progress thread").

Definition hvac_init_comm (listen : bool) : M comm unit :=
  match getenv env "SLURM_PROCID" with
  | None => fail (FExit 1)
  | Some rank_str =>
      modify (set_rank (atoi rank_str));;
      modify (set_hg_class (hg_init hg));;
      cls ← gets hg_class;
      when (negb cls) (modify (log "Failed to initialize HG_CLASS"));;
      modify (set_hg_context (hg_context_create hg cls));;
      ctx ← gets hg_context;
      when (negb ctx) (modify (log "Failed to initialize HG_CONTEXT"));;
      when listen (modify (set_hvac_server_rank (atoi rank_str)));;
      pthread_create "hvac_progress_fn"
  end.

Definition hvac_shutdown_comm : M comm unit := modify (set_shutdown true).

(** ** Posting the address *)

Definition ports_text (s : comm) : string := match ports s with Some t => t | None => "" end.

(** Mode ["a+"] creates the file and appends; the lock is held around the line. *)
Definition hvac_comm_list_addr : M comm unit :=
  if negb fopen_ok then fail (FExit 0)
  else if negb flock_ok then modify (λ s, set_ports (Some (ports_text s)) s);; fail (FExit 1)
  else modify (λ s, set_ports (Some (ports_text s +:+
                      int_token_line (hvac_server_rank s) self_addr_string)) s).

(** ** Registration *)

Definition hvac_rpc_register : M comm unit := modify (register "hvac_base_rpc").
Definition hvac_open_rpc_register : M comm unit := modify (register "hvac_open_rpc").
Definition hvac_close_rpc_register : M comm unit :=
  modify (register "hvac_close_rpc");;
  cls ← gets hg_class;
  cassert (hg_disable_response hg cls =? HG_SUCCESS).
Definition hvac_seek_rpc_register : M comm unit := modify (register "hvac_seek_rpc").

(** The destructor of the client library. *)
Definition hvac_client_shutdown : M comm unit := hvac_shutdown_comm.

(** ** The server's [main] *)

(** The calls of [hvac_start_comm_server] in order; then it sleeps for ever. *)
Definition start_steps : list (M comm unit) :=
  [pthread_create "hvac_data_mover_fn";
   hvac_init_comm true;
   hvac_comm_list_addr;
   hvac_rpc_register;
   hvac_open_rpc_register;
   hvac_close_rpc_register;
   hvac_seek_rpc_register].

Fixpoint run_steps (l : list (M comm unit)) : M comm unit :=
  match l with
  | [] => mret tt
  | m :: l => m;; run_steps l
  end.

Definition hvac_start_comm_server : M comm unit := run_steps start_steps.

(** [main] up to the endless loop: the server count it stores. *)
Definition main (argv : list string) : M comm Z :=
  match argv with
  | _ :: count :: _ => hvac_start_comm_server;; mret (u32 (atoi count))
  | _ => fail (FExit (-1))
  end.
End Bootstrap.

(** ** The progress thread *)

Section Progress.
(** Completed operations wait in a queue; triggering one runs its callback,
    which may set the shutdown flag. *)
Context {S : Type}.
Variable shutdown : S → bool.

(** [do { HG_Trigger } while (success && count && !shutdown)]: runs the queued
    callbacks, and says how many turns it made. *)
Fixpoint trigger_loop (queue : list (S → S)) (s : S) : list (S → S) * S * nat :=
  match queue with
  | [] => ([], s, 1%nat)
  | cb :: queue =>
      let s := cb s in
      if shutdown s then (queue, s, 1%nat)
      else let '(q, s, n) := trigger_loop queue s in (q, s, Datatypes.S n)
  end.

(** The outer loop for the batches of completions that successive calls of
    [HG_Progress] make available, with the batches not taken. *)
Fixpoint hvac_progress_fn (queue : list (S → S)) (batches : list (list (S → S))) (s : S) :
    list (S → S) * list (list (S → S)) * S :=
  if shutdown s then (queue, batches, s)
  else
    let '(q, s, _) := trigger_loop queue s in
    if shutdown s then (q, batches, s)
    else match batches with
         | [] => (q, [], s)
         | b :: batches => hvac_progress_fn (q ++ b) batches s
         end.

Definition run_callbacks (l : list (S → S)) (s : S) : S := foldl (λ s cb, cb s) s l.

Lemma trigger_loop_drains queue : ∀ s,
  (∀ l1 l2, queue = l1 ++ l2 → shutdown (run_callbacks l1 s) = false) →
  trigger_loop queue s = ([], run_callbacks queue s, Datatypes.S (length queue)).
Proof.
  induction queue as [|cb queue IH]; intros s Hs; [done|]. simpl.
  pose proof (Hs [cb] queue eq_refl) as Hcb. simpl in Hcb. rewrite Hcb.
  rewrite IH; [done|]. intros l1 l2 ->. by apply (Hs (cb :: l1) l2).
Qed.

(** C35: while nobody shuts the communication down, the progress thread runs
    every completed operation's callback exactly once and in the order of
    completion, and takes every batch. *)
Theorem progress_runs_all_in_order batches : ∀ queue s,
  (∀ l1 l2, queue ++ concat batches = l1 ++ l2 → shutdown (run_callbacks l1 s) = false) →
  hvac_progress_fn queue batches s = ([], [], run_callbacks (queue ++ concat batches) s).
Proof.
  induction batches as [|b batches IH]; intros queue s Hs;
    pose proof (Hs [] _ eq_refl) as H0; pose proof (Hs queue _ eq_refl) as Hq; simpl in *;
    rewrite H0; (rewrite trigger_loop_drains;
      [|intros l1 l2 ->; eapply Hs; symmetry; apply app_assoc]); rewrite Hq.
  - by rewrite app_nil_r.
  - rewrite IH; unfold run_callbacks in *; rewrite app_nil_l; [by rewrite <- foldl_app|].
    intros l1 l2 Hl. rewrite <- foldl_app. apply (Hs (queue ++ l1) l2).
    by rewrite Hl, app_assoc.
Qed.

(** A shutdown stops the thread after the callback during which it was
    requested: nothing behind it runs. *)
Theorem progress_stops_at_shutdown l1 cb l2 batches s :
  (∀ k1 k2, l1 = k1 ++ k2 → shutdown (run_callbacks k1 s) = false) →
  shutdown (cb (run_callbacks l1 s)) = true →
  hvac_progress_fn (l1 ++ cb :: l2) batches s = (l2, batches, cb (run_callbacks l1 s)).
Proof.
  intros Hs Hcb. pose proof (Hs [] l1 eq_refl) as H0. simpl in H0.
  assert (Ht : ∃ n, trigger_loop (l1 ++ cb :: l2) s = (l2, cb (run_callbacks l1 s), n)).
  { revert s Hs Hcb H0. induction l1 as [|c l1 IH]; intros s Hs Hcb H0; simpl in *.
    - rewrite Hcb. by eexists.
    - pose proof (Hs [c] l1 eq_refl) as Hc. simpl in Hc. rewrite Hc.
      destruct (IH (c s)) as [n Hn]; [|done|done|].
      + intros k1 k2 ->. by apply (Hs (c :: k1) k2).
      + unfold run_callbacks in *. rewrite Hn. by eexists. }
  destruct Ht as [n Ht]. destruct batches; simpl; rewrite H0, Ht, Hcb; done.
Qed.
End Progress.

(** ** The ports file *)

Definition ports_lines (l : list (Z * string)) : string :=
  foldr (λ ra t, int_token_line ra.1 ra.2 +:+ t) "" l.

(** The first address posted for a rank. *)
Fixpoint first_posted (rank : Z) (l : list (Z * string)) : option string :=
  match l with
  | [] => None
  | (r, a) :: l => if r =? rank then Some a else first_posted rank l
  end.

(** What [fprintf] and [fscanf] can carry: an [int] rank and an address that is
    one word shorter than [PATH_MAX]. *)
Definition postable (ra : Z * string) : Prop :=
  is_i32 ra.1 ∧ is_word ra.2 = true ∧ Z.of_nat (String.length ra.2) < PATH_MAX.

Lemma skip_space_idem s : skip_space (skip_space s) = skip_space s.
Proof.
  induction s as [|c s IH]; simpl; [done|]. destruct (isspace c) eqn:Hc; [done|].
  simpl. by rewrite Hc.
Qed.

Lemma scan_ports_skip fuel rank t : scan_ports fuel rank (skip_space t) = scan_ports fuel rank t.
Proof.
  destruct fuel; [done|]. simpl. unfold fscanf_int_token, scan_int. by rewrite skip_space_idem.
Qed.

Lemma scan_ports_lines rank l : ∀ fuel,
  Forall postable l → (length l < fuel)%nat →
  scan_ports fuel rank (ports_lines l) = Ok (first_posted rank l).
Proof.
  induction l as [|[r a] l IH]; intros [|fuel] Hl Hf; simpl in *; try lia; [done|].
  apply Forall_cons in Hl as [(Hr & Ha & Hlen) Hl]. simpl in *.
  rewrite fscanf_int_token_line by done.
  destruct (Z.leb_spec PATH_MAX (Z.of_nat (String.length a))); [lia|].
  destruct (r =? rank); [done|]. rewrite scan_ports_skip. apply IH; [done|lia].
Qed.

Lemma ports_lines_length l : (length l ≤ String.length (ports_lines l))%nat.
Proof.
  assert (Happ : ∀ a b, String.length (a +:+ b) = (String.length a + String.length b)%nat).
  { induction a as [|c a IHa]; intros b; rewrite ?append_cons; simpl; [done|by rewrite IHa]. }
  induction l as [|[r a] l IH]; simpl; [lia|]. rewrite Happ. unfold int_token_line.
  rewrite !Happ. simpl. lia.
Qed.

(** The bound on the turns of the loop is no bound on the file. *)
Lemma find_server_lines rank l :
  Forall postable l → find_server rank (ports_lines l) = Ok (first_posted rank l).
Proof.
  intros Hl. apply scan_ports_lines; [done|]. pose proof (ports_lines_length l). lia.
Qed.

Lemma ports_lines_snoc l r a :
  ports_lines (l ++ [(r, a)]) = ports_lines l +:+ int_token_line r a.
Proof.
  induction l as [|[r' a'] l IH]; simpl; [by rewrite append_nil_r|].
  by rewrite IH, append_assoc.
Qed.

(** A server of rank [ra.1] that listens on [ra.2] posts its address. *)
Definition post (text : option string) (ra : Z * string) : option string :=
  match hvac_comm_list_addr true true ra.2 (set_hvac_server_rank ra.1 (fresh_comm text)) with
  | Ok (_, s) => ports s
  | Fault _ => text
  end.

Lemma post_all l : ∀ l0,
  foldl post (Some (ports_lines l0)) l = Some (ports_lines (l0 ++ l)).
Proof.
  induction l as [|[r a] l IH]; intros l0; simpl; [by rewrite app_nil_r|].
  unfold post at 2. simpl. unfold modify; simpl. unfold ports_text; simpl.
  rewrite <- ports_lines_snoc, IH. by rewrite <- app_assoc.
Qed.

Lemma post_all_fresh ra l : foldl post None (ra :: l) = Some (ports_lines (ra :: l)).
Proof.
  destruct ra as [r a]. cbn [foldl].
  replace (post None (r, a)) with (Some (ports_lines [(r, a)])); [by rewrite post_all|].
  cbn [ports_lines foldr fst snd]. by rewrite append_nil_r.
Qed.

Lemma first_posted_elem l r a : NoDup l.*1 → (r, a) ∈ l → first_posted r l = Some a.
Proof.
  induction l as [|[r' a'] l IH]; simpl; [by intros _ ?%not_elem_of_nil|].
  intros [Hr' Hnd]%NoDup_cons [[= -> ->]|Hin]%elem_of_cons; [by rewrite Z.eqb_refl|].
  destruct (Z.eqb_spec r' r) as [->|]; [|by apply IH].
  exfalso. apply Hr'. apply list_elem_of_fmap. by exists (r, a).
Qed.

Lemma first_posted_absent l r : r ∉ l.*1 → first_posted r l = None.
Proof.
  induction l as [|[r' a'] l IH]; simpl; [done|]. intros [Hne Hl]%not_elem_of_cons.
  destruct (Z.eqb_spec r' r); [congruence|by apply IH].
Qed.

(** Servers of distinct ranks post their addresses in one file in any
    order; afterwards a lookup finds for every rank the address that server
    listens on, and nothing for a rank that was not started. *)
Theorem posted_addresses_found ra l :
  NoDup (ra :: l).*1 → Forall postable (ra :: l) →
  ∃ text, foldl post None (ra :: l) = Some text ∧
    (∀ r a, (r, a) ∈ ra :: l → find_server r text = Ok (Some a)) ∧
    (∀ r, r ∉ (ra :: l).*1 → find_server r text = Ok None).
Proof.
  intros Hnd Hp. exists (ports_lines (ra :: l)). split; [apply post_all_fresh|].
  split; intros; rewrite find_server_lines by done; f_equal.
  - by apply first_posted_elem.
  - by apply first_posted_absent.
Qed.

(** ** Starting *)

(** C36: the start of a server: the data mover runs before the network is joined,
    the address is posted while no remote procedure is registered yet, and when
    the start is over all four are registered, in the order base, open, close,
    seek.  A client that reads the address early can reach a server that knows
    no procedure. *)
Theorem server_start_order hg env addr rank_str text :
  getenv env "SLURM_PROCID" = Some rank_str → mercury_ok hg →
  ∃ s1 s2,
    run_steps (take 3 (start_steps hg env true true true addr)) (fresh_comm text) = Ok (tt, s1) ∧
    threads s1 = ["hvac_data_mover_fn"; "hvac_progress_fn"] ∧ registered s1 = [] ∧
    ports s1 = Some (ports_text (fresh_comm text) +:+ int_token_line (atoi rank_str) addr) ∧
    hvac_start_comm_server hg env true true true addr (fresh_comm text) = Ok (tt, s2) ∧
    ports s2 = ports s1 ∧
    registered s2 = ["hvac_base_rpc"; "hvac_open_rpc"; "hvac_close_rpc"; "hvac_seek_rpc"].
Proof.
  intros Hrank Hok. unfold hvac_start_comm_server, start_steps, hvac_init_comm. rewrite Hrank.
  unfold pthread_create, hvac_close_rpc_register, hvac_comm_list_addr. run_monad.
  rewrite (ok_init _ Hok), (ok_context _ Hok). eexists _, _.
  unfold mbind, M_bind. simpl. rewrite (ok_disable_response _ Hok). simpl.
  split; [reflexivity|]. repeat (split; [reflexivity|]); done.
Qed.

(** A server started by [main] posts its address. *)
Lemma main_posts hg env addr rank_str text prog count rest :
  getenv env "SLURM_PROCID" = Some rank_str → mercury_ok hg →
  ∃ s, main hg env true true true addr (prog :: count :: rest) (fresh_comm text) =
         Ok (u32 (atoi count), s) ∧ ports s = post text (atoi rank_str, addr).
Proof.
  intros Hrank Hok. unfold main, hvac_start_comm_server, start_steps, hvac_init_comm. rewrite Hrank.
  unfold pthread_create, hvac_close_rpc_register, hvac_comm_list_addr. run_monad.
  rewrite (ok_init _ Hok), (ok_context _ Hok).
  unfold mbind, M_bind. simpl. rewrite (ok_disable_response _ Hok). simpl. eexists; (split; [reflexivity|done]).
Qed.

(** A network that cannot be initialised does not stop the process in
    [hvac_init_comm]: the messages are logged at the fatal level, the null class
    and context are kept, and the progress thread is started on them. *)
Theorem init_failure_continues hg env listen rank_str text :
  getenv env "SLURM_PROCID" = Some rank_str → mercury_lawful hg → hg_init hg = false →
  ∃ s, hvac_init_comm hg env true listen (fresh_comm text) = Ok (tt, s) ∧
    hg_class s = false ∧ hg_context s = false ∧ threads s = ["hvac_progress_fn"] ∧
    messages s = ["Failed to initialize HG_CLASS"; "Failed to initialize HG_CONTEXT"].
Proof.
  intros Hrank Hlaw Hi. unfold hvac_init_comm. rewrite Hrank. unfold pthread_create. run_monad.
  rewrite Hi, (context_needs_class _ Hlaw).
  destruct listen; simpl; eexists; (split; [reflexivity|done]).
Qed.

(** ** Witnesses *)

Definition demo_callbacks : list (list nat → list nat) := [cons 1%nat; cons 2%nat].

Lemma progress_runs_all_in_order_witness :
  hvac_progress_fn (λ _, false) demo_callbacks [[cons 3%nat]; [cons 4%nat]] [] =
  ([], [], [4; 3; 2; 1]%nat).
Proof.
  apply (progress_runs_all_in_order (λ _ : list nat, false) [[cons 3%nat]; [cons 4%nat]]
           demo_callbacks []). done.
Defined.

Lemma progress_stops_at_shutdown_witness :
  hvac_progress_fn (λ s, bool_decide (2%nat ∈ s)) [cons 1%nat; cons 2%nat; cons 3%nat] [] [] =
  ([cons 3%nat], [], [2; 1]%nat).
Proof.
  apply (progress_stops_at_shutdown (λ s, bool_decide (2%nat ∈ s)) [cons 1%nat] (cons 2%nat)
           [cons 3%nat] [] []); [|done].
  intros k1 k2 Hk. destruct k1 as [|c [|d k1]]; [done| |by destruct k1].
  by injection Hk as <- _.
Defined.

Definition demo_post : list (Z * string) := [(1, "tcp://b:2"); (0, "tcp://a:1")].

Lemma posted_addresses_found_witness :
  ∃ text, foldl post None demo_post = Some text ∧ find_server 0 text = Ok (Some "tcp://a:1") ∧
    find_server 2 text = Ok None.
Proof.
  destruct (posted_addresses_found (1, "tcp://b:2") [(0, "tcp://a:1")]) as (text & Ht & Hin & Hout).
  - apply NoDup_cons. split; [by intros [=]%list_elem_of_singleton|apply NoDup_singleton].
  - repeat constructor; by vm_compute.
  - exists text. split; [exact Ht|]. split; [apply Hin; right; left|]. apply Hout.
    by intros [[=]|[=]%list_elem_of_singleton]%elem_of_cons.
Defined.

Lemma server_start_order_witness :
  ∃ s1 s2, registered s1 = [] ∧ ports s1 = Some (int_token_line 3 "tcp://a:1") ∧
    hvac_start_comm_server demo_mercury {["SLURM_PROCID" := "3"]} true true true "tcp://a:1"
      (fresh_comm None) = Ok (tt, s2) ∧ ports s2 = ports s1.
Proof.
  destruct (server_start_order demo_mercury {["SLURM_PROCID" := "3"]} "tcp://a:1" "3" None)
    as (s1 & s2 & _ & _ & Hreg & Hports & Hrun & Hsame & _); [done|apply demo_mercury_ok|].
  exists s1, s2. by split_and!.
Defined.

(** A network that does not come up. *)
Definition no_network : mercury :=
  Mercury false id 0 true (λ _, 0) (λ remote local n, if decide (n ≤ remote ∧ n ≤ local) then 0 else 3)
    0 0 (λ _, true) null_refused null_refused 0 None 0 0 0 0 null_refused (λ _, 0%nat).

Lemma init_failure_continues_witness :
  ∃ s, hvac_init_comm no_network {["SLURM_PROCID" := "3"]} true false (fresh_comm None) = Ok (tt, s) ∧
    hg_class s = false.
Proof.
  destruct (init_failure_continues no_network {["SLURM_PROCID" := "3"]} false "3" None)
    as (s & Hrun & Hc & _); [done| |done|by exists s].
  split; simpl; [|done..]. intros remote local n ?. case_decide; [lia|done].
Defined.
