(* ===== verification/System.v ===== *)
(** * The system: an application, its client library, and its servers

    The application's calls against a cluster of file servers, and the
    simulation that makes the cache transparent: every call on files of the
    data set returns what the POSIX interface allows on the original files,
    whatever the servers have redirected and the network has delayed. *)
From S2P Require Import Prelude CLib Posix Rpc Server DataMover ClientState CommClient Client Wrappers.

(** ** What the application sees *)

Inductive call :=
  | COpen (path : string) (flags mode : Z)
  | CRead (fd n : Z)
  | CPread (fd n off : Z)
  | CClose (fd : Z).

Inductive result :=
  | RFd (fd : Z)
  | RData (r : Z) (data : bytes)
  | RStatus (r : Z).

(** The application's open files: canonical path and offset. *)
Abbreviation shadow := (gmap Z (string * Z)).

(** The POSIX interface over names that resolve by [names] and files with
    contents [pfs]. *)
Section PosixInterface.
Variable names : string → option string.
Variable pfs : string → option bytes.

Inductive posix_step : shadow → call → result → shadow → Prop :=
  | posix_open sh path flags mode p fd :
      names path = Some p → is_Some (pfs p) → sh !! fd = None → 0 ≤ fd →
      posix_step sh (COpen path flags mode) (RFd fd) (<[fd := (p, 0)]> sh)
  | posix_read sh fd n p off c r d :
      sh !! fd = Some (p, off) → pfs p = Some c → read_result c off n r d →
      posix_step sh (CRead fd n) (RData r d) (<[fd := (p, off + r)]> sh)
  | posix_pread sh fd n p pos c off r d :
      sh !! fd = Some (p, pos) → pfs p = Some c → read_result c off n r d →
      posix_step sh (CPread fd n off) (RData r d) sh
  | posix_close sh fd :
      is_Some (sh !! fd) → posix_step sh (CClose fd) (RStatus 0) (delete fd sh).

Inductive posix_run : shadow → list (call * result) → shadow → Prop :=
  | posix_run_nil sh : posix_run sh [] sh
  | posix_run_cons sh c r sh1 t sh2 :
      posix_step sh c r sh1 → posix_run sh1 t sh2 → posix_run sh ((c, r) :: t) sh2.
End PosixInterface.

Section Transparency.
Context {W Srv : Type} `{!Posix W, !PosixLaws W, !PosixReliable W}.
Context `{!FileServer Srv, !FileServerLaws Srv, !StringHash} {hg : mercury}.
Variable env : environ.
Abbreviation sys := (system W Srv).
Implicit Types (s : sys) (sh : shadow).

(** A call of the application through the wrappers. *)
Definition run_call (c : call) : M sys result :=
  match c with
  | COpen path flags mode => fd ← wrap_open env path flags mode; mret (RFd fd)
  | CRead fd n => r ← wrap_read fd true n; d ← gets user_buf; mret (RData r d)
  | CPread fd n off => r ← wrap_pread fd true n off; d ← gets user_buf; mret (RData r d)
  | CClose fd => r ← wrap_close fd; mret (RStatus r)
  end.

(** ** The cluster *)

(** A job: server count, address file, address of each rank; the canonical
    names of its file system, and the contents of the data set. *)
Record cluster := Cluster {
  cl_count : Z;
  cl_text : string;
  cl_addr : Z → string;
  cl_names : string → option string;
  cl_files : string → option bytes
}.

Record cluster_ok (cl : cluster) : Prop := {
  cl_count_ok : 0 < cl_count cl ≤ 2 ^ 31;
  cl_addr_ok : ∀ r, 0 ≤ r < cl_count cl → find_server r (cl_text cl) = Ok (Some (cl_addr cl r))
}.

Variable cl : cluster.
Abbreviation names := (cl_names cl).
Abbreviation pfs := (cl_files cl).

Definition rank_of (p : string) : Z := string_hash p mod cl_count cl.
Definition home (p : string) : string := cl_addr cl (rank_of p).

(** ** The simulation relation *)

(** A remote descriptor on some server, for a path, at an offset. *)
Record slot := Slot {
  sl_addr : string;
  sl_rfd : Z;
  sl_path : string;
  sl_off : Z;
  sl_bytes : bytes
}.
Definition slot_key (x : slot) : string * Z := (sl_addr x, sl_rfd x).
(** The server that answers for a path is alive. *)
Definition up s (p : string) : Prop := is_Some (servers s !! home p).
Definition close_req (x : slot) : string * request := (sl_addr x, ReqClose (CloseIn (sl_rfd x))).

(** The server holds the descriptor, unless it has died. *)
Definition slot_good (m : gmap string Srv) (x : slot) : Prop :=
  ∀ srv, m !! sl_addr x = Some srv →
         fs_handle srv (sl_rfd x) (sl_path x) (sl_off x) (sl_bytes x).

(** The descriptors that the other clients of the job hold on the servers. *)
Variable others : slot → Prop.

(** The class, the context and the progress thread of the client exist. *)
Definition connected s : Prop :=
  hg_class s = true ∧ hg_context s = true ∧ 0 < progress_threads s.

Record conn_ok s : Prop := {
  co_threads : 0 ≤ progress_threads s;
  co_init : g_mercury_init s = true → connected s;
  co_on : g_disable_redirect s = false;
  co_tl : tl_disable_redirect s = false;
  co_count : g_hvac_server_count s = cl_count cl;
  co_ports : ports_file s = Some (cl_text cl);
  co_cache : ∀ r a, address_cache s !! r = Some a → find_server r (cl_text cl) = Ok (Some a)
}.

(** [live]: the slot behind each tracked local descriptor; [dying]: the slots
    whose close request is forwarded and not yet handled. *)
Record slots_ok (m : gmap string Srv) (live : gmap Z slot) (dying : list slot) : Prop := {
  so_home : ∀ fd x, live !! fd = Some x →
    sl_addr x = home (sl_path x) ∧ pfs (sl_path x) = Some (sl_bytes x);
  so_live : ∀ fd x, live !! fd = Some x → slot_good m x;
  so_dying : ∀ x, x ∈ dying → slot_good m x;
  so_inj : ∀ fd fd' x x', live !! fd = Some x → live !! fd' = Some x' →
    slot_key x = slot_key x' → fd = fd';
  so_nodup : NoDup (slot_key <$> dying);
  so_apart : ∀ fd x y, live !! fd = Some x → y ∈ dying → slot_key x ≠ slot_key y;
  so_others : ∀ y, others y → slot_good m y;
  so_others_live : ∀ fd x y, live !! fd = Some x → others y → slot_key x ≠ slot_key y;
  so_others_dying : ∀ x y, x ∈ dying → others y → slot_key x ≠ slot_key y;
  so_servers : ∀ a srv, m !! a = Some srv →
    fs_ok srv ∧ ∀ p c, pfs p = Some c → fs_file srv p c
}.

Record tables_ok s sh (live : gmap Z slot) : Prop := {
  tk_shadow : ∀ fd, sh !! fd = (λ x, (sl_path x, sl_off x)) <$> live !! fd;
  tk_fd_map : ∀ fd, fd_map s !! fd = sl_path <$> live !! fd;
  tk_redir : ∀ fd x, live !! fd = Some x → fd_redir_map s !! fd = Some (sl_rfd x);
  tk_ready : ∀ fd x, live !! fd = Some x → connected s;
  tk_local : ∀ fd x, live !! fd = Some x →
    ∃ q pos, fd_at (cli_os s) fd = Some (q, pos) ∧ file_at (cli_os s) q = Some (sl_bytes x);
  tk_files : ∀ p c, pfs p = Some c → file_at (cli_os s) p = Some c;
  tk_names : ∀ path, sys_canonical path (cli_os s) = names path
}.

Definition transparent s sh : Prop :=
  conn_ok s ∧ ∃ live dying, outbox s = close_req <$> dying ∧
    slots_ok (servers s) live dying ∧ tables_ok s sh live.

(** ** Server updates *)

Implicit Types (m : gmap string Srv) (srv : Srv) (live : gmap Z slot) (dying : list slot).

Lemma slot_good_frame m a srv srv' k x :
  m !! a = Some srv → fs_frame k srv srv' → slot_good m x →
  (∀ r, k = Some r → slot_key x ≠ (a, r)) →
  slot_good (<[a := srv']> m) x.
Proof.
  intros Ha [_ Hh] Hgood Hne srv0. destruct (decide (sl_addr x = a)) as [<-|Hadr].
  - rewrite lookup_insert_eq. intros [= <-]. apply Hh; [|by apply Hgood].
    intros Hk. symmetry in Hk. by apply (Hne _ Hk).
  - rewrite lookup_insert_ne by done. apply Hgood.
Qed.

Lemma slots_ok_servers m live dying a srv srv' k :
  slots_ok m live dying → m !! a = Some srv → fs_ok srv' → fs_frame k srv srv' →
  ∀ b t, (<[a := srv']> m) !! b = Some t →
    fs_ok t ∧ ∀ p c, pfs p = Some c → fs_file t p c.
Proof.
  intros Hs Ha Hok [Hf _] b t Hb. rewrite lookup_insert in Hb. case_decide.
  - injection Hb as <-. split; [done|]. intros p c Hp. apply Hf.
    by apply (so_servers _ _ _ Hs a srv).
  - by apply (so_servers _ _ _ Hs b).
Qed.

(** A step of a server that touches no handle of this client. *)
Lemma slots_ok_background m live dying a srv srv' :
  slots_ok m live dying → m !! a = Some srv → fs_ok srv' → fs_frame None srv srv' →
  slots_ok (<[a := srv']> m) live dying.
Proof.
  intros Hs Ha Hok Hfr. pose proof (slots_ok_servers _ _ _ _ _ _ _ Hs Ha Hok Hfr) as Hsrv.
  destruct Hs; split; try done; intros; eapply slot_good_frame; eauto; done.
Qed.

(** Pending closes may be listed in any order. *)
Lemma slots_ok_perm m live dying dying' :
  dying ≡ₚ dying' → slots_ok m live dying → slots_ok m live dying'.
Proof.
  intros Hp [Hh Hl Hd Hi Hn Hap Ho Hol Hod Hsrv].
  assert (Hin : ∀ x, x ∈ dying' → x ∈ dying) by (intros x; by rewrite Hp).
  split; eauto. by rewrite <- Hp.
Qed.

(** A step that ends the first dying slot. *)
Lemma slots_ok_closed m live y dying srv srv' :
  slots_ok m live (y :: dying) → m !! sl_addr y = Some srv → fs_ok srv' →
  fs_frame (Some (sl_rfd y)) srv srv' →
  slots_ok (<[sl_addr y := srv']> m) live dying.
Proof.
  intros Hs Ha Hok Hfr. pose proof (slots_ok_servers _ _ _ _ _ _ _ Hs Ha Hok Hfr) as Hsrv.
  destruct Hs as [Hh Hl Hd Hi Hn Hap Ho Hol Hod _]. apply NoDup_cons in Hn as [Hy Hn].
  split; try done.
  - intros fd x Hx. eapply slot_good_frame; eauto. intros r [= <-].
    apply (Hap fd x y Hx). left.
  - intros x Hx. eapply slot_good_frame; [done..|apply Hd; by right|].
    intros r [= <-] Hk. apply Hy. apply list_elem_of_fmap. exists x. unfold slot_key in *. split; [congruence|done].
  - intros fd x z Hx Hz. apply (Hap fd x z Hx). by right.
  - intros x Hx. eapply slot_good_frame; [done..|by apply Ho|].
    intros r [= <-] Hk. apply (Hod y x); [left|done|]. unfold slot_key in *. congruence.
  - intros x z Hx. apply Hod. by right.
Qed.

(** The first dying slot is on a server that has died. *)
Lemma slots_ok_abandoned m live y dying :
  slots_ok m live (y :: dying) → slots_ok m live dying.
Proof.
  intros [Hh Hl Hd Hi Hn Hap Ho Hol Hod Hsrv]. apply NoDup_cons in Hn as [_ Hn].
  split; try done; intros *.
  - intros Hx. apply Hd. by right.
  - intros Hx Hz. apply (Hap fd x y0 Hx). by right.
  - intros Hx. apply Hod. by right.
Qed.

(** A server dies. *)
Lemma slots_ok_died m live dying a :
  slots_ok m live dying → slots_ok (delete a m) live dying.
Proof.
  intros [Hh Hl Hd Hi Hn Hap Ho Hol Hod Hsrv].
  assert (Hgood : ∀ x, slot_good m x → slot_good (delete a m) x).
  { intros x Hx srv [_ ?]%lookup_delete_Some. by apply Hx. }
  split; try done.
  - intros fd x Hx. by eapply Hgood, Hl.
  - intros x Hx. by apply Hgood, Hd.
  - intros y Hy. by apply Hgood, Ho.
  - intros b srv [_ Hb]%lookup_delete_Some. by apply Hsrv in Hb.
Qed.

(** A step that moves the offset of one live slot. *)
Definition at_offset (x : slot) (off : Z) : slot :=
  Slot (sl_addr x) (sl_rfd x) (sl_path x) off (sl_bytes x).

Lemma slots_ok_moved m live dying fd x off srv srv' :
  slots_ok m live dying → live !! fd = Some x → m !! sl_addr x = Some srv → fs_ok srv' →
  fs_frame (Some (sl_rfd x)) srv srv' →
  fs_handle srv' (sl_rfd x) (sl_path x) off (sl_bytes x) →
  slots_ok (<[sl_addr x := srv']> m) (<[fd := at_offset x off]> live) dying.
Proof.
  intros Hs Hx Ha Hok Hfr Hnew.
  pose proof (slots_ok_servers _ _ _ _ _ _ _ Hs Ha Hok Hfr) as Hsrv.
  destruct Hs as [Hh Hl Hd Hi Hn Hap Ho Hol Hod _].
  assert (Hback : ∀ fd' x', (<[fd := at_offset x off]> live) !! fd' = Some x' →
    ∃ x0, live !! fd' = Some x0 ∧ slot_key x' = slot_key x0 ∧ sl_path x' = sl_path x0 ∧
          sl_bytes x' = sl_bytes x0 ∧ (fd' ≠ fd → x' = x0)).
  { intros fd' x' Hx'. rewrite lookup_insert in Hx'. case_decide; [|by eauto 10].
    injection Hx' as <-. subst fd'. exists x. done. }
  split; try done.
  - intros fd' x' Hx'. destruct (Hback _ _ Hx') as (x0 & H0 & Hk & -> & -> & _).
    injection Hk as -> _. by apply (Hh fd').
  - intros fd' x' Hx'. rewrite lookup_insert in Hx'. case_decide as Hfd.
    + injection Hx' as <-. intros t. simpl. rewrite lookup_insert_eq. by intros [= <-].
    + eapply slot_good_frame; eauto. intros r [= <-] Hk. apply Hfd. by apply (Hi fd fd' x x').
  - intros y Hy. eapply slot_good_frame; eauto. intros r [= <-] Hk.
    by apply (Hap fd x y Hx Hy).
  - intros fd1 fd2 x1 x2 H1 H2 Hk.
    destruct (Hback _ _ H1) as (y1 & ? & Hk1 & _), (Hback _ _ H2) as (y2 & ? & Hk2 & _).
    apply (Hi fd1 fd2 y1 y2); congruence.
  - intros fd' x' y Hx' Hy. destruct (Hback _ _ Hx') as (x0 & H0 & -> & _). by apply (Hap fd').
  - intros y Hy. eapply slot_good_frame; [done..|by apply Ho|]. intros r [= <-] Hk.
    by apply (Hol fd x y Hx Hy).
  - intros fd' x' y Hx' Hy. destruct (Hback _ _ Hx') as (x0 & H0 & -> & _). by apply (Hol fd').
Qed.
(** ** The client's requests *)

Hypothesis Hhg : mercury_ok hg.
Hypothesis Hcl : cluster_ok cl.

Definition cache_agrees (ac : gmap Z string) : Prop :=
  ∀ r a, ac !! r = Some a → find_server r (cl_text cl) = Ok (Some a).

Lemma conn_ok_cache s ac n :
  conn_ok s → cache_agrees ac → conn_ok (set_open_streams n (set_address_cache ac s)).
Proof. intros [] ?. by split. Qed.

Lemma rank_of_range p : 0 ≤ rank_of p < cl_count cl.
Proof. apply Z.mod_pos_bound, Hcl. Qed.

Lemma rank_of_small p : i32 (u32 (rank_of p)) = rank_of p.
Proof. pose proof (rank_of_range p). pose proof (cl_count_ok _ Hcl). word. Qed.

Lemma host_of_eq s p : conn_ok s → host_of p s = Ok (rank_of p, s).
Proof.
  intros Hc. unfold host_of. run_monad. rewrite (co_count _ Hc).
  pose proof (cl_count_ok _ Hcl). destruct (Z.eqb_spec (cl_count cl) 0); [lia|]. simpl.
  fold (rank_of p). pose proof (rank_of_range p). rewrite i32_small; [done|word].
Qed.

Lemma lookup_addr_eq s p :
  conn_ok s →
  ∃ ac n, cache_agrees ac ∧
    hvac_client_comm_lookup_addr (hg := hg) (rank_of p) s =
    Ok (Some (home p), set_open_streams n (set_address_cache ac s)).
Proof.
  intros Hc. pose proof (cl_addr_ok _ Hcl _ (rank_of_range p)) as Hfind. fold (home p) in Hfind.
  destruct s; destruct Hc as [? ? ? ? ? Hports Hcache]; simpl in *.
  unfold hvac_client_comm_lookup_addr. run_monad.
  destruct (address_cache !! rank_of p) as [a|] eqn:Ha; simpl.
  - assert (a = home p) as -> by (apply Hcache in Ha; congruence).
    rewrite (ok_addr_lookup _ Hhg); simpl. eexists _, _. split; [exact Hcache|done].
  - rewrite Hports, Hfind; simpl. rewrite (ok_addr_lookup _ Hhg).
    eexists _, _. split; [|done]. intros r a. rewrite lookup_insert.
    case_decide; [intros [= <-]; by subst r|apply Hcache].
Qed.

Lemma path_of_eq s fd p : fd_map s !! fd = Some p → path_of fd s = Ok (p, s).
Proof.
  intros Hp. destruct s; simpl in *. unfold path_of; simpl. unfold map_index. by rewrite Hp.
Qed.

Lemma remote_of_eq s fd r : fd_redir_map s !! fd = Some r → remote_of fd s = Ok (r, s).
Proof.
  intros Hp. destruct s; simpl in *. unfold remote_of; simpl. unfold map_index. by rewrite Hp.
Qed.

Lemma tracked_eq s fd p : fd_map s !! fd = Some p → hvac_file_tracked fd s = Ok (true, s).
Proof. intros Hp. unfold hvac_file_tracked, gets. by rewrite (map_absent_Some _ _ _ Hp). Qed.

(** Run one step of a bind whose first computation is known. *)
Lemma bind_eq {S A B} (m : M S A) (f : A → M S B) (s s' : S) (a : A) :
  m s = Ok (a, s') → (m ≫= f) s = f a s'.
Proof. unfold mbind, M_bind. by intros ->. Qed.

Lemma cassert_true {S} (b : bool) (s : S) : b = true → cassert b s = Ok (tt, s).
Proof. unfold cassert. by intros ->. Qed.

Lemma forward_eq s a req :
  forward (hg := hg) (Some a) req s = Ok (tt, set_outbox (outbox s ++ [(a, req)]) s).
Proof. unfold forward. run_monad. by rewrite (ok_forward _ Hhg). Qed.

Lemma create_handle_eq s : connected s → hvac_comm_create_handle (hg := hg) s = Ok (tt, s).
Proof.
  intros (_ & Hctx & _). unfold hvac_comm_create_handle. erewrite bind_eq by done.
  rewrite Hctx. apply cassert_true, Z.eqb_eq, Hhg.
Qed.

Lemma gen_read_eq s p fd rfd n off :
  conn_ok s → connected s → fd_redir_map s !! fd = Some rfd → 0 ≤ n < 2 ^ 63 →
  ∃ ac k, cache_agrees ac ∧
    hvac_client_comm_gen_read_rpc (hg := hg) (u32 (rank_of p)) fd true (i64 n) off s =
    Ok (tt, set_outbox (outbox s ++ [(home p, ReqRead (RpcIn (i32 n) n rfd off))])
              (set_open_streams k (set_address_cache ac (set_read_ret (-1) (set_done 0 s))))).
Proof.
  intros Hc Hrdy Hr Hn.
  destruct (lookup_addr_eq (set_read_ret (-1) (set_done 0 s)) p) as (ac & k & Hac & Hl);
    [destruct Hc; by split|].
  exists ac, k. split; [done|]. unfold hvac_client_comm_gen_read_rpc.
  erewrite bind_eq by done. erewrite bind_eq by done. rewrite rank_of_small.
  erewrite bind_eq by exact Hl. cbv zeta.
  assert (i64 n = n) as -> by word. assert (u64 n = n) as -> by word.
  erewrite bind_eq by done.
  erewrite bind_eq by (by apply create_handle_eq).
  erewrite bind_eq by (apply cassert_true, Hhg).
  erewrite bind_eq by (apply cassert_true, Z.eqb_eq, Hhg; lia).
  erewrite bind_eq by (apply remote_of_eq; exact Hr).
  erewrite bind_eq by apply forward_eq.
  unfold hvac_comm_free_addr. rewrite cassert_true; [done|]. apply Z.eqb_eq, Hhg.
Qed.

Lemma gen_open_eq s p fd :
  conn_ok s → connected s →
  ∃ ac k, cache_agrees ac ∧
    hvac_client_comm_gen_open_rpc (hg := hg) (u32 (rank_of p)) p fd s =
    Ok (tt, set_outbox (outbox s ++ [(home p, ReqOpen (OpenIn p) (u32 fd))])
              (set_open_streams k (set_address_cache ac (set_done 0 s)))).
Proof.
  intros Hc Hrdy.
  destruct (lookup_addr_eq (set_done 0 s) p) as (ac & k & Hac & Hl); [destruct Hc; by split|].
  exists ac, k. split; [done|]. unfold hvac_client_comm_gen_open_rpc.
  erewrite bind_eq by done. rewrite rank_of_small. erewrite bind_eq by exact Hl.
  erewrite bind_eq by (by apply create_handle_eq).
  erewrite bind_eq by apply forward_eq.
  unfold hvac_comm_free_addr. rewrite cassert_true; [done|]. apply Z.eqb_eq, Hhg.
Qed.

Lemma gen_close_eq s p fd rfd :
  conn_ok s → connected s → fd_redir_map s !! fd = Some rfd →
  ∃ ac k, cache_agrees ac ∧
    hvac_client_comm_gen_close_rpc (hg := hg) (u32 (rank_of p)) fd s =
    Ok (tt, set_fd_redir_map (delete fd (fd_redir_map s))
              (set_outbox (outbox s ++ [(home p, ReqClose (CloseIn rfd))])
                (set_open_streams k (set_address_cache ac s)))).
Proof.
  intros Hc Hrdy Hr.
  destruct (lookup_addr_eq s p Hc) as (ac & k & Hac & Hl).
  exists ac, k. split; [done|]. unfold hvac_client_comm_gen_close_rpc.
  rewrite rank_of_small. erewrite bind_eq by exact Hl.
  erewrite bind_eq by (by apply create_handle_eq).
  erewrite bind_eq by (apply remote_of_eq; exact Hr).
  erewrite bind_eq by apply forward_eq.
  erewrite bind_eq by done.
  unfold hvac_comm_free_addr. rewrite cassert_true; [done|]. apply Z.eqb_eq, Hhg.
Qed.

(** ** Delivery *)

(** Every server lives on, with a free descriptor if it had one. *)
Definition keeps_room (m m' : gmap string Srv) : Prop :=
  (∀ a, m !! a = None → m' !! a = None) ∧
  ∀ a srv, m !! a = Some srv → ∃ srv', m' !! a = Some srv' ∧ (fs_room srv → fs_room srv').

Lemma keeps_room_refl m : keeps_room m m.
Proof. split; [done|]. intros a srv Ha. by exists srv. Qed.

Lemma keeps_room_update m m' a srv srv' :
  m !! a = Some srv → (fs_room srv → fs_room srv') →
  keeps_room (<[a := srv']> m) m' → keeps_room m m'.
Proof.
  intros Ha Hr [Hd Hk]. split.
  - intros b Hb. apply Hd. rewrite lookup_insert_ne by congruence. done.
  - intros b t Hb. destruct (decide (a = b)) as [<-|Hne].
    + rewrite Ha in Hb. injection Hb as <-.
      destruct (Hk a srv') as (u & Hu & Hur); [by rewrite lookup_insert_eq|]. eauto.
    + apply Hk. by rewrite lookup_insert_ne.
Qed.

Lemma keeps_room_trans m1 m2 m3 : keeps_room m1 m2 → keeps_room m2 m3 → keeps_room m1 m3.
Proof.
  intros [H1 K1] [H2 K2]. split; [by eauto|]. intros a srv Ha.
  destruct (K1 _ _ Ha) as (srv2 & Ha2 & ?), (K2 _ _ Ha2) as (srv3 & ? & ?); eauto.
Qed.

Lemma deliver_dead_eq s a inp :
  servers s !! a = None → deliver (hg := hg) (a, ReqClose inp) s = Ok (tt, s).
Proof.
  intros Ha. unfold deliver. erewrite bind_eq by done. rewrite Ha. unfold CommClient.lost.
  by destruct (hg_lost hg).
Qed.

Lemma callback_eq (cb : M sys unit) s : connected s → callback cb s = cb s.
Proof.
  intros (_ & _ & Ht). unfold callback. erewrite bind_eq by done.
  by destruct (Z.eqb_spec (progress_threads s) 0); [lia|].
Qed.

Lemma set_servers_self s : set_servers (servers s) s = s.
Proof. by destruct s. Qed.

Lemma deliver_close_eq s a inp srv srv' :
  servers s !! a = Some srv → fs_close inp srv = Ok srv' →
  deliver (hg := hg) (a, ReqClose inp) s = Ok (tt, set_servers (<[a := srv']> (servers s)) s).
Proof.
  intros Ha Hc. unfold deliver. erewrite bind_eq by done. rewrite Ha, Hc. done.
Qed.

Lemma deliver_read_eq s a inp srv r d srv' :
  connected s → servers s !! a = Some srv → fs_read inp srv = Ok (RpcOut r, d, srv') →
  deliver (hg := hg) (a, ReqRead inp) s =
  Ok (tt, set_read_ret r (set_done (u8 (done s + 1))
            (set_user_buf d (set_servers (<[a := srv']> (servers s)) s)))).
Proof.
  intros Hrdy Ha Hc. unfold deliver. erewrite bind_eq by done. rewrite Ha, Hc.
  erewrite bind_eq by done. erewrite bind_eq by done. rewrite callback_eq by done.
  unfold hvac_read_cb. destruct s; run_monad.
  by rewrite (ok_forward_status _ Hhg), (ok_bulk_free _ Hhg), (ok_free_output _ Hhg),
    (ok_destroy _ Hhg).
Qed.

Lemma deliver_open_eq s a inp fd srv r srv' :
  connected s → servers s !! a = Some srv → fs_open inp srv = Ok (OpenOut r, srv') →
  deliver (hg := hg) (a, ReqOpen inp fd) s =
  Ok (tt, set_done (u8 (done s + 1)) (set_fd_redir_map (<[i32 fd := r]> (fd_redir_map s))
            (set_servers (<[a := srv']> (servers s)) s))).
Proof.
  intros Hrdy Ha Hc. unfold deliver. erewrite bind_eq by done. rewrite Ha, Hc.
  erewrite bind_eq by done. rewrite callback_eq by done.
  unfold hvac_open_cb. destruct s; run_monad. by rewrite (ok_forward_status _ Hhg).
Qed.

Lemma progress_next s n box req box' :
  done s ≠ HG_TRUE → next_request (hg := hg) box = Some (req, box') →
  progress_until_done (hg := hg) (S n) box s =
  (deliver (hg := hg) req;; progress_until_done (hg := hg) n box') s.
Proof.
  intros Hd Hnext. simpl. erewrite bind_eq by done. rewrite Hnext.
  by destruct (Z.eqb_spec (done s) HG_TRUE).
Qed.

Lemma progress_done s n box :
  done s = HG_TRUE → progress_until_done (hg := hg) n box s = Ok (tt, set_outbox box s).
Proof.
  intros Hd. destruct n; simpl; unfold mbind, M_bind, gets; by rewrite (proj2 (Z.eqb_eq _ _) Hd).
Qed.

(** Handling one of several pending closes. *)
Lemma deliver_close_ok s live y d1 d2 :
  slots_ok (servers s) live (d1 ++ y :: d2) →
  ∃ m', deliver (hg := hg) (close_req y) s = Ok (tt, set_servers m' s) ∧
        slots_ok m' live (d1 ++ d2) ∧ keeps_room (servers s) m'.
Proof.
  intros Hs%(slots_ok_perm _ _ _ (y :: d1 ++ d2)); [|by rewrite Permutation_middle].
  destruct (servers s !! sl_addr y) as [srv|] eqn:Ha.
  - pose proof (so_dying _ _ _ Hs y ltac:(left) _ Ha) as Hh.
    destruct (so_servers _ _ _ Hs _ _ Ha) as [Hok _].
    destruct (fs_close_law _ _ _ _ _ Hok Hh) as (srv' & Hcl0 & Hok' & Hfr & Hroom).
    eexists. split_and!; [by eapply deliver_close_eq|by eapply slots_ok_closed|].
    eapply keeps_room_update; [done..|apply keeps_room_refl].
  - exists (servers s). split_and!; [|by eapply slots_ok_abandoned|apply keeps_room_refl].
    unfold close_req. rewrite deliver_dead_eq by done. by rewrite set_servers_self.
Qed.

(** A request is the forwarded one or one of the pending closes. *)
Lemma pending_split dying msg b1 req b2 :
  (close_req <$> dying) ++ [msg] = b1 ++ req :: b2 →
  (b1 = close_req <$> dying ∧ req = msg ∧ b2 = []) ∨
  ∃ d1 y d2, dying = d1 ++ y :: d2 ∧ b1 = close_req <$> d1 ∧ req = close_req y ∧
    b2 = (close_req <$> d2) ++ [msg].
Proof.
  destruct b2 as [|z b2 _] using rev_ind.
  - intros [<- [= <-]]%app_inj_tail. by left.
  - rewrite app_comm_cons, app_assoc. intros [Hd ->]%app_inj_tail. right.
    apply fmap_app_inv in Hd as (d1 & d' & -> & Hd' & ->).
    symmetry in Hd'. apply fmap_cons_inv in Hd' as (y & d2 & -> & -> & ->). by eexists _, _, _.
Qed.

(** Some of the pending closes are handled before a forwarded request. *)
Lemma flush n : ∀ dying s live msg,
  length dying = n → done s ≠ HG_TRUE → slots_ok (servers s) live dying →
  ∃ m' dying', slots_ok m' live dying' ∧ keeps_room (servers s) m' ∧
    progress_until_done (hg := hg) (S n) ((close_req <$> dying) ++ [msg]) s =
    (deliver (hg := hg) msg;;
     progress_until_done (hg := hg) (length dying') (close_req <$> dying')) (set_servers m' s).
Proof.
  induction n as [n IH] using lt_wf_ind. intros dying s live msg Hlen Hd Hs.
  destruct (next_request_Some (hg := hg) ((close_req <$> dying) ++ [msg]))
    as (b1 & req & b2 & Hbox & Hnext); [by destruct dying|].
  rewrite (progress_next _ _ _ _ _ Hd Hnext).
  destruct (pending_split _ _ _ _ _ Hbox) as [(-> & -> & ->)|(d1 & y & d2 & -> & -> & -> & ->)].
  - exists (servers s), dying. rewrite set_servers_self, app_nil_r, Hlen.
    split_and!; [done|apply keeps_room_refl|done].
  - destruct (deliver_close_ok s live y d1 d2 Hs) as (m1 & Hrun & Hs1 & Hk1).
    erewrite bind_eq by exact Hrun. rewrite app_assoc, <- fmap_app.
    rewrite length_app in Hlen. simpl in Hlen. destruct n as [|n]; [lia|].
    destruct (IH n ltac:(lia) (d1 ++ d2) (set_servers m1 s) live msg) as (m' & dying' & Hs' & Hk' & ->);
      [rewrite length_app; lia|done|done|].
    exists m', dying'. split_and!; [done|by eapply keeps_room_trans|done].
Qed.

(** A wait for which only closes are under way never ends. *)
Lemma drain_blocks n : ∀ dying s live,
  done s ≠ HG_TRUE → slots_ok (servers s) live dying →
  progress_until_done (hg := hg) n (close_req <$> dying) s = Fault FBlocked.
Proof.
  induction n as [|n IH]; intros dying s live Hd Hs.
  - simpl. erewrite bind_eq by done. by destruct (Z.eqb_spec (done s) HG_TRUE).
  - destruct dying as [|y0 dying].
    { simpl. erewrite bind_eq by done. by destruct (Z.eqb_spec (done s) HG_TRUE). }
    destruct (next_request_Some (hg := hg) (close_req <$> y0 :: dying))
      as (b1 & req & b2 & Hbox & Hnext); [done|].
    rewrite (progress_next _ _ _ _ _ Hd Hnext).
    apply fmap_app_inv in Hbox as (d1 & d' & -> & Hd' & Heq).
    symmetry in Hd'. apply fmap_cons_inv in Hd' as (y & d2 & -> & -> & ->). rewrite Heq in Hs.
    destruct (deliver_close_ok s live y d1 d2 Hs) as (m1 & Hrun & Hs1 & _).
    erewrite bind_eq by exact Hrun. rewrite <- fmap_app. by apply IH with live.
Qed.

(** A forwarded request among pending closes, and the wait for it. *)
Lemma block_eq s live dying msg :
  done s ≠ HG_TRUE → slots_ok (servers s) live dying →
  outbox s = (close_req <$> dying) ++ [msg] →
  ∃ m' dying', slots_ok m' live dying' ∧ keeps_room (servers s) m' ∧
    hvac_client_block (hg := hg) s =
    (deliver (hg := hg) msg;;
     progress_until_done (hg := hg) (length dying') (close_req <$> dying'))
      (set_servers m' (set_outbox [] s)).
Proof.
  intros Hd Hs Hbox.
  destruct (flush _ dying (set_outbox [] s) live msg eq_refl Hd Hs) as (m' & dying' & Hs' & Hk & Hrun).
  exists m', dying'. split; [done|]. split; [done|].
  unfold hvac_client_block. erewrite bind_eq by done. erewrite bind_eq by done.
  rewrite Hbox, length_app, length_fmap, Nat.add_comm. exact Hrun.
Qed.

Lemma block_after_flush s live dying msg :
  done s ≠ HG_TRUE → slots_ok (servers s) live dying →
  outbox s = (close_req <$> dying) ++ [msg] →
  ∃ m' dying', slots_ok m' live dying' ∧ keeps_room (servers s) m' ∧
    ∀ s', deliver (hg := hg) msg (set_servers m' (set_outbox [] s)) = Ok (tt, s') →
      done s' = HG_TRUE →
      hvac_client_block (hg := hg) s = Ok (tt, set_outbox (close_req <$> dying') s').
Proof.
  intros Hd Hs Hbox.
  destruct (block_eq s live dying msg Hd Hs Hbox) as (m' & dying' & Hs' & Hk & Heq).
  exists m', dying'. split; [done|]. split; [done|]. intros s' Hdel Hdone. rewrite Heq.
  erewrite bind_eq by exact Hdel. by apply progress_done.
Qed.

(** ** Reads *)

(** The parts of the client that a remote read leaves alone. *)
Definition same_client s s' : Prop :=
  fd_map s' = fd_map s ∧ fd_redir_map s' = fd_redir_map s ∧ cli_os s' = cli_os s ∧
  (connected s → connected s').

Definition remote_read (p : string) (fd n off : Z) : M sys Z :=
  hvac_client_comm_gen_read_rpc (hg := hg) (u32 (rank_of p)) fd true (i64 n) off;;
  hvac_read_block (hg := hg).

(** A remote read whose server answers [r] with data [d]. *)
Lemma remote_read_eq s live dying fd x n off :
  conn_ok s → connected s → outbox s = close_req <$> dying → slots_ok (servers s) live dying →
  live !! fd = Some x → fd_redir_map s !! fd = Some (sl_rfd x) → 0 ≤ n < 2 ^ 63 →
  is_Some (servers s !! sl_addr x) →
  ∃ m' dying' srv, slots_ok m' live dying' ∧ m' !! sl_addr x = Some srv ∧
    fs_handle srv (sl_rfd x) (sl_path x) (sl_off x) (sl_bytes x) ∧ fs_ok srv ∧
    ∀ r d srv', fs_read (RpcIn (i32 n) n (sl_rfd x) off) srv = Ok (RpcOut r, d, srv') →
      ∃ s', remote_read (sl_path x) fd n off s = Ok (r, s') ∧ user_buf s' = d ∧
        conn_ok s' ∧ outbox s' = close_req <$> dying' ∧ servers s' = <[sl_addr x := srv']> m' ∧
        same_client s s'.
Proof.
  intros Hc Hrdy Hbox Hs Hx Hr Hn [srv0 Hsrv0].
  destruct (gen_read_eq s (sl_path x) fd (sl_rfd x) n off Hc Hrdy Hr Hn) as (ac & k & Hac & Hgen).
  destruct (so_home _ _ _ Hs _ _ Hx) as [Haddr _].
  match type of Hgen with _ = Ok (_, ?t) => set (s1 := t) in Hgen end.
  destruct (block_after_flush s1 live dying
    (home (sl_path x), ReqRead (RpcIn (i32 n) n (sl_rfd x) off))) as (m' & dying' & Hs' & [_ Hk] & Hblock);
    [done|exact Hs|unfold s1; simpl; by rewrite Hbox|].
  destruct (Hk _ _ Hsrv0) as (srv & Hsrv & _). pose proof (so_live _ _ _ Hs' _ _ Hx _ Hsrv) as Hh.
  exists m', dying', srv. split_and!; try done; [by apply (so_servers _ _ _ Hs' _ _ Hsrv)|].
  intros r d srv' Hread. unfold remote_read, hvac_read_block. rewrite Haddr in Hsrv |- *.
  eexists. split.
  { erewrite bind_eq by exact Hgen. erewrite bind_eq; [|apply Hblock; [by eapply deliver_read_eq|done]].
    reflexivity. }
  simpl. split; [done|]. split; [|done]. destruct Hc; by split.
Qed.

(** The count that reaches the server is the caller's cut to 32 bits. *)
Lemma remote_read_ok s live dying fd x n :
  conn_ok s → connected s → outbox s = close_req <$> dying → slots_ok (servers s) live dying →
  live !! fd = Some x → fd_redir_map s !! fd = Some (sl_rfd x) → 0 ≤ n < 2 ^ 63 → 0 ≤ i32 n →
  is_Some (servers s !! sl_addr x) →
  ∃ r d s' dying', remote_read (sl_path x) fd n (-1) s = Ok (r, s') ∧ user_buf s' = d ∧
    read_result (sl_bytes x) (sl_off x) (i32 n) r d ∧
    conn_ok s' ∧ outbox s' = close_req <$> dying' ∧ same_client s s' ∧
    slots_ok (servers s') (<[fd := at_offset x (sl_off x + r)]> live) dying'.
Proof.
  intros Hc Hrdy Hbox Hs Hx Hr Hn Hi Hup.
  destruct (remote_read_eq s live dying fd x n (-1) Hc Hrdy Hbox Hs Hx Hr Hn Hup)
    as (m' & dying' & srv & Hs' & Hsrv & Hh & Hok & Hrun).
  destruct (fs_read_law _ _ _ _ _ (i32 n) n Hok Hh)
    as (r & d & srv' & Hread & Hok' & Hres & Hh' & Hfr); [word..|].
  destruct (Hrun r d srv' Hread) as (s' & Hrd & Hbuf & Hc' & Hbox' & Hm & Hsame).
  exists r, d, s', dying'. split_and!; try done; try apply Hres. rewrite Hm. by eapply slots_ok_moved.
Qed.

Lemma remote_pread_ok s live dying fd x n off :
  conn_ok s → connected s → outbox s = close_req <$> dying → slots_ok (servers s) live dying →
  live !! fd = Some x → fd_redir_map s !! fd = Some (sl_rfd x) → 0 ≤ n < 2 ^ 63 → 0 ≤ i32 n →
  0 ≤ off → is_Some (servers s !! sl_addr x) →
  ∃ r d s' dying', remote_read (sl_path x) fd n off s = Ok (r, s') ∧ user_buf s' = d ∧
    read_result (sl_bytes x) off (i32 n) r d ∧
    conn_ok s' ∧ outbox s' = close_req <$> dying' ∧ same_client s s' ∧
    slots_ok (servers s') live dying'.
Proof.
  intros Hc Hrdy Hbox Hs Hx Hr Hn Hi Hoff Hup.
  destruct (remote_read_eq s live dying fd x n off Hc Hrdy Hbox Hs Hx Hr Hn Hup)
    as (m' & dying' & srv & Hs' & Hsrv & Hh & Hok & Hrun).
  destruct (fs_pread_law _ _ _ _ _ (i32 n) n off Hok Hh)
    as (r & d & srv' & Hread & Hok' & Hres & Hfr); [word..|].
  destruct (Hrun r d srv' Hread) as (s' & Hrd & Hbuf & Hc' & Hbox' & Hm & Hsame).
  exists r, d, s', dying'. split_and!; try done; try apply Hres. rewrite Hm. by eapply slots_ok_background.
Qed.

(** ** The application's tables *)

Lemma tables_ok_same s s' sh live :
  same_client s s' → tables_ok s sh live → tables_ok s' sh live.
Proof.
  intros (Hm & Hr & Ho & Hrdy) []. split; try done; rewrite ?Hm, ?Hr, ?Ho; eauto.
Qed.

Lemma tables_ok_moved s sh live fd x off :
  tables_ok s sh live → live !! fd = Some x →
  tables_ok s (<[fd := (sl_path x, off)]> sh) (<[fd := at_offset x off]> live).
Proof.
  intros [Hsh Hm Hr Hrdy Hl Hf Hnm] Hx. split; try done.
  - intros fd'. destruct (decide (fd = fd')) as [->|]; [by rewrite !lookup_insert_eq|].
    rewrite !lookup_insert_ne by done. apply Hsh.
  - intros fd'. rewrite Hm, lookup_insert. case_decide; [|done]. subst fd'. by rewrite Hx.
  - intros fd' x'. rewrite lookup_insert. case_decide; [|apply Hr].
    intros [= <-]. subst fd'. exact (Hr _ _ Hx).
  - intros fd' x' _. by apply (Hrdy fd x).
  - intros fd' x'. rewrite lookup_insert. case_decide; [|apply Hl].
    intros [= <-]. subst fd'. exact (Hl _ _ Hx).
Qed.

Lemma tables_ok_slot s sh live fd p off :
  tables_ok s sh live → sh !! fd = Some (p, off) →
  ∃ x, live !! fd = Some x ∧ sl_path x = p ∧ sl_off x = off ∧ fd_map s !! fd = Some p ∧
       fd_redir_map s !! fd = Some (sl_rfd x).
Proof.
  intros Ht Hsh. rewrite (tk_shadow _ _ _ Ht) in Hsh.
  destruct (live !! fd) as [x|] eqn:Hx; [|done]. injection Hsh as <- <-.
  exists x. split_and!; try done; [by rewrite (tk_fd_map _ _ _ Ht), Hx|by apply Ht].
Qed.

Lemma count_eq s f :
  count f s = Ok (tt, set_stats (f (stats s)) s).
Proof. done. Qed.

Lemma conn_ok_stats s c : conn_ok s → conn_ok (set_stats c s).
Proof. intros []. by split. Qed.

(** ** The intercepted calls *)

(** A tracked read, from the tables it consults and the servers. *)
Lemma run_read_remote s live dying fd x n :
  conn_ok s → connected s → outbox s = close_req <$> dying → slots_ok (servers s) live dying →
  live !! fd = Some x → fd_map s !! fd = Some (sl_path x) →
  fd_redir_map s !! fd = Some (sl_rfd x) → up s (sl_path x) → 0 ≤ n < 2 ^ 63 → 0 ≤ i32 n →
  ∃ r d s' dying', run_call (CRead fd n) s = Ok (RData r d, s') ∧
    read_result (sl_bytes x) (sl_off x) (i32 n) r d ∧
    conn_ok s' ∧ outbox s' = close_req <$> dying' ∧ same_client s s' ∧
    slots_ok (servers s') (<[fd := at_offset x (sl_off x + r)]> live) dying'.
Proof.
  intros Hc Hrdy Hbox Hs Hx Hm Hr Hup Hn Hi.
  destruct (so_home _ _ _ Hs _ _ Hx) as [Haddr _]. unfold up in Hup. rewrite <- Haddr in Hup.
  destruct (remote_read_ok s live dying fd x n Hc Hrdy Hbox Hs Hx Hr Hn Hi Hup)
    as (r & d & s' & dying' & Hrun & Hbuf & Hres & Hc' & Hbox' & Hsame & Hs').
  pose proof Hres as (Hrn & _).
  exists r, d, (set_stats (count_read (stats s')) s'), dying'. split_and!; try done; try apply Hres.
  - unfold run_call, wrap_read, hvac_remote_read. unfold remote_read in Hrun.
    assert (Hrr : i32 r = r) by (apply i32_small; pose proof (i32_range n); word).
    unfold mbind, M_bind in *. rewrite (tracked_eq _ _ _ Hm), (path_of_eq _ _ _ Hm).
    rewrite host_of_eq by done. rewrite Hrun, Hrr.
    destruct (Z.eqb_spec r (-1)); [lia|]. unfold mret, M_ret, gets. rewrite count_eq. simpl.
    by rewrite Hbuf.
  - by apply conn_ok_stats.
Qed.

Lemma run_read_ok s sh fd n p off :
  transparent s sh → sh !! fd = Some (p, off) → up s p → 0 ≤ n < 2 ^ 63 → 0 ≤ i32 n →
  ∃ r d s', run_call (CRead fd n) s = Ok (RData r d, s') ∧
    (∃ c, pfs p = Some c ∧ read_result c off (i32 n) r d) ∧
    transparent s' (<[fd := (p, off + r)]> sh).
Proof.
  intros (Hc & live & dying & Hbox & Hs & Ht) Hsh Hup Hn Hi.
  destruct (tables_ok_slot _ _ _ _ _ _ Ht Hsh) as (x & Hx & <- & <- & Hm & Hr).
  destruct (run_read_remote s live dying fd x n Hc (tk_ready _ _ _ Ht _ _ Hx) Hbox Hs Hx Hm Hr Hup Hn Hi)
    as (r & d & s' & dying' & Hrun & Hres & Hc' & Hbox' & Hsame & Hs').
  exists r, d, s'. split_and!; [done| |].
  - exists (sl_bytes x). split; [by apply (so_home _ _ _ Hs _ _ Hx)|done].
  - split; [done|]. eexists _, dying'. split; [done|]. split; [exact Hs'|].
    apply (tables_ok_same s s'); [done|]. by apply tables_ok_moved.
Qed.

Lemma log_message_eq s : tl_disable_redirect s = false → log_message s = Ok (tt, s).
Proof. intros Htl. destruct s; simpl in *. by subst. Qed.

(** The local world may change as long as files and live descriptors stay. *)
Lemma tables_ok_os s sh live w b :
  tables_ok s sh live → same_files (cli_os s) w → same_names (cli_os s) w →
  (∀ fd, is_Some (live !! fd) → fd_at w fd = fd_at (cli_os s) fd) →
  tables_ok (set_user_buf b (set_cli_os w s)) sh live.
Proof.
  intros [Hsh Hm Hr Hrdy Hl Hf Hnm] Hfiles [Hnames _] Hfds. split; try done; simpl.
  - intros fd x Hx. rewrite Hfds by eauto. destruct (Hl _ _ Hx) as (q & pos & ? & ?).
    exists q, pos. by rewrite Hfiles.
  - intros p c Hp. rewrite Hfiles. by apply Hf.
  - intros path. by rewrite Hnames.
Qed.

(** When the remote descriptor is 0 the data comes from the local file. *)
Lemma real_pread_ok s sh live fd x n off :
  tables_ok s sh live → live !! fd = Some x → 0 ≤ n → 0 ≤ off →
  ∃ r d w, real_pread fd n off s = Ok (r, set_user_buf d (set_cli_os w s)) ∧
    read_result (sl_bytes x) off n r d ∧ tables_ok (set_user_buf d (set_cli_os w s)) sh live.
Proof.
  intros Ht Hx Hn Ho. destruct (tk_local _ _ _ Ht _ _ Hx) as (q & pos & Hfd & Hq).
  destruct (sys_pread fd n off (cli_os s)) as [[r d] w] eqn:Hp.
  pose proof (pread_succeeds _ _ _ _ _ _ _ Hn Ho Hfd Hq) as Hne. rewrite Hp in Hne.
  destruct (pread_law _ _ _ _ _ _ _ Hn Hp) as (Hfl & Hfds & Hres).
  destruct (Hres _ _ _ Hfd Hq) as [->|[_ Hres']]; [done|]. clear Hres.
  exists r, d, w. split_and!; [|done|].
  - unfold real_pread, client_os, mbind, M_bind. by rewrite Hp.
  - pose proof (pread_names_law fd n off (cli_os s)) as Hnm. rewrite Hp in Hnm.
    apply tables_ok_os; [done..|]. intros fd' _. apply Hfds.
Qed.

Lemma run_pread_ok s sh fd n off p pos :
  transparent s sh → sh !! fd = Some (p, pos) → up s p → 0 ≤ n < 2 ^ 31 → 0 ≤ off →
  ∃ r d s', run_call (CPread fd n off) s = Ok (RData r d, s') ∧
    (∃ c, pfs p = Some c ∧ read_result c off n r d) ∧ transparent s' sh.
Proof.
  intros (Hc & live & dying & Hbox & Hs & Ht) Hsh Hup Hn Hoff.
  destruct (tables_ok_slot _ _ _ _ _ _ Ht Hsh) as (x & Hx & <- & <- & Hm & Hr).
  destruct (so_home _ _ _ Hs _ _ Hx) as [Haddr Hpfs]. unfold up in Hup. rewrite <- Haddr in Hup.
  unfold run_call, wrap_pread, hvac_remote_pread, mbind, M_bind, hvac_get_path, gets.
  rewrite Hm, log_message_eq by apply Hc. rewrite (tracked_eq _ _ _ Hm), (remote_of_eq _ _ _ Hr).
  destruct (Z.eqb_spec (sl_rfd x) 0) as [Hz|Hz]; cbn [negb]; cbv beta iota.
  - destruct (real_pread_ok s sh live fd x n off Ht Hx) as (r & d & w & Hrun & Hres & Ht'); [lia..|].
    unfold mret, M_ret. change (-1 =? -1) with true. cbv beta iota. rewrite Hrun.
    rewrite log_message_eq by apply Hc. rewrite count_eq.
    eexists r, d, _. split_and!; [reflexivity|by eauto|]. split.
    { apply conn_ok_stats. destruct Hc; by split. }
    exists live, dying. split; [done|]. split; [done|].
    by apply (tables_ok_same (set_user_buf d (set_cli_os w s))).
  - destruct (remote_pread_ok s live dying fd x n off Hc (tk_ready _ _ _ Ht _ _ Hx) Hbox Hs Hx Hr)
      as (r & d & s' & dying' & Hrun & Hbuf & Hres & Hc' & Hbox' & Hsame & Hs'); [word|word|word|done|].
    rewrite i32_small in Hres by word.
    pose proof Hres as (Hrn & _). unfold remote_read, mbind, M_bind in Hrun.
    rewrite (path_of_eq _ _ _ Hm), host_of_eq by done. rewrite Hrun.
    destruct (Z.eqb_spec r (-1)); [lia|]. unfold mret, M_ret. rewrite count_eq. subst d.
    eexists r, _, _. split_and!; [reflexivity|by eauto|]. split; [by apply conn_ok_stats|].
    exists live, dying'. split; [done|]. split; [done|].
    apply (tables_ok_same s'); [done|]. by apply (tables_ok_same s).
Qed.

(** ** Close *)

Lemma slots_ok_dies m live dying fd x :
  slots_ok m live dying → live !! fd = Some x → slots_ok m (delete fd live) (dying ++ [x]).
Proof.
  intros [Hh Hl Hd Hi Hn Hap Ho Hol Hod Hsrv] Hx. split; try done.
  - intros fd' x' [? ?]%lookup_delete_Some. by apply (Hh fd').
  - intros fd' x' [? ?]%lookup_delete_Some. by apply (Hl fd').
  - intros y [?| ->%list_elem_of_singleton]%elem_of_app; [by apply Hd|by apply (Hl fd)].
  - intros f1 f2 x1 x2 [? ?]%lookup_delete_Some [? ?]%lookup_delete_Some. by apply Hi.
  - rewrite fmap_app. apply NoDup_app. split; [done|]. split; [|apply NoDup_singleton].
    intros k (y & -> & Hy)%list_elem_of_fmap Hk%list_elem_of_singleton.
    by apply (Hap fd x y Hx Hy).
  - intros fd' x' y [Hne ?]%lookup_delete_Some [?| ->%list_elem_of_singleton]%elem_of_app;
      [by apply (Hap fd')|]. intros Hk. apply Hne. by apply (Hi fd fd' x x').
  - intros fd' x' y [? ?]%lookup_delete_Some. by apply (Hol fd').
  - intros y z [?| ->%list_elem_of_singleton]%elem_of_app; [by apply Hod|by apply (Hol fd)].
Qed.

Lemma tables_ok_close s sh live fd w :
  tables_ok s sh live → same_files (cli_os s) w → same_names (cli_os s) w →
  (∀ fd', fd' ≠ fd → fd_at w fd' = fd_at (cli_os s) fd') →
  tables_ok (set_cli_os w (set_fd_map (delete fd (fd_map s))
              (set_fd_redir_map (delete fd (fd_redir_map s)) s)))
    (delete fd sh) (delete fd live).
Proof.
  intros [Hsh Hm Hr Hrdy Hl Hf Hnm] Hfiles [Hnames _] Hfds. split; simpl.
  - intros fd'. destruct (decide (fd = fd')) as [->|]; [by rewrite !lookup_delete_eq|].
    rewrite !lookup_delete_ne by done. apply Hsh.
  - intros fd'. destruct (decide (fd = fd')) as [->|]; [by rewrite !lookup_delete_eq|].
    rewrite !lookup_delete_ne by done. apply Hm.
  - intros fd' x [? ?]%lookup_delete_Some. rewrite lookup_delete_ne by done. by apply Hr.
  - intros fd' x [_ Hx]%lookup_delete_Some. by apply (Hrdy fd' x).
  - intros fd' x [? Hx]%lookup_delete_Some. rewrite Hfds by done.
    destruct (Hl _ _ Hx) as (q & pos & ? & ?). exists q, pos. by rewrite Hfiles.
  - intros p c Hp. rewrite Hfiles. by apply Hf.
  - intros path. by rewrite Hnames.
Qed.

Lemma run_close_ok s sh fd :
  transparent s sh → is_Some (sh !! fd) →
  ∃ s', run_call (CClose fd) s = Ok (RStatus 0, s') ∧ transparent s' (delete fd sh).
Proof.
  intros (Hc & live & dying & Hbox & Hs & Ht) [[p off] Hsh].
  destruct (tables_ok_slot _ _ _ _ _ _ Ht Hsh) as (x & Hx & <- & <- & Hm & Hr).
  destruct (so_home _ _ _ Hs _ _ Hx) as [Haddr Hpfs].
  destruct (gen_close_eq s (sl_path x) fd (sl_rfd x) Hc (tk_ready _ _ _ Ht _ _ Hx) Hr) as (ac & k & Hac & Hgen).
  destruct (tk_local _ _ _ Ht _ _ Hx) as (q & pos & Hfd & Hq).
  destruct (sys_close fd (cli_os s)) as [r w] eqn:Hcl0.
  pose proof (close_succeeds fd (cli_os s) (mk_is_Some _ _ Hfd)) as Hz.
  rewrite Hcl0 in Hz; simpl in Hz; subst r.
  destruct (close_law _ _ _ _ Hcl0) as (Hfl & Hfds & _).
  pose proof (close_names_law fd (cli_os s)) as Hnm. rewrite Hcl0 in Hnm.
  pose proof (tables_ok_close _ _ _ fd w Ht Hfl Hnm Hfds) as Ht'.
  unfold run_call, wrap_close, hvac_remove_fd, hvac_remote_close, redirect_disabled, when,
    hvac_get_path, client_os, mbind, M_bind, gets.
  rewrite (co_on _ Hc), (co_tl _ Hc). cbn [orb]. cbv beta iota. rewrite Hm.
  rewrite log_message_eq by apply Hc. rewrite (tracked_eq _ _ _ Hm), (path_of_eq _ _ _ Hm).
  rewrite host_of_eq, Hgen by done. unfold hvac_file_tracked, gets, modify, mret, M_ret.
  simpl. rewrite Hcl0. simpl. eexists. split; [reflexivity|].
  split; [destruct Hc; by split|]. exists (delete fd live), (dying ++ [x]). simpl. split_and!.
  - rewrite Hbox, fmap_app. unfold close_req at 3. simpl. by rewrite <- Haddr.
  - by apply slots_ok_dies.
  - destruct Ht'. by split.
Qed.

(** ** Open *)

Lemma slots_ok_opened m live dying fd r p c srv srv' :
  slots_ok m live dying → m !! home p = Some srv → fs_ok srv' → fs_frame None srv srv' →
  fs_handle srv' r p 0 c → (∀ p' off' c', ¬ fs_handle srv r p' off' c') →
  live !! fd = None → pfs p = Some c →
  slots_ok (<[home p := srv']> m) (<[fd := Slot (home p) r p 0 c]> live) dying.
Proof.
  intros Hs Ha Hok Hfr Hnew Hfresh Hfd Hp.
  destruct (slots_ok_background _ _ _ _ _ _ Hs Ha Hok Hfr) 
    as [Hh Hl Hd Hi Hn Hap Ho Hol Hod Hsrv].
  assert (Hkey : ∀ x, slot_good m x → slot_key x ≠ (home p, r)).
  { intros x Hgood [= Hxa Hxr]. unfold slot_good in Hgood. rewrite Hxa, Hxr in Hgood.
    by eapply Hfresh, Hgood. }
  assert (Hother : ∀ fd' x, live !! fd' = Some x → slot_key x ≠ (home p, r)).
  { intros fd' x Hx. by apply Hkey, (so_live _ _ _ Hs fd'). }
  split; try done.
  - intros fd' x. rewrite lookup_insert. case_decide; [by intros [= <-]|apply Hh].
  - intros fd' x. rewrite lookup_insert. case_decide; [|apply Hl]. intros [= <-].
    intros t. simpl. rewrite lookup_insert_eq. by intros [= <-].
  - intros f1 f2 x1 x2. rewrite !lookup_insert. repeat case_decide; intros Hx1 Hx2 Hk; simplify_eq.
    + done.
    + exfalso. apply (Hother _ _ Hx2). unfold slot_key. congruence.
    + exfalso. apply (Hother _ _ Hx1). unfold slot_key. congruence.
    + apply (Hi f1 f2 x1 x2); [done..|]. unfold slot_key. congruence.
  - intros fd' x y. rewrite lookup_insert. case_decide; [|by apply Hap].
    intros [= <-] Hy Hk. by apply (Hkey y); [apply (so_dying _ _ _ Hs)|].
  - intros fd' x y. rewrite lookup_insert. case_decide; [|by apply Hol].
    intros [= <-] Hy Hk. by apply (Hkey y); [apply (so_others _ _ _ Hs)|].
Qed.

Lemma tables_ok_opened s s' sh live fd x q pos :
  tables_ok s sh live → connected s' → live !! fd = None →
  same_files (cli_os s) (cli_os s') → same_names (cli_os s) (cli_os s') →
  (∀ fd', fd' ≠ fd → fd_at (cli_os s') fd' = fd_at (cli_os s) fd') →
  fd_at (cli_os s') fd = Some (q, pos) → file_at (cli_os s') q = Some (sl_bytes x) →
  fd_map s' = <[fd := sl_path x]> (fd_map s) →
  fd_redir_map s' = <[fd := sl_rfd x]> (fd_redir_map s) →
  tables_ok s' (<[fd := (sl_path x, sl_off x)]> sh) (<[fd := x]> live).
Proof.
  intros [Hsh Hm Hr _ Hl Hf Hnm] Hrdy Hfd Hfiles [Hnames _] Hfds Hq Hqc Hm' Hr'.
  split; rewrite ?Hm', ?Hr'; [| | |done| | |].
  - intros fd'. destruct (decide (fd = fd')) as [->|]; [by rewrite !lookup_insert_eq|].
    rewrite !lookup_insert_ne by done. apply Hsh.
  - intros fd'. destruct (decide (fd = fd')) as [->|]; [by rewrite !lookup_insert_eq|].
    rewrite !lookup_insert_ne by done. apply Hm.
  - intros fd' x'. destruct (decide (fd = fd')) as [->|].
    + rewrite !lookup_insert_eq. by intros [= ->].
    + rewrite !lookup_insert_ne by done. apply Hr.
  - intros fd' x'. destruct (decide (fd = fd')) as [->|].
    + rewrite !lookup_insert_eq. intros [= ->]. by exists q, pos.
    + rewrite !lookup_insert_ne, Hfds by done. intros Hx'.
      destruct (Hl _ _ Hx') as (q' & pos' & ? & ?). exists q', pos'. by rewrite Hfiles.
  - intros p c Hp. rewrite Hfiles. by apply Hf.
  - intros path. by rewrite Hnames.
Qed.

(** The client is set up for its first remote call when needed. *)
Definition ensure_comm : M sys unit :=
  init ← gets g_mercury_init;
  if (init : bool) then mret tt
  else hvac_init_comm env;; hvac_client_comm_register_rpc;; modify (set_g_mercury_init true).

Definition comm_started s s' : Prop :=
  s' = s ∨ ∃ r k, 0 < k ∧
    s' = set_g_mercury_init true (set_progress_threads k (set_hg_context true (set_hg_class true
           (set_server_rank r s)))).

Lemma comm_started_same s s' :
  comm_started s s' →
  outbox s' = outbox s ∧ fd_map s' = fd_map s ∧ fd_redir_map s' = fd_redir_map s ∧
  cli_os s' = cli_os s ∧ servers s' = servers s.
Proof. intros [->|(r & k & _ & ->)]; done. Qed.

Lemma ensure_comm_eq s :
  conn_ok s → is_Some (getenv env "SLURM_PROCID") →
  ∃ s', comm_started s s' ∧ conn_ok s' ∧ connected s' ∧ ensure_comm s = Ok (tt, s').
Proof.
  intros Hc [v Hv]. destruct (g_mercury_init s) eqn:Hmi.
  - exists s. split; [by left|]. split; [done|]. split; [by apply Hc|].
    unfold ensure_comm. erewrite bind_eq by done. by rewrite Hmi.
  - pose proof (co_threads _ Hc) as Hk.
    assert (Hnew : connected (set_g_mercury_init true (set_progress_threads (progress_threads s + 1)
      (set_hg_context true (set_hg_class true (set_server_rank (atoi v) s)))))).
    { split_and!; simpl; [done..|lia]. }
    eexists. split; [right; eexists (atoi v), (progress_threads s + 1); split; [lia|reflexivity]|].
    split; [destruct Hc; split; try done; simpl; lia|]. split; [exact Hnew|].
    unfold ensure_comm. erewrite bind_eq by done. rewrite Hmi. unfold hvac_init_comm. rewrite Hv.
    unfold hvac_client_comm_register_rpc. destruct s; run_monad.
    rewrite (ok_init _ Hhg); simpl. rewrite (ok_context _ Hhg), thread_succeeds; simpl.
    by rewrite (ok_disable_response _ Hhg).
Qed.

(** The flags and the path of an open that the client may redirect. *)
Definition redirectable (path : string) (flags : Z) : Prop :=
  read_only flags = true ∧ Z.land flags O_APPEND = 0 ∧ contains ".ports.cfg." path = false.

(** The remote half of an open: the request is answered by the file's home. *)
Lemma remote_open_eq s live dying p c fd :
  conn_ok s → connected s → outbox s = close_req <$> dying → slots_ok (servers s) live dying →
  live !! fd = None → pfs p = Some c → 0 ≤ fd < 2 ^ 31 →
  (∃ srv, servers s !! home p = Some srv ∧ fs_room srv) →
  ∃ r s' dying', (hvac_client_comm_gen_open_rpc (hg := hg) (u32 (rank_of p)) p fd;;
           hvac_client_block (hg := hg)) s = Ok (tt, s') ∧
    conn_ok s' ∧ connected s' ∧ outbox s' = close_req <$> dying' ∧
    fd_map s' = fd_map s ∧ cli_os s' = cli_os s ∧
    fd_redir_map s' = <[fd := r]> (fd_redir_map s) ∧
    slots_ok (servers s') (<[fd := Slot (home p) r p 0 c]> live) dying'.
Proof.
  intros Hc Hrdy Hbox Hs Hfd Hp Hr (srv & Hsrv & Hroom).
  destruct (gen_open_eq s p fd Hc Hrdy) as (ac & k & Hac & Hgen).
  match type of Hgen with _ = Ok (_, ?t) => set (s1 := t) in Hgen end.
  destruct (block_after_flush s1 live dying (home p, ReqOpen (OpenIn p) (u32 fd)))
    as (m' & dying' & Hs' & [_ Hk] & Hblock); [done|exact Hs|unfold s1; simpl; by rewrite Hbox|].
  destruct (Hk _ _ Hsrv) as (srv1 & Hsrv1 & Hroom1). specialize (Hroom1 Hroom).
  destruct (so_servers _ _ _ Hs' _ _ Hsrv1) as [Hok Hfiles].
  destruct (fs_open_law _ _ _ Hok (Hfiles _ _ Hp) Hroom1)
    as (r & srv' & Hopen & Hok' & Hnew & Hfr & Hfresh).
  exists r. eexists _, dying'. split.
  { erewrite bind_eq by exact Hgen. apply Hblock; [by eapply deliver_open_eq|done]. }
  simpl. assert (Hi : i32 (u32 fd) = fd) by word. rewrite Hi.
  split; [destruct Hc; by split|]. split_and!; try done. by eapply slots_ok_opened.
Qed.

Lemma track_decision_canonical data_dir (w : W) path p :
  track_decision data_dir w path = Some p → sys_canonical path w = Some p.
Proof.
  unfold track_decision. destruct (sys_canonical path w) as [q|]; [|done].
  destruct data_dir as [dir|]; [destruct (sys_canonical dir w) as [t|]; [|done]|].
  - by destruct (contains t _).
  - by destruct (String.eqb _ _).
Qed.

Lemma track_decision_open data_dir p flags mode (w : W) fd w' path :
  read_only flags = true → sys_open p flags mode w = (fd, w') →
  track_decision data_dir w' path = track_decision data_dir w path.
Proof.
  intros Hro Hopen. destruct (open_names_law _ _ _ _ _ _ Hro Hopen) as (Hcan & Hcwd & _).
  unfold track_decision. rewrite Hcan, Hcwd. destruct (sys_canonical path w); [|done].
  destruct data_dir as [dir|]; [by rewrite Hcan|done].
Qed.

(** A tracked open, from the decision to the end of the wait. *)
Lemma track_file_eq s s1 s2 path flags fd p :
  redirectable path flags →
  track_decision (hvac_data_dir s) (cli_os s) path = Some p →
  ensure_comm (set_fd_map (<[fd := p]> (fd_map s)) s) = Ok (tt, s1) →
  conn_ok s1 → fd_map s1 !! fd = Some p →
  (hvac_client_comm_gen_open_rpc (hg := hg) (u32 (rank_of p)) p fd;;
   hvac_client_block (hg := hg)) s1 = Ok (tt, s2) →
  hvac_track_file env path flags fd s = Ok (true, s2).
Proof.
  intros (Hro & Happ & Hports) Hd Hinit Hc Hm Hrun. unfold hvac_track_file.
  rewrite Hports, Happ. apply andb_prop in Hro as [[Hacc _]%andb_prop _].
  apply Z.eqb_eq in Hacc. rewrite Hacc. change (O_RDONLY =? O_WRONLY) with false.
  cbn [negb Z.eqb]. cbv beta iota. erewrite bind_eq by done. rewrite Hd.
  erewrite bind_eq by done. erewrite bind_eq by done. erewrite bind_eq by exact Hinit.
  unfold mbind, M_bind in *.
  rewrite (path_of_eq _ _ _ Hm), host_of_eq, (path_of_eq _ _ _ Hm) by done.
  destruct (hvac_client_comm_gen_open_rpc _ _ _ _) as [[[] s3]|]; [|done].
  by rewrite Hrun.
Qed.

(** A tracked open returns the local descriptor. *)
Lemma open_call_eq s s2 path flags mode fd w :
  conn_ok s → fd ≠ -1 →
  sys_open path flags (if negb (Z.land flags O_CREAT =? 0) then mode else 0) (cli_os s) = (fd, w) →
  hvac_track_file env path flags fd (set_cli_os w s) = Ok (true, s2) →
  run_call (COpen path flags mode) s = Ok (RFd fd, set_stats (count_open (stats s2)) s2).
Proof.
  intros Hc Hfd Hopen Htrk.
  unfold run_call, wrap_open, redirect_disabled, client_os, mbind, M_bind, gets.
  rewrite (co_on _ Hc), (co_tl _ Hc). cbn [orb]. cbv beta iota zeta.
  rewrite Hopen. destruct (Z.eqb_spec fd (-1)); [done|]. cbn [negb]. cbv beta iota.
  by rewrite Htrk.
Qed.

(** The local half of an open. *)
Lemma local_open_ok s sh live path flags mode p c :
  tables_ok s sh live → redirectable path flags → fd_room (cli_os s) →
  track_decision (hvac_data_dir s) (cli_os s) path = Some p → pfs p = Some c →
  ∃ fd w, sys_open path flags mode (cli_os s) = (fd, w) ∧ 0 ≤ fd < 2 ^ 31 ∧ live !! fd = None ∧
    names path = Some p ∧ file_at (cli_os s) path = Some c ∧
    same_files (cli_os s) w ∧ same_names (cli_os s) w ∧ fd_at w fd = Some (path, 0) ∧
    (∀ fd', fd' ≠ fd → fd_at w fd' = fd_at (cli_os s) fd') ∧
    track_decision (hvac_data_dir s) w path = Some p.
Proof.
  intros Ht (Hro & _) Hroom Htrack Hp.
  pose proof (track_decision_canonical _ _ _ _ Htrack) as Hcanon.
  assert (Hpath : file_at (cli_os s) path = Some c).
  { rewrite <- (canonical_law _ _ _ Hcanon). by apply Ht. }
  destruct (sys_open path flags mode (cli_os s)) as [fd w] eqn:Hopen.
  pose proof (open_succeeds path flags mode _ Hro (mk_is_Some _ _ Hpath) Hroom) as Hne.
  rewrite Hopen in Hne; simpl in Hne.
  destruct (open_law _ _ _ _ _ _ Hro Hopen) as (Hfl & [[-> _]|(Hfd & Hfree & Hat & Hoth)]); [done|].
  exists fd, w. split_and!; try done; try lia.
  - destruct (live !! fd) eqn:E; [|done]. destruct (tk_local _ _ _ Ht _ _ E) as (? & ? & ? & _).
    congruence.
  - by rewrite <- (tk_names _ _ _ Ht).
  - by eapply open_names_law.
  - by rewrite (track_decision_open _ _ _ _ _ _ _ _ Hro Hopen).
Qed.

Lemma run_open_ok s sh path flags mode p c :
  is_Some (getenv env "SLURM_PROCID") →
  transparent s sh → redirectable path flags → fd_room (cli_os s) →
  track_decision (hvac_data_dir s) (cli_os s) path = Some p → pfs p = Some c →
  (∃ srv, servers s !! home p = Some srv ∧ fs_room srv) →
  ∃ fd s', run_call (COpen path flags mode) s = Ok (RFd fd, s') ∧
    0 ≤ fd ∧ sh !! fd = None ∧ names path = Some p ∧ transparent s' (<[fd := (p, 0)]> sh).
Proof.
  intros Henv (Hc & live & dying & Hbox & Hs & Ht) Hred Hroom Htrack Hp Hsrv.
  set (mode' := if negb (Z.land flags O_CREAT =? 0) then mode else 0).
  destruct (local_open_ok s sh live path flags mode' p c Ht Hred Hroom Htrack Hp)
    as (fd & w & Hopen & Hfd & Hlive & Hname & Hpath & Hfl & Hnm & Hat & Hoth & Htrack').
  destruct (ensure_comm_eq (set_fd_map (<[fd := p]> (fd_map s)) (set_cli_os w s)))
    as (s1 & Hstart & Hc1 & Hrdy1 & Hinit); [destruct Hc; by split|done|].
  destruct (comm_started_same _ _ Hstart) as (Hbox1 & Hm1' & Hr1 & Hos1 & Hsrv1). simpl in *.
  assert (Hm1 : fd_map s1 !! fd = Some p) by (rewrite Hm1'; by rewrite lookup_insert_eq).
  destruct (remote_open_eq s1 live dying p c fd Hc1 Hrdy1) as
    (r & s2 & dying2 & Hrun & Hc2 & Hrdy2 & Hbox2 & Hm2 & Hos2 & Hr2 & Hs2);
    [congruence|by rewrite Hsrv1|done..|by rewrite Hsrv1|].
  assert (Htrk : hvac_track_file env path flags fd (set_cli_os w s) = Ok (true, s2)).
  { by apply track_file_eq with (p := p) (s1 := s1). }
  exists fd, (set_stats (count_open (stats s2)) s2). split_and!.
  - apply open_call_eq with w; [done|lia|done|done].
  - lia.
  - by rewrite (tk_shadow _ _ _ Ht), Hlive.
  - done.
  - split; [by apply conn_ok_stats|]. eexists _, dying2. split; [done|]. split; [exact Hs2|].
    assert (Hos : cli_os s2 = w) by congruence.
    apply (tables_ok_opened s _ sh live fd (Slot (home p) r p 0 c) path 0); simpl; rewrite ?Hos; try done;
      [by rewrite Hfl|congruence..].
Qed.

(** ** Executions *)

(** What the caller has to respect: descriptors that the client tracks, counts
    below [2^31], offsets that are not negative; for an open, flags that only
    read, a file of the data set that the client decides to track, and free
    descriptors in the client and at the file's home.  The home of the file
    must be alive, except for a close. *)
Definition legal s (c : call) : Prop :=
  match c with
  | COpen path flags _ =>
      redirectable path flags ∧ fd_room (cli_os s) ∧
      ∃ p b srv, track_decision (hvac_data_dir s) (cli_os s) path = Some p ∧ pfs p = Some b ∧
                 servers s !! home p = Some srv ∧ fs_room srv
  | CRead fd n => (∃ p, fd_map s !! fd = Some p ∧ up s p) ∧ 0 ≤ n < 2 ^ 31
  | CPread fd n off => (∃ p, fd_map s !! fd = Some p ∧ up s p) ∧ 0 ≤ n < 2 ^ 31 ∧ 0 ≤ off
  | CClose fd => is_Some (fd_map s !! fd)
  end.

(** Some forwarded request completes. *)
Inductive progress_step : sys → sys → Prop :=
  | progresses s b1 msg b2 s' :
      outbox s = b1 ++ msg :: b2 →
      deliver (hg := hg) msg (set_outbox (b1 ++ b2) s) = Ok (tt, s') → progress_step s s'.

(** Steps a server takes of its own accord. *)
Variable background : Srv → Srv → Prop.

Inductive sys_run : sys → list (call * result) → sys → Prop :=
  | sys_run_nil s : sys_run s [] s
  | sys_run_call s c r s1 t s2 :
      legal s c → run_call c s = Ok (r, s1) → sys_run s1 t s2 → sys_run s ((c, r) :: t) s2
  | sys_run_progress s s1 t s2 : progress_step s s1 → sys_run s1 t s2 → sys_run s t s2
  | sys_run_background s a srv srv' t s2 :
      servers s !! a = Some srv → background srv srv' →
      sys_run (set_servers (<[a := srv']> (servers s)) s) t s2 → sys_run s t s2
  | sys_run_died s a t s2 : sys_run (set_servers (delete a (servers s)) s) t s2 → sys_run s t s2.

Hypothesis background_ok :
  ∀ srv srv', fs_ok srv → background srv srv' → fs_ok srv' ∧ fs_frame None srv srv'.
Hypothesis Hrank : is_Some (getenv env "SLURM_PROCID").

Lemma tracked_shadow s sh fd p :
  transparent s sh → fd_map s !! fd = Some p → ∃ off, sh !! fd = Some (p, off).
Proof.
  intros (_ & live & _ & _ & _ & Ht) Hp. rewrite (tk_fd_map _ _ _ Ht) in Hp.
  rewrite (tk_shadow _ _ _ Ht). destruct (live !! fd) as [x|]; [|done]. injection Hp as <-.
  by eexists.
Qed.

Lemma run_call_ok s sh c :
  transparent s sh → legal s c →
  ∃ r s' sh', run_call c s = Ok (r, s') ∧ posix_step names pfs sh c r sh' ∧ transparent s' sh'.
Proof.
  intros Hs Hl. destruct c as [path flags mode|fd n|fd n off|fd]; simpl in Hl.
  - destruct Hl as (Hred & Hroom & p & b & srv & Htrk & Hp & Hsrv & Hfree).
    destruct (run_open_ok s sh path flags mode p b) as (fd & s' & Hrun & ? & ? & ? & Hs'); eauto.
    exists (RFd fd), s', (<[fd := (p, 0)]> sh). split_and!; [done| |done].
    by eapply posix_open; eauto.
  - destruct Hl as [(p & Ht & Hup) Hn]. destruct (tracked_shadow _ _ _ _ Hs Ht) as (off & Hsh).
    destruct (run_read_ok s sh fd n p off Hs Hsh Hup) as (r & d & s' & Hrun & (b & ? & Hres) & Hs');
      [word..|]. rewrite i32_small in Hres by word.
    exists (RData r d), s', (<[fd := (p, off + r)]> sh).
    split_and!; [done| |exact Hs']. by eapply posix_read.
  - destruct Hl as ((p & Ht & Hup) & Hn & Ho).
    destruct (tracked_shadow _ _ _ _ Hs Ht) as (pos & Hsh).
    destruct (run_pread_ok s sh fd n off p pos Hs Hsh Hup Hn Ho)
      as (r & d & s' & Hrun & (b & ? & ?) & Hs').
    exists (RData r d), s', sh. split_and!; [done| |done]. by eapply posix_pread.
  - destruct Hl as [p Hp]. destruct (tracked_shadow _ _ _ _ Hs Hp) as (off & Hsh).
    destruct (run_close_ok s sh fd Hs (mk_is_Some _ _ Hsh)) as (s' & Hrun & Hs').
    exists (RStatus 0), s', (delete fd sh). split_and!; [done| |exact Hs']. constructor. by eexists.
Qed.

Lemma progress_step_ok s sh s' : transparent s sh → progress_step s s' → transparent s' sh.
Proof.
  intros (Hc & live & dying & Hbox & Hs & Ht) Hstep. destruct Hstep as [s b1 msg b2 s' Hout Hdel].
  rewrite Hbox in Hout. apply fmap_app_inv in Hout as (d1 & d' & -> & Hd' & ->).
  symmetry in Hd'. apply fmap_cons_inv in Hd' as (y & d2 & -> & -> & ->).
  destruct (deliver_close_ok (set_outbox ((close_req <$> d1) ++ (close_req <$> d2)) s) live y d1 d2 Hs)
    as (m' & Hrun & Hs' & _).
  pose proof (eq_trans (eq_sym Hrun) Hdel) as [= <-]. split; [destruct Hc; by split|].
  exists live, (d1 ++ d2). split; [simpl; by rewrite fmap_app|]. split; [done|].
  by apply (tables_ok_same s).
Qed.

Lemma died_ok s sh a :
  transparent s sh → transparent (set_servers (delete a (servers s)) s) sh.
Proof.
  intros (Hc & live & dying & Hbox & Hs & Ht). split; [destruct Hc; by split|].
  exists live, dying. split; [done|]. split; [by apply slots_ok_died|]. by apply (tables_ok_same s).
Qed.

Lemma background_step_ok s sh a srv srv' :
  transparent s sh → servers s !! a = Some srv → background srv srv' →
  transparent (set_servers (<[a := srv']> (servers s)) s) sh.
Proof.
  intros (Hc & live & dying & Hbox & Hs & Ht) Ha Hb.
  destruct (so_servers _ _ _ Hs _ _ Ha) as [Hok _].
  destruct (background_ok _ _ Hok Hb) as [Hok' Hfr].
  split; [destruct Hc; by split|]. exists live, dying. split; [done|].
  split; [by eapply slots_ok_background|]. by apply (tables_ok_same s).
Qed.

(** C5: a legal call of the application never faults, returns what the POSIX
    interface allows for the original files (the contents at the application's
    own offset, whichever copy a server read, whatever requests were pending,
    and whatever descriptors other clients hold on the servers), and leaves the
    system where this holds again. *)
Theorem hvac_transparent s sh c :
  transparent s sh → legal s c →
  ∃ r s' sh', run_call c s = Ok (r, s') ∧ posix_step names pfs sh c r sh' ∧ transparent s' sh'.
Proof. apply run_call_ok. Qed.

(** C38: every execution, with the application's calls interleaved in any order
    with the completion of pending requests, with background steps of the
    servers and with their deaths, shows the application a history of the POSIX
    interface. *)
Theorem hvac_trace_transparent s sh t s' :
  transparent s sh → sys_run s t s' → ∃ sh', posix_run names pfs sh t sh' ∧ transparent s' sh'.
Proof.
  intros Hs Hrun. revert sh Hs.
  induction Hrun as [s|s c r s1 t s2 Hl Hcall _ IH|s s1 t s2 Hp _ IH|s a srv srv' t s2 Ha Hb _ IH
    |s a t s2 _ IH]; intros sh Hs.
  - exists sh. split; [constructor|done].
  - destruct (run_call_ok s sh c Hs Hl) as (r' & s1' & sh1 & Hcall' & Hstep & Hs1).
    rewrite Hcall in Hcall'. injection Hcall' as <- <-.
    destruct (IH sh1 Hs1) as (sh2 & ? & ?). exists sh2. split; [|done]. by econstructor.
  - apply (IH sh). by eapply progress_step_ok.
  - apply (IH sh). by eapply background_step_ok.
  - apply (IH sh). by apply died_ok.
Qed.

(** ** Start *)

(** A client process before its constructor has run. *)
Definition unstarted (w : W) (m : gmap string Srv) (text : string) : sys :=
  System false true false false 0 None ∅ ∅ ∅ 0 0 [] [] 0 0 0 false false
    (Counts 0 0 0 0 0 0) w m (Some text).

Lemma transparent_start s :
  conn_ok s → outbox s = [] → fd_map s = ∅ →
  (∀ a srv, servers s !! a = Some srv → fs_ok srv ∧ ∀ p c, pfs p = Some c → fs_file srv p c) →
  (∀ p c, pfs p = Some c → file_at (cli_os s) p = Some c) →
  (∀ path, sys_canonical path (cli_os s) = names path) →
  (∀ y, others y → slot_good (servers s) y) →
  transparent s ∅.
Proof.
  intros Hc Hbox Hm Hsrv Hfiles Hnames Ho. split; [done|]. exists ∅, []. split; [done|]. split.
  - split; [| | | | |done|done|done| |done].
    + by intros fd x.
    + by intros fd x.
    + by intros x ?%not_elem_of_nil.
    + by intros fd fd' x x'.
    + constructor.
    + by intros x y ?%not_elem_of_nil.
  - split; try done. by rewrite Hm.
Qed.

Lemma client_init_ok w m n :
  getenv env "HVAC_SERVER_COUNT" = Some n → u32 (atoi n) = cl_count cl →
  (∀ a srv, m !! a = Some srv → fs_ok srv ∧ ∀ p c, pfs p = Some c → fs_file srv p c) →
  (∀ p c, pfs p = Some c → file_at w p = Some c) →
  (∀ path, sys_canonical path w = names path) →
  (∀ y, others y → slot_good m y) →
  ∃ s, hvac_client_init env (unstarted w m (cl_text cl)) = Ok (tt, s) ∧
    hvac_data_dir s = getenv env "HVAC_DATA_DIR" ∧ transparent s ∅.
Proof.
  intros Hn Hcount Hsrv Hfiles Hnames Hoth. unfold hvac_client_init, unstarted. rewrite Hn.
  destruct (getenv env "HVAC_DATA_DIR") as [d|]; run_monad; (eexists; split; [reflexivity|]);
    (split; [done|]); (apply transparent_start; [by split|done..]).
Qed.

(** C39: the constructor turns a fresh process of a running job, with the job's
    server count in its environment and with servers that hold the data set and
    the descriptors of the clients already there, into a client for which every
    call is transparent. *)
Theorem client_init_transparent w m n :
  getenv env "HVAC_SERVER_COUNT" = Some n → u32 (atoi n) = cl_count cl →
  (∀ a srv, m !! a = Some srv → fs_ok srv ∧ ∀ p c, pfs p = Some c → fs_file srv p c) →
  (∀ p c, pfs p = Some c → file_at w p = Some c) →
  (∀ path, sys_canonical path w = names path) →
  (∀ y, others y → slot_good m y) →
  ∃ s, hvac_client_init env (unstarted w m (cl_text cl)) = Ok (tt, s) ∧
    hvac_data_dir s = getenv env "HVAC_DATA_DIR" ∧ transparent s ∅.
Proof. apply client_init_ok. Qed.

(** ** Counts beyond 32 bits *)

(** The count of a read crosses the network as a 32-bit integer, so a
    tracked read of a positive multiple of [2^32] bytes returns 0, which a
    caller takes for the end of the file, wherever in the file it stands. *)
Theorem huge_read_looks_like_eof s sh fd p off k :
  transparent s sh → sh !! fd = Some (p, off) → up s p → 0 < k < 2 ^ 31 →
  ∃ s', run_call (CRead fd (k * 2 ^ 32)) s = Ok (RData 0 [], s') ∧ transparent s' sh.
Proof.
  intros Hs Hsh Hup Hk. assert (Hz : i32 (k * 2 ^ 32) = 0) by word.
  destruct (run_read_ok s sh fd (k * 2 ^ 32) p off Hs Hsh Hup)
    as (r & d & s' & Hrun & (c & _ & Hr & _ & Hd & _) & Hs'); [word|by rewrite Hz|].
  rewrite Hz in Hr. assert (r = 0) as -> by lia. destruct d; [|unfold blen in Hd; simpl in Hd; lia].
  exists s'. split; [done|]. rewrite Z.add_0_r in Hs'. by rewrite insert_id in Hs'.
Qed.

(** ** Requests without an answer *)

(** What becomes of a caller whose request nobody answers: it waits for ever,
    unless the transport notices and the callback fails its assertion. *)
Definition unanswered : fault := match hg_lost hg with None => FBlocked | Some _ => FAssert end.

(** A request that nobody answers, when it has a callback that looks. *)
Lemma lost_eq s req :
  connected s → (match req with ReqOpen _ _ | ReqRead _ => True | _ => False end) →
  CommClient.lost (hg := hg) req s =
  match hg_lost hg with None => Ok (tt, s) | Some _ => Fault FAssert end.
Proof.
  intros Hrdy Hreq. unfold CommClient.lost. destruct (hg_lost hg) as [st|] eqn:Hst; [|done].
  destruct req; try done; (rewrite callback_eq by done);
    unfold hvac_read_cb, hvac_open_cb, mbind, M_bind, cassert;
    (destruct (Z.eqb_spec st HG_SUCCESS) as [->|]; [|done]);
    by destruct (lost_is_error _ (ok_lawful _ Hhg)).
Qed.

(** A read that finds its server dead, or stops it. *)
Lemma deliver_unanswered s a inp :
  connected s →
  servers s !! a = None ∨ (∃ srv f, servers s !! a = Some srv ∧ fs_read inp srv = Fault f) →
  deliver (hg := hg) (a, ReqRead inp) s =
  match hg_lost hg with
  | None => Ok (tt, set_servers (delete a (servers s)) s)
  | Some _ => Fault FAssert
  end.
Proof.
  intros Hrdy Hwhy.
  unfold deliver. erewrite bind_eq by done. destruct Hwhy as [Ha|(srv & f & Ha & Hf)]; rewrite Ha.
  - rewrite delete_id, set_servers_self by done. by apply lost_eq.
  - rewrite Hf. erewrite bind_eq by done. by apply lost_eq.
Qed.

(** The wait behind a read that the home does not answer: it died earlier, or
    it dies of this request. *)
Lemma unanswered_read_fails s sh fd p off n :
  transparent s sh → sh !! fd = Some (p, off) → 0 ≤ n < 2 ^ 63 →
  servers s !! home p = None ∨ i32 n < 0 →
  run_call (CRead fd n) s = Fault unanswered.
Proof.
  intros (Hc & live & dying & Hbox & Hs & Ht) Hsh Hn Hwhy.
  destruct (tables_ok_slot _ _ _ _ _ _ Ht Hsh) as (x & Hx & <- & <- & Hm & Hr).
  pose proof (tk_ready _ _ _ Ht _ _ Hx) as Hrdy.
  destruct (gen_read_eq s (sl_path x) fd (sl_rfd x) n (-1) Hc Hrdy Hr Hn) as (ac & k & Hac & Hgen).
  match type of Hgen with _ = Ok (_, ?t) => set (s1 := t) in Hgen end.
  destruct (block_eq s1 live dying (home (sl_path x), ReqRead (RpcIn (i32 n) n (sl_rfd x) (-1))))
    as (m' & dying' & Hs' & [Hdead _] & Hblock); [done|exact Hs|unfold s1; simpl; by rewrite Hbox|].
  unfold run_call, wrap_read, hvac_remote_read, hvac_read_block, mbind, M_bind.
  rewrite (tracked_eq _ _ _ Hm), (path_of_eq _ _ _ Hm), host_of_eq, Hgen by done.
  rewrite Hblock. unfold mbind, M_bind.
  rewrite deliver_unanswered; [|exact Hrdy|].
  - unfold unanswered. destruct (hg_lost hg); [done|].
    by rewrite (drain_blocks _ dying' _ live); [|done|apply slots_ok_died].
  - simpl. destruct (m' !! home (sl_path x)) as [srv|] eqn:Hsrv; [right|by left].
    destruct Hwhy as [Hnone|Hneg]; [apply Hdead in Hnone; congruence|].
    destruct (fs_negative_law srv (i32 n) n (sl_rfd x) (-1)) as [f Hf];
      [pose proof (i32_range n); word|]. by exists srv, f.
Qed.

(** C30: there is no time-out and no other server to turn to: when the home of
    an open file has died, every read of the file waits for ever (or the process
    aborts, when the transport reports the loss), although the file is open
    locally; closing it still works. *)
Theorem dead_home_blocks_reader s sh fd p off n :
  transparent s sh → sh !! fd = Some (p, off) → servers s !! home p = None → 0 ≤ n < 2 ^ 63 →
  run_call (CRead fd n) s = Fault unanswered ∧
  (∃ q pos c, fd_at (cli_os s) fd = Some (q, pos) ∧ file_at (cli_os s) q = Some c ∧ pfs p = Some c) ∧
  ∃ s', run_call (CClose fd) s = Ok (RStatus 0, s') ∧ transparent s' (delete fd sh).
Proof.
  intros Hs Hsh Hdead Hn. split_and!; [eapply unanswered_read_fails; eauto| |].
  - destruct Hs as (_ & live & dying & _ & Hs & Ht).
    destruct (tables_ok_slot _ _ _ _ _ _ Ht Hsh) as (x & Hx & <- & _).
    destruct (tk_local _ _ _ Ht _ _ Hx) as (q & pos & ? & ?). exists q, pos, (sl_bytes x).
    split_and!; [done..|]. by apply (so_home _ _ _ Hs _ _ Hx).
  - apply run_close_ok; [done|by eexists].
Qed.

(** ** What the local descriptor stands for *)

(** A tracked read never consults the process's own descriptor: whatever
    became of that one in the meantime (a seek, a [dup2] over it, a close that
    is not intercepted followed by the open of another file), the read returns
    the bytes of the tracked file where the last remote read ended. *)
Theorem tracked_read_ignores_local s sh fd p off w n :
  transparent s sh → sh !! fd = Some (p, off) → up s p → 0 ≤ n < 2 ^ 31 →
  ∃ c r d s', pfs p = Some c ∧ run_call (CRead fd n) (set_cli_os w s) = Ok (RData r d, s') ∧
    read_result c off n r d ∧ cli_os s' = w.
Proof.
  intros (Hc & live & dying & Hbox & Hs & Ht) Hsh Hup Hn.
  destruct (tables_ok_slot _ _ _ _ _ _ Ht Hsh) as (x & Hx & <- & <- & Hm & Hr).
  destruct (run_read_remote (set_cli_os w s) live dying fd x n) as
    (r & d & s' & dying' & Hrun & Hres & _ & _ & (_ & _ & Hos & _) & _); try done;
    [by destruct Hc; split|by apply (tk_ready _ _ _ Ht fd x)|word..|].
  rewrite i32_small in Hres by word. exists (sl_bytes x), r, d, s'. split_and!; try done; try apply Hres.
  by apply (so_home _ _ _ Hs _ _ Hx).
Qed.

(** ** Seeks *)

Lemma gen_seek_eq s p fd rfd off whence :
  conn_ok s → connected s → fd_redir_map s !! fd = Some rfd →
  ∃ ac k, cache_agrees ac ∧
    hvac_client_comm_gen_seek_rpc (hg := hg) (u32 (rank_of p)) fd off whence s =
    Ok (tt, set_outbox (outbox s ++ [(home p, ReqSeek (SeekIn rfd off whence))])
              (set_open_streams k (set_address_cache ac (set_done 0 (set_read_ret (-1) s))))).
Proof.
  intros Hc Hrdy Hr.
  destruct (lookup_addr_eq (set_done 0 (set_read_ret (-1) s)) p) as (ac & k & Hac & Hl);
    [destruct Hc; by split|].
  exists ac, k. split; [done|]. unfold hvac_client_comm_gen_seek_rpc.
  erewrite bind_eq by done. erewrite bind_eq by done. rewrite rank_of_small.
  erewrite bind_eq by exact Hl.
  erewrite bind_eq by (by apply create_handle_eq).
  erewrite bind_eq by (apply remote_of_eq; exact Hr).
  erewrite bind_eq by apply forward_eq.
  unfold hvac_comm_free_addr. rewrite cassert_true; [done|]. apply Z.eqb_eq, Hhg.
Qed.

Lemma deliver_seek_eq s a inp srv r srv' :
  connected s → servers s !! a = Some srv → fs_seek inp srv = Ok (SeekOut r, srv') →
  deliver (hg := hg) (a, ReqSeek inp) s =
  Ok (tt, set_read_ret r (set_done (u8 (done s + 1)) (set_servers (<[a := srv']> (servers s)) s))).
Proof.
  intros Hrdy Ha Hc. unfold deliver. erewrite bind_eq by done. rewrite Ha, Hc.
  erewrite bind_eq by done. by rewrite callback_eq.
Qed.

(** C32: the client library's own seek does move the remote descriptor: for a
    32-bit distance it returns the new offset as long as that is below [2^31],
    and later reads start there. *)
Theorem remote_lseek_moves s sh fd p pos c off whence b :
  transparent s sh → sh !! fd = Some (p, pos) → up s p → pfs p = Some c →
  seek_base c pos whence = Some b → is_i32 off → 0 ≤ b + off < 2 ^ 31 →
  ∃ s', hvac_remote_lseek (hg := hg) fd off whence s = Ok (b + off, s') ∧
    transparent s' (<[fd := (p, b + off)]> sh).
Proof.
  intros (Hc & live & dying & Hbox & Hs & Ht) Hsh [srv0 Hup] Hp Hb Hoff Hr.
  destruct (tables_ok_slot _ _ _ _ _ _ Ht Hsh) as (x & Hx & <- & <- & Hm & Hredir).
  destruct (so_home _ _ _ Hs _ _ Hx) as [Haddr Hpx]. rewrite Hp in Hpx. injection Hpx as ->.
  destruct (gen_seek_eq s (sl_path x) fd (sl_rfd x) off whence Hc (tk_ready _ _ _ Ht _ _ Hx) Hredir) as (ac & k & Hac & Hgen).
  match type of Hgen with _ = Ok (_, ?t) => set (s1 := t) in Hgen end.
  destruct (block_after_flush s1 live dying
    (home (sl_path x), ReqSeek (SeekIn (sl_rfd x) off whence))) as (m' & dying' & Hs' & [_ Hk] & Hblock);
    [done|exact Hs|unfold s1; simpl; by rewrite Hbox|].
  destruct (Hk _ _ Hup) as (srv & Hsrv & _). rewrite <- Haddr in Hsrv.
  pose proof (so_live _ _ _ Hs' _ _ Hx _ Hsrv) as Hh.
  destruct (so_servers _ _ _ Hs' _ _ Hsrv) as [Hok _].
  destruct (fs_seek_law _ _ _ _ _ off whence b Hok Hh Hb) as (srv' & Hseek & Hok' & Hh' & Hfr);
    [word|].
  pose proof (slots_ok_moved _ _ _ _ _ (b + off) _ _ Hs' Hx Hsrv Hok' Hfr Hh') as Hs2.
  rewrite Haddr in Hsrv. unfold hvac_remote_lseek, hvac_seek_block.
  eexists. split.
  - erewrite bind_eq by (by apply (tracked_eq _ _ (sl_path x))). cbv beta iota.
    erewrite bind_eq by (by apply path_of_eq). erewrite bind_eq by (by apply host_of_eq).
    rewrite (i32_small off) by done. erewrite bind_eq by exact Hgen.
    erewrite bind_eq; [|apply Hblock; [eapply deliver_seek_eq; [by apply (tk_ready _ _ _ Ht fd x)|done..]|done]].
    erewrite bind_eq by done. unfold mret, M_ret. simpl.
    replace (i64 (u64 (i32 (b + off)))) with (b + off) by word. reflexivity.
  - rewrite Haddr in Hs2. split; [destruct Hc; by split|]. eexists _, dying'.
    split; [done|]. split; [exact Hs2|].
    apply (tables_ok_same s); [done|]. by apply tables_ok_moved.
Qed.
End Transparency.

(** ** A job of two servers *)

#[local] Existing Instance demo_mercury.

#[export] Instance length_hash : StringHash.
Proof.
  refine {| string_hash := λ s, u64 (Z.of_nat (String.length s)) |}. intros s. word.
Defined.

Abbreviation demo_system := (system RefPosix.world (server RefPosix.world)).

Definition demo_env : environ :=
  {["SLURM_PROCID" := "0"; "HVAC_SERVER_COUNT" := "2"; "HVAC_DATA_DIR" := "/d"]}.
Definition demo_addr (r : Z) : string :=
  if r =? 0 then "ofi+tcp://10.0.0.1:4000" else "ofi+tcp://10.0.0.2:4000".
Definition demo_text : string := int_token_line 0 (demo_addr 0) +:+ int_token_line 1 (demo_addr 1).
Definition demo_cluster : cluster :=
  Cluster 2 demo_text demo_addr (λ p, sys_canonical p demo_world) (λ p, file_at demo_world p).

(** The three standard descriptors are open in every process. *)
Definition demo_os : RefPosix.world :=
  RefPosix.World (RefPosix.files demo_world) (RefPosix.dirs demo_world) "/d"
    {[0 := ("/dev/tty", 0); 1 := ("/dev/tty", 0); 2 := ("/dev/tty", 0)]} 0.

Definition demo_servers : gmap string (server RefPosix.world) :=
  {[demo_addr 0 := fresh_server demo_os; demo_addr 1 := fresh_server demo_os]}.

Definition demo_start : demo_system :=
  match hvac_client_init demo_env (unstarted demo_os demo_servers demo_text) with
  | Ok (_, s) => s
  | Fault _ => unstarted demo_os demo_servers demo_text
  end.

(** The state after a call. *)
Definition demo_call (c : call) (s : demo_system) : demo_system :=
  match run_call demo_env c s with Ok (_, s') => s' | Fault _ => s end.

(** The only client of its job. *)
Definition no_others (x : slot) : Prop := False.

Lemma demo_cluster_ok : cluster_ok demo_cluster.
Proof.
  split; simpl; [lia|]. intros r Hr. assert (r = 0 ∨ r = 1) as [-> | ->] by lia; by vm_compute.
Qed.

Lemma demo_server_holds a srv :
  demo_servers !! a = Some srv → fs_ok srv ∧ ∀ p c, cl_files demo_cluster p = Some c → fs_file srv p c.
Proof.
  intros Ha. assert (srv = fresh_server demo_os) as ->.
  { unfold demo_servers in Ha. apply lookup_insert_Some in Ha as [[_ <-]|[_ Ha]]; [done|].
    by apply lookup_singleton_Some in Ha as [_ <-]. }
  split; [|done]. by intros p q.
Qed.

Lemma demo_start_transparent : transparent demo_cluster no_others demo_start ∅.
Proof.
  apply transparent_start;
    [by split|done|done|apply demo_server_holds|done..].
Qed.

Lemma demo_open_legal : legal demo_cluster demo_start (COpen "/d/a" 0 0).
Proof.
  split_and!; [by vm_compute|by exists 3|].
  exists "/d/a", [Byte.x61; Byte.x62; Byte.x63], (fresh_server demo_os).
  split_and!; [by vm_compute|by vm_compute|by vm_compute|by exists 3].
Qed.

Lemma demo_background_ok srv srv' :
  fs_ok srv → mover_step demo_nvme srv srv' → fs_ok srv' ∧ fs_frame None srv srv'.
Proof. intros Hok Hstep. apply (mover_step_coherent demo_nvme); [exact demo_clean|done..]. Qed.

(** A server whose mover has reached its wait. *)
Definition demo_idle : server RefPosix.world := set_mover MoverWaiting (fresh_server demo_os).

Definition demo_opened : demo_system := demo_call (COpen "/d/a" 0 0) demo_start.
Definition demo_home : server RefPosix.world :=
  default demo_idle (servers demo_opened !! demo_addr 0).
Definition demo_waited : demo_system :=
  set_servers (<[demo_addr 0 := set_mover MoverWaiting demo_home]> (servers demo_opened)) demo_opened.
Definition demo_read1 : demo_system := demo_call (CRead 3 2) demo_waited.
Definition demo_read2 : demo_system := demo_call (CPread 3 2 1) demo_read1.
Definition demo_read3 : demo_system := demo_call (CRead 3 2) demo_read2.
Definition demo_closed : demo_system := demo_call (CClose 3) demo_read3.
Definition demo_history : list (call * result) :=
  [(COpen "/d/a" 0 0, RFd 3);
   (CRead 3 2, RData 2 [Byte.x61; Byte.x62]);
   (CPread 3 2 1, RData 2 [Byte.x62; Byte.x63]);
   (CRead 3 2, RData 1 [Byte.x63]);
   (CClose 3, RStatus 0)].

Lemma demo_tracked (s : demo_system) fd :
  bool_decide (is_Some (fd_map s !! fd)) = true → is_Some (fd_map s !! fd).
Proof. by rewrite bool_decide_eq_true. Qed.

Lemma demo_up (s : demo_system) p :
  bool_decide (is_Some (servers s !! home demo_cluster p)) = true → up demo_cluster s p.
Proof. by rewrite bool_decide_eq_true. Qed.

Lemma demo_read_legal (s : demo_system) n :
  fd_map s !! 3 = Some "/d/a" →
  bool_decide (is_Some (servers s !! home demo_cluster "/d/a")) = true → 0 ≤ n < 2 ^ 31 →
  legal demo_cluster s (CRead 3 n) ∧ ∀ off, 0 ≤ off → legal demo_cluster s (CPread 3 n off).
Proof. intros Hm Hup Hn. apply demo_up in Hup. split; [|intros off Hoff]; split; eauto. Qed.

Lemma demo_run :
  sys_run demo_env demo_cluster (mover_step demo_nvme) demo_start demo_history demo_closed.
Proof.
  unfold demo_history.
  apply sys_run_call with (s1 := demo_opened); [apply demo_open_legal|by vm_compute|].
  eapply (sys_run_background _ _ _ _ (demo_addr 0) demo_home); [by vm_compute|by apply mover_waits|].
  apply sys_run_call with (s1 := demo_read1);
    [by apply demo_read_legal; [vm_compute|vm_compute|lia]|by vm_compute|].
  apply sys_run_call with (s1 := demo_read2);
    [by apply demo_read_legal; [vm_compute|vm_compute|lia|lia]|by vm_compute|].
  apply sys_run_call with (s1 := demo_read3);
    [by apply demo_read_legal; [vm_compute|vm_compute|lia]|by vm_compute|].
  apply sys_run_call with (s1 := demo_closed); [apply demo_tracked; by vm_compute|by vm_compute|constructor].
Qed.

#[local] Instance demo_server_laws : FileServerLaws (server RefPosix.world) :=
  server_file_server_laws demo_mercury_ok.

Lemma hvac_transparent_witness :
  ∃ r s' sh', run_call demo_env (COpen "/d/a" 0 0) demo_start = Ok (r, s') ∧
    posix_step (cl_names demo_cluster) (cl_files demo_cluster) ∅ (COpen "/d/a" 0 0) r sh' ∧
    transparent demo_cluster no_others s' sh'.
Proof.
  refine (hvac_transparent demo_env demo_cluster no_others demo_mercury_ok demo_cluster_ok _
            demo_start ∅ _ demo_start_transparent demo_open_legal).
  by eexists.
Defined.

Lemma hvac_trace_transparent_witness :
  ∃ sh', posix_run (cl_names demo_cluster) (cl_files demo_cluster) ∅ demo_history sh' ∧
    transparent demo_cluster no_others demo_closed sh'.
Proof.
  refine (hvac_trace_transparent demo_env demo_cluster no_others demo_mercury_ok demo_cluster_ok
            (mover_step demo_nvme) demo_background_ok _ demo_start ∅ demo_history demo_closed
            demo_start_transparent demo_run).
  by eexists.
Defined.

Lemma client_init_transparent_witness :
  ∃ s, hvac_client_init demo_env (unstarted demo_os demo_servers demo_text) = Ok (tt, s) ∧
    hvac_data_dir s = Some "/d" ∧ transparent demo_cluster no_others s ∅.
Proof.
  refine (client_init_transparent demo_env demo_cluster no_others demo_os demo_servers "2" _ _
            demo_server_holds _ _ _); [done|by vm_compute|done|done|done].
Defined.

(** The demonstration file is open on descriptor 3. *)
Lemma demo_opened_transparent : transparent demo_cluster no_others demo_opened {[3 := ("/d/a", 0)]}.
Proof.
  destruct (run_call_ok demo_env demo_cluster no_others demo_mercury_ok demo_cluster_ok ltac:(by eexists)
              demo_start ∅ (COpen "/d/a" 0 0) demo_start_transparent demo_open_legal)
    as (r & s' & sh' & Hrun & Hstep & Hs').
  assert (Heq : run_call demo_env (COpen "/d/a" 0 0) demo_start = Ok (RFd 3, demo_opened))
    by by vm_compute.
  pose proof (eq_trans (eq_sym Heq) Hrun) as [= <- <-].
  inversion Hstep as [sh path flags mode p fd Hname _ _ _| | |]; subst.
  vm_compute in Hname. injection Hname as <-. exact Hs'.
Qed.

Lemma huge_read_looks_like_eof_witness :
  ∃ s', run_call demo_env (CRead 3 (2 ^ 32)) demo_opened = Ok (RData 0 [], s') ∧
    transparent demo_cluster no_others s' {[3 := ("/d/a", 0)]}.
Proof.
  refine (huge_read_looks_like_eof demo_env demo_cluster no_others demo_mercury_ok demo_cluster_ok
            demo_opened {[3 := ("/d/a", 0)]} 3 "/d/a" 0 1 demo_opened_transparent _ _ _);
    [done|by apply demo_up; vm_compute|lia].
Defined.

(** Descriptor 3 has come to stand for another file. *)
Lemma tracked_read_ignores_local_witness :
  ∃ c r d s', cl_files demo_cluster "/d/a" = Some c ∧
    run_call demo_env (CRead 3 2)
      (set_cli_os (RefPosix.put_fd 3 ("/dev/tty", 7) (cli_os demo_opened)) demo_opened)
    = Ok (RData r d, s') ∧ read_result c 0 2 r d ∧
    cli_os s' = RefPosix.put_fd 3 ("/dev/tty", 7) (cli_os demo_opened).
Proof.
  refine (tracked_read_ignores_local demo_env demo_cluster no_others demo_mercury_ok demo_cluster_ok
            demo_opened {[3 := ("/d/a", 0)]} 3 "/d/a" 0 _ 2 demo_opened_transparent _ _ _);
    [done|by apply demo_up; vm_compute|lia].
Defined.

(** The home of the open file dies. *)
Definition demo_orphan : demo_system :=
  set_servers (delete (demo_addr 0) (servers demo_opened)) demo_opened.

Lemma dead_home_blocks_reader_witness :
  run_call demo_env (CRead 3 2) demo_orphan = Fault FBlocked ∧
  (∃ q pos c, fd_at (cli_os demo_orphan) 3 = Some (q, pos) ∧
     file_at (cli_os demo_orphan) q = Some c ∧ cl_files demo_cluster "/d/a" = Some c) ∧
  ∃ s', run_call demo_env (CClose 3) demo_orphan = Ok (RStatus 0, s') ∧
    transparent demo_cluster no_others s' (delete 3 {[3 := ("/d/a", 0)]}).
Proof.
  refine (dead_home_blocks_reader demo_env demo_cluster no_others demo_mercury_ok demo_cluster_ok
            demo_orphan {[3 := ("/d/a", 0)]} 3 "/d/a" 0 2 _ _ _ _);
    [by apply died_ok, demo_opened_transparent|done|by vm_compute|lia].
Defined.

Lemma remote_lseek_moves_witness :
  ∃ s', hvac_remote_lseek 3 2 SEEK_SET demo_opened = Ok (2, s') ∧
    transparent demo_cluster no_others s' {[3 := ("/d/a", 2)]}.
Proof.
  refine (remote_lseek_moves demo_cluster no_others demo_mercury_ok demo_cluster_ok
            demo_opened {[3 := ("/d/a", 0)]} 3 "/d/a" 0 _ 2 SEEK_SET 0 demo_opened_transparent
            _ _ _ _ _ _); [done|by apply demo_up; vm_compute|done|done|word|lia].
Defined.
