(* ===== verification/Failures.v ===== *)
(** * When the network fails

    A client whose home server has not posted its address yet, and a client
    whose request gets an error instead of an answer.  Neither falls back to the
    descriptor the application has on the original file: both end the process. *)
From S2P Require Import Prelude CLib Posix Rpc Server DataMover ClientState CommClient Client Wrappers System.

(** ** A server that has not posted *)

Section Early.
Context {W Srv : Type} `{!Posix W, !FileServer Srv, !StringHash} {hg : mercury}.
Variable env : environ.
Implicit Types (s : system W Srv).

(** The client is started and redirects; the rank has never been looked up. *)
Record ready s (rank : Z) : Prop := {
  re_on : g_disable_redirect s = false;
  re_tl : tl_disable_redirect s = false;
  re_count : 0 < g_hvac_server_count s ≤ 2 ^ 31;
  re_cache : address_cache s !! rank = None;
  re_context : g_mercury_init s = true → hg_context s = true
}.

(** A network on which a client comes up. *)
Record comes_up : Prop := {
  up_init : hg_init hg = true;
  up_context : hg_context_create hg true = true;
  up_create : hg_create hg true = HG_SUCCESS;
  up_register : hg_disable_response hg true = HG_SUCCESS
}.

(** What the lookup of an address that is not there ends in: an assertion when
    the file has no line for the rank, undefined behaviour (a null stream) when
    there is no file. *)
Definition unposted s (rank : Z) (f : fault) : Prop :=
  match ports_file s with
  | Some text => find_server rank text = Ok None ∧ f = FAssert
  | None => f = FUndefined
  end.

Lemma gen_open_unposted s p fd rank f :
  mercury_lawful hg → comes_up → hg_context s = true → 0 ≤ rank < 2 ^ 31 →
  address_cache s !! rank = None → unposted s rank f →
  hvac_client_comm_gen_open_rpc (hg := hg) (u32 rank) p fd s = Fault f.
Proof.
  intros Hlaw Hup Hctx Hr Hcache Hun. unfold hvac_client_comm_gen_open_rpc, hvac_client_comm_lookup_addr.
  replace (i32 (u32 rank)) with rank by word. unfold unposted in Hun. destruct s; run_monad. simpl in *.
  rewrite Hcache. destruct ports_file as [text|]; simpl; [|by subst].
  destruct Hun as [-> ->]. unfold hvac_comm_create_handle, forward, cassert. run_monad. subst.
  rewrite (up_create Hup). simpl.
  destruct (Z.eqb_spec (hg_forward hg false) 0) as [Hf|]; [|done].
  by destruct (forward_needs_addr _ Hlaw).
Qed.

(** The set-up before the first request. *)
Lemma ensure_comm_up s :
  comes_up → is_Some (getenv env "SLURM_PROCID") → (g_mercury_init s = true → hg_context s = true) →
  ∃ s1, ensure_comm (hg := hg) env s = Ok (tt, s1) ∧ hg_context s1 = true ∧ fd_map s1 = fd_map s ∧
    g_hvac_server_count s1 = g_hvac_server_count s ∧ address_cache s1 = address_cache s ∧
    ports_file s1 = ports_file s.
Proof.
  intros Hup [v Hv] Hctx. destruct (g_mercury_init s) eqn:Hmi.
  - exists s. split_and!; try done; [|by apply Hctx].
    unfold ensure_comm. erewrite bind_eq by done. by rewrite Hmi.
  - set (k := if sys_thread (cli_os s) then progress_threads s + 1 else progress_threads s).
    exists (set_g_mercury_init true (set_progress_threads k (set_hg_context true (set_hg_class true
              (set_server_rank (atoi v) s))))).
    split; [|done]. unfold ensure_comm. erewrite bind_eq by done. rewrite Hmi.
    unfold hvac_init_comm. rewrite Hv. unfold hvac_client_comm_register_rpc, k.
    destruct s; run_monad. rewrite (up_init Hup); simpl. rewrite (up_context Hup); simpl.
    destruct (sys_thread cli_os); simpl; by rewrite (up_register Hup).
Qed.

(** An open that is tracked and whose remote half faults. *)
Lemma tracked_open_fault s s1 path flags mode fd w p f :
  redirectable path flags →
  g_disable_redirect s = false → tl_disable_redirect s = false →
  0 < g_hvac_server_count s ≤ 2 ^ 31 →
  sys_open path flags (if negb (Z.land flags O_CREAT =? 0) then mode else 0) (cli_os s) = (fd, w) →
  0 ≤ fd → track_decision (hvac_data_dir s) w path = Some p →
  ensure_comm (hg := hg) env (set_fd_map (<[fd := p]> (fd_map s)) (set_cli_os w s)) = Ok (tt, s1) →
  fd_map s1 = <[fd := p]> (fd_map s) → g_hvac_server_count s1 = g_hvac_server_count s →
  (hvac_client_comm_gen_open_rpc (hg := hg) (u32 (string_hash p mod g_hvac_server_count s)) p fd;;
   hvac_client_block (hg := hg)) s1 = Fault f →
  run_call (hg := hg) env (COpen path flags mode) s = Fault f.
Proof.
  intros (Hro & Happ & Hports) Hon Htl Hcount Hopen Hfd Htrack Hinit Hm1 Hcount1 Hrun.
  unfold run_call, wrap_open. rewrite bind_assoc.
  erewrite bind_eq by (unfold redirect_disabled, gets; by rewrite Hon, Htl).
  cbn [orb]. cbv beta iota. rewrite bind_assoc. erewrite bind_eq by (unfold client_os; by rewrite Hopen).
  destruct (Z.eqb_spec fd (-1)) as [|_]; [lia|]. cbn [negb]. cbv beta iota.
  assert (Htrk : hvac_track_file (hg := hg) env path flags fd (set_cli_os w s) = Fault f).
  { unfold hvac_track_file. rewrite Hports, Happ.
    apply andb_prop in Hro as [[Hacc _]%andb_prop _]. apply Z.eqb_eq in Hacc. rewrite Hacc.
    change (O_RDONLY =? O_WRONLY) with false. cbn [negb Z.eqb]. cbv beta iota.
    erewrite bind_eq by done. simpl. rewrite Htrack. erewrite bind_eq by done.
    erewrite bind_eq by done. erewrite bind_eq by exact Hinit.
    assert (Hm : fd_map s1 !! fd = Some p) by (rewrite Hm1; by rewrite lookup_insert_eq).
    erewrite bind_eq by by apply path_of_eq.
    assert (Hhost : host_of p s1 = Ok (string_hash p mod g_hvac_server_count s, s1)).
    { unfold host_of. run_monad. rewrite Hcount1.
      destruct (Z.eqb_spec (g_hvac_server_count s) 0); [lia|]. simpl.
      pose proof (Z.mod_pos_bound (string_hash p) (g_hvac_server_count s)).
      by rewrite i32_small by word. }
    erewrite bind_eq by exact Hhost. erewrite bind_eq by by apply path_of_eq.
    unfold mbind, M_bind in *. destruct (hvac_client_comm_gen_open_rpc _ _ _ s1) as [[[] s2]|]; [by rewrite Hrun|by simplify_eq]. }
  unfold mbind, M_bind. by rewrite Htrk.
Qed.

(** C28: on a network that comes up, an application that opens a file of the data
    set before the file's home server has posted its address does not get the descriptor of the local open
    that has just succeeded: the process ends, by the assertion on [HG_Forward]
    or, when no server has posted yet, by reading from a null stream. *)
Theorem early_open_crashes s path flags mode fd w p rank f :
  mercury_lawful hg → comes_up → is_Some (getenv env "SLURM_PROCID") →
  rank = string_hash p mod g_hvac_server_count s → ready s rank → unposted s rank f →
  redirectable path flags →
  sys_open path flags (if negb (Z.land flags O_CREAT =? 0) then mode else 0) (cli_os s) = (fd, w) →
  0 ≤ fd → track_decision (hvac_data_dir s) w path = Some p →
  run_call (hg := hg) env (COpen path flags mode) s = Fault f.
Proof.
  intros Hlaw Hup Henv Hrank [Hon Htl Hcount Hcache Hctx] Hun Hred Hopen Hfd Htrack.
  destruct (ensure_comm_up (set_fd_map (<[fd := p]> (fd_map s)) (set_cli_os w s)) Hup Henv Hctx)
    as (s1 & Hinit & Hctx1 & Hm1 & Hcount1 & Hcache1 & Hports1). simpl in *.
  eapply tracked_open_fault; try done. rewrite <- Hrank.
  unfold mbind, M_bind.
  assert (Hrange : 0 ≤ rank < 2 ^ 31).
  { subst rank. pose proof (Z.mod_pos_bound (string_hash p) (g_hvac_server_count s)). lia. }
  rewrite (gen_open_unposted s1 p fd rank f); try done; [congruence|].
  unfold unposted. by rewrite Hports1.
Qed.
End Early.

(** ** An answer that is an error *)

(** The same network, except for what the callbacks are told. *)
Definition with_status (st : Z) (hg : mercury) : mercury :=
  Mercury (hg_init hg) (hg_context_create hg) (hg_get_input hg) (hg_get_info hg) (hg_bulk_create hg)
    (hg_bulk_transfer hg) (hg_bulk_status hg) (hg_respond hg) (hg_addr_lookup hg) (hg_create hg)
    (hg_forward hg) st (hg_lost hg) (hg_bulk_free hg) (hg_free_output hg) (hg_destroy hg)
    (hg_addr_free hg) (hg_disable_response hg) (hg_next hg).

Section Lost.
Context {W Srv : Type} `{!Posix W, !PosixLaws W, !PosixReliable W}.
Context `{!FileServer Srv, !FileServerLaws Srv, !StringHash} {hg : mercury}.
Variable env : environ.
Variable cl : cluster.
Variable others : slot → Prop.
Hypothesis Hhg : mercury_ok hg.
Hypothesis Hcl : cluster_ok cl.
Variable st : Z.
Hypothesis Hst : st ≠ HG_SUCCESS.
Abbreviation bad := (with_status st hg).
Implicit Types (s : system W Srv).

Lemma deliver_read_error s a inp srv o d srv' :
  connected s → servers s !! a = Some srv → fs_read inp srv = Ok (o, d, srv') →
  deliver (hg := bad) (a, ReqRead inp) s = Fault FAssert.
Proof.
  intros Hrdy Ha Hr. unfold deliver. erewrite bind_eq by done. rewrite Ha, Hr.
  erewrite bind_eq by done. erewrite bind_eq by done. rewrite callback_eq by done.
  unfold hvac_read_cb, cassert. run_monad. by destruct (Z.eqb_spec st HG_SUCCESS).
Qed.

Lemma deliver_open_error s a inp fd srv o srv' :
  connected s → servers s !! a = Some srv → fs_open inp srv = Ok (o, srv') →
  deliver (hg := bad) (a, ReqOpen inp fd) s = Fault FAssert.
Proof.
  intros Hrdy Ha Hr. unfold deliver. erewrite bind_eq by done. rewrite Ha, Hr.
  erewrite bind_eq by done. rewrite callback_eq by done.
  unfold hvac_open_cb, cassert. run_monad. by destruct (Z.eqb_spec st HG_SUCCESS).
Qed.

(** A wait behind pending closes for a request whose delivery faults. *)
Lemma block_fault s live dying msg f :
  done s ≠ HG_TRUE → slots_ok cl others (servers s) live dying →
  outbox s = (close_req <$> dying) ++ [msg] →
  (∀ m' dying', slots_ok cl others m' live dying' → keeps_room (servers s) m' →
     deliver (hg := bad) msg (set_servers m' (set_outbox [] s)) = Fault f) →
  hvac_client_block (hg := bad) s = Fault f.
Proof.
  intros Hd Hs Hbox Hdel.
  destruct (block_eq (hg := bad) cl others s live dying msg Hd Hs Hbox) as (m' & dying' & Hs' & Hk & ->).
  unfold mbind, M_bind. by erewrite Hdel.
Qed.

(** C29: an error reported to the callback of a read ends the application, by an
    assertion, although the bytes are in the file it has open locally; closing
    a file needs no answer and works on such a network. *)
Theorem failed_answer_aborts s sh fd p off n :
  transparent cl others s sh → sh !! fd = Some (p, off) → up cl s p → 0 ≤ n < 2 ^ 31 →
  run_call (hg := bad) env (CRead fd n) s = Fault FAssert ∧
  (∃ q pos c, fd_at (cli_os s) fd = Some (q, pos) ∧ file_at (cli_os s) q = Some c ∧
     cl_files cl p = Some c) ∧
  ∃ s', run_call (hg := bad) env (CClose fd) s = Ok (RStatus 0, s') ∧
    transparent cl others s' (delete fd sh).
Proof.
  intros Htr Hsh [srv0 Hup] Hn. pose proof Htr as (Hc & live & dying & Hbox & Hs & Ht).
  destruct (tables_ok_slot cl _ _ _ _ _ _ Ht Hsh) as (x & Hx & <- & <- & Hm & Hr).
  destruct (so_home _ _ _ _ _ Hs _ _ Hx) as [Haddr Hpx]. split_and!.
  - destruct (gen_read_eq cl Hhg Hcl s (sl_path x) fd (sl_rfd x) n (-1) Hc
                (tk_ready _ _ _ _ Ht _ _ Hx) Hr) as (ac & k & _ & Hgen);
      [word|].
    match type of Hgen with _ = Ok (_, ?t) => set (s1 := t) in Hgen end.
    assert (Hblock : hvac_client_block (hg := bad) s1 = Fault FAssert).
    { eapply (block_fault s1 live dying); [done|exact Hs|unfold s1; simpl; by rewrite Hbox|].
      intros m' dying' Hs' [_ Hk]. destruct (Hk _ _ Hup) as (srv & Hsrv & _). rewrite <- Haddr in Hsrv.
      pose proof (so_live _ _ _ _ _ Hs' _ _ Hx _ Hsrv) as Hh.
      destruct (so_servers _ _ _ _ _ Hs' _ _ Hsrv) as [Hok _].
      destruct (fs_read_law _ _ _ _ _ (i32 n) n Hok Hh) as (r & d & srv' & Hread & _); [word..|].
      rewrite Haddr in Hsrv. eapply deliver_read_error; [by apply (tk_ready _ _ _ _ Ht fd x)|done..]. }
    unfold run_call, wrap_read, hvac_remote_read, hvac_read_block, mbind, M_bind.
    rewrite (tracked_eq _ _ _ Hm), (path_of_eq _ _ _ Hm), (host_of_eq cl Hcl) by done.
    change (hvac_client_comm_gen_read_rpc (hg := bad)) with
      (hvac_client_comm_gen_read_rpc (W := W) (Srv := Srv) (hg := hg)).
    by rewrite Hgen, Hblock.
  - destruct (tk_local _ _ _ _ Ht _ _ Hx) as (q & pos & ? & ?). by exists q, pos, (sl_bytes x).
  - change (run_call (hg := bad) env (CClose fd)) with (run_call (hg := hg) env (CClose fd) : M (system W Srv) result).
    apply (run_close_ok env cl others Hhg Hcl); [done|by eexists].
Qed.

(** The same for an open: the local open succeeds, the file is there, and
    the error reported to the callback ends the process. *)
Theorem failed_open_answer_aborts s sh path flags mode p c :
  is_Some (getenv env "SLURM_PROCID") → transparent cl others s sh → redirectable path flags →
  fd_room (cli_os s) → track_decision (hvac_data_dir s) (cli_os s) path = Some p →
  cl_files cl p = Some c → (∃ srv, servers s !! home cl p = Some srv ∧ fs_room srv) →
  run_call (hg := bad) env (COpen path flags mode) s = Fault FAssert.
Proof.
  intros Henv (Hc & live & dying & Hbox & Hs & Ht) Hred Hroom Htrack Hp (srv0 & Hup & Hfree).
  destruct (local_open_ok cl s sh live path flags (if negb (Z.land flags O_CREAT =? 0) then mode else 0)
              p c Ht Hred Hroom Htrack Hp) as (fd & w & Hopen & Hfd & _ & _ & _ & _ & _ & _ & _ & Htrk).
  pose proof (cl_count_ok _ Hcl) as Hcount. rewrite <- (co_count _ _ Hc) in Hcount.
  destruct (ensure_comm_eq env cl Hhg (set_fd_map (<[fd := p]> (fd_map s)) (set_cli_os w s)))
    as (s1 & Hstart & Hc1 & Hrdy1 & Hinit); [destruct Hc; by split|done|].
  destruct (comm_started_same _ _ Hstart) as (Hbox1 & Hm1 & _ & _ & Hsrv1). simpl in *.
  eapply (tracked_open_fault (hg := bad)); try done; [apply Hc..|lia| |].
  { by rewrite (co_count _ _ Hc1), (co_count _ _ Hc). }
  rewrite (co_count _ _ Hc).
  destruct (gen_open_eq cl Hhg Hcl s1 p fd Hc1 Hrdy1) as (ac & k & _ & Hgen).
  match type of Hgen with _ = Ok (_, ?t) => set (s2 := t) in Hgen end.
  change (hvac_client_comm_gen_open_rpc (hg := bad)) with
    (hvac_client_comm_gen_open_rpc (W := W) (Srv := Srv) (hg := hg)).
  erewrite bind_eq by exact Hgen.
  eapply (block_fault s2 live dying); [done|subst s2; simpl; by rewrite Hsrv1
    |subst s2; simpl; by rewrite Hbox1, Hbox|].
  intros m' dying' Hs' [_ Hk].
  destruct (Hk (home cl p) srv0) as (srv & Hsrv & Hr); [subst s2; simpl; by rewrite Hsrv1|].
  destruct (so_servers _ _ _ _ _ Hs' _ _ Hsrv) as [Hok Hfiles].
  destruct (fs_open_law _ _ _ Hok (Hfiles _ _ Hp) (Hr Hfree)) as (r & srv' & Hop & _).
  by eapply deliver_open_error.
Qed.
End Lost.

(** ** Witnesses *)

#[local] Existing Instance demo_mercury.
#[local] Instance demo_server_laws : FileServerLaws (server RefPosix.world) :=
  server_file_server_laws demo_mercury_ok.

(** The client is up while the only server that has posted is the other one. *)
Definition early_start : demo_system :=
  set_ports_file (Some (int_token_line 1 (demo_addr 1))) demo_start.

Lemma early_open_crashes_witness :
  run_call demo_env (COpen "/d/a" 0 0) early_start = Fault FAssert.
Proof.
  refine (early_open_crashes demo_env early_start "/d/a" 0 0 3 (sys_open "/d/a" 0 0 demo_os).2 "/d/a" 0
            FAssert (ok_lawful _ demo_mercury_ok) _ _ _ _ _ _ _ _ _);
    [by split|by eexists|by vm_compute|by split; vm_compute|by split; vm_compute|by vm_compute|by vm_compute|lia|
     by vm_compute].
Defined.

Lemma failed_answer_aborts_witness :
  run_call (hg := with_status 1 demo_mercury) demo_env (CRead 3 2) demo_opened = Fault FAssert ∧
  (∃ q pos c, fd_at (cli_os demo_opened) 3 = Some (q, pos) ∧ file_at (cli_os demo_opened) q = Some c ∧
     cl_files demo_cluster "/d/a" = Some c) ∧
  ∃ s', run_call (hg := with_status 1 demo_mercury) demo_env (CClose 3) demo_opened = Ok (RStatus 0, s') ∧
    transparent demo_cluster no_others s' (delete 3 {[3 := ("/d/a", 0)]}).
Proof.
  refine (failed_answer_aborts demo_env demo_cluster no_others demo_mercury_ok demo_cluster_ok 1 _
    demo_opened {[3 := ("/d/a", 0)]} 3 "/d/a" 0 2 demo_opened_transparent _ _ _);
    [done|done|by apply demo_up; vm_compute|lia].
Defined.

Lemma failed_open_answer_aborts_witness :
  run_call (hg := with_status 1 demo_mercury) demo_env (COpen "/d/a" 0 0) demo_start = Fault FAssert.
Proof.
  refine (failed_open_answer_aborts demo_env demo_cluster no_others demo_mercury_ok demo_cluster_ok 1 _
    demo_start ∅ "/d/a" 0 0 "/d/a" [Byte.x61; Byte.x62; Byte.x63] _ demo_start_transparent _ _ _ _ _);
    [done|by eexists|by vm_compute|by exists 3|by vm_compute|by vm_compute|].
  exists (fresh_server demo_os). split; [by vm_compute|by exists 3].
Defined.
