(* ===== verification/MultiClient.v ===== *)
(** * Several clients of one job

    The processes of a job share its servers: the clients' calls, the
    completion of their pending requests, the servers' own steps and the start
    of further clients are interleaved in any order.  Each client has its own
    globals (the record [system], whose [servers] component is replaced by the
    shared one whenever the client runs).

    The single-client simulation of [System] is stated for any set of
    descriptors that others hold on the servers, so a client's step keeps what
    the others rely on; this file puts the clients' simulations together. *)
From stdpp Require Import functions.
From S2P Require Import Prelude CLib Posix Rpc Server DataMover ClientState CommClient Client Wrappers System.

Section Job.
Context {W Srv : Type} `{!Posix W, !PosixLaws W, !PosixReliable W}.
Context `{!FileServer Srv, !FileServerLaws Srv, !StringHash} {hg : mercury}.
(** The environment of each process. *)
Variable env : nat → environ.
Variable cl : cluster.
Abbreviation sys := (system W Srv).
Abbreviation names := (cl_names cl).
Abbreviation pfs := (cl_files cl).
(** Steps a server takes of its own accord. *)
Variable background : Srv → Srv → Prop.

Record job := Job {
  clients : gmap nat sys;
  job_servers : gmap string Srv
}.

(** The system as a client of the job sees it. *)
Definition view (j : job) (s : sys) : sys := set_servers (job_servers j) s.

(** The job after client [i] has taken a step to [s]. *)
Definition after (j : job) (i : nat) (s : sys) : job := Job (<[i := s]> (clients j)) (servers s).

Definition files_at (w : W) : Prop :=
  (∀ p c, pfs p = Some c → file_at w p = Some c) ∧ (∀ path, sys_canonical path w = names path).

(** Events are calls with their results, tagged with the client. *)
Inductive job_run : job → list (nat * (call * result)) → job → Prop :=
  | job_run_nil j : job_run j [] j
  | job_run_call j i s c r s' t j' :
      clients j !! i = Some s → legal cl (view j s) c →
      run_call (hg := hg) (env i) c (view j s) = Ok (r, s') →
      job_run (after j i s') t j' → job_run j ((i, (c, r)) :: t) j'
  | job_run_progress j i s s' t j' :
      clients j !! i = Some s → progress_step (hg := hg) (view j s) s' →
      job_run (after j i s') t j' → job_run j t j'
  | job_run_background j a srv srv' t j' :
      job_servers j !! a = Some srv → background srv srv' →
      job_run (Job (clients j) (<[a := srv']> (job_servers j))) t j' → job_run j t j'
  | job_run_died j a t j' :
      job_run (Job (clients j) (delete a (job_servers j))) t j' → job_run j t j'
  | job_run_start j i w n s t j' :
      clients j !! i = None → files_at w →
      getenv (env i) "HVAC_SERVER_COUNT" = Some n → u32 (atoi n) = cl_count cl →
      hvac_client_init (env i) (unstarted w (job_servers j) (cl_text cl)) = Ok (tt, s) →
      job_run (after j i s) t j' → job_run j t j'.

(** What client [i] did and saw. *)
Definition history (i : nat) (t : list (nat * (call * result))) : list (call * result) :=
  (filter (λ e, e.1 = i) t).*2.

(** ** The invariant *)

Definition owns (live : gmap Z slot) (dying : list slot) (x : slot) : Prop :=
  (∃ fd, live !! fd = Some x) ∨ x ∈ dying.

(** What the clients other than [i] own. *)
Definition foreign (L : nat → gmap Z slot) (D : nat → list slot) (i : nat) (x : slot) : Prop :=
  ∃ k, k ≠ i ∧ owns (L k) (D k) x.

Definition servers_ok (m : gmap string Srv) : Prop :=
  ∀ a srv, m !! a = Some srv → fs_ok srv ∧ ∀ p c, pfs p = Some c → fs_file srv p c.

(** [sh i] are the open files of client [i] as its application knows them. *)
Record job_inv (j : job) (sh : nat → shadow) (L : nat → gmap Z slot) (D : nat → list slot) : Prop := {
  ji_conn : ∀ i s, clients j !! i = Some s → conn_ok cl s;
  ji_outbox : ∀ i s, clients j !! i = Some s → outbox s = close_req <$> D i;
  ji_tables : ∀ i s, clients j !! i = Some s → tables_ok cl s (sh i) (L i);
  ji_slots : ∀ i, slots_ok cl (foreign L D i) (job_servers j) (L i) (D i);
  ji_absent : ∀ i, clients j !! i = None → L i = ∅ ∧ D i = [] ∧ sh i = ∅
}.

Definition job_ok (j : job) (sh : nat → shadow) : Prop := ∃ L D, job_inv j sh L D.

Implicit Types (L : nat → gmap Z slot) (D : nat → list slot) (sh : nat → shadow).

Lemma slots_ok_weaken (P Q : slot → Prop) (m : gmap string Srv) live dying :
  (∀ y, Q y → P y) → slots_ok cl P m live dying → slots_ok cl Q m live dying.
Proof.
  intros HPQ [Hh Hl Hd Hi Hn Hap Ho Hol Hod Hsrv]. split; try done; intros; eauto.
Qed.

(** What client [i] knows of the servers after its step is enough for every
    other client. *)
Lemma slots_ok_other L D i k (m m' : gmap string Srv) live dying :
  k ≠ i → slots_ok cl (foreign L D k) m (L k) (D k) →
  slots_ok cl (foreign L D i) m' live dying →
  slots_ok cl (foreign (<[i := live]> L) (<[i := dying]> D) k) m' (L k) (D k).
Proof.
  intros Hki Hk Hi.
  assert (Hmine : ∀ x, owns (L k) (D k) x → foreign L D i x) by (intros x; by exists k).
  assert (Hsplit : ∀ y, foreign (<[i := live]> L) (<[i := dying]> D) k y →
    owns live dying y ∨ (foreign L D i y ∧ foreign L D k y)).
  { intros y (l & Hl & Hy). destruct (decide (l = i)) as [->|Hli].
    - rewrite !fn_lookup_insert in Hy. by left.
    - rewrite !fn_lookup_insert_ne in Hy by done. right. split; by exists l. }
  split; try apply Hk.
  - intros fd x Hx. apply (so_others _ _ _ _ _ Hi), Hmine. left. by exists fd.
  - intros x Hx. apply (so_others _ _ _ _ _ Hi), Hmine. by right.
  - intros y [[[fd Hy]|Hy]|[Hy _]]%Hsplit.
    + by apply (so_live _ _ _ _ _ Hi fd).
    + by apply (so_dying _ _ _ _ _ Hi).
    + by apply (so_others _ _ _ _ _ Hi).
  - intros fd x y Hx [[[fd' Hy]|Hy]|[_ Hy]]%Hsplit.
    + apply not_eq_sym. apply (so_others_live _ _ _ _ _ Hi fd'); [done|]. apply Hmine. left. by exists fd.
    + apply not_eq_sym. apply (so_others_dying _ _ _ _ _ Hi); [done|]. apply Hmine. left. by exists fd.
    + by apply (so_others_live _ _ _ _ _ Hk fd).
  - intros x y Hx [[[fd' Hy]|Hy]|[_ Hy]]%Hsplit.
    + apply not_eq_sym. apply (so_others_live _ _ _ _ _ Hi fd'); [done|]. apply Hmine. by right.
    + apply not_eq_sym. apply (so_others_dying _ _ _ _ _ Hi); [done|]. apply Hmine. by right.
    + by apply (so_others_dying _ _ _ _ _ Hk).
  - apply Hi.
Qed.

Lemma foreign_self L D i live dying y :
  foreign (<[i := live]> L) (<[i := dying]> D) i y → foreign L D i y.
Proof.
  intros (k & Hk & Hy). rewrite !fn_lookup_insert_ne in Hy by done. by exists k.
Qed.

Lemma view_conn j s : conn_ok cl s → conn_ok cl (view j s).
Proof. intros []. by split. Qed.

Lemma view_transparent j sh L D i s :
  job_inv j sh L D → clients j !! i = Some s →
  transparent cl (foreign L D i) (view j s) (sh i).
Proof.
  intros Hj Hi. split; [by apply view_conn, (ji_conn _ _ _ _ Hj i)|]. exists (L i), (D i).
  split; [exact (ji_outbox _ _ _ _ Hj _ _ Hi)|]. split; [by apply Hj|].
  apply (tables_ok_same cl s); [done|]. by apply (ji_tables _ _ _ _ Hj).
Qed.

(** A step of one client keeps the job. *)
Lemma job_ok_after j sh L D i s' shi :
  job_inv j sh L D → transparent cl (foreign L D i) s' shi →
  job_ok (after j i s') (<[i := shi]> sh).
Proof.
  intros Hj (Hc & live & dying & Hbox & Hs & Ht).
  exists (<[i := live]> L), (<[i := dying]> D). split; simpl.
  - intros k s [[-> <-]|[Hne Hk]]%lookup_insert_Some; [done|by apply (ji_conn _ _ _ _ Hj k)].
  - intros k s [[-> <-]|[Hne Hk]]%lookup_insert_Some.
    + by rewrite fn_lookup_insert.
    + rewrite fn_lookup_insert_ne by done. by apply (ji_outbox _ _ _ _ Hj).
  - intros k s [[-> <-]|[Hne Hk]]%lookup_insert_Some.
    + by rewrite !fn_lookup_insert.
    + rewrite !fn_lookup_insert_ne by done. by apply (ji_tables _ _ _ _ Hj).
  - intros k. destruct (decide (i = k)) as [<-|Hne].
    + rewrite !fn_lookup_insert. eapply slots_ok_weaken, Hs. apply foreign_self.
    + rewrite (fn_lookup_insert_ne L), (fn_lookup_insert_ne D) by done.
      eapply slots_ok_other; [done|by apply Hj|done].
  - intros k [Hk Hne]%lookup_insert_None. rewrite !fn_lookup_insert_ne by done. by apply Hj.
Qed.

Lemma job_servers_ok j sh L D : job_inv j sh L D → servers_ok (job_servers j).
Proof. intros Hj. unfold servers_ok. apply (ji_slots _ _ _ _ Hj 0%nat). Qed.

Hypothesis Hhg : mercury_ok hg.
Hypothesis Hcl : cluster_ok cl.
Hypothesis background_ok :
  ∀ srv srv', fs_ok srv → background srv srv' → fs_ok srv' ∧ fs_frame None srv srv'.
Hypothesis Hrank : ∀ i, is_Some (getenv (env i) "SLURM_PROCID").

Lemma job_background_ok j sh L D a srv srv' :
  job_inv j sh L D → job_servers j !! a = Some srv → background srv srv' →
  job_inv (Job (clients j) (<[a := srv']> (job_servers j))) sh L D.
Proof.
  intros Hj Ha Hb. destruct (job_servers_ok _ _ _ _ Hj _ _ Ha) as [Hok _].
  destruct (background_ok _ _ Hok Hb) as [Hok' Hfr].
  split; try apply Hj. intros i. eapply slots_ok_background; [by apply Hj|done..].
Qed.

Lemma job_died_ok j sh L D a :
  job_inv j sh L D → job_inv (Job (clients j) (delete a (job_servers j))) sh L D.
Proof. intros Hj. split; try apply Hj. intros i. apply slots_ok_died. by apply Hj. Qed.

Lemma job_call_ok j sh i s c :
  job_ok j sh → clients j !! i = Some s → legal cl (view j s) c →
  ∃ r s' shi, run_call (hg := hg) (env i) c (view j s) = Ok (r, s') ∧
    posix_step names pfs (sh i) c r shi ∧ job_ok (after j i s') (<[i := shi]> sh).
Proof.
  intros (L & D & Hj) Hi Hl.
  destruct (run_call_ok (env i) cl (foreign L D i) Hhg Hcl (Hrank i) (view j s) (sh i) c)
    as (r & s' & shi & Hrun & Hstep & Hs'); [by apply view_transparent|done|].
  exists r, s', shi. split; [done|]. split; [done|]. by eapply job_ok_after.
Qed.

Lemma job_progress_ok j sh i s s' :
  job_ok j sh → clients j !! i = Some s → progress_step (hg := hg) (view j s) s' →
  job_ok (after j i s') (<[i := sh i]> sh).
Proof.
  intros (L & D & Hj) Hi Hp. eapply job_ok_after; [done|].
  eapply progress_step_ok; [by eapply view_transparent|done].
Qed.

Lemma foreign_good L D m i y :
  (∀ k, slots_ok cl (foreign L D k) m (L k) (D k)) → foreign L D i y → slot_good m y.
Proof.
  intros Hs (k & _ & [[fd Hy]|Hy]).
  - by apply (so_live _ _ _ _ _ (Hs k) fd).
  - by apply (so_dying _ _ _ _ _ (Hs k)).
Qed.

Lemma job_start_ok j sh i w n s :
  job_ok j sh → clients j !! i = None → files_at w →
  getenv (env i) "HVAC_SERVER_COUNT" = Some n → u32 (atoi n) = cl_count cl →
  hvac_client_init (env i) (unstarted w (job_servers j) (cl_text cl)) = Ok (tt, s) →
  job_ok (after j i s) (<[i := ∅]> sh) ∧ sh i = ∅.
Proof.
  intros (L & D & Hj) Hi [Hf Hnm] Hn Hcount Hinit.
  pose proof (job_servers_ok _ _ _ _ Hj) as Hsrv.
  destruct (client_init_ok (env i) cl (foreign L D i) w (job_servers j) n)
    as (s1 & Hinit' & _ & Htr); try done; [by intros y; eapply foreign_good, Hj|].
  rewrite Hinit in Hinit'. injection Hinit' as <-.
  split; [by eapply job_ok_after|by apply Hj].
Qed.

Lemma job_ok_ext j sh sh' : (∀ i, sh i = sh' i) → job_ok j sh → job_ok j sh'.
Proof.
  intros Heq (L & D & [H1 H2 H3 H4 H5]). exists L, D. split; try done.
  - intros i s. rewrite <- Heq. apply H3.
  - intros i. rewrite <- Heq. apply H5.
Qed.

Lemma fn_insert_id {A} (sh : nat → A) i x k : sh i = x → (<[i := x]> sh) k = sh k.
Proof.
  intros <-. destruct (decide (i = k)) as [<-|]; [by rewrite fn_lookup_insert|].
  by rewrite fn_lookup_insert_ne.
Qed.

Lemma history_cons i k e t :
  history i ((k, e) :: t) = if decide (k = i) then e :: history i t else history i t.
Proof.
  unfold history. by destruct (decide (k = i)); [rewrite filter_cons_True|rewrite filter_cons_False].
Qed.

Lemma posix_run_snoc (sh0 : shadow) t (sh1 : shadow) c r (sh2 : shadow) :
  posix_run names pfs sh0 t sh1 → posix_step names pfs sh1 c r sh2 →
  posix_run names pfs sh0 (t ++ [(c, r)]) sh2.
Proof.
  intros Hrun Hstep. induction Hrun as [|sh0 c0 r0 sh1 t sh3 ? _ IH]; simpl.
  - econstructor; [done|constructor].
  - econstructor; [done|by apply IH].
Qed.

Lemma job_run_ok j t j' :
  job_run j t j' → ∀ sh, job_ok j sh →
  ∃ sh', (∀ i, posix_run names pfs (sh i) (history i t) (sh' i)) ∧ job_ok j' sh'.
Proof.
  induction 1 as [j|j i s c r s' t j' Hi Hl Hcall _ IH|j i s s' t j' Hi Hp _ IH
    |j a srv srv' t j' Ha Hb _ IH|j a t j' _ IH|j i w n s t j' Hi Hw Hn Hcount Hinit _ IH]; intros sh Hj.
  - exists sh. split; [intros i; constructor|done].
  - destruct (job_call_ok j sh i s c Hj Hi Hl) as (r' & s1 & shi & Hcall' & Hstep & Hj1).
    rewrite Hcall in Hcall'. injection Hcall' as <- <-.
    destruct (IH _ Hj1) as (sh' & Hhist & Hj'). exists sh'. split; [|done].
    intros k. specialize (Hhist k). rewrite history_cons. case_decide as Hk.
    + subst k. rewrite fn_lookup_insert in Hhist. by econstructor.
    + by rewrite fn_lookup_insert_ne in Hhist.
  - destruct (IH _ (job_progress_ok j sh i s s' Hj Hi Hp)) as (sh' & Hhist & Hj').
    exists sh'. split; [|done]. intros k. specialize (Hhist k). by rewrite fn_insert_id in Hhist.
  - destruct Hj as (L & D & Hj).
    apply (IH sh). exists L, D. by eapply job_background_ok.
  - destruct Hj as (L & D & Hj). apply (IH sh). exists L, D. by apply job_died_ok.
  - destruct (job_start_ok j sh i w n s Hj Hi Hw Hn Hcount Hinit) as [Hj1 Hsh].
    destruct (IH _ Hj1) as (sh' & Hhist & Hj'). exists sh'. split; [|done].
    intros k. specialize (Hhist k). by rewrite fn_insert_id in Hhist.
Qed.

Lemma empty_job_ok m : servers_ok m → job_ok (Job ∅ m) (λ _, ∅).
Proof.
  intros Hsrv. exists (λ _, ∅), (λ _, []). split; [done..| |done].
  intros i. assert (Hnone : ∀ y, ¬ foreign (λ _, ∅) (λ _, []) i y).
  { intros y (k & _ & [[fd Hy]|?%not_elem_of_nil]); [|done]. by rewrite lookup_empty in Hy. }
  split; try done.
  - by intros x ?%not_elem_of_nil.
  - constructor.
  - by intros y ?%Hnone.
  - by intros x y ?%not_elem_of_nil.
Qed.

(** C4: the processes of a job share its servers.  From servers that hold the
    data set, whatever legal calls the clients make, in any interleaving with
    the completion of pending requests, the servers' own steps, the death of
    servers and the start of more clients: each client has seen a history of the
    POSIX interface on the original files, as if it were alone, and the next
    legal call of any client (one on a file whose home is alive) returns, with a
    result that continues its history. *)
Theorem job_transparent m t j' :
  servers_ok m → job_run (Job ∅ m) t j' →
  ∀ i, ∃ o : shadow, posix_run names pfs ∅ (history i t) o ∧
    ∀ s c, clients j' !! i = Some s → legal cl (view j' s) c →
    ∃ r s' o', run_call (hg := hg) (env i) c (view j' s) = Ok (r, s') ∧
      posix_run names pfs ∅ (history i t ++ [(c, r)]) o'.
Proof.
  intros Hm Hrun i. destruct (job_run_ok _ _ _ Hrun _ (empty_job_ok m Hm)) as (sh & Hhist & Hj).
  exists (sh i). split; [apply Hhist|]. intros s c Hi Hl.
  destruct (job_call_ok j' sh i s c Hj Hi Hl) as (r & s' & shi & Hcall & Hstep & _).
  exists r, s', shi. split; [done|]. eapply posix_run_snoc; [apply (Hhist i)|done].
Qed.
End Job.

(** ** Requests in flight *)

Section InFlight.
Context {W Srv : Type} `{!FileServer Srv} {hg : mercury}.
Abbreviation sys := (system W Srv).

(** The servers as others leave them. *)
Definition meanwhile (m : gmap string Srv) : M sys unit := modify (set_servers m).

(** A computation that neither looks at the servers nor changes them. *)
Definition server_blind {A} (c : M sys A) : Prop :=
  ∀ m s, c (set_servers m s) =
         match c s with Ok (a, s') => Ok (a, set_servers m s') | Fault f => Fault f end.

Lemma blind_bind {A B} (c : M sys A) (f : A → M sys B) :
  server_blind c → (∀ a, server_blind (f a)) → server_blind (c ≫= f).
Proof.
  intros Hc Hf m s. unfold mbind, M_bind. rewrite Hc. destruct (c s) as [[a s']|]; [apply Hf|done].
Qed.
Lemma blind_ret {A} (a : A) : server_blind (mret a).
Proof. by intros m s. Qed.
Lemma blind_fail {A} f : server_blind (fail (A := A) f).
Proof. by intros m s. Qed.
Lemma blind_cassert b : server_blind (cassert b).
Proof. intros m s. unfold cassert. by destruct b. Qed.
Lemma blind_gets {A} (f : sys → A) : (∀ m s, f (set_servers m s) = f s) → server_blind (gets f).
Proof. intros Hf m s. unfold gets. by rewrite Hf. Qed.
Lemma blind_modify f :
  (∀ m s, f (set_servers m s) = set_servers m (f s)) → server_blind (modify f).
Proof. intros Hf m s. unfold modify. by rewrite Hf. Qed.

Lemma blind_remote_of fd : server_blind (remote_of fd).
Proof. intros m s. unfold remote_of. simpl. by destruct (map_index _ _ _). Qed.

Ltac blind :=
  repeat first
    [ apply blind_remote_of
    | apply blind_bind; [|intros ?]
    | apply blind_ret | apply blind_fail | apply blind_cassert
    | apply blind_gets; done | apply blind_modify; done
    | match goal with
      | |- server_blind (if ?b then _ else _) => destruct b
      | |- server_blind (match ?x with _ => _ end) => destruct x
      | |- server_blind (let _ := _ in _) => cbv zeta
      end ].

Lemma blind_lookup r : server_blind (hvac_client_comm_lookup_addr (hg := hg) r).
Proof. unfold hvac_client_comm_lookup_addr. blind. Qed.
Lemma blind_forward a req : server_blind (forward (hg := hg) a req).
Proof. unfold forward. blind. Qed.

Lemma blind_delay {A B} (c : M sys A) (f : A → M sys B) m s :
  server_blind c → (a ← c; meanwhile m;; f a) s = (meanwhile m;; a ← c; f a) s.
Proof.
  intros Hc. specialize (Hc m s). unfold meanwhile, mbind, M_bind, modify. rewrite Hc.
  by destruct (c s) as [[a s']|].
Qed.

Lemma blind_gen_open h p fd :
  server_blind (hvac_client_comm_gen_open_rpc (hg := hg) h p fd).
Proof.
  unfold hvac_client_comm_gen_open_rpc, hvac_comm_create_handle, hvac_comm_free_addr.
  repeat first [apply blind_lookup | apply blind_forward | progress blind].
Qed.
Lemma blind_gen_read h fd b n off :
  server_blind (hvac_client_comm_gen_read_rpc (hg := hg) h fd b n off).
Proof.
  unfold hvac_client_comm_gen_read_rpc, hvac_comm_create_handle, hvac_comm_free_addr.
  repeat first [apply blind_lookup | apply blind_forward | progress blind].
Qed.
Lemma blind_gen_seek h fd off whence :
  server_blind (hvac_client_comm_gen_seek_rpc (hg := hg) h fd off whence).
Proof.
  unfold hvac_client_comm_gen_seek_rpc, hvac_comm_create_handle, hvac_comm_free_addr.
  repeat first [apply blind_lookup | apply blind_forward | progress blind].
Qed.
Lemma blind_gen_close h fd :
  server_blind (hvac_client_comm_gen_close_rpc (hg := hg) h fd).
Proof.
  unfold hvac_client_comm_gen_close_rpc, hvac_comm_create_handle, hvac_comm_free_addr.
  repeat first [apply blind_lookup | apply blind_forward | progress blind].
Qed.

(** A call may be taken to happen at the moment its request is handled.
    Whatever happens to the servers between the sending of an open, read, seek
    or close request and the wait for its answer, the outcome is the one of
    sending the request after that. *)
Theorem request_in_flight {A} (wait : M sys A) m h fd p b n off whence s :
  (hvac_client_comm_gen_open_rpc (hg := hg) h p fd;; meanwhile m;; wait) s =
    (meanwhile m;; hvac_client_comm_gen_open_rpc (hg := hg) h p fd;; wait) s ∧
  (hvac_client_comm_gen_read_rpc (hg := hg) h fd b n off;; meanwhile m;; wait) s =
    (meanwhile m;; hvac_client_comm_gen_read_rpc (hg := hg) h fd b n off;; wait) s ∧
  (hvac_client_comm_gen_seek_rpc (hg := hg) h fd off whence;; meanwhile m;; wait) s =
    (meanwhile m;; hvac_client_comm_gen_seek_rpc (hg := hg) h fd off whence;; wait) s ∧
  (hvac_client_comm_gen_close_rpc (hg := hg) h fd;; meanwhile m;; wait) s =
    (meanwhile m;; hvac_client_comm_gen_close_rpc (hg := hg) h fd;; wait) s.
Proof.
  split_and!; apply (blind_delay _ (λ _, wait));
    [apply blind_gen_open|apply blind_gen_read|apply blind_gen_seek|apply blind_gen_close].
Qed.
End InFlight.

(** ** Two clients on one file *)

#[local] Existing Instance demo_mercury.
#[local] Existing Instance demo_server_laws.

Definition demo_envs (i : nat) : environ := demo_env.
Abbreviation demo_job := (job (W := RefPosix.world) (Srv := server RefPosix.world)).

(** The client as its constructor leaves it, and the job after it has run. *)
Definition job_start (i : nat) (j : demo_job) : demo_job :=
  match hvac_client_init (demo_envs i) (unstarted demo_os (job_servers j) demo_text) with
  | Ok (_, s) => after j i s
  | Fault _ => j
  end.
Definition job_call (i : nat) (c : call) (j : demo_job) : demo_job :=
  match clients j !! i with
  | Some s =>
      match run_call (demo_envs i) c (view j s) with Ok (_, s') => after j i s' | Fault _ => j end
  | None => j
  end.
Definition job_client (i : nat) (j : demo_job) : demo_system :=
  default demo_start (clients j !! i).

Definition job0 : demo_job := Job ∅ demo_servers.
Definition job1 : demo_job := job_start 0 job0.
Definition job2 : demo_job := job_call 0 (COpen "/d/a" 0 0) job1.
Definition job3 : demo_job := job_start 1 job2.
Definition job4 : demo_job := job_call 1 (COpen "/d/a" 0 0) job3.
Definition job5 : demo_job := job_call 0 (CRead 3 2) job4.
Definition job6 : demo_job := job_call 0 (CClose 3) job5.
Definition job7 : demo_job := job_call 1 (CRead 3 2) job6.

Definition demo_events : list (nat * (call * result)) :=
  [(0%nat, (COpen "/d/a" 0 0, RFd 3));
   (1%nat, (COpen "/d/a" 0 0, RFd 3));
   (0%nat, (CRead 3 2, RData 2 [Byte.x61; Byte.x62]));
   (0%nat, (CClose 3, RStatus 0));
   (1%nat, (CRead 3 2, RData 2 [Byte.x61; Byte.x62]))].

Lemma demo_start_step i (j : demo_job) t j' :
  clients j !! i = None →
  job_run demo_envs demo_cluster (mover_step demo_nvme) (job_start i j) t j' →
  job_run demo_envs demo_cluster (mover_step demo_nvme) j t j'.
Proof.
  intros Hi Hrun. unfold job_start in Hrun.
  destruct (hvac_client_init _ _) as [[[] s]|] eqn:Hinit; [|done].
  by eapply (job_run_start _ _ _ j i demo_os "2" s).
Qed.

Lemma demo_call_step i c r (j : demo_job) t j' :
  is_Some (clients j !! i) → legal demo_cluster (view j (job_client i j)) c →
  (∃ s', run_call (demo_envs i) c (view j (job_client i j)) = Ok (r, s')) →
  job_run demo_envs demo_cluster (mover_step demo_nvme) (job_call i c j) t j' →
  job_run demo_envs demo_cluster (mover_step demo_nvme) j ((i, (c, r)) :: t) j'.
Proof.
  unfold job_client, job_call. intros [s Hi] Hl [s' Hrun]. rewrite Hi in *. simpl in *.
  rewrite Hrun. by eapply job_run_call.
Qed.

Definition job_home (j : demo_job) : server RefPosix.world :=
  default demo_idle (job_servers j !! demo_addr 0).

(** The demonstration file can be opened when its home has a free descriptor. *)
Lemma demo_file_legal (s : demo_system) srv :
  track_decision (hvac_data_dir s) (cli_os s) "/d/a" = Some "/d/a" →
  fd_room (cli_os s) → servers s !! demo_addr 0 = Some srv → fs_room srv →
  legal demo_cluster s (COpen "/d/a" 0 0).
Proof.
  intros Htrk Hroom Hsrv Hfree. split; [by vm_compute|]. split; [done|].
  exists "/d/a", [Byte.x61; Byte.x62; Byte.x63], srv.
  split; [done|]. split; [by vm_compute|]. split; [|done].
  by replace (home demo_cluster "/d/a") with (demo_addr 0) by (by vm_compute).
Qed.

Lemma demo_job_run :
  job_run demo_envs demo_cluster (mover_step demo_nvme) job0 demo_events job7.
Proof.
  apply (demo_start_step 0); [done|]. fold job1.
  apply (demo_call_step 0); [by eexists| |by eexists; vm_compute|]; fold job2.
  { apply demo_file_legal with (srv := job_home job1);
      [by vm_compute|by exists 3|by vm_compute|by exists 3]. }
  apply (demo_start_step 1); [by vm_compute|]. fold job3.
  apply (demo_call_step 1); [by eexists; vm_compute| |by eexists; vm_compute|]; fold job4.
  { apply demo_file_legal with (srv := job_home job3);
      [by vm_compute|by exists 3|by vm_compute|by exists 4]. }
  apply (demo_call_step 0); [by eexists; vm_compute| |by eexists; vm_compute|]; fold job5.
  { by apply demo_read_legal; [vm_compute|vm_compute|lia]. }
  apply (demo_call_step 0); [by eexists; vm_compute| |by eexists; vm_compute|]; fold job6.
  { apply demo_tracked. by vm_compute. }
  apply (demo_call_step 1); [by eexists; vm_compute| |by eexists; vm_compute|]; fold job7.
  { by apply demo_read_legal; [vm_compute|vm_compute|lia]. }
  constructor.
Qed.

(** The second client's history, with the first one's close still pending. *)
Lemma job_transparent_witness :
  ∃ o : shadow, posix_run (cl_names demo_cluster) (cl_files demo_cluster) ∅
      [(COpen "/d/a" 0 0, RFd 3); (CRead 3 2, RData 2 [Byte.x61; Byte.x62])] o ∧
    ∀ s c, clients job7 !! 1%nat = Some s → legal demo_cluster (view job7 s) c →
    ∃ r s' o', run_call (demo_envs 1) c (view job7 s) = Ok (r, s') ∧
      posix_run (cl_names demo_cluster) (cl_files demo_cluster) ∅
        ([(COpen "/d/a" 0 0, RFd 3); (CRead 3 2, RData 2 [Byte.x61; Byte.x62])] ++ [(c, r)]) o'.
Proof.
  refine (job_transparent demo_envs demo_cluster (mover_step demo_nvme) demo_mercury_ok
            demo_cluster_ok demo_background_ok _ demo_servers demo_events job7 _ demo_job_run 1%nat).
  - intros i. by eexists.
  - exact demo_server_holds.
Defined.
