(* ===== verification/Messages.v ===== *)
(** * Calls cut at their messages

    A blocking call of a client sends a request, waits, and resumes when the
    callback of its answer has run.  Here a call is begun and finished in two
    steps, and between them every message of every client is handled by its
    server in a step of its own, interleaved with everything else: the calls of
    other clients, their messages, the servers' own steps and deaths. *)
From stdpp Require Import functions.
From S2P Require Import Prelude CLib Posix Rpc Server DataMover ClientState CommClient Client Wrappers System MultiClient.

(** A call that waits for its answer, with what it needs to resume. *)
Inductive pending :=
  | POpen (fd : Z)
  | PRead (fd n : Z)
  | PPread (fd n off : Z).

Section Split.
Context {W Srv : Type} `{!Posix W, !FileServer Srv, !StringHash} {hg : mercury}.
Variable env : environ.
Abbreviation sys := (system W Srv).

(** [hvac_track_file] up to its wait; [true] when the request is sent. *)
Definition begin_track (path : string) (flags fd : Z) : M sys bool :=
  if contains ".ports.cfg." path then mret false
  else if Z.land flags O_ACCMODE =? O_WRONLY then mret false
  else if negb (Z.land flags O_APPEND =? 0) then mret false
  else
    decision ← gets (λ s, track_decision (hvac_data_dir s) (cli_os s) path);
    match decision with
    | None => mret false
    | Some canon =>
        modify (λ s, set_fd_map (<[fd := canon]> (fd_map s)) s);;
        init ← gets g_mercury_init;
        (if (init : bool) then mret tt
         else hvac_init_comm env;; hvac_client_comm_register_rpc;; modify (set_g_mercury_init true));;
        p ← path_of fd;
        host ← host_of p;
        p ← path_of fd;
        hvac_client_comm_gen_open_rpc (hg := hg) (u32 host) p fd;;
        mret true
    end.

(** What [read] does with the result of [hvac_remote_read]. *)
Definition finish_read (fd n r : Z) : M sys result :=
  let ret := i32 r in
  ret ← (if ret =? -1 then r ← real_read fd n; mret (i32 r) else mret ret);
  count count_read;;
  d ← gets user_buf;
  mret (RData ret d).

(** What [pread] does with the result of [hvac_remote_pread]. *)
Definition finish_pread (fd n off r : Z) : M sys result :=
  ret ← (if r =? -1 then r ← real_pread fd n off; log_message;; mret r else mret r);
  count count_pread;;
  d ← gets user_buf;
  mret (RData ret d).

(** A call up to its wait: its result, or what it waits for. *)
Definition begin_call (c : call) : M sys (result + pending) :=
  match c with
  | COpen path flags mode_arg =>
      let mode := if negb (Z.land flags O_CREAT =? 0) then mode_arg else 0 in
      off ← redirect_disabled;
      if (off : bool) then fd ← client_os (sys_open path flags mode); mret (inl (RFd fd))
      else
        ret ← client_os (sys_open path flags mode);
        if negb (ret =? -1) then
          sent ← begin_track path flags ret;
          if (sent : bool) then mret (inr (POpen ret))
          else
            (if contains data_set_dir path then count count_open_data else count count_open_system);;
            mret (inl (RFd ret))
        else mret (inl (RFd ret))
  | CRead fd n =>
      tracked ← hvac_file_tracked fd;
      if (tracked : bool) then
        p ← path_of fd;
        host ← host_of p;
        hvac_client_comm_gen_read_rpc (hg := hg) (u32 host) fd true (i64 n) (-1);;
        mret (inr (PRead fd n))
      else r ← finish_read fd n (-1); mret (inl r)
  | CPread fd n off =>
      path ← hvac_get_path fd;
      match path with
      | Some _ =>
          log_message;;
          tracked ← hvac_file_tracked fd;
          if (tracked : bool) then
            rfd ← remote_of fd;
            if negb (rfd =? 0) then
              p ← path_of fd;
              host ← host_of p;
              hvac_client_comm_gen_read_rpc (hg := hg) (u32 host) fd true (i64 n) off;;
              mret (inr (PPread fd n off))
            else r ← finish_pread fd n off (-1); mret (inl r)
          else r ← finish_pread fd n off (-1); mret (inl r)
      | None =>
          ret ← real_pread fd n off;
          count count_pread;;
          d ← gets user_buf;
          mret (inl (RData ret d))
      end
  | CClose fd => r ← wrap_close (hg := hg) fd; mret (inl (RStatus r))
  end.

(** The rest of the call, once the flag is raised. *)
Definition finish_call (p : pending) : M sys result :=
  match p with
  | POpen fd => count count_open;; mret (RFd fd)
  | PRead fd n => r ← gets read_ret; finish_read fd n r
  | PPread fd n off => r ← gets read_ret; finish_pread fd n off r
  end.

(** A call, put together again. *)
Definition whole_call (c : call) : M sys result :=
  b ← begin_call c;
  match b with
  | inl r => mret r
  | inr p => hvac_client_block (hg := hg);; finish_call p
  end.

Lemma bind_same {S A B} (m : M S A) (f g : A → M S B) (s : S) :
  (∀ a s, f a s = g a s) → (m ≫= f) s = (m ≫= g) s.
Proof. intros Hfg. unfold mbind, M_bind. by destruct (m s) as [[a s']|]. Qed.

(** Compare two computations that make the same calls in the same order. *)
Ltac same_calls :=
  repeat first
    [ done
    | rewrite bind_ret_l
    | rewrite bind_assoc
    | apply bind_same; intros ? ?
    | match goal with
      | |- (if ?b then _ else _) _ = _ => destruct b
      | |- (match ?x with _ => _ end) _ = _ => destruct x
      | |- ((if ?b then _ else _) ≫= _) _ = _ => destruct b
      | |- ((match ?x with _ => _ end) ≫= _) _ = _ => destruct x
      end ].

Lemma track_split path flags fd (s : sys) :
  hvac_track_file (hg := hg) env path flags fd s =
  (sent ← begin_track path flags fd;
   if (sent : bool) then hvac_client_block (hg := hg);; mret true else mret false) s.
Proof. unfold hvac_track_file, begin_track. same_calls. Qed.

Lemma bind_track {A} path flags fd (f : bool → M sys A) (s : sys) :
  (hvac_track_file (hg := hg) env path flags fd ≫= f) s =
  (begin_track path flags fd ≫= λ sent,
   if (sent : bool) then hvac_client_block (hg := hg);; f true else f false) s.
Proof.
  unfold mbind at 1, M_bind at 1. rewrite track_split.
  change (match ?m s with Ok (a, s') => f a s' | Fault e => Fault e end) with ((m ≫= f) s).
  rewrite bind_assoc. apply bind_same. intros [] ?; [by rewrite bind_assoc|done].
Qed.

(** Cutting a call at its wait changes nothing. *)
Lemma call_splits c (s : sys) : run_call (hg := hg) env c s = whole_call c s.
Proof.
  destruct c as [path flags mode|fd n|fd n off|fd]; unfold run_call, whole_call, begin_call.
  - unfold wrap_open. same_calls. rewrite bind_track. same_calls.
  - unfold wrap_read, hvac_remote_read, hvac_read_block, finish_call, finish_read. same_calls.
  - unfold wrap_pread, hvac_remote_pread, hvac_read_block, finish_call, finish_pread. same_calls.
  - same_calls.
Qed.
End Split.

(** ** One client *)

Section Client.
Context {W Srv : Type} `{!Posix W, !PosixLaws W, !PosixReliable W}.
Context `{!FileServer Srv, !FileServerLaws Srv, !StringHash} {hg : mercury}.
Variable env : environ.
Variable cl : cluster.
Variable others : slot → Prop.
Abbreviation sys := (system W Srv).
Abbreviation names := (cl_names cl).
Abbreviation pfs := (cl_files cl).
Implicit Types (s : sys) (sh : shadow) (m : gmap string Srv) (live : gmap Z slot) (dying : list slot).

(** What the caller has to respect when a call begins.  Nothing is asked of
    the servers: they may change before the request is handled. *)
Definition callable s (c : call) : Prop :=
  match c with
  | COpen path flags _ =>
      redirectable path flags ∧ fd_room (cli_os s) ∧
      ∃ p b, track_decision (hvac_data_dir s) (cli_os s) path = Some p ∧ pfs p = Some b
  | CRead fd n => is_Some (fd_map s !! fd) ∧ 0 ≤ n < 2 ^ 31
  | CPread fd n off => is_Some (fd_map s !! fd) ∧ 0 ≤ n < 2 ^ 31 ∧ 0 ≤ off
  | CClose fd => is_Some (fd_map s !! fd)
  end.

(** The server that an open request reaches has a free descriptor. *)
Definition deliverable m (msg : string * request) : Prop :=
  match msg with
  | (a, ReqOpen _ _) => ∀ srv, m !! a = Some srv → fs_room srv
  | _ => True
  end.

(** The result of a call that waits, once its answer is there. *)
Definition answer (p : pending) s : result :=
  match p with
  | POpen fd => RFd fd
  | PRead _ _ | PPread _ _ _ => RData (read_ret s) (user_buf s)
  end.

Definition in_range (p : pending) s : Prop :=
  match p with POpen _ => True | PRead _ _ | PPread _ _ _ => 0 ≤ read_ret s < 2 ^ 31 end.

(** The request of a call that waits. *)
Inductive asked s sh live : call → pending → string * request → Prop :=
  | asked_open path flags mode fd p b q pos :
      names path = Some p → pfs p = Some b → live !! fd = None → 0 ≤ fd < 2 ^ 31 →
      fd_map s !! fd = Some p → tables_ok cl (set_fd_map (delete fd (fd_map s)) s) sh live →
      fd_at (cli_os s) fd = Some (q, pos) → file_at (cli_os s) q = Some b →
      asked s sh live (COpen path flags mode) (POpen fd) (home cl p, ReqOpen (OpenIn p) (u32 fd))
  | asked_read fd n x :
      live !! fd = Some x → 0 ≤ n < 2 ^ 31 → tables_ok cl s sh live →
      asked s sh live (CRead fd n) (PRead fd n) (sl_addr x, ReqRead (RpcIn n n (sl_rfd x) (-1)))
  | asked_pread fd n off x :
      live !! fd = Some x → 0 ≤ n < 2 ^ 31 → 0 ≤ off → tables_ok cl s sh live →
      asked s sh live (CPread fd n off) (PPread fd n off)
        (sl_addr x, ReqRead (RpcIn n n (sl_rfd x) off)).

(** Between two calls; with a request on its way; with the answer received;
    with a request that died with its server. *)
Inductive phase s sh live dying : option (call * pending) → Prop :=
  | idle :
      outbox s = close_req <$> dying → tables_ok cl s sh live → phase s sh live dying None
  | sending c p msg :
      done s = HG_FALSE → connected s → outbox s = (close_req <$> dying) ++ [msg] →
      asked s sh live c p msg →
      phase s sh live dying (Some (c, p))
  | answered c p sh' :
      done s = HG_TRUE → outbox s = close_req <$> dying → in_range p s →
      posix_step names pfs sh c (answer p s) sh' → tables_ok cl s sh' live →
      phase s sh live dying (Some (c, p))
  | lost c p :
      done s = HG_FALSE → outbox s = close_req <$> dying → phase s sh live dying (Some (c, p)).

Definition client_ok s w sh : Prop :=
  conn_ok cl s ∧ ∃ live dying, slots_ok cl others (servers s) live dying ∧ phase s sh live dying w.

Hypothesis Hhg : mercury_ok hg.
Hypothesis Hcl : cluster_ok cl.

Lemma client_ok_idle s sh : client_ok s None sh ↔ transparent cl others s sh.
Proof.
  split.
  - intros (Hc & live & dying & Hs & Hp). inversion Hp. split; [done|]. by exists live, dying.
  - intros (Hc & live & dying & Hb & Hs & Ht). split; [done|]. exists live, dying.
    split; [done|]. by constructor.
Qed.

(** The request that was forwarded last is no close and for a server that is
    alive, and that has a free descriptor if the request is an open. *)
Definition answerable s : Prop :=
  ∃ a req, last (outbox s) = Some (a, req) ∧ (∀ inp, req ≠ ReqClose inp) ∧ is_Some (servers s !! a) ∧ deliverable (servers s) (a, req).

(** A call that was begun in [s0] waits; its request will be answered if the
    call was legal then. *)
Definition waits_from s0 (c : call) s : Prop :=
  done s = HG_FALSE ∧ (legal cl s0 c → answerable s).

(** *** Beginning a call *)

Lemma finish_read_eq fd n r s :
  0 ≤ r < 2 ^ 31 →
  finish_read fd n r s = Ok (RData r (user_buf s), set_stats (count_read (stats s)) s).
Proof.
  intros Hr. unfold finish_read. rewrite i32_small by word. cbv zeta.
  by destruct (Z.eqb_spec r (-1)); [lia|].
Qed.

Lemma finish_pread_eq fd n off r s :
  0 ≤ r → finish_pread fd n off r s = Ok (RData r (user_buf s), set_stats (count_pread (stats s)) s).
Proof. intros Hr. unfold finish_pread. by destruct (Z.eqb_spec r (-1)); [lia|]. Qed.

Lemma begin_read_ok s sh fd n :
  client_ok s None sh → callable s (CRead fd n) →
  ∃ s', begin_call (hg := hg) env (CRead fd n) s = Ok (inr (PRead fd n), s') ∧
        client_ok s' (Some (CRead fd n, PRead fd n)) sh ∧ waits_from s (CRead fd n) s'.
Proof.
  intros (Hc & live & dying & Hs & Hp) [[p Hfd] Hn]. inversion Hp as [Hbox Ht| | |]; subst.
  pose proof Hfd as Hx. rewrite (tk_fd_map _ _ _ _ Ht) in Hx.
  destruct (live !! fd) as [x|] eqn:Hlive; [|done]. injection Hx as <-.
  destruct (gen_read_eq cl Hhg Hcl s (sl_path x) fd (sl_rfd x) n (-1) Hc
              (tk_ready _ _ _ _ Ht _ _ Hlive)) as (ac & k & Hac & Hgen);
    [by apply (tk_redir _ _ _ _ Ht)|word|].
  eexists. split.
  - simpl. erewrite bind_eq by by apply (tracked_eq _ _ (sl_path x)). cbv beta iota.
    erewrite bind_eq by by apply path_of_eq. erewrite bind_eq by by apply (host_of_eq cl).
    erewrite bind_eq by exact Hgen. reflexivity.
  - split.
    2: { split; [done|]. intros [(p & Hp' & Hup) _]. rewrite Hfd in Hp'. injection Hp' as <-.
         eexists _, _. simpl. rewrite last_snoc. by split_and!. }
    split; [destruct Hc; by split|]. exists live, dying. split; [exact Hs|].
    eapply sending; [done|by apply (tk_ready _ _ _ _ Ht fd x)|simpl; by rewrite Hbox|].
    rewrite i32_small by word. rewrite <- (proj1 (so_home _ _ _ _ _ Hs _ _ Hlive)).
    apply asked_read; [done..|]. by apply (tables_ok_same cl s).
Qed.

Lemma begin_pread_ok s sh fd n off :
  client_ok s None sh → callable s (CPread fd n off) →
  ∃ b s', begin_call (hg := hg) env (CPread fd n off) s = Ok (b, s') ∧
    match b with
    | inl r => ∃ sh', posix_step names pfs sh (CPread fd n off) r sh' ∧ client_ok s' None sh'
    | inr p => client_ok s' (Some (CPread fd n off, p)) sh ∧ waits_from s (CPread fd n off) s'
    end.
Proof.
  intros (Hc & live & dying & Hs & Hp) ([p Hfd] & Hn & Hoff). inversion Hp as [Hbox Ht| | |]; subst.
  pose proof Hfd as Hx. rewrite (tk_fd_map _ _ _ _ Ht) in Hx.
  destruct (live !! fd) as [x|] eqn:Hlive; [|done]. injection Hx as <-.
  pose proof (tk_redir _ _ _ _ Ht _ _ Hlive) as Hr.
  simpl. erewrite bind_eq by done. rewrite Hfd.
  erewrite bind_eq by apply log_message_eq, Hc.
  erewrite bind_eq by by apply (tracked_eq _ _ (sl_path x)). cbv beta iota.
  erewrite bind_eq by by apply remote_of_eq.
  destruct (Z.eqb_spec (sl_rfd x) 0) as [Hz|Hz]; cbn [negb]; cbv beta iota.
  - destruct (real_pread_ok cl s sh live fd x n off Ht Hlive) as (r & d & w & Hrun & Hres & Ht'); [lia..|].
    eexists (inl (RData r d)), _. split.
    + unfold finish_pread. change (-1 =? -1) with true. cbv beta iota. rewrite !bind_assoc.
      erewrite bind_eq by exact Hrun. rewrite !bind_assoc.
      erewrite bind_eq by apply log_message_eq, Hc. reflexivity.
    + exists sh. split.
      * eapply posix_pread; [by rewrite (tk_shadow _ _ _ _ Ht), Hlive| |done].
        by apply (so_home _ _ _ _ _ Hs _ _ Hlive).
      * split; [destruct Hc; by split|]. exists live, dying. split; [done|].
        constructor; [done|]. by apply (tables_ok_same cl (set_user_buf d (set_cli_os w s))).
  - destruct (gen_read_eq cl Hhg Hcl s (sl_path x) fd (sl_rfd x) n off Hc
                (tk_ready _ _ _ _ Ht _ _ Hlive) Hr) as (ac & k & Hac & Hgen); [word|].
    eexists (inr _), _. split.
    + erewrite bind_eq by by apply path_of_eq. erewrite bind_eq by by apply (host_of_eq cl).
      erewrite bind_eq by exact Hgen. reflexivity.
    + split.
      2: { split; [done|]. intros [(p & Hp' & Hup) _]. rewrite Hfd in Hp'. injection Hp' as <-.
           eexists _, _. simpl. rewrite last_snoc. by split_and!. }
      split; [destruct Hc; by split|]. exists live, dying. split; [exact Hs|].
      eapply sending; [done|by apply (tk_ready _ _ _ _ Ht fd x)|simpl; by rewrite Hbox|].
      rewrite i32_small by word. rewrite <- (proj1 (so_home _ _ _ _ _ Hs _ _ Hlive)).
      apply asked_pread; [done..|]. by apply (tables_ok_same cl s).
Qed.

Lemma begin_close_ok s sh fd :
  client_ok s None sh → callable s (CClose fd) →
  ∃ r s' sh', begin_call (hg := hg) env (CClose fd) s = Ok (inl r, s') ∧
    posix_step names pfs sh (CClose fd) r sh' ∧ client_ok s' None sh'.
Proof.
  intros Hs%client_ok_idle [p Hp]. destruct (tracked_shadow cl others s sh fd p Hs Hp) as [off Hsh].
  destruct (run_close_ok env cl others Hhg Hcl s sh fd Hs (mk_is_Some _ _ Hsh)) as (s' & Hrun & Hs').
  exists (RStatus 0), s', (delete fd sh). split_and!; [|by constructor; eexists|by apply client_ok_idle].
  simpl in *. unfold mbind, M_bind, mret, M_ret in *.
  destruct (wrap_close fd s) as [[r s1]|]; [by simplify_eq|done].
Qed.

Lemma begin_track_eq s s1 path flags fd p :
  redirectable path flags →
  track_decision (hvac_data_dir s) (cli_os s) path = Some p →
  ensure_comm (hg := hg) env (set_fd_map (<[fd := p]> (fd_map s)) s) = Ok (tt, s1) →
  conn_ok cl s1 → fd_map s1 !! fd = Some p →
  begin_track (hg := hg) env path flags fd s =
  (hvac_client_comm_gen_open_rpc (hg := hg) (u32 (rank_of cl p)) p fd;; mret true) s1.
Proof.
  intros (Hro & Happ & Hports) Hd Hinit Hc Hm. unfold begin_track. rewrite Hports, Happ.
  apply andb_prop in Hro as [[Hacc _]%andb_prop _]. apply Z.eqb_eq in Hacc. rewrite Hacc.
  change (O_RDONLY =? O_WRONLY) with false. cbn [negb Z.eqb]. cbv beta iota.
  erewrite bind_eq by done. rewrite Hd. erewrite bind_eq by done. rewrite <- bind_assoc.
  erewrite bind_eq by exact Hinit. erewrite bind_eq by by apply path_of_eq.
  erewrite bind_eq by by apply (host_of_eq cl). by erewrite bind_eq by by apply path_of_eq.
Qed.

Lemma begin_open_ok s sh path flags mode :
  is_Some (getenv env "SLURM_PROCID") →
  client_ok s None sh → callable s (COpen path flags mode) →
  ∃ p s', begin_call (hg := hg) env (COpen path flags mode) s = Ok (inr p, s') ∧
          client_ok s' (Some (COpen path flags mode, p)) sh ∧ waits_from s (COpen path flags mode) s'.
Proof.
  intros Henv (Hc & live & dying & Hs & Hph) (Hred & Hroom & p & b & Htrack & Hp).
  inversion Hph as [Hbox Ht| | |]; subst.
  simpl. set (mode' := if negb (Z.land flags O_CREAT =? 0) then mode else 0).
  destruct (local_open_ok cl s sh live path flags mode' p b Ht Hred Hroom Htrack Hp)
    as (fd & w & Hopen & Hfd & Hlive & Hname & Hpath & Hfl & Hnm & Hat & Hoth & Htrack').
  destruct (ensure_comm_eq env cl Hhg (set_fd_map (<[fd := p]> (fd_map s)) (set_cli_os w s)))
    as (s1 & Hstart & Hc1 & Hrdy1 & Hinit); [destruct Hc; by split|done|].
  destruct (comm_started_same _ _ Hstart) as (Hbox1 & Hm1' & Hr1 & Hos1 & Hsrv1). simpl in *.
  assert (Hm1 : fd_map s1 !! fd = Some p) by (rewrite Hm1'; by rewrite lookup_insert_eq).
  destruct (gen_open_eq cl Hhg Hcl s1 p fd Hc1 Hrdy1) as (ac & k & Hac & Hgen).
  eexists (POpen fd), _. split.
  - erewrite bind_eq by (unfold redirect_disabled, gets; by rewrite (co_on _ _ Hc), (co_tl _ _ Hc)).
    cbn [orb]. cbv beta iota. erewrite bind_eq by (unfold client_os; by rewrite Hopen).
    destruct (Z.eqb_spec fd (-1)) as [|_]; [lia|]. cbn [negb]. cbv beta iota.
    erewrite bind_eq.
    2: { rewrite (begin_track_eq (set_cli_os w s) s1 path flags fd p); [by erewrite bind_eq by exact Hgen|done..]. }
    reflexivity.
  - split.
    2: { split; [done|]. intros (_ & _ & p' & b' & srv & Htrk & _ & Hsrv & Hfree').
         rewrite Htrack in Htrk. injection Htrk as <-.
         eexists _, _. simpl. rewrite last_snoc, Hsrv1. split_and!; [done|done|by eexists|].
         intros srv' Hsrv'. by simplify_eq. }
    split; [destruct Hc1; by split|]. exists live, dying. split; [simpl; by rewrite Hsrv1|].
    eapply sending; [done|exact Hrdy1|simpl; by rewrite Hbox1, Hbox|].
    eapply asked_open; [done..|exact Hm1| |simpl; by rewrite Hos1|simpl; by rewrite Hos1, Hfl].
    apply (tables_ok_same cl (set_user_buf (user_buf s) (set_cli_os w s))).
    { split_and!; simpl; rewrite ?Hm1'; try done. apply delete_insert_id.
      by rewrite (tk_fd_map _ _ _ _ Ht), Hlive. }
    apply tables_ok_os; [done..|]. intros fd' [x Hx]. apply Hoth. intros ->. by rewrite Hlive in Hx.
Qed.

(** A read of [n] bytes stops the server that answers for [p], now in state
    [srv]: the client sends it a request on which its handler faults.  When the
    request is handled the server is no longer there, for any client, and the
    flag of the caller is still down; the caller waits for ever, or aborts when
    the transport reports the loss. *)
Definition read_stops_home s (fd n : Z) (p : string) (srv : Srv) : Prop :=
  ∃ inp s1 f,
    begin_call (hg := hg) env (CRead fd n) s = Ok (inr (PRead fd n), s1) ∧
    outbox s1 = outbox s ++ [(home cl p, ReqRead inp)] ∧
    servers s1 = servers s ∧ servers s !! home cl p = Some srv ∧ fs_read inp srv = Fault f ∧
    (hg_lost hg = None → ∃ s2,
       deliver (hg := hg) (home cl p, ReqRead inp) (set_outbox (outbox s) s1) = Ok (tt, s2) ∧
       servers s2 = delete (home cl p) (servers s) ∧ done s2 = HG_FALSE) ∧
    run_call (hg := hg) env (CRead fd n) s = Fault (unanswered (hg := hg)).

Lemma begin_read_eq s fd n p rfd :
  conn_ok cl s → connected s → fd_map s !! fd = Some p → fd_redir_map s !! fd = Some rfd →
  0 ≤ n < 2 ^ 63 →
  ∃ s1, begin_call (hg := hg) env (CRead fd n) s = Ok (inr (PRead fd n), s1) ∧
    outbox s1 = outbox s ++ [(home cl p, ReqRead (RpcIn (i32 n) n rfd (-1)))] ∧
    servers s1 = servers s ∧ done s1 = HG_FALSE ∧ connected s1.
Proof.
  intros Hc Hrdy Hm Hr Hn.
  destruct (gen_read_eq cl Hhg Hcl s p fd rfd n (-1) Hc Hrdy Hr Hn) as (ac & k & Hac & Hgen).
  match type of Hgen with _ = Ok (_, ?t) => exists t end. split; [|split; [reflexivity|done]].
  simpl. erewrite bind_eq by by apply (tracked_eq _ _ p). cbv beta iota.
  erewrite bind_eq by by apply path_of_eq. erewrite bind_eq by by apply (host_of_eq cl).
  by erewrite bind_eq by exact Hgen.
Qed.

Lemma read_stops_home_intro s fd n p rfd srv f :
  conn_ok cl s → connected s → fd_map s !! fd = Some p → fd_redir_map s !! fd = Some rfd →
  0 ≤ n < 2 ^ 63 → servers s !! home cl p = Some srv →
  fs_read (RpcIn (i32 n) n rfd (-1)) srv = Fault f →
  run_call (hg := hg) env (CRead fd n) s = Fault (unanswered (hg := hg)) →
  read_stops_home s fd n p srv.
Proof.
  intros Hc Hrdy Hm Hr Hn Hsrv Hf Hrun.
  destruct (begin_read_eq s fd n p rfd Hc Hrdy Hm Hr Hn) as (s1 & Hb & Hbox & Hsrvs & Hd & Hrdy1).
  exists (RpcIn (i32 n) n rfd (-1)), s1, f. split_and!; try done. intros Hlost.
  eexists. split; [|split].
  - rewrite deliver_unanswered; [by rewrite Hlost|done|exact Hrdy1|].
    right. exists srv, f. simpl. by rewrite Hsrvs.
  - simpl. by rewrite Hsrvs.
  - done.
Qed.

(** With no other request under way, the wait is easily followed. *)
Lemma lone_wait s msg :
  done s = HG_FALSE → outbox s = [msg] →
  hvac_client_block (hg := hg) s =
  (deliver (hg := hg) msg;; progress_until_done (hg := hg) 0 []) (set_outbox [] s).
Proof.
  intros Hd Hbox. unfold hvac_client_block. erewrite bind_eq by done. erewrite bind_eq by done.
  rewrite Hbox. simpl length.
  apply (progress_next (set_outbox [] s)); [simpl; by rewrite Hd|apply next_request_one].
Qed.

Lemma lone_block_eq s msg s' :
  done s = HG_FALSE → outbox s = [msg] →
  deliver (hg := hg) msg (set_outbox [] s) = Ok (tt, s') → done s' = HG_TRUE →
  hvac_client_block (hg := hg) s = Ok (tt, set_outbox [] s').
Proof.
  intros Hd Hbox Hdel Hdone. rewrite (lone_wait s msg) by done.
  erewrite bind_eq by exact Hdel. by apply progress_done.
Qed.

Lemma lone_read_fails s fd n p rfd srv f :
  conn_ok cl s → connected s → fd_map s !! fd = Some p → fd_redir_map s !! fd = Some rfd →
  0 ≤ n < 2 ^ 63 → outbox s = [] → servers s !! home cl p = Some srv →
  fs_read (RpcIn (i32 n) n rfd (-1)) srv = Fault f →
  run_call (hg := hg) env (CRead fd n) s = Fault (unanswered (hg := hg)).
Proof.
  intros Hc Hrdy Hm Hr Hn Hnil Hsrv Hf.
  destruct (begin_read_eq s fd n p rfd Hc Hrdy Hm Hr Hn) as (s1 & Hb & Hbox & Hsrvs & Hd & Hrdy1).
  rewrite call_splits. unfold whole_call. erewrite bind_eq by exact Hb. cbv beta iota.
  rewrite Hnil, app_nil_l in Hbox. unfold mbind, M_bind. rewrite (lone_wait s1 _ Hd Hbox).
  unfold mbind, M_bind. rewrite deliver_unanswered; [|done|exact Hrdy1|].
  - unfold unanswered. destruct (hg_lost hg); [done|]. simpl. unfold mbind, M_bind, gets. simpl.
    by rewrite Hd.
  - right. exists srv, f. simpl. by rewrite Hsrvs.
Qed.

(** C31: one read stops a server.  The home of an open file is alive; a tracked
    read whose count has bit 31 set sends it a negative count, and that stops
    the home: when the request is handled it is no longer there, for any client,
    and the caller waits for ever (or aborts, when the transport reports the
    loss). *)
Theorem negative_count_stops_server s sh fd p off n srv :
  transparent cl others s sh → sh !! fd = Some (p, off) → servers s !! home cl p = Some srv →
  0 ≤ n < 2 ^ 63 → i32 n < 0 → read_stops_home s fd n p srv.
Proof.
  intros Htr Hsh Hsrv Hn Hneg.
  pose proof (unanswered_read_fails env cl others Hhg Hcl s sh fd p off n Htr Hsh Hn (or_intror Hneg)) as Hrun.
  destruct Htr as (Hc & live & dying & Hbox & Hs & Ht).
  destruct (tables_ok_slot cl _ _ _ _ _ _ Ht Hsh) as (x & Hx & <- & <- & Hm & Hr).
  destruct (fs_negative_law srv (i32 n) n (sl_rfd x) (-1)) as [f Hf]; [pose proof (i32_range n); word|].
  by apply (read_stops_home_intro s fd n _ (sl_rfd x) srv f); [..|apply (tk_ready _ _ _ _ Ht fd x)| | | | | |].
Qed.

(** A call that begins either returns with what the POSIX interface allows, or
    waits for its answer. *)
Lemma begin_ok s sh c :
  is_Some (getenv env "SLURM_PROCID") → client_ok s None sh → callable s c →
  ∃ b s', begin_call (hg := hg) env c s = Ok (b, s') ∧
    match b with
    | inl r => ∃ sh', posix_step names pfs sh c r sh' ∧ client_ok s' None sh'
    | inr p => client_ok s' (Some (c, p)) sh ∧ waits_from s c s'
    end.
Proof.
  intros Henv Hs Hc. destruct c as [path flags mode|fd n|fd n off|fd].
  - destruct (begin_open_ok s sh path flags mode Henv Hs Hc) as (p & s' & ? & ?). by exists (inr p), s'.
  - destruct (begin_read_ok s sh fd n Hs Hc) as (s' & ? & ?). by eexists (inr _), s'.
  - by apply begin_pread_ok.
  - destruct (begin_close_ok s sh fd Hs Hc) as (r & s' & sh' & ? & ? & ?).
    exists (inl r), s'. split; [done|]. by exists sh'.
Qed.

(** *** The answer *)

Lemma asked_same s s' sh live c p msg :
  same_client s s' → asked s sh live c p msg → asked s' sh live c p msg.
Proof.
  intros Hsame Ha. pose proof Hsame as (Hm & Hr & Ho & Hrdy).
  destruct Ha; [eapply asked_open|apply asked_read|apply asked_pread];
    rewrite ?Hm, ?Ho; eauto using tables_ok_same.
  eapply tables_ok_same; [|done]. by split_and!.
Qed.

Lemma phase_same s s' sh live dying w :
  done s' = done s → outbox s' = outbox s → read_ret s' = read_ret s → user_buf s' = user_buf s →
  same_client s s' → phase s sh live dying w → phase s' sh live dying w.
Proof.
  intros Hd Ho Hr Hb Hsame Hp.
  destruct Hp as [Hout Ht|c p msg Hdn Hrdy Hout Ha|c p sh' Hdn Hout Hin Hstep Ht|c p Hdn Hout].
  - apply idle; [congruence|by eapply tables_ok_same].
  - eapply sending; [congruence|by apply Hsame|by rewrite Ho|by eapply asked_same].
  - eapply answered; try congruence; [| |by eapply tables_ok_same].
    + destruct p; simpl in *; by rewrite ?Hr.
    + replace (answer p s') with (answer p s); [done|]. destruct p; simpl; congruence.
  - apply lost; congruence.
Qed.

(** The request of a waiting call is handled by its server. *)
Lemma deliver_asked_ok s sh live dying c p msg box :
  conn_ok cl s → connected s → done s = HG_FALSE → box = close_req <$> dying →
  slots_ok cl others (servers s) live dying → asked s sh live c p msg →
  deliverable (servers s) msg → is_Some (servers s !! msg.1) →
  ∃ s', deliver (hg := hg) msg (set_outbox box s) = Ok (tt, s') ∧ client_ok s' (Some (c, p)) sh ∧
    outbox s' = box ∧ done s' = HG_TRUE.
Proof.
  intros Hc Hrdy Hd -> Hs Ha Hdel [srv Hsrv].
  destruct (so_servers _ _ _ _ _ Hs _ _ Hsrv) as [Hok Hfiles].
  destruct Ha as [path flags mode fd p b q pos Hname Hp Hlive Hfd Hm Ht Hat Hq|fd n x Hx Hn Ht
    |fd n off x Hx Hn Hoff Ht]; simpl in *.
  - destruct (fs_open_law _ _ _ Hok (Hfiles _ _ Hp) (Hdel _ Hsrv))
      as (r & srv' & Hopen & Hok' & Hnew & Hfr & Hfresh).
    eexists. split; [by eapply deliver_open_eq|].
    assert (Hi : i32 (u32 fd) = fd) by word. rewrite Hi.
    split; [split; [destruct Hc; by split|]|split; [done|simpl; by rewrite Hd]]. eexists _, dying.
    split; [by eapply slots_ok_opened|]. eapply answered; [simpl; by rewrite Hd|done|done| |].
    + eapply posix_open; [done|by eexists| |lia]. by rewrite (tk_shadow _ _ _ _ Ht), Hlive.
    + eapply (tables_ok_opened _ _ _ _ _ _ (Slot (home cl p) r p 0 b)); try done.
      simpl. by rewrite insert_delete_eq, insert_id.
  - destruct (so_home _ _ _ _ _ Hs _ _ Hx) as [_ Hpx].
    pose proof (so_live _ _ _ _ _ Hs _ _ Hx _ Hsrv) as Hh.
    destruct (fs_read_law _ _ _ _ _ n n Hok Hh) as (r & d & srv' & Hread & Hok' & Hres & Hh' & Hfr);
      [done|lia|].
    eexists. split; [by eapply deliver_read_eq|].
    split; [split; [destruct Hc; by split|]|split; [done|simpl; by rewrite Hd]]. eexists _, dying.
    split; [by eapply slots_ok_moved|]. pose proof Hres as (Hr & _).
    eapply answered; [simpl; by rewrite Hd|done|simpl; lia| |].
    + eapply posix_read; [by rewrite (tk_shadow _ _ _ _ Ht), Hx|done|done].
    + apply (tables_ok_same cl s); [done|]. by apply tables_ok_moved.
  - destruct (so_home _ _ _ _ _ Hs _ _ Hx) as [_ Hpx].
    pose proof (so_live _ _ _ _ _ Hs _ _ Hx _ Hsrv) as Hh.
    destruct (fs_pread_law _ _ _ _ _ n n off Hok Hh) as (r & d & srv' & Hread & Hok' & Hres & Hfr);
      [done|lia|done|].
    eexists. split; [by eapply deliver_read_eq|].
    split; [split; [destruct Hc; by split|]|split; [done|simpl; by rewrite Hd]]. eexists _, dying.
    split; [by eapply slots_ok_background|]. pose proof Hres as (Hr & _).
    eapply answered; [simpl; by rewrite Hd|done|simpl; lia| |].
    + eapply posix_pread; [by rewrite (tk_shadow _ _ _ _ Ht), Hx|done|done].
    + by apply (tables_ok_same cl s).
Qed.

(** Its server has died: if the client survives, nothing has happened to it. *)
Lemma deliver_asked_dead s sh live c p msg box s' :
  connected s → asked s sh live c p msg → servers s !! msg.1 = None →
  deliver (hg := hg) msg (set_outbox box s) = Ok (tt, s') → s' = set_outbox box s.
Proof.
  intros Hrdy Ha Hsrv. destruct msg as [a req]. unfold deliver. erewrite bind_eq by done.
  simpl in *. rewrite Hsrv, lost_eq; [|done|done|by inversion Ha].
  destruct (hg_lost hg); [done|]. by intros [= <-].
Qed.

(** One of the pending closes is handled. *)
Lemma deliver_pending_ok s w sh live d1 y d2 box :
  conn_ok cl s → slots_ok cl others (servers s) live (d1 ++ y :: d2) →
  (∀ m', phase (set_servers m' (set_outbox box s)) sh live (d1 ++ d2) w) →
  ∃ m', deliver (hg := hg) (close_req y) (set_outbox box s) = Ok (tt, set_servers m' (set_outbox box s)) ∧
    client_ok (set_servers m' (set_outbox box s)) w sh ∧ keeps_room (servers s) m'.
Proof.
  intros Hc Hs Hph.
  destruct (deliver_close_ok cl others (hg := hg) (set_outbox box s) live y d1 d2 Hs) as (m' & Hrun & Hs' & Hk).
  exists m'. split; [done|]. split; [|done]. split; [destruct Hc; by split|].
  by exists live, (d1 ++ d2).
Qed.

(** A message in flight is the waiting request or a pending close. *)
Lemma outbox_split s w sh live dying b1 msg b2 :
  phase s sh live dying w → outbox s = b1 ++ msg :: b2 →
  (∃ c p, w = Some (c, p) ∧ done s = HG_FALSE ∧ connected s ∧ asked s sh live c p msg ∧
     b1 = close_req <$> dying ∧ b2 = []) ∨
  ∃ d1 y d2, dying = d1 ++ y :: d2 ∧ msg = close_req y ∧
    (∀ m', phase (set_servers m' (set_outbox (b1 ++ b2) s)) sh live (d1 ++ d2) w) ∧
    (w ≠ None → answerable s → last (b1 ++ b2) = last (outbox s)).
Proof.
  intros Hp Hbox.
  assert (Hcloses : outbox s = close_req <$> dying → ∃ d1 y d2, dying = d1 ++ y :: d2 ∧ msg = close_req y ∧
    b1 ++ b2 = close_req <$> (d1 ++ d2) ∧ ¬ answerable s).
  { intros Hout. rewrite Hbox in Hout. pose proof Hout as Hout'.
    symmetry in Hout. apply fmap_app_inv in Hout as (d1 & d' & -> & Hd' & ->).
    symmetry in Hd'. apply fmap_cons_inv in Hd' as (y & d2 & -> & -> & ->).
    exists d1, y, d2. rewrite fmap_app. split_and!; try done.
    intros (a & req & Hlast & Hreq & _). rewrite Hbox, Hout', fmap_last in Hlast.
    destruct (last _) as [z|]; [|done]. injection Hlast as _ <-. by eapply Hreq. }
  destruct Hp as [Hout Ht|c p msg' Hd Hrdy Hout Ha|c p sh' Hd Hout Hin Hstep Ht|c p Hd Hout].
  - right. destruct (Hcloses Hout) as (d1 & y & d2 & Hdy & Hm & Hb & _). exists d1, y, d2.
    split_and!; try done. intros m'. apply idle; [done|]. by apply (tables_ok_same cl s).
  - rewrite Hbox in Hout. symmetry in Hout.
    destruct (pending_split _ _ _ _ _ Hout) as [(-> & -> & ->)|(d1 & y & d2 & -> & -> & -> & ->)].
    + left. by exists c, p.
    + right. exists d1, y, d2. split_and!; try done.
      * intros m'. eapply sending; [done|done| |by eapply asked_same, Ha].
        simpl. by rewrite fmap_app, app_assoc.
      * intros _ _. rewrite Hbox, !app_assoc, app_comm_cons, app_assoc. by rewrite !last_snoc.
  - right. destruct (Hcloses Hout) as (d1 & y & d2 & Hdy & Hm & Hb & Hna). exists d1, y, d2.
    split_and!; try done. intros m'.
    apply answered with sh'; [done|done|by destruct p|by destruct p|by apply (tables_ok_same cl s)].
  - right. destruct (Hcloses Hout) as (d1 & y & d2 & Hdy & Hm & Hb & Hna). exists d1, y, d2.
    split_and!; try done. intros m'. by apply lost.
Qed.

Lemma answerable_deliverable s wt sh b1 msg b2 :
  client_ok s (Some wt) sh → outbox s = b1 ++ msg :: b2 → answerable s → deliverable (servers s) msg.
Proof.
  intros (_ & live & dying & _ & Hp) Hbox (a & req & Hlast & _ & _ & Hr).
  destruct (outbox_split _ _ _ _ _ _ _ _ Hp Hbox) as [(c & p & _ & _ & _ & _ & _ & ->)|(d1 & y & d2 & _ & -> & _)];
    [|done]. rewrite Hbox, last_snoc in Hlast. by injection Hlast as ->.
Qed.

(** Whatever message is handled, and whatever comes of it. *)
Lemma deliver_keeps s w sh b1 msg b2 s' :
  client_ok s w sh → outbox s = b1 ++ msg :: b2 → deliverable (servers s) msg →
  deliver (hg := hg) msg (set_outbox (b1 ++ b2) s) = Ok (tt, s') →
  client_ok s' w sh ∧ outbox s' = b1 ++ b2.
Proof.
  intros (Hc & live & dying & Hs & Hp) Hbox Hdel Hrun.
  destruct (outbox_split _ _ _ _ _ _ _ _ Hp Hbox)
    as [(c & p & -> & Hd & Hrdy & Ha & -> & ->)|(d1 & y & d2 & -> & -> & Hph & _)].
  - rewrite app_nil_r in *. destruct (servers s !! msg.1) as [srv|] eqn:Hsrv.
    + destruct (deliver_asked_ok s sh live dying c p msg _ Hc Hrdy Hd eq_refl Hs Ha Hdel)
        as (s1 & Hrun1 & Hok & Hbox1 & _); [by eexists|].
      pose proof (eq_trans (eq_sym Hrun) Hrun1) as [= ->]. by split.
    + rewrite (deliver_asked_dead _ _ _ _ _ _ _ _ Hrdy Ha Hsrv Hrun). split; [|done].
      split; [destruct Hc; by split|]. exists live, dying. split; [done|]. by apply lost.
  - destruct (deliver_pending_ok s w sh live d1 y d2 _ Hc Hs Hph) as (m' & Hrun1 & Hok & _).
    pose proof (eq_trans (eq_sym Hrun) Hrun1) as [= ->]. by split.
Qed.

(** Between calls, and behind a request that will be answered, every message is
    handled. *)
Lemma deliver_succeeds s w sh b1 msg b2 :
  client_ok s w sh → outbox s = b1 ++ msg :: b2 → deliverable (servers s) msg →
  w = None ∨ answerable s →
  ∃ s', deliver (hg := hg) msg (set_outbox (b1 ++ b2) s) = Ok (tt, s') ∧
    (is_Some w → done s' = HG_TRUE ∨ answerable s').
Proof.
  intros (Hc & live & dying & Hs & Hp) Hbox Hdel Hw.
  destruct (outbox_split _ _ _ _ _ _ _ _ Hp Hbox)
    as [(c & p & -> & Hd & Hrdy & Ha & -> & ->)|(d1 & y & d2 & -> & -> & Hph & Hlast)].
  - destruct Hw as [|(a & req & Hla & _ & Hup & _)]; [done|]. rewrite Hbox, last_snoc in Hla.
    injection Hla as ->. rewrite app_nil_r.
    destruct (deliver_asked_ok s sh live dying c p (a, req) _ Hc Hrdy Hd eq_refl Hs Ha Hdel Hup)
      as (s1 & Hrun1 & _ & _ & Hd1). exists s1. split; [done|]. by left.
  - destruct (deliver_pending_ok s w sh live d1 y d2 _ Hc Hs Hph) as (m' & Hrun1 & _ & _ & Hroom).
    eexists. split; [exact Hrun1|]. intros [wt Hwt]. right. destruct Hw as [|Hans]; [congruence|].
    specialize (Hlast ltac:(congruence) Hans).
    destruct Hans as (a & req & Hla & Hreq & [srv Hsrv] & Hr).
    destruct (Hroom _ _ Hsrv) as (srv' & Hsrv' & Hr'). exists a, req. simpl. rewrite Hlast.
    split_and!; [done|done|by eexists|]. destruct req; try done. intros srv2 Hsrv2. simpl in *.
    simplify_eq. by apply Hr', Hr.
Qed.

(** A call whose answer is there returns it. *)
Lemma finish_ok s c p sh :
  client_ok s (Some (c, p)) sh → done s = HG_TRUE →
  ∃ r s' sh', finish_call p s = Ok (r, s') ∧ posix_step names pfs sh c r sh' ∧ client_ok s' None sh'.
Proof.
  intros (Hc & live & dying & Hs & Hp) Hd.
  inversion Hp as [|c' p' msg Hd'|c' p' sh' _ Hout Hr Hstep Ht|c' p' Hd']; subst;
    [by rewrite Hd in Hd'| |by rewrite Hd in Hd'].
  assert (Hfin : ∃ st, finish_call p s = Ok (answer p s, set_stats st s)).
  { destruct p as [fd|fd n|fd n off]; simpl in Hr; eexists; unfold finish_call, answer;
      [done|erewrite bind_eq by done; by apply finish_read_eq
      |erewrite bind_eq by done; apply finish_pread_eq; lia]. }
  destruct Hfin as [st Hfin]. eexists _, _, sh'. split; [exact Hfin|]. split; [done|].
  split; [by apply conn_ok_stats|]. exists live, dying. split; [done|]. constructor; [done|].
  by apply (tables_ok_same cl s).
Qed.
End Client.

(** ** The job at the level of messages *)

Section Net.
Context {W Srv : Type} `{!Posix W, !PosixLaws W, !PosixReliable W}.
Context `{!FileServer Srv, !FileServerLaws Srv, !StringHash} {hg : mercury}.
Variable env : nat → environ.
Variable cl : cluster.
Abbreviation sys := (system W Srv).
Abbreviation names := (cl_names cl).
Abbreviation pfs := (cl_files cl).
Variable background : Srv → Srv → Prop.
Implicit Types (L : nat → gmap Z slot) (D : nat → list slot) (sh : nat → shadow).

(** A job whose clients may be in the middle of a call. *)
Record net := Net {
  the_job : job (W := W) (Srv := Srv);
  waits : nat → option (call * pending)
}.

Definition at_rest (j : job) : net := Net j (λ _, None).
Definition moved (n : net) (i : nat) (s : sys) (w : option (call * pending)) : net :=
  Net (after (the_job n) i s) (<[i := w]> (waits n)).
Definition with_servers (n : net) (m : gmap string Srv) : net :=
  Net (Job (clients (the_job n)) m) (waits n).
(** Client [i], with the servers as they are. *)
Definition client (n : net) (i : nat) : option sys := view (the_job n) <$> clients (the_job n) !! i.

(** Events are the calls that end, with their results. *)
Inductive net_run : net → list (nat * (call * result)) → net → Prop :=
  | net_nil n : net_run n [] n
  | net_return n i s c r s' t n' :
      client n i = Some s → waits n i = None → callable cl s c →
      begin_call (hg := hg) (env i) c s = Ok (inl r, s') →
      net_run (moved n i s' None) t n' → net_run n ((i, (c, r)) :: t) n'
  | net_begin n i s c p s' t n' :
      client n i = Some s → waits n i = None → callable cl s c →
      begin_call (hg := hg) (env i) c s = Ok (inr p, s') →
      net_run (moved n i s' (Some (c, p))) t n' → net_run n t n'
  | net_deliver n i s b1 msg b2 s' t n' :
      client n i = Some s → outbox s = b1 ++ msg :: b2 → deliverable (servers s) msg →
      deliver (hg := hg) msg (set_outbox (b1 ++ b2) s) = Ok (tt, s') →
      net_run (moved n i s' (waits n i)) t n' → net_run n t n'
  | net_finish n i s c p r s' t n' :
      client n i = Some s → waits n i = Some (c, p) → done s = HG_TRUE →
      finish_call p s = Ok (r, s') →
      net_run (moved n i s' None) t n' → net_run n ((i, (c, r)) :: t) n'
  | net_background n a srv srv' t n' :
      job_servers (the_job n) !! a = Some srv → background srv srv' →
      net_run (with_servers n (<[a := srv']> (job_servers (the_job n)))) t n' → net_run n t n'
  | net_died n a t n' :
      net_run (with_servers n (delete a (job_servers (the_job n)))) t n' → net_run n t n'
  | net_start n i w k s t n' :
      clients (the_job n) !! i = None → files_at cl w →
      getenv (env i) "HVAC_SERVER_COUNT" = Some k → u32 (atoi k) = cl_count cl →
      hvac_client_init (env i) (unstarted w (job_servers (the_job n)) (cl_text cl)) = Ok (tt, s) →
      net_run (moved n i s None) t n' → net_run n t n'.

Lemma net_run_app n t1 n1 t2 n2 : net_run n t1 n1 → net_run n1 t2 n2 → net_run n (t1 ++ t2) n2.
Proof. intros H1 H2. induction H1; simpl; [done|econstructor; by eauto..]. Qed.

Lemma history_call i k c r t (sh sh' : nat → shadow) shi :
  posix_step names pfs (sh i) c r shi →
  (∀ k, posix_run names pfs (<[i := shi]> sh k) (history k t) (sh' k)) →
  posix_run names pfs (sh k) (history k ((i, (c, r)) :: t)) (sh' k).
Proof.
  intros Hstep Hh. specialize (Hh k). rewrite history_cons. case_decide as Hk.
  - subst k. rewrite fn_lookup_insert in Hh. by econstructor.
  - by rewrite fn_lookup_insert_ne in Hh.
Qed.

Lemma posix_run_app (o0 : shadow) t1 (o1 : shadow) t2 (o2 : shadow) :
  posix_run names pfs o0 t1 o1 → posix_run names pfs o1 t2 o2 → posix_run names pfs o0 (t1 ++ t2) o2.
Proof.
  intros H1 H2. induction H1 as [|o0 c r o1 t o3 ? _ IH]; simpl; [done|].
  econstructor; [done|]. by apply IH.
Qed.

(** *** The invariant *)

Record net_inv (n : net) sh L D : Prop := {
  ni_conn : ∀ i s, client n i = Some s → conn_ok cl s;
  ni_phase : ∀ i s, client n i = Some s → phase cl s (sh i) (L i) (D i) (waits n i);
  ni_slots : ∀ i, slots_ok cl (foreign L D i) (job_servers (the_job n)) (L i) (D i);
  ni_absent : ∀ i, clients (the_job n) !! i = None →
    L i = ∅ ∧ D i = [] ∧ sh i = ∅ ∧ waits n i = None
}.

Definition net_ok (n : net) sh : Prop := ∃ L D, net_inv n sh L D.

Lemma client_moved n i s w k t :
  client (moved n i s w) k = Some t →
  (k = i ∧ t = s) ∨ (k ≠ i ∧ ∃ t0, client n k = Some t0 ∧ t = set_servers (servers s) t0).
Proof.
  unfold client, moved. simpl. destruct (decide (i = k)) as [<-|Hne].
  - rewrite lookup_insert_eq. intros [= <-]. left. split; [done|]. by destruct s.
  - rewrite lookup_insert_ne by done. destruct (clients (the_job n) !! k) as [t0|]; [|done].
    intros [= <-]. right. split; [done|]. by eexists.
Qed.

Lemma net_inv_client n sh L D i s :
  net_inv n sh L D → client n i = Some s → client_ok cl (foreign L D i) s (waits n i) (sh i).
Proof.
  intros Hn Hi. split; [by eapply ni_conn|]. exists (L i), (D i). split; [|by apply Hn].
  unfold client in Hi. destruct (clients _ !! i); [|done]. injection Hi as <-. by apply Hn.
Qed.

(** A step of one client keeps what the others rely on. *)
Lemma net_ok_moved n sh L D i s w shi :
  net_inv n sh L D → client_ok cl (foreign L D i) s w shi →
  net_ok (moved n i s w) (<[i := shi]> sh).
Proof.
  intros Hn (Hc & live & dying & Hs & Hp). exists (<[i := live]> L), (<[i := dying]> D). split.
  - intros k t [[-> ->]|(Hne & t0 & Hk & ->)]%client_moved; [done|].
    destruct (ni_conn _ _ _ _ Hn _ _ Hk). by split.
  - intros k t [[-> ->]|(Hne & t0 & Hk & ->)]%client_moved; simpl.
    + by rewrite !fn_lookup_insert.
    + rewrite !fn_lookup_insert_ne by done. by apply (phase_same cl t0); [..|by apply (ni_phase _ _ _ _ Hn)].
  - intros k. simpl. destruct (decide (i = k)) as [<-|Hne].
    + rewrite !fn_lookup_insert. eapply slots_ok_weaken, Hs. apply foreign_self.
    + rewrite (fn_lookup_insert_ne L), (fn_lookup_insert_ne D) by done.
      eapply slots_ok_other; [done|by apply Hn|done].
  - intros k. simpl. intros [Hk Hne]%lookup_insert_None. rewrite !fn_lookup_insert_ne by done. by apply Hn.
Qed.

Lemma net_ok_ext n sh sh' : (∀ i, sh i = sh' i) → net_ok n sh → net_ok n sh'.
Proof.
  intros Heq (L & D & [H1 H2 H3 H4]). exists L, D. split; try done.
  - intros i s. rewrite <- Heq. apply H2.
  - intros i. rewrite <- Heq. apply H4.
Qed.

(** The servers change, and every slot is where it was. *)
Lemma net_ok_servers n sh m :
  (∀ P live dying, slots_ok cl P (job_servers (the_job n)) live dying → slots_ok cl P m live dying) →
  net_ok n sh → net_ok (with_servers n m) sh.
Proof.
  intros Hm (L & D & Hn). exists L, D.
  assert (Hcl : ∀ i t, client (with_servers n m) i = Some t →
    ∃ t0, client n i = Some t0 ∧ t = set_servers m t0).
  { intros i t. unfold client. simpl. destruct (clients _ !! i) as [t0|]; [|done].
    intros [= <-]. by eexists. }
  split.
  - intros i t (t0 & Ht & ->)%Hcl. destruct (ni_conn _ _ _ _ Hn _ _ Ht). by split.
  - intros i t (t0 & Ht & ->)%Hcl. by apply (phase_same cl t0); [..|by apply (ni_phase _ _ _ _ Hn)].
  - intros i. apply Hm, Hn.
  - apply Hn.
Qed.

Hypothesis Hhg : mercury_ok hg.
Hypothesis Hcl : cluster_ok cl.
Hypothesis background_ok :
  ∀ srv srv', fs_ok srv → background srv srv' → fs_ok srv' ∧ fs_frame None srv srv'.
Hypothesis Hrank : ∀ i, is_Some (getenv (env i) "SLURM_PROCID").

Lemma net_servers_ok n sh : net_ok n sh → servers_ok cl (job_servers (the_job n)).
Proof. intros (L & D & Hn). unfold servers_ok. apply (ni_slots _ _ _ _ Hn 0%nat). Qed.

Lemma net_background_ok n sh a srv srv' :
  net_ok n sh → job_servers (the_job n) !! a = Some srv → background srv srv' →
  net_ok (with_servers n (<[a := srv']> (job_servers (the_job n)))) sh.
Proof.
  intros Hn Ha Hb. destruct (net_servers_ok _ _ Hn _ _ Ha) as [Hok _].
  destruct (background_ok _ _ Hok Hb) as [Hok' Hfr]. apply net_ok_servers; [|done].
  intros P live dying Hs. by eapply slots_ok_background.
Qed.

Lemma net_begin_ok n sh i s c :
  net_ok n sh → client n i = Some s → waits n i = None → callable cl s c →
  ∃ b s', begin_call (hg := hg) (env i) c s = Ok (b, s') ∧
    match b with
    | inl r => ∃ shi, posix_step names pfs (sh i) c r shi ∧ net_ok (moved n i s' None) (<[i := shi]> sh)
    | inr p => net_ok (moved n i s' (Some (c, p))) (<[i := sh i]> sh) ∧ waits_from cl s c s'
    end.
Proof.
  intros (L & D & Hn) Hi Hw Hc. pose proof (net_inv_client _ _ _ _ _ _ Hn Hi) as Hs. rewrite Hw in Hs.
  destruct (begin_ok (env i) cl _ Hhg Hcl s (sh i) c (Hrank i) Hs Hc) as (b & s' & Hrun & Hb).
  exists b, s'. split; [done|].
  destruct b as [r|p]; [|by destruct Hb as [Hs' ?]; split; [eapply net_ok_moved|]].
  destruct Hb as (shi & Hstep & Hs'). exists shi. split; [done|]. by eapply net_ok_moved.
Qed.

Lemma net_deliver_ok n sh i s b1 msg b2 s' :
  net_ok n sh → client n i = Some s → outbox s = b1 ++ msg :: b2 → deliverable (servers s) msg →
  deliver (hg := hg) msg (set_outbox (b1 ++ b2) s) = Ok (tt, s') →
  net_ok (moved n i s' (waits n i)) (<[i := sh i]> sh) ∧ outbox s' = b1 ++ b2.
Proof.
  intros (L & D & Hn) Hi Hbox Hd Hdel.
  destruct (deliver_keeps cl _ Hhg s _ _ b1 msg b2 s' (net_inv_client _ _ _ _ _ _ Hn Hi) Hbox Hd Hdel)
    as [Hs' ?]. split; [|done]. by eapply net_ok_moved.
Qed.

Lemma net_finish_ok n sh i s c p :
  net_ok n sh → client n i = Some s → waits n i = Some (c, p) → done s = HG_TRUE →
  ∃ r s' shi, finish_call p s = Ok (r, s') ∧ posix_step names pfs (sh i) c r shi ∧
    net_ok (moved n i s' None) (<[i := shi]> sh).
Proof.
  intros (L & D & Hn) Hi Hw Hd. pose proof (net_inv_client _ _ _ _ _ _ Hn Hi) as Hs. rewrite Hw in Hs.
  destruct (finish_ok cl _ s c p (sh i) Hs Hd) as (r & s' & shi & Hrun & Hstep & Hs').
  exists r, s', shi. split; [done|]. split; [done|]. by eapply net_ok_moved.
Qed.

Lemma net_start_ok n sh i w k s :
  net_ok n sh → clients (the_job n) !! i = None → files_at cl w →
  getenv (env i) "HVAC_SERVER_COUNT" = Some k → u32 (atoi k) = cl_count cl →
  hvac_client_init (env i) (unstarted w (job_servers (the_job n)) (cl_text cl)) = Ok (tt, s) →
  net_ok (moved n i s None) (<[i := sh i]> sh).
Proof.
  intros Hok Hi [Hf Hnm] Hk Hcount Hinit. pose proof (net_servers_ok _ _ Hok) as Hsrv.
  destruct Hok as (L & D & Hn).
  destruct (client_init_ok (env i) cl (foreign L D i) w (job_servers (the_job n)) k)
    as (s1 & Hinit' & _ & Htr); try done; [by intros y; eapply foreign_good, Hn|].
  rewrite Hinit in Hinit'. injection Hinit' as <-.
  destruct (ni_absent _ _ _ _ Hn _ Hi) as (_ & _ & -> & _).
  eapply net_ok_moved; [done|]. by apply client_ok_idle.
Qed.

Lemma empty_net_ok m : servers_ok cl m → net_ok (at_rest (Job ∅ m)) (λ _, ∅).
Proof.
  intros Hm. destruct (empty_job_ok cl m Hm) as (L & D & [H1 H2 H3 H4 H5]). exists L, D.
  split; [done|done|done|]. intros i Hi. destruct (H5 i Hi) as (? & ? & ?). by split_and!.
Qed.

Lemma net_run_ok n t n' :
  net_run n t n' → ∀ sh, net_ok n sh →
  ∃ sh', (∀ i, posix_run names pfs (sh i) (history i t) (sh' i)) ∧ net_ok n' sh'.
Proof.
  induction 1 as [n|n i s c r s' t n' Hi Hw Hc Hb _ IH|n i s c p s' t n' Hi Hw Hc Hb _ IH
    |n i s b1 msg b2 s' t n' Hi Hbox Hd Hdel _ IH|n i s c p r s' t n' Hi Hw Hd Hf _ IH
    |n a srv srv' t n' Ha Hb _ IH|n a t n' _ IH|n i w k s t n' Hi Hw Hk Hcount Hinit _ IH]; intros sh Hn.
  - exists sh. split; [intros i; constructor|done].
  - destruct (net_begin_ok n sh i s c Hn Hi Hw Hc) as (b & s1 & Hb' & Hn1).
    rewrite Hb in Hb'. injection Hb' as <- <-. destruct Hn1 as (shi & Hstep & Hn1).
    destruct (IH _ Hn1) as (sh' & Hh & Hn'). exists sh'. split; [|done]. intros k. by eapply history_call.
  - destruct (net_begin_ok n sh i s c Hn Hi Hw Hc) as (b & s1 & Hb' & Hn1).
    rewrite Hb in Hb'. injection Hb' as <- <-. destruct Hn1 as [Hn1 _]. apply IH. by eapply net_ok_ext, Hn1; intros; apply fn_insert_id.
  - destruct (net_deliver_ok n sh i s b1 msg b2 s' Hn Hi Hbox Hd Hdel) as [Hn1 _]. apply IH. by eapply net_ok_ext, Hn1; intros; apply fn_insert_id.
  - destruct (net_finish_ok n sh i s c p Hn Hi Hw Hd) as (r1 & s1 & shi & Hf' & Hstep & Hn1).
    rewrite Hf in Hf'. injection Hf' as <- <-.
    destruct (IH _ Hn1) as (sh' & Hh & Hn'). exists sh'. split; [|done]. intros k. by eapply history_call.
  - apply IH. by eapply net_background_ok.
  - apply IH. apply net_ok_servers; [|done]. intros P live dying. apply slots_ok_died.
  - apply IH. eapply net_ok_ext, net_start_ok; [|done..]. intros; by apply fn_insert_id.
Qed.

(** Each client has seen a POSIX history, can begin a call when it is between
    calls, and returns from one whose answer is there. *)
Definition sees_posix (t : list (nat * (call * result))) (n : net) : Prop :=
  ∀ i, ∃ o : shadow, posix_run names pfs ∅ (history i t) o ∧
    (∀ s c, client n i = Some s → waits n i = None → callable cl s c →
      ∃ b s', begin_call (hg := hg) (env i) c s = Ok (b, s') ∧
        ∀ r, b = inl r → ∃ o', posix_run names pfs ∅ (history i t ++ [(c, r)]) o') ∧
    (∀ s c p, client n i = Some s → waits n i = Some (c, p) → done s = HG_TRUE →
      ∃ r s' o', finish_call p s = Ok (r, s') ∧
        posix_run names pfs ∅ (history i t ++ [(c, r)]) o').

Lemma run_sees_posix m t n : servers_ok cl m → net_run (at_rest (Job ∅ m)) t n → sees_posix t n.
Proof.
  intros Hm Hrun i. destruct (net_run_ok _ _ _ Hrun _ (empty_net_ok m Hm)) as (sh & Hh & Hn).
  exists (sh i). split; [apply Hh|]. split.
  - intros s c Hi Hw Hc. destruct (net_begin_ok n sh i s c Hn Hi Hw Hc) as (b & s' & Hb & Hb').
    exists b, s'. split; [done|]. intros r ->. destruct Hb' as (shi & Hstep & _). exists shi.
    eapply posix_run_snoc; [apply Hh|done].
  - intros s c p Hi Hw Hd. destruct (net_finish_ok n sh i s c p Hn Hi Hw Hd) as (r & s' & shi & Hf & Hstep & _).
    exists r, s', shi. split; [done|]. eapply posix_run_snoc; [apply Hh|done].
Qed.

(** C2: the messages of the clients of a job interleave.  From servers that
    hold the data set, let clients start, begin calls, wait, and return, while
    the messages of all of them are handled one at a time, in any order, with the
    servers' own steps and deaths in between: each client has seen a history of the POSIX interface
    on the original files.  A client between calls can begin any call the
    interface allows it, and a client whose answer is there returns it, with a
    result that continues its history. *)
Theorem messages_transparent m t n :
  servers_ok cl m → net_run (at_rest (Job ∅ m)) t n → sees_posix t n.
Proof. apply run_sees_posix. Qed.

(** C18: no callback runs behind the back of the application.  While a client is
    between calls, what is left of its messages are close requests: when one is
    handled, the globals of the client stay as they are. *)
Theorem idle_delivery_is_silent m t n i s b1 msg b2 :
  servers_ok cl m → net_run (at_rest (Job ∅ m)) t n →
  client n i = Some s → waits n i = None → outbox s = b1 ++ msg :: b2 →
  ∃ m', deliver (hg := hg) msg (set_outbox (b1 ++ b2) s) = Ok (tt, set_servers m' (set_outbox (b1 ++ b2) s)).
Proof.
  intros Hm Hrun Hi Hw Hbox. destruct (net_run_ok _ _ _ Hrun _ (empty_net_ok m Hm)) as (sh & _ & L & D & Hn).
  destruct (net_inv_client _ _ _ _ _ _ Hn Hi) as (Hc & live & dying & Hs & Hp). rewrite Hw in Hp.
  destruct (outbox_split _ _ _ _ _ _ _ _ _ Hp Hbox) as [(c & p & ? & _)|(d1 & y & d2 & -> & -> & Hph & _)];
    [done|].
  destruct (deliver_pending_ok cl _ (hg := hg) s _ _ live d1 y d2 _ Hc Hs Hph) as (m' & Hd & _). by exists m'.
Qed.

(** Case analysis on what a computation is stuck on. *)
Ltac unstick :=
  match goal with
  | |- context [match ?x with _ => _ end] =>
      lazymatch x with
      | context [match _ with _ => _ end] => fail
      | _ => destruct x
      end
  end.

(** Delivery does not look at the outbox. *)
Lemma deliver_outbox msg box (s : sys) :
  deliver (hg := hg) msg (set_outbox box s) =
  match deliver (hg := hg) msg (set_outbox [] s) with
  | Ok (u, s') => Ok (u, set_outbox box s')
  | Fault f => Fault f
  end.
Proof.
  destruct msg as [a req], s.
  unfold deliver, CommClient.lost, callback, hvac_open_cb, hvac_read_cb, hvac_seek_cb, signal_done,
    cassert, when, fail, mbind, M_bind, gets, modify, mret, M_ret; simpl.
  repeat (unstick; simpl; try done).
Qed.

Lemma client_after n i s w : client (moved n i s w) i = Some s.
Proof. unfold client. simpl. rewrite lookup_insert_eq. by destruct s. Qed.

(** The messages of a waiting client are handled up to its answer: the wait of
    the call, as a run of the job. *)
Lemma answer_arrives i c p k : ∀ n sh s,
  net_ok n sh → client n i = Some s → waits n i = Some (c, p) → length (outbox s) = k →
  done s ≠ HG_TRUE → answerable s →
  ∃ n' sh' s', progress_until_done (hg := hg) k (outbox s) (set_outbox [] s) = Ok (tt, s') ∧
    (∀ t n'', net_run n' t n'' → net_run n t n'') ∧ net_ok n' sh' ∧
    the_job n' = after (the_job n) i s' ∧ waits n' i = Some (c, p) ∧
    (∀ k, k ≠ i → waits n' k = waits n k) ∧ done s' = HG_TRUE.
Proof.
  induction k as [|k IH]; intros n sh s Hn Hi Hw Hlen Hnd Hans.
  - destruct Hans as (a & req & Hlast & _). by destruct (outbox s).
  - destruct (next_request_Some (hg := hg) (outbox s)) as (b1 & msg & b2 & Hbox & Hnext);
      [by intros Hnil; rewrite Hnil in Hlen|].
    assert (Hok : ∃ P, client_ok cl P s (Some (c, p)) (sh i)).
    { destruct Hn as (L & D & Hn). eexists. rewrite <- Hw. by eapply net_inv_client. }
    destruct Hok as [P Hok].
    pose proof (answerable_deliverable cl P s _ _ b1 msg b2 Hok Hbox Hans) as Hd.
    destruct (deliver_succeeds cl P Hhg s _ _ b1 msg b2 Hok Hbox Hd ltac:(by right)) as (s1 & Hdel & Hans1).
    specialize (Hans1 ltac:(by eexists)).
    destruct (net_deliver_ok n sh i s b1 msg b2 s1 Hn Hi Hbox Hd Hdel) as [Hn1 Hbox1].
    set (n1 := moved n i s1 (waits n i)) in *.
    assert (Hw1 : ∀ k, waits n1 k = waits n k) by (intros k'; by apply fn_insert_id).
    assert (Hfwd : ∀ t n'', net_run n1 t n'' → net_run n t n'').
    { intros t n'' Hrun. by eapply net_deliver. }
    assert (Hlen1 : length (outbox s1) = k).
    { rewrite Hbox, length_app in Hlen. simpl in Hlen. rewrite Hbox1, length_app. lia. }
    assert (Hstep : progress_until_done (hg := hg) (S k) (outbox s) (set_outbox [] s) =
                    progress_until_done (hg := hg) k (outbox s1) (set_outbox [] s1)).
    { rewrite (progress_next (set_outbox [] s) _ _ _ _ Hnd Hnext). rewrite deliver_outbox in Hdel.
      destruct (deliver msg (set_outbox [] s)) as [[[] s2]|] eqn:E; [|done].
      pose proof E as Hid. rewrite deliver_outbox, E in Hid. injection Hid as Hid. injection Hdel as <-.
      erewrite bind_eq by exact E. f_equal. rewrite <- Hid. by destruct s2. }
    rewrite Hstep. destruct (decide (done s1 = HG_TRUE)) as [Hdone|Hnd1].
    + exists n1, (<[i := sh i]> sh), s1. rewrite progress_done by done. split_and!; try done.
      * by destruct s1.
      * by rewrite Hw1.
    + destruct Hans1 as [?|Hans1]; [done|].
      destruct (IH n1 _ s1 Hn1 (client_after _ _ _ _) ltac:(by rewrite Hw1) Hlen1 Hnd1 Hans1)
        as (n' & sh' & s' & Hp & Hf & ? & Hj & ? & Hwk & ?).
      exists n', sh', s'. split_and!; try done.
      * intros t n'' Hrun. by apply Hfwd, Hf.
      * rewrite Hj. unfold n1, after. simpl. by rewrite insert_insert_eq.
      * intros k' Hk. by rewrite Hwk, Hw1.
Qed.

(** C3: a waiting call returns once its messages are handled.  In any state of
    such a run, let client [i] wait for a request whose server is alive (and has
    a free descriptor, for an open): handling the client's own messages, in the
    order the transport chooses, raises its flag, and the call ends with a result
    that continues its history. *)
Theorem waiting_call_returns m t n i s c p :
  servers_ok cl m → net_run (at_rest (Job ∅ m)) t n →
  client n i = Some s → waits n i = Some (c, p) → done s ≠ HG_TRUE → answerable s →
  ∃ r n' o, net_run n [(i, (c, r))] n' ∧ waits n' i = None ∧
    posix_run names pfs ∅ (history i t ++ [(c, r)]) o.
Proof.
  intros Hm Hrun Hi Hw Hnd Hans.
  destruct (net_run_ok _ _ _ Hrun _ (empty_net_ok m Hm)) as (sh & Hh & Hn).
  destruct (answer_arrives i c p (length (outbox s)) n sh s Hn Hi Hw eq_refl Hnd Hans)
    as (n1 & sh1 & s1 & _ & Hfwd & Hn1 & Hj1 & Hw1 & _ & Hd1).
  assert (Hi1 : client n1 i = Some s1).
  { unfold client. rewrite Hj1. simpl. rewrite lookup_insert_eq. by destruct s1. }
  destruct (net_finish_ok n1 sh1 i s1 c p Hn1 Hi1 Hw1 Hd1) as (r & s2 & shi & Hf & _ & Hn2).
  assert (Hrun2 : net_run n [(i, (c, r))] (moved n1 i s2 None)).
  { apply Hfwd. eapply net_finish; [done..|constructor]. }
  destruct (net_run_ok _ _ _ Hrun2 _ Hn) as (sh2 & Hh2 & _).
  exists r, (moved n1 i s2 None), (sh2 i). split; [done|]. split; [by simpl; rewrite fn_lookup_insert|].
  specialize (Hh2 i). rewrite history_cons, decide_True in Hh2 by done.
  by eapply posix_run_app.
Qed.

(** *** Calls in one piece *)

Lemma legal_callable s c : legal cl s c → callable cl s c.
Proof.
  destruct c as [path flags mode|fd k|fd k off|fd]; simpl; [| | |done].
  - intros (? & ? & p & b & _ & ? & ? & _). split_and!; [done..|]. by exists p, b.
  - intros [(p & ? & _) ?]. split; [by exists p|done].
  - intros [(p & ? & _) ?]. split; [by exists p|done].
Qed.

(** A legal call of the job, made in one piece, as a run. *)
Lemma call_is_messages n sh i s c r s' :
  net_ok n sh → client n i = Some s → (∀ k, waits n k = None) → legal cl s c →
  run_call (hg := hg) (env i) c s = Ok (r, s') →
  ∃ n' sh', the_job n' = after (the_job n) i s' ∧ (∀ k, waits n' k = None) ∧ net_ok n' sh' ∧
    ∀ t n'', net_run n' t n'' → net_run n ((i, (c, r)) :: t) n''.
Proof.
  intros Hn Hi Hw Hl Hrun. rewrite call_splits in Hrun. pose proof (legal_callable _ _ Hl) as Hc.
  destruct (net_begin_ok n sh i s c Hn Hi (Hw i) Hc) as (b & s1 & Hb & Hb').
  unfold whole_call in Hrun. erewrite bind_eq in Hrun by exact Hb.
  destruct b as [r1|p].
  - injection Hrun as -> ->. destruct Hb' as (shi & _ & Hn1).
    exists (moved n i s' None), (<[i := shi]> sh). split_and!; [done| |done|].
    + intros k. simpl. by rewrite fn_insert_id.
    + intros t n'' Hrun. by eapply net_return.
  - destruct Hb' as [Hn1 [Hd1 Hans]]. set (n1 := moved n i s1 (Some (c, p))) in *.
    destruct (answer_arrives i c p (length (outbox s1)) n1 _ s1 Hn1 (client_after _ _ _ _)) as
      (n2 & sh2 & s2 & Hp & Hfwd & Hn2 & Hj2 & Hw2 & Hwk & Hd2); [|done|by rewrite Hd1|by apply Hans|].
    { simpl. by rewrite fn_lookup_insert. }
    assert (Hi2 : client n2 i = Some s2).
    { unfold client. rewrite Hj2. simpl. rewrite lookup_insert_eq. by destruct s2. }
    destruct (net_finish_ok n2 sh2 i s2 c p Hn2 Hi2 Hw2 Hd2) as (r2 & s3 & shi & Hf & _ & Hn3).
    unfold hvac_client_block in Hrun. rewrite !bind_assoc in Hrun.
    erewrite bind_eq in Hrun by done. rewrite bind_assoc in Hrun. erewrite bind_eq in Hrun by done.
    erewrite bind_eq in Hrun by exact Hp. rewrite Hf in Hrun. injection Hrun as -> ->.
    exists (moved n2 i s' None), (<[i := shi]> sh2). split_and!; [| |done|].
    + simpl. rewrite Hj2. unfold n1, after. simpl. by rewrite !insert_insert_eq.
    + intros k. simpl. destruct (decide (i = k)) as [<-|Hne]; [by rewrite fn_lookup_insert|].
      rewrite fn_lookup_insert_ne, Hwk by done. simpl. by rewrite fn_lookup_insert_ne.
    + intros t n'' Hrun. eapply net_begin; [done|apply Hw|done..|]. apply Hfwd.
      by eapply net_finish.
Qed.

Lemma job_run_is_messages j t j' :
  job_run (hg := hg) env cl background j t j' →
  ∀ n sh, the_job n = j → (∀ k, waits n k = None) → net_ok n sh →
  ∃ n', the_job n' = j' ∧ (∀ k, waits n' k = None) ∧ net_run n t n'.
Proof.
  induction 1 as [j|j i s c r s' t j' Hi Hl Hcall _ IH|j i s s' t j' Hi Hp _ IH
    |j a srv srv' t j' Ha Hb _ IH|j a t j' _ IH|j i w k s t j' Hi Hw' Hk Hcount Hinit _ IH];
    intros n sh <- Hw Hn.
  - exists n. split_and!; [done..|constructor].
  - destruct (call_is_messages n sh i (view (the_job n) s) c r s' Hn) as (n1 & sh1 & Hj1 & Hw1 & Hn1 & Hf);
      try done; [by unfold client; rewrite Hi|].
    destruct (IH n1 sh1 Hj1 Hw1 Hn1) as (n' & ? & ? & Hrun). exists n'. split_and!; [done..|]. by apply Hf.
  - inversion Hp as [s0 b1 msg b2 s1 Hout Hdel]; subst.
    assert (Hc : client n i = Some (view (the_job n) s)) by (by unfold client; rewrite Hi).
    assert (Hd : deliverable (servers (view (the_job n) s)) msg).
    { destruct Hn as (L & D & Hn). pose proof (ni_phase _ _ _ _ Hn _ _ Hc) as Hph. rewrite Hw in Hph.
      by destruct (outbox_split _ _ _ _ _ _ _ _ _ Hph Hout) as [(c & p & ? & _)|(d1 & y & d2 & _ & -> & _)]. }
    destruct (net_deliver_ok n sh i _ b1 msg b2 _ Hn Hc Hout Hd Hdel) as [Hn1 _].
    destruct (IH (moved n i s' (waits n i)) (<[i := sh i]> sh) eq_refl) as (n' & ? & ? & Hrun); [|done|].
    { intros k. simpl. by rewrite fn_insert_id. }
    exists n'. split_and!; [done..|]. by eapply net_deliver.
  - destruct (IH (with_servers n (<[a := srv']> (job_servers (the_job n)))) sh eq_refl Hw) as (n' & ? & ? & Hrun);
      [by eapply net_background_ok|].
    exists n'. split_and!; [done..|]. by eapply net_background.
  - destruct (IH (with_servers n (delete a (job_servers (the_job n)))) sh eq_refl Hw) as (n' & ? & ? & Hrun).
    { apply net_ok_servers; [|done]. intros P live dying. apply slots_ok_died. }
    exists n'. split_and!; [done..|]. by eapply net_died.
  - destruct (IH (moved n i s None) (<[i := sh i]> sh) eq_refl) as (n' & ? & ? & Hrun); [|by eapply net_start_ok|].
    { intros i'. simpl. by rewrite fn_insert_id. }
    exists n'. split_and!; [done..|]. by eapply net_start.
Qed.

(** C19: calls made in one piece are among the interleavings of their messages:
    every execution of a job in which calls are atomic is one at the level of
    messages, with the same calls, results and final state. *)
Theorem atomic_calls_are_messages m t j' :
  servers_ok cl m → job_run (hg := hg) env cl background (Job ∅ m) t j' →
  ∃ n, the_job n = j' ∧ (∀ i, waits n i = None) ∧ net_run (at_rest (Job ∅ m)) t n.
Proof.
  intros Hm Hrun. by eapply job_run_is_messages, empty_net_ok.
Qed.
End Net.

(** ** Two opens in flight *)

#[local] Existing Instance demo_mercury.
#[local] Existing Instance demo_server_laws.

Abbreviation demo_net := (net (W := RefPosix.world) (Srv := server RefPosix.world)).
Abbreviation demo_net_run := (net_run demo_envs demo_cluster (mover_step demo_nvme)).

Definition net_client (i : nat) (n : demo_net) : demo_system := default demo_start (client n i).
Definition do_start (i : nat) (n : demo_net) : demo_net :=
  match hvac_client_init (demo_envs i) (unstarted demo_os (job_servers (the_job n)) demo_text) with
  | Ok (_, s) => moved n i s None
  | Fault _ => n
  end.
Definition do_begin (i : nat) (c : call) (n : demo_net) : demo_net :=
  match begin_call (demo_envs i) c (net_client i n) with
  | Ok (inr p, s) => moved n i s (Some (c, p))
  | _ => n
  end.
Definition do_deliver (i : nat) (n : demo_net) : demo_net :=
  match outbox (net_client i n) with
  | msg :: box =>
      match deliver msg (set_outbox box (net_client i n)) with
      | Ok (_, s) => moved n i s (waits n i)
      | Fault _ => n
      end
  | [] => n
  end.
Definition do_finish (i : nat) (n : demo_net) : demo_net :=
  match waits n i with
  | Some (_, p) =>
      match finish_call p (net_client i n) with Ok (_, s) => moved n i s None | Fault _ => n end
  | None => n
  end.

Definition net0 : demo_net := at_rest (Job ∅ demo_servers).
Definition net1 : demo_net := do_start 0 net0.
Definition net2 : demo_net := do_start 1 net1.
Definition net3 : demo_net := do_begin 0 (COpen "/d/a" 0 0) net2.
Definition net4 : demo_net := do_begin 1 (COpen "/d/a" 0 0) net3.
Definition net5 : demo_net := do_deliver 1 net4.
Definition net6 : demo_net := do_deliver 0 net5.
Definition net7 : demo_net := do_finish 0 net6.
Definition net8 : demo_net := do_begin 0 (CRead 3 2) net7.
Definition net9 : demo_net := do_finish 1 net8.
Definition net10 : demo_net := do_begin 1 (CRead 3 2) net9.
Definition net11 : demo_net := do_deliver 0 net10.
Definition net12 : demo_net := do_deliver 1 net11.
Definition net13 : demo_net := do_finish 1 net12.

Definition net_events : list (nat * (call * result)) :=
  [(0%nat, (COpen "/d/a" 0 0, RFd 3));
   (1%nat, (COpen "/d/a" 0 0, RFd 3));
   (1%nat, (CRead 3 2, RData 2 [Byte.x61; Byte.x62]))].

Lemma step_start i (n : demo_net) t n' :
  clients (the_job n) !! i = None → demo_net_run (do_start i n) t n' → demo_net_run n t n'.
Proof.
  intros Hi Hrun. unfold do_start in Hrun.
  destruct (hvac_client_init _ _) as [[[] s]|] eqn:Hinit; [|done].
  by eapply (net_start _ _ _ n i demo_os "2" s).
Qed.

Lemma demo_client i (n : demo_net) :
  bool_decide (is_Some (client n i)) = true → client n i = Some (net_client i n).
Proof. rewrite bool_decide_eq_true. unfold net_client. by intros [s ->]. Qed.

Lemma step_begin i c (n : demo_net) t n' :
  bool_decide (is_Some (client n i)) = true → waits n i = None →
  callable demo_cluster (net_client i n) c →
  (∃ p s, begin_call (demo_envs i) c (net_client i n) = Ok (inr p, s)) →
  demo_net_run (do_begin i c n) t n' → demo_net_run n t n'.
Proof.
  intros Hi%demo_client Hw Hc (p & s & Hb) Hrun. unfold do_begin in Hrun. rewrite Hb in Hrun.
  by eapply net_begin.
Qed.

Lemma step_deliver i msg box (n : demo_net) t n' :
  bool_decide (is_Some (client n i)) = true → outbox (net_client i n) = msg :: box →
  deliverable (servers (net_client i n)) msg →
  demo_net_run (do_deliver i n) t n' → demo_net_run n t n'.
Proof.
  intros Hi%demo_client Ho Hd Hrun. unfold do_deliver in Hrun. rewrite Ho in Hrun.
  destruct (deliver msg _) as [[[] s]|] eqn:Hdel; [|done].
  by eapply (net_deliver _ _ _ n i _ [] msg box).
Qed.

Lemma step_finish i c p r (n : demo_net) t n' :
  bool_decide (is_Some (client n i)) = true → waits n i = Some (c, p) →
  done (net_client i n) = HG_TRUE → (∃ s, finish_call p (net_client i n) = Ok (r, s)) →
  demo_net_run (do_finish i n) t n' → demo_net_run n ((i, (c, r)) :: t) n'.
Proof.
  intros Hi%demo_client Hw Hd [s Hf] Hrun. unfold do_finish in Hrun. rewrite Hw, Hf in Hrun.
  by eapply net_finish.
Qed.

(** The demonstration file and a descriptor on it. *)
Lemma demo_open_callable (s : demo_system) :
  track_decision (hvac_data_dir s) (cli_os s) "/d/a" = Some "/d/a" → fd_room (cli_os s) →
  callable demo_cluster s (COpen "/d/a" 0 0).
Proof.
  intros Ht Hr. split; [by vm_compute|]. split; [done|].
  exists "/d/a", [Byte.x61; Byte.x62; Byte.x63]. split; [done|by vm_compute].
Qed.

Lemma demo_read_callable (s : demo_system) :
  bool_decide (is_Some (fd_map s !! 3)) = true → callable demo_cluster s (CRead 3 2).
Proof. intros Hs%demo_tracked. split; [done|lia]. Qed.

Lemma net_opening : demo_net_run net0 [] net4.
Proof.
  apply (step_start 0); [done|]. fold net1.
  apply (step_start 1); [by vm_compute|]. fold net2.
  apply (step_begin 0 (COpen "/d/a" 0 0)); [by vm_compute|done| |by eexists _, _; vm_compute|]; fold net3.
  { by apply demo_open_callable; [vm_compute|exists 3]. }
  apply (step_begin 1 (COpen "/d/a" 0 0)); [by vm_compute|done| |by eexists _, _; vm_compute|constructor].
  by apply demo_open_callable; [vm_compute|exists 3].
Qed.

Lemma demo_deliver_open i a inp fd srv box (n : demo_net) t n' :
  bool_decide (is_Some (client n i)) = true →
  outbox (net_client i n) = (a, ReqOpen inp fd) :: box → servers (net_client i n) !! a = Some srv →
  fs_room srv → demo_net_run (do_deliver i n) t n' → demo_net_run n t n'.
Proof.
  intros Hi Ho Hs Hr. apply (step_deliver i (a, ReqOpen inp fd) box); [done..|].
  intros srv' Hsrv'. by simplify_eq.
Qed.

Definition net_home (n : demo_net) : server RefPosix.world :=
  default demo_idle (job_servers (the_job n) !! demo_addr 0).

Lemma net_reading : demo_net_run net4 net_events net13.
Proof.
  apply (demo_deliver_open 1 (demo_addr 0) (OpenIn "/d/a") 3 (net_home net4) []);
    [by vm_compute|by vm_compute|by vm_compute|by exists 3|]; fold net5.
  apply (demo_deliver_open 0 (demo_addr 0) (OpenIn "/d/a") 3 (net_home net5) []);
    [by vm_compute|by vm_compute|by vm_compute|by exists 4|]; fold net6.
  apply (step_finish 0 (COpen "/d/a" 0 0) (POpen 3) (RFd 3));
    [by vm_compute|by vm_compute|by vm_compute|by eexists; vm_compute|]; fold net7.
  apply (step_begin 0 (CRead 3 2)); [by vm_compute|by vm_compute| |by eexists _, _; vm_compute|]; fold net8.
  { apply demo_read_callable. by vm_compute. }
  apply (step_finish 1 (COpen "/d/a" 0 0) (POpen 3) (RFd 3));
    [by vm_compute|by vm_compute|by vm_compute|by eexists; vm_compute|]; fold net9.
  apply (step_begin 1 (CRead 3 2)); [by vm_compute|by vm_compute| |by eexists _, _; vm_compute|]; fold net10.
  { apply demo_read_callable. by vm_compute. }
  eapply (step_deliver 0); [by vm_compute|by vm_compute|done|]; fold net11.
  eapply (step_deliver 1); [by vm_compute|by vm_compute|done|]; fold net12.
  apply (step_finish 1 (CRead 3 2) (PRead 3 2) (RData 2 [Byte.x61; Byte.x62]));
    [by vm_compute|by vm_compute|by vm_compute|by eexists; vm_compute|constructor].
Qed.

Lemma open_answerable (s : demo_system) a inp fd srv :
  last (outbox s) = Some (a, ReqOpen inp fd) → servers s !! a = Some srv → fs_room srv → answerable s.
Proof.
  intros Hl Hs Hr. eexists _, _. split; [done|]. split; [done|]. split; [by eexists|].
  intros srv' Hs'. by simplify_eq.
Qed.

Lemma demo_ranks i : is_Some (getenv (demo_envs i) "SLURM_PROCID").
Proof. by eexists. Qed.

(** The two opens cross; the first client's read is on its way when the second
    one's returns. *)
Lemma messages_transparent_witness :
  ∃ o : shadow, posix_run (cl_names demo_cluster) (cl_files demo_cluster) ∅
      [(COpen "/d/a" 0 0, RFd 3); (CRead 3 2, RData 2 [Byte.x61; Byte.x62])] o.
Proof.
  destruct (messages_transparent demo_envs demo_cluster (mover_step demo_nvme) demo_mercury_ok
    demo_cluster_ok demo_background_ok demo_ranks demo_servers net_events net13) with (i := 1%nat)
    as (o & Hrun & _).
  - exact demo_server_holds.
  - apply (net_run_app _ _ _ _ _ _ _ _ net_opening net_reading).
  - by exists o.
Defined.

Lemma waiting_call_returns_witness :
  ∃ r n' (o : shadow), demo_net_run net4 [(0%nat, (COpen "/d/a" 0 0, r))] n' ∧ waits n' 0%nat = None ∧
    posix_run (cl_names demo_cluster) (cl_files demo_cluster) ∅
      (history 0 [] ++ [(COpen "/d/a" 0 0, r)]) o.
Proof.
  refine (waiting_call_returns demo_envs demo_cluster (mover_step demo_nvme) demo_mercury_ok
    demo_cluster_ok demo_background_ok demo_ranks demo_servers [] net4 0%nat (net_client 0 net4)
    (COpen "/d/a" 0 0) (POpen 3) demo_server_holds net_opening _ _ _ _).
  - by apply demo_client; vm_compute.
  - by vm_compute.
  - by vm_compute.
  - apply (open_answerable _ (demo_addr 0) (OpenIn "/d/a") 3 (net_home net4));
      [by vm_compute|by vm_compute|by exists 3].
Defined.

Lemma atomic_calls_are_messages_witness :
  ∃ n, the_job n = job7 ∧ (∀ i, waits n i = None) ∧ demo_net_run net0 demo_events n.
Proof.
  exact (atomic_calls_are_messages demo_envs demo_cluster (mover_step demo_nvme) demo_mercury_ok
    demo_cluster_ok demo_background_ok demo_ranks demo_servers demo_events job7
    demo_server_holds demo_job_run).
Defined.

(** The second client closes the file; its request has not been handled. *)
Definition do_return (i : nat) (c : call) (n : demo_net) : demo_net :=
  match begin_call (demo_envs i) c (net_client i n) with
  | Ok (inl _, s) => moved n i s None
  | _ => n
  end.
Definition net14 : demo_net := do_return 1 (CClose 3) net13.

Lemma step_return i c r (n : demo_net) t n' :
  bool_decide (is_Some (client n i)) = true → waits n i = None →
  callable demo_cluster (net_client i n) c →
  (∃ s, begin_call (demo_envs i) c (net_client i n) = Ok (inl r, s)) →
  demo_net_run (do_return i c n) t n' → demo_net_run n ((i, (c, r)) :: t) n'.
Proof.
  intros Hi%demo_client Hw Hc (s & Hb) Hrun. unfold do_return in Hrun. rewrite Hb in Hrun.
  by eapply net_return.
Qed.

Lemma net_closing : demo_net_run net13 [(1%nat, (CClose 3, RStatus 0))] net14.
Proof.
  apply (step_return 1 (CClose 3)); [by vm_compute|by vm_compute| |by eexists; vm_compute|constructor].
  apply demo_tracked. by vm_compute.
Qed.

Lemma idle_delivery_is_silent_witness :
  ∃ m', deliver (demo_addr 0, ReqClose (CloseIn 3)) (set_outbox [] (net_client 1 net14)) =
        Ok (tt, set_servers m' (set_outbox [] (net_client 1 net14))).
Proof.
  refine (idle_delivery_is_silent demo_envs demo_cluster (mover_step demo_nvme) demo_mercury_ok
    demo_cluster_ok demo_background_ok demo_ranks demo_servers _ net14 1%nat (net_client 1 net14)
    [] (demo_addr 0, ReqClose (CloseIn 3)) [] demo_server_holds
    (net_run_app _ _ _ _ _ _ _ _ net_opening (net_run_app _ _ _ _ _ _ _ _ net_reading net_closing)) _ _ _).
  - by apply demo_client; vm_compute.
  - by vm_compute.
  - by vm_compute.
Defined.

(** The home of the open file, and a read of [2 ^ 31] bytes. *)
Lemma negative_count_stops_server_witness :
  read_stops_home demo_env demo_cluster demo_opened 3 (2 ^ 31) "/d/a" demo_home.
Proof.
  apply (negative_count_stops_server demo_env demo_cluster no_others demo_mercury_ok demo_cluster_ok
    demo_opened {[3 := ("/d/a", 0)]} 3 "/d/a" 0 (2 ^ 31) demo_home demo_opened_transparent);
    [done|by vm_compute|lia|by vm_compute].
Defined.
