(* ===== verification/Stats.v ===== *)
(** * Call statistics and symbol lookup ([wrappers.c], [hvac_internal.h])

    Every wrapper looks up the call it replaces, reads the clock before and
    after, and adds the difference to a total kept as a double.  The counters of
    [struct Stats] are the field [stats] of the client's state; this file adds
    the totals, the clock readings, the lookups, and the text of
    [export_stats_to_file].  Doubles are the IEEE binary64 numbers of the
    Standard Library's [SpecFloat]. *)
From Stdlib Require Import Ascii SpecFloat.
From S2P Require Import Prelude CLib Posix Rpc Server DataMover ClientState CommClient Client Wrappers System.

(** ** Doubles *)

Abbreviation prec := 53.
Abbreviation emax := 1024.
Abbreviation double := spec_float.

Definition to_double (z : Z) : double := binary_normalize prec emax z 0 false.
Definition add_double : double → double → double := SFadd prec emax.
Definition div_double : double → double → double := SFdiv prec emax.
Definition zero_double : double := S754_zero false.

(** Not negative, not NaN. *)
Definition nonneg (x : double) : bool :=
  match x with
  | S754_zero _ | S754_infinity false | S754_finite false _ _ => true
  | _ => false
  end.

Lemma shr_1_nonneg r : 0 ≤ shr_m r → 0 ≤ shr_m (shr_1 r).
Proof. by destruct r as [[|[p|p|]|p] ? ?]. Qed.

Lemma iter_pos_inv {A} (P : A → Prop) (f : A → A) (n : positive) :
  (∀ x, P x → P (f x)) → ∀ x, P x → P (SpecFloat.iter_pos f n x).
Proof. intros Hf. induction n; simpl; auto. Qed.

Lemma shr_fexp_nonneg m e l : 0 ≤ m → 0 ≤ shr_m (shr_fexp prec emax m e l).1.
Proof.
  intros Hm. unfold shr_fexp, shr.
  assert (0 ≤ shr_m (shr_record_of_loc m l)) by (by destruct l as [|[]]).
  destruct (_ - _); simpl; [done| |done]. apply (iter_pos_inv (λ r, 0 ≤ shr_m r)); [|done].
  apply shr_1_nonneg.
Qed.

Lemma binary_round_aux_nonneg m e l : 0 ≤ m → nonneg (binary_round_aux prec emax false m e l) = true.
Proof.
  intros Hm. unfold binary_round_aux.
  pose proof (shr_fexp_nonneg m e l Hm) as H1. destruct (shr_fexp _ _ m e l) as [r1 e1]. simpl in H1.
  assert (H2 : 0 ≤ round_nearest_even (shr_m r1) (loc_of_shr_record r1)).
  { unfold round_nearest_even. destruct (loc_of_shr_record r1) as [|[]]; [lia| |lia|lia].
    destruct (Z.even _); lia. }
  pose proof (shr_fexp_nonneg _ e1 loc_Exact H2) as H3.
  destruct (shr_fexp _ _ _ e1 _) as [r2 e2]. simpl in H3.
  destruct (shr_m r2); [done| |lia]. by destruct (_ <=? _).
Qed.

Lemma binary_round_nonneg m e : nonneg (binary_round prec emax false m e) = true.
Proof.
  unfold binary_round. destruct (shl_align _ _ _) as [m' e']. by apply binary_round_aux_nonneg.
Qed.

Lemma to_double_nonneg z : 0 ≤ z → nonneg (to_double z) = true.
Proof. intros Hz. destruct z; [done|apply binary_round_nonneg|lia]. Qed.

Lemma add_double_nonneg x y : nonneg x = true → nonneg y = true → nonneg (add_double x y) = true.
Proof.
  destruct x as [[]|[]| |[] mx ex], y as [[]|[]| |[] my ey]; try done.
  intros _ _. apply binary_round_nonneg.
Qed.

Lemma div_double_nonneg x m e :
  nonneg x = true → nonneg (div_double x (S754_finite false m e)) = true.
Proof.
  destruct x as [s|[]| |[] mx ex]; try done. intros _. unfold div_double, SFdiv, SFdiv_core_binary.
  set (d := Z.min _ _). set (n := match _ with Z0 => _ | Zpos _ => _ | Zneg _ => _ end).
  assert (Hn : 0 ≤ n).
  { subst n. destruct (ex - e - d) as [|p|p]; [lia| |lia]. by apply Z.shiftl_nonneg. }
  pose proof (Z_div_pos n (Zpos m)) as Hq. unfold Z.div in Hq.
  destruct (Z.div_eucl n (Zpos m)) as [q r]. apply binary_round_aux_nonneg. lia.
Qed.

(** ** Elapsed time *)

Record timespec := Timespec { tv_sec : Z; tv_nsec : Z }.

Definition elapsed (start end_ : timespec) : double :=
  if tv_nsec start <? tv_nsec end_ then
    add_double (to_double (i64 (tv_sec end_ - tv_sec start)))
      (div_double (to_double (i64 (tv_nsec end_ - tv_nsec start))) (to_double 1000000000))
  else
    add_double (to_double (i64 (tv_sec end_ - tv_sec start - 1)))
      (div_double (to_double (i64 (tv_nsec end_ - tv_nsec start + 1000000000))) (to_double 1000000000)).

(** A reading of [CLOCK_MONOTONIC], and the order of two readings. *)
Definition reading (t : timespec) : Prop := 0 ≤ tv_sec t < 2 ^ 62 ∧ 0 ≤ tv_nsec t < 1000000000.
Definition not_after (t u : timespec) : Prop :=
  tv_sec t < tv_sec u ∨ tv_sec t = tv_sec u ∧ tv_nsec t ≤ tv_nsec u.

Lemma nano_nonneg z : 0 ≤ z → nonneg (div_double (to_double z) (to_double 1000000000)) = true.
Proof.
  intros Hz. assert (∃ m e, to_double 1000000000 = S754_finite false m e) as (m & e & ->)
    by (eexists _, _; by vm_compute).
  by apply div_double_nonneg, to_double_nonneg.
Qed.

Lemma elapsed_nonneg t u : reading t → reading u → not_after t u → nonneg (elapsed t u) = true.
Proof.
  destruct t as [ts tn], u as [us un]. unfold reading, not_after, elapsed. simpl. intros Ht Hu Hle.
  destruct (Z.ltb_spec tn un) as [Hn|Hn].
  - rewrite !i64_small by word. apply add_double_nonneg; [apply to_double_nonneg; lia|].
    apply nano_nonneg. lia.
  - destruct Hle as [Hlt|[-> Heq]].
    + rewrite !i64_small by word. apply add_double_nonneg; [apply to_double_nonneg; lia|].
      apply nano_nonneg. lia.
    + assert (un = tn) as -> by lia. replace (us - us - 1) with (-1) by lia.
      replace (tn - tn + 1000000000) with 1000000000 by lia. by vm_compute.
Qed.

(** ** Printing with six decimals *)

(** [n / d] to the nearest integer, halves to even. *)
Definition round_div (n d : Z) : Z :=
  let q := n / d in
  match 2 * (n mod d) ?= d with
  | Lt => q
  | Gt => q + 1
  | Eq => if Z.even q then q else q + 1
  end.

(** A finite magnitude in millionths. *)
Definition micros (m e : Z) : Z :=
  if 0 <=? e then m * 2 ^ e * 1000000 else round_div (m * 1000000) (2 ^ (- e)).

Definition digit (z : Z) : string := String (ascii_of_N (Z.to_N (48 + z mod 10))) EmptyString.
Definition six_digits (z : Z) : string :=
  digit (z / 100000) +:+ digit (z / 10000) +:+ digit (z / 1000) +:+ digit (z / 100) +:+
  digit (z / 10) +:+ digit z.

(** [%.6f] *)
Definition fixed6 (x : double) : string :=
  let sign (s : bool) := if s then "-" else "" in
  match x with
  | S754_nan => "nan"
  | S754_infinity s => sign s +:+ "inf"
  | S754_zero s => sign s +:+ "0.000000"
  | S754_finite s m e =>
      let u := micros (Zpos m) e in
      sign s +:+ decimal (u / 1000000) +:+ "." +:+ six_digits (u mod 1000000)
  end.

Lemma round_div_error n d : 0 < d → Z.abs (2 * (d * round_div n d - n)) ≤ d.
Proof.
  intros Hd. unfold round_div. pose proof (Z.div_mod n d) as Hn.
  pose proof (Z.mod_pos_bound n d Hd) as Hr.
  destruct (Z.compare_spec (2 * (n mod d)) d); [destruct (Z.even _)|..]; nia.
Qed.

Lemma round_div_nonneg n d : 0 ≤ n → 0 < d → 0 ≤ round_div n d.
Proof.
  intros Hn Hd. unfold round_div. pose proof (Z.div_pos n d Hn Hd).
  destruct (_ ?= _); [destruct (Z.even _)|..]; lia.
Qed.

Lemma micros_nonneg m e : 0 ≤ m → 0 ≤ micros m e.
Proof.
  intros Hm. unfold micros. destruct (Z.leb_spec 0 e).
  - pose proof (Z.pow_nonneg 2 e). nia.
  - apply round_div_nonneg; [lia|]. apply Z.pow_pos_nonneg; lia.
Qed.

Lemma scan_digit acc z rest :
  scan_digits acc (digit z +:+ rest) = scan_digits (10 * acc + z mod 10) rest.
Proof.
  unfold digit. rewrite append_cons. pose proof (Z.mod_pos_bound z 10 ltac:(lia)) as Hz.
  assert (Hc : code (ascii_of_N (Z.to_N (48 + z mod 10))) = 48 + z mod 10).
  { unfold code. rewrite N_ascii_embedding by lia. lia. }
  simpl. unfold isdigit. rewrite Hc.
  destruct (Z.leb_spec 48 (48 + z mod 10)); [|lia]. destruct (Z.leb_spec (48 + z mod 10) 57); [|lia].
  simpl. f_equal. lia.
Qed.

Lemma scan_six_digits z rest :
  0 ≤ z < 1000000 → starts_digit rest = false → scan_digits 0 (six_digits z +:+ rest) = (z, rest).
Proof.
  intros Hz Hr. unfold six_digits. rewrite !append_assoc, !scan_digit.
  assert (Hend : ∀ acc, scan_digits acc rest = (acc, rest)).
  { intros acc. destruct rest as [|c t]; [done|]. simpl in *. by rewrite Hr. }
  rewrite Hend. f_equal. Z.to_euclidean_division_equations. lia.
Qed.

Lemma scan_decimal q rest :
  0 ≤ q → starts_digit rest = false → scan_digits 0 (decimal q +:+ rest) = (q, rest).
Proof.
  intros Hq Hr. destruct q as [|p|p]; [|by rewrite decimal_pos, scan_digits_uint, uint_val_to_uint|lia].
  destruct rest as [|c t]; [done|]. simpl in *. by rewrite Hr.
Qed.

(** The two numbers of a printed double are the millionths nearest to it. *)
Lemma fixed6_parts m e :
  ∃ i f, fixed6 (S754_finite false m e) = decimal i +:+ "." +:+ six_digits f ∧
    0 ≤ i ∧ 0 ≤ f < 1000000 ∧
    (0 ≤ e → i * 1000000 + f = Zpos m * 2 ^ e * 1000000) ∧
    (e < 0 → Z.abs (2 * (2 ^ (- e) * (i * 1000000 + f) - Zpos m * 1000000)) ≤ 2 ^ (- e)).
Proof.
  unfold fixed6. set (u := micros (Zpos m) e).
  assert (Hu : 0 ≤ u) by (by apply micros_nonneg).
  exists (u / 1000000), (u mod 1000000).
  assert (Hsum : u / 1000000 * 1000000 + u mod 1000000 = u).
  { pose proof (Z.div_mod u 1000000). lia. }
  rewrite Hsum. split_and!; [done|by apply Z.div_pos|apply Z.mod_pos_bound; lia..| |].
  - intros He. unfold u, micros. by destruct (Z.leb_spec 0 e); [|lia].
  - intros He. unfold u, micros. destruct (Z.leb_spec 0 e); [lia|].
    apply round_div_error, Z.pow_pos_nonneg; lia.
Qed.

(** ** The totals *)

(** The field [total_time] of each [struct Stats]. *)
Record times := Times {
  open_time : double;
  open_data_time : double;
  open_system_time : double;
  close_time : double;
  read_time : double;
  pread_time : double
}.

Definition no_times : times :=
  Times zero_double zero_double zero_double zero_double zero_double zero_double.

Definition add_open (d : double) (t : times) : times :=
  Times (add_double (open_time t) d) (open_data_time t) (open_system_time t) (close_time t)
    (read_time t) (pread_time t).
Definition add_open_data (d : double) (t : times) : times :=
  Times (open_time t) (add_double (open_data_time t) d) (open_system_time t) (close_time t)
    (read_time t) (pread_time t).
Definition add_open_system (d : double) (t : times) : times :=
  Times (open_time t) (open_data_time t) (add_double (open_system_time t) d) (close_time t)
    (read_time t) (pread_time t).
Definition add_close (d : double) (t : times) : times :=
  Times (open_time t) (open_data_time t) (open_system_time t) (add_double (close_time t) d)
    (read_time t) (pread_time t).
Definition add_read (d : double) (t : times) : times :=
  Times (open_time t) (open_data_time t) (open_system_time t) (close_time t)
    (add_double (read_time t) d) (pread_time t).
Definition add_pread (d : double) (t : times) : times :=
  Times (open_time t) (open_data_time t) (open_system_time t) (close_time t)
    (read_time t) (add_double (pread_time t) d).

Definition times_nonneg (t : times) : Prop :=
  Forall (λ d, nonneg d = true)
    [open_time t; open_data_time t; open_system_time t; close_time t; read_time t; pread_time t].

(** [export_stats_to_file]: what it writes; nothing when the file cannot be
    opened. *)
Definition stats_line (name : string) (count : Z) (total : double) : string :=
  name +:+ ": count=" +:+ decimal count +:+ ", total_time=" +:+ fixed6 total +:+
  String newline EmptyString.

Definition export_stats_to_file (opened : bool) (c : counts) (t : times) : option string :=
  if negb opened then None
  else Some (
    stats_line "Open Stats" (open_stats c) (open_time t) +:+
    stats_line "Open Data Stats" (open_data_stats c) (open_data_time t) +:+
    stats_line "Open System Stats" (open_system_stats c) (open_system_time t) +:+
    "Open total_time=" +:+ fixed6 (add_double (open_data_time t) (open_system_time t)) +:+
    String newline EmptyString +:+
    stats_line "Close Stats" (close_stats c) (close_time t) +:+
    stats_line "Read Stats" (read_stats c) (read_time t) +:+
    stats_line "Pread Stats" (pread_stats c) (pread_time t)).

(** C21: a line of the report reads back: the count is the counter, and the total
    is, in whole seconds and millionths, the number of microseconds nearest to
    the double: exactly it when the double is whole, within half a microsecond
    otherwise. *)
Theorem stats_line_reads_back name count m e :
  is_u64 count →
  ∃ i f t1 t2 t3, stats_line name count (S754_finite false m e) = name +:+ ": count=" +:+ t1 ∧
    scan_digits 0 t1 = (count, ", total_time=" +:+ t2) ∧ scan_digits 0 t2 = (i, "." +:+ t3) ∧
    scan_digits 0 t3 = (f, String newline EmptyString) ∧ 0 ≤ f < 1000000 ∧
    (0 ≤ e → i * 1000000 + f = Zpos m * 2 ^ e * 1000000) ∧
    (e < 0 → Z.abs (2 * (2 ^ (- e) * (i * 1000000 + f) - Zpos m * 1000000)) ≤ 2 ^ (- e)).
Proof.
  intros Hc. destruct (fixed6_parts m e) as (i & f & Heq & Hi & Hf & Hexact & Herr).
  unfold stats_line. rewrite Heq, !append_assoc. exists i, f. eexists _, _, _. split; [done|].
  split; [apply scan_decimal; [word|done]|]. split; [by apply scan_decimal|].
  split; [by apply scan_six_digits|done].
Qed.

(** ** The wrappers with their lookups and their clock *)

Section Timed.
Context {W Srv : Type} `{!Posix W, !FileServer Srv, !StringHash} {hg : mercury}.
Variable env : environ.
(** Whether the dynamic linker finds a next definition of the symbol. *)
Variable dlsym : string → bool.
Abbreviation sys := (system W Srv).

(** A client process with its totals and the symbols it has looked up. *)
Record timed := Timed {
  process : sys;
  totals : times;
  mapped : list string
}.

Definition lift {A} (m : M sys A) : M timed A := λ t,
  match m (process t) with
  | Ok (a, s) => Ok (a, Timed s (totals t) (mapped t))
  | Fault f => Fault f
  end.

Definition MAP_OR_FAIL (func : string) : M timed unit :=
  known ← gets (λ t, bool_decide (func ∈ mapped t));
  if negb known then
    if dlsym func then modify (λ t, Timed (process t) (totals t) (func :: mapped t))
    else fail (FExit 1)
  else mret tt.

(** [stats.count++; stats.total_time += delta;] *)
Definition account (f : counts → counts) (g : times → times) : M timed unit :=
  lift (count f);;
  modify (λ t, Timed (process t) (g (totals t)) (mapped t)).

(** The two readings of the clock are given. *)
Definition timed_open (start end_ : timespec) (pathname : string) (flags mode_arg : Z) : M timed Z :=
  let mode := if negb (Z.land flags O_CREAT =? 0) then mode_arg else 0 in
  MAP_OR_FAIL "open";;
  off ← lift redirect_disabled;
  if (off : bool) then lift (client_os (sys_open pathname flags mode))
  else
    ret ← lift (client_os (sys_open pathname flags mode));
    (if negb (ret =? -1) then
       tracked ← lift (hvac_track_file (hg := hg) env pathname flags ret);
       let delta := elapsed start end_ in
       if (tracked : bool) then account count_open (add_open delta)
       else if contains data_set_dir pathname then account count_open_data (add_open_data delta)
       else account count_open_system (add_open_system delta)
     else mret tt);;
    mret ret.

Definition timed_close (start end_ : timespec) (fd : Z) : M timed Z :=
  MAP_OR_FAIL "close";;
  off ← lift redirect_disabled;
  if (off : bool) then lift (client_os (sys_close fd))
  else
    path ← lift (hvac_get_path fd);
    match path with
    | Some _ => lift log_message;; _ ← lift (hvac_remove_fd (hg := hg) fd); mret tt
    | None => mret tt
    end;;
    ret ← lift (client_os (sys_close fd));
    if negb (ret =? 0) then lift log_message;; mret ret
    else account count_close (add_close (elapsed start end_));; mret ret.

Definition timed_read (start end_ : timespec) (fd : Z) (buf : bool) (n : Z) : M timed Z :=
  MAP_OR_FAIL "read";;
  r ← lift (hvac_remote_read (hg := hg) fd buf n);
  let ret := i32 r in
  ret ← (if ret =? -1 then r ← lift (real_read fd n); mret (i32 r) else mret ret);
  account count_read (add_read (elapsed start end_));;
  mret ret.

Definition timed_pread (start end_ : timespec) (fd : Z) (buf : bool) (n offset : Z) : M timed Z :=
  MAP_OR_FAIL "pread";;
  path ← lift (hvac_get_path fd);
  match path with
  | Some _ =>
      lift log_message;;
      ret ← lift (hvac_remote_pread (hg := hg) fd buf n offset);
      ret ← (if ret =? -1 then r ← lift (real_pread fd n offset); lift log_message;; mret r
             else mret ret);
      account count_pread (add_pread (elapsed start end_));;
      mret ret
  | None =>
      ret ← lift (real_pread fd n offset);
      account count_pread (add_pread (elapsed start end_));;
      mret ret
  end.

(** A call of the application, with the readings of its clock. *)
Definition timed_call (c : call) (start end_ : timespec) : M timed result :=
  match c with
  | COpen path flags mode => fd ← timed_open start end_ path flags mode; mret (RFd fd)
  | CRead fd n => r ← timed_read start end_ fd true n; d ← lift (gets user_buf); mret (RData r d)
  | CPread fd n off =>
      r ← timed_pread start end_ fd true n off; d ← lift (gets user_buf); mret (RData r d)
  | CClose fd => r ← timed_close start end_ fd; mret (RStatus r)
  end.

Definition symbol (c : call) : string :=
  match c with
  | COpen _ _ _ => "open" | CRead _ _ => "read" | CPread _ _ _ => "pread" | CClose _ => "close"
  end.

(** *** Forgetting the totals *)

(** [m] is [m'] on the process, whatever the totals. *)
Definition erases {A} (m : M timed A) (m' : M sys A) : Prop :=
  ∀ t, match m t with
       | Ok (a, t') => m' (process t) = Ok (a, process t')
       | Fault f => m' (process t) = Fault f
       end.

Lemma erases_lift {A} (m : M sys A) : erases (lift m) m.
Proof. intros t. unfold lift. by destruct (m (process t)) as [[a s]|]. Qed.
Lemma erases_ret {A} (a : A) : erases (mret a) (mret a).
Proof. done. Qed.
Lemma erases_bind {A B} (m : M timed A) m' (f : A → M timed B) f' :
  erases m m' → (∀ a, erases (f a) (f' a)) → erases (m ≫= f) (m' ≫= f').
Proof.
  intros Hm Hf t. specialize (Hm t). unfold mbind, M_bind.
  destruct (m t) as [[a t']|]; rewrite Hm; [apply Hf|done].
Qed.
Lemma erases_account f g : erases (account f g) (count f).
Proof. done. Qed.

(** The part of a timed call after its lookup, against the call. *)
Ltac erase :=
  repeat first
    [ apply erases_lift | apply erases_account | apply erases_ret
    | apply erases_bind; [|intros ?]
    | match goal with
      | |- erases (if ?b then _ else _) _ => destruct b
      | |- erases (match ?x with _ => _ end) _ => destruct x
      | |- erases (let _ := _ in _) _ => cbv zeta
      end ].

Lemma erases_lookup {B} func (f : unit → M timed B) m :
  dlsym func = true → erases (f tt) m → erases (MAP_OR_FAIL func ≫= f) m.
Proof.
  intros Hf Hm t.
  assert (∃ t', MAP_OR_FAIL func t = Ok (tt, t') ∧ process t' = process t) as (t' & Hmap & Hp).
  { unfold MAP_OR_FAIL. erewrite bind_eq by done.
    destruct (bool_decide (func ∈ mapped t)); simpl; [by exists t|]. rewrite Hf. by eexists. }
  erewrite bind_eq by exact Hmap. specialize (Hm t'). by rewrite Hp in Hm.
Qed.

Lemma timed_call_erases c start end_ :
  dlsym (symbol c) = true → erases (timed_call c start end_) (run_call (hg := hg) env c).
Proof.
  intros Hd. destruct c as [path flags mode|fd n|fd n off|fd];
    (apply erases_bind; [|intros ?; erase]).
  - apply erases_lookup; [done|]. unfold wrap_open. erase.
  - apply erases_lookup; [done|]. unfold wrap_read. erase.
  - apply erases_lookup; [done|]. unfold wrap_pread. erase.
  - apply erases_lookup; [done|]. unfold wrap_close. erase.
Qed.

(** *** The totals stay numbers *)

Abbreviation tallied := (λ t : timed, times_nonneg (totals t)).

Lemma keeps_lift {A} (m : M sys A) : keeps_any tallied (lift m).
Proof.
  intros t a t' Ht. unfold lift. destruct (m (process t)) as [[b s]|]; [|done]. by intros [= <- <-].
Qed.

Lemma keeps_account f g :
  (∀ t, times_nonneg t → times_nonneg (g t)) → keeps_any tallied (account f g).
Proof. intros Hg t a t' Ht [= <- <-]. split; [by apply Hg|done]. Qed.

Lemma keeps_lookup func : keeps_any tallied (MAP_OR_FAIL func).
Proof.
  unfold MAP_OR_FAIL. apply (keeps_bind _ (λ _, True)); [by apply keeps_gets|]. intros b _.
  repeat keeps_step; done.
Qed.

Lemma times_nonneg_add d t :
  nonneg d = true → times_nonneg t →
  times_nonneg (add_open d t) ∧ times_nonneg (add_open_data d t) ∧ times_nonneg (add_open_system d t) ∧
  times_nonneg (add_close d t) ∧ times_nonneg (add_read d t) ∧ times_nonneg (add_pread d t).
Proof.
  intros Hd Ht. unfold times_nonneg in *. decompose_Forall_hyps.
  split_and!; repeat constructor; simpl; try done; by apply add_double_nonneg.
Qed.

Lemma timed_call_tallied c start end_ :
  nonneg (elapsed start end_) = true → keeps_any tallied (timed_call c start end_).
Proof.
  intros Hd. pose proof (λ t Ht, times_nonneg_add (elapsed start end_) t Hd Ht) as Hadd.
  assert (Hacc : ∀ f g, g ∈ [add_open; add_open_data; add_open_system; add_close; add_read; add_pread] →
            keeps_any tallied (account f (g (elapsed start end_)))).
  { intros f g Hg. apply keeps_account. intros t Ht. destruct (Hadd t Ht) as (? & ? & ? & ? & ? & ?).
    repeat (apply elem_of_cons in Hg as [->|Hg]; [done|]). by apply not_elem_of_nil in Hg. }
  destruct c; simpl; unfold timed_open, timed_close, timed_read, timed_pread;
    repeat first
      [ done | apply keeps_lookup | apply keeps_lift
      | apply Hacc; rewrite !elem_of_cons; tauto
      | apply (keeps_bind _ (λ _, True)); [|intros ? _]
      | keeps_step ].
Qed.

(** *** Histories *)

(** A call with the readings of the clock before and after it. *)
Record clocked := Clocked { the_call : call; started : timespec; ended : timespec }.

Definition clocked_ok (c : clocked) : Prop :=
  reading (started c) ∧ reading (ended c) ∧ not_after (started c) (ended c).

Fixpoint timed_calls (l : list clocked) : M timed (list result) :=
  match l with
  | [] => mret []
  | c :: l => r ← timed_call (the_call c) (started c) (ended c); rs ← timed_calls l; mret (r :: rs)
  end.
Fixpoint run_calls (l : list call) : M sys (list result) :=
  match l with
  | [] => mret []
  | c :: l => r ← run_call (hg := hg) env c; rs ← run_calls l; mret (r :: rs)
  end.

Lemma timed_calls_erase l :
  (∀ c, dlsym (symbol c) = true) → erases (timed_calls l) (run_calls (the_call <$> l)).
Proof.
  intros Hd. induction l as [|c l IH]; [done|].
  apply erases_bind; [by apply timed_call_erases|]. intros r. by apply erases_bind.
Qed.

Lemma timed_calls_tallied l : Forall clocked_ok l → keeps_any tallied (timed_calls l).
Proof.
  induction 1 as [|c l (Hs & He & Hle) _ IH]; simpl; [by apply keeps_ret|].
  apply (keeps_bind _ (λ _, True)); [by apply timed_call_tallied, elapsed_nonneg|].
  intros r _. apply (keeps_bind _ (λ _, True)); [done|]. intros rs _. by apply keeps_ret.
Qed.

(** C20: timing the calls changes nothing but the totals, and the totals stay
    numbers.  When the linker finds the four symbols and the clock does not run
    backwards, a history of timed calls returns what the same calls return
    without lookups and clocks, leaves the process in the same state (or stops
    with the same fault), and no total is ever negative or NaN. *)
Theorem timed_calls_are_calls l t :
  (∀ c, dlsym (symbol c) = true) → Forall clocked_ok l → times_nonneg (totals t) →
  match timed_calls l t with
  | Ok (rs, t') =>
      run_calls (the_call <$> l) (process t) = Ok (rs, process t') ∧ times_nonneg (totals t')
  | Fault f => run_calls (the_call <$> l) (process t) = Fault f
  end.
Proof.
  intros Hd Hl Ht. pose proof (timed_calls_erase l Hd t) as He.
  pose proof (timed_calls_tallied l Hl t) as Hk.
  destruct (timed_calls l t) as [[rs t']|]; [|done]. split; [done|]. by apply (Hk rs t').
Qed.

(** A call whose symbol the linker does not find ends the process before it
    does anything. *)
Theorem missing_symbol_exits c start end_ t :
  symbol c ∉ mapped t → dlsym (symbol c) = false →
  timed_call c start end_ t = Fault (FExit 1).
Proof.
  intros Hn Hd. assert (Hmap : MAP_OR_FAIL (symbol c) t = Fault (FExit 1)).
  { unfold MAP_OR_FAIL, mbind, M_bind, gets. rewrite bool_decide_eq_false_2 by done. simpl.
    by rewrite Hd. }
  destruct c; simpl in *; unfold timed_open, timed_close, timed_read, timed_pread, mbind, M_bind;
    by rewrite Hmap.
Qed.
End Timed.

(** ** Witnesses *)

#[local] Existing Instance demo_mercury.

Definition demo_clock (a b : Z) (c : call) : clocked := Clocked c (Timespec 10 a) (Timespec 11 b).
Definition demo_calls : list clocked :=
  [demo_clock 900000000 100000000 (COpen "/d/a" 0 0); demo_clock 0 500000000 (CRead 3 2);
   demo_clock 7 7 (CClose 3)].
Definition demo_timed : timed := Timed demo_start no_times [].

Lemma demo_clocks : Forall clocked_ok demo_calls.
Proof. repeat constructor; simpl; lia. Qed.

Lemma timed_calls_are_calls_witness :
  match timed_calls demo_env (λ _, true) demo_calls demo_timed with
  | Ok (rs, t') =>
      run_calls demo_env (the_call <$> demo_calls) demo_start = Ok (rs, process t') ∧
      times_nonneg (totals t')
  | Fault f => run_calls demo_env (the_call <$> demo_calls) demo_start = Fault f
  end.
Proof.
  apply (timed_calls_are_calls demo_env (λ _, true) demo_calls demo_timed);
    [done|exact demo_clocks|by repeat constructor].
Defined.

Lemma stats_line_reads_back_witness :
  ∃ i f t1 t2 t3, stats_line "Read Stats" 12 (S754_finite false 3 (-1)) = "Read Stats" +:+ ": count=" +:+ t1 ∧
    scan_digits 0 t1 = (12, ", total_time=" +:+ t2) ∧ scan_digits 0 t2 = (i, "." +:+ t3) ∧
    scan_digits 0 t3 = (f, String newline EmptyString) ∧ 0 ≤ f < 1000000 ∧
    (0 ≤ -1 → i * 1000000 + f = 3 * 2 ^ (-1) * 1000000) ∧
    (-1 < 0 → Z.abs (2 * (2 ^ 1 * (i * 1000000 + f) - 3 * 1000000)) ≤ 2 ^ 1).
Proof. apply (stats_line_reads_back "Read Stats" 12 3 (-1)). word. Defined.

Lemma missing_symbol_exits_witness :
  timed_call demo_env (λ _, false) (CClose 3) (Timespec 0 0) (Timespec 0 0) demo_timed = Fault (FExit 1).
Proof. apply missing_symbol_exits; [by apply not_elem_of_nil|done]. Defined.

(** The open took 0.2 s, the read 1.5 s and the close 1 s. *)
Example demo_report :
  match timed_calls demo_env (λ _, true) demo_calls demo_timed with
  | Ok (rs, t') => fixed6 <$> [open_time (totals t'); read_time (totals t'); close_time (totals t')]
  | Fault _ => []
  end = ["0.200000"; "1.500000"; "1.000000"].
Proof. by vm_compute. Qed.
