(* ===== verification/Deployment.v ===== *)
(** * A job from its start ([hvac_server.cpp] and the clients)

    The servers' posts make the cluster that the transparency theorems assume;
    and what becomes of a server that cannot open a file that the client can. *)
From S2P Require Import Prelude CLib Posix Rpc Server ClientState CommClient Client Wrappers System Messages Comm.

(** The ports file after these servers have posted, in this order. *)
Definition posted (l : list (Z * string)) : option string := foldl post None l.

Lemma posted_cluster_ok n l text addr names files :
  0 < n ≤ 2 ^ 31 → l.*1 ≡ₚ seqZ 0 n → Forall postable l →
  (∀ r a, (r, a) ∈ l → addr r = a) → posted l = Some text →
  cluster_ok (Cluster n text addr names files).
Proof.
  intros Hn Hl Hp Haddr Ht. unfold posted in Ht. destruct l as [|ra l]; [done|].
  rewrite post_all_fresh in Ht. injection Ht as <-.
  split; simpl; [done|]. intros r Hr. pose proof (find_server_lines r (ra :: l) Hp) as Hf.
  simpl in Hf. rewrite Hf. f_equal.
  assert (Hin : r ∈ (ra :: l).*1) by (rewrite Hl; apply elem_of_seqZ; lia).
  apply list_elem_of_fmap in Hin as ([r' a] & -> & Hin). simpl.
  rewrite (Haddr _ _ Hin).
  apply (first_posted_elem (ra :: l) r' a); [|done]. rewrite Hl. apply NoDup_seqZ.
Qed.

(** C9: when the servers of ranks 0 to n-1 have posted their addresses, in any
    order, every rank is found at its server's address: the ports file is the
    address file of a well-formed cluster. *)
Theorem posted_job_is_cluster n l text addr names files :
  0 < n ≤ 2 ^ 31 → l.*1 ≡ₚ seqZ 0 n → Forall postable l →
  (∀ r a, (r, a) ∈ l → addr r = a) → posted l = Some text →
  cluster_ok (Cluster n text addr names files).
Proof. apply posted_cluster_ok. Qed.

(** ** An open that fails on the server *)

Section RemoteFailure.
Context {W : Type} `{!Posix W, !PosixLaws W, !PosixReliable W, !StringHash} {hg : mercury}.
Hypothesis Hhg : mercury_ok hg.
Variable env : environ.
Variable cl : cluster.
Hypothesis Hcl : cluster_ok cl.
Implicit Types (s : system W (server W)).

Lemma read_bad_descriptor srv n :
  fd_at (srv_os srv) (-1) = None → 0 ≤ n < 2 ^ 63 →
  fs_read (FileServer := server_file_server (hg := hg)) (RpcIn (i32 n) n (-1) (-1)) srv = Fault FAssert.
Proof.
  intros Hfd Hn. simpl. unfold serve_read, mbind, M_bind.
  destruct (sys_calloc (u64 (i32 n)) (srv_os srv)) eqn:Hc;
    [|by rewrite read_handler_no_memory; [|apply Hhg|done]].
  assert (Hsmall : 0 ≤ u64 (i32 n) < 2 ^ 63).
  { split; [word|]. destruct (Z.lt_ge_cases (u64 (i32 n)) (2 ^ 63)) as [?|Hge]; [done|].
    apply (calloc_law _ (srv_os srv)) in Hge. congruence. }
  destruct (sys_read (-1) (u64 (i32 n)) (srv_os srv)) as [[r d] w] eqn:Hr.
  pose proof (read_bad_law (-1) (u64 (i32 n)) (srv_os srv) Hfd) as Hbad. rewrite Hr in Hbad.
  simpl in Hbad. subst r.
  rewrite (read_handler_eq hg srv _ (-1) d w); [|apply Hhg|apply Hhg|apply Hhg; simpl; lia|done|done].
  destruct (Z.eqb_spec (hg_bulk_transfer hg n (u64 (i32 n)) (u64 (-1))) 0) as [Ht|Ht];
    simpl; [|by apply Z.eqb_neq in Ht as ->].
  apply (ok_lawful _ Hhg) in Ht; [done|]. right. word.
Qed.

#[local] Existing Instance server_file_server.

(** The home of [p] cannot open what it would read for [p] (the file or its
    copy): it has no file there, or no descriptor left. *)
Definition cannot_serve (srv : server W) (p : string) : Prop :=
  (sys_open (redirect srv p) O_RDONLY 0 (srv_os srv)).1 = -1 ∧ fd_at (srv_os srv) (-1) = None.

Lemma failed_open_eq srv p :
  cannot_serve srv p →
  ∃ srv', fs_open (OpenIn p) srv = Ok (OpenOut (-1), srv') ∧ fd_at (srv_os srv') (-1) = None.
Proof.
  intros [Ho Hfd]. destruct (sys_open (redirect srv p) O_RDONLY 0 (srv_os srv)) as [fd w] eqn:Hopen.
  simpl in Ho. subst fd. eexists. split; [apply open_handler_eq; [apply Hhg|exact Hopen]|]. simpl.
  destruct (open_law _ O_RDONLY _ _ _ _ eq_refl Hopen) as [_ [[_ Hsame]|[? _]]]; [by rewrite Hsame|lia].
Qed.

(** C33: an open that succeeds locally but fails on the home server is reported
    to the application as a success, with the remote descriptor recorded as -1;
    every read of it stops the home server, and never returns (or aborts, when
    the transport reports the loss). *)
Theorem failed_remote_open_stops_server s path flags mode fd w p srv :
  conn_ok cl s → outbox s = [] → is_Some (getenv env "SLURM_PROCID") → redirectable path flags →
  sys_open path flags (if negb (Z.land flags O_CREAT =? 0) then mode else 0) (cli_os s) = (fd, w) →
  0 ≤ fd < 2 ^ 31 → track_decision (hvac_data_dir s) w path = Some p →
  servers s !! home cl p = Some srv → cannot_serve srv p →
  ∃ s1 srv1, run_call (hg := hg) env (COpen path flags mode) s = Ok (RFd fd, s1) ∧
    fd_map s1 !! fd = Some p ∧ fd_redir_map s1 !! fd = Some (-1) ∧
    ∀ n, 0 ≤ n < 2 ^ 63 → read_stops_home (hg := hg) env cl s1 fd n p srv1.
Proof.
  intros Hc Hbox Henv Hred Hopen Hfd Htrack Hsrv Hbad.
  destruct (failed_open_eq srv p Hbad) as (srv1 & Hfail & Hnone).
  destruct (ensure_comm_eq env cl Hhg (set_fd_map (<[fd := p]> (fd_map s)) (set_cli_os w s)))
    as (s1 & Hstart & Hc1 & Hrdy1 & Hinit); [destruct Hc; by split|done|].
  destruct (comm_started_same _ _ Hstart) as (Hbox1 & Hm1 & _ & _ & Hsrv1). simpl in *.
  destruct (gen_open_eq cl Hhg Hcl s1 p fd Hc1 Hrdy1) as (ac & k & Hac & Hgen).
  match type of Hgen with _ = Ok (_, ?t) => set (s2 := t) in Hgen end.
  assert (Hdel : ∃ s3, hvac_client_block (hg := hg) s2 = Ok (tt, s3) ∧ conn_ok cl s3 ∧ connected s3 ∧
    outbox s3 = [] ∧ fd_map s3 = fd_map s1 ∧ fd_redir_map s3 !! fd = Some (-1) ∧
    servers s3 !! home cl p = Some srv1).
  { eexists. split_and!.
    - apply lone_block_eq with (home cl p, ReqOpen (OpenIn p) (u32 fd)).
      + done.
      + unfold s2. simpl. by rewrite Hbox1, Hbox.
      + apply (deliver_open_eq Hhg (set_outbox [] s2) _ _ _ srv (-1) srv1); [exact Hrdy1| |exact Hfail].
        simpl. by rewrite Hsrv1.
      + done.
    - destruct Hc1; by split.
    - exact Hrdy1.
    - done.
    - done.
    - simpl. replace (i32 (u32 fd)) with fd by word. by rewrite lookup_insert_eq.
    - simpl. by rewrite lookup_insert_eq. }
  destruct Hdel as (s3 & Hblock & Hc3 & Hrdy3 & Hbox3 & Hm3 & Hr3 & Hsrv3).
  exists (set_stats (count_open (stats s3)) s3), srv1. split_and!.
  - apply (open_call_eq env cl _ _ _ _ _ _ w); [done|lia|done|].
    apply (track_file_eq env cl Hcl _ s1 _ _ _ _ p); [done..| |].
    + by rewrite Hm1, lookup_insert_eq.
    + erewrite bind_eq by exact Hgen. exact Hblock.
  - simpl. by rewrite Hm3, Hm1, lookup_insert_eq.
  - done.
  - intros n Hn. pose proof (read_bad_descriptor srv1 n Hnone Hn) as Hf.
    assert (Hm : fd_map s3 !! fd = Some p) by by rewrite Hm3, Hm1, lookup_insert_eq.
    assert (Hcs : conn_ok cl (set_stats (count_open (stats s3)) s3)) by by apply conn_ok_stats.
    apply (read_stops_home_intro env cl Hhg Hcl _ fd n p (-1) srv1 FAssert); try done.
    by apply (lone_read_fails env cl Hhg Hcl _ fd n p (-1) srv1 FAssert).
Qed.
End RemoteFailure.

(** ** Witnesses *)

#[local] Existing Instance demo_mercury.
#[local] Existing Instance length_hash.

Lemma posted_job_is_cluster_witness :
  ∃ text, posted [(1, demo_addr 1); (0, demo_addr 0)] = Some text ∧
    cluster_ok (Cluster 2 text demo_addr (cl_names demo_cluster) (cl_files demo_cluster)).
Proof.
  eexists. split; [by vm_compute|].
  apply (posted_job_is_cluster 2 [(1, demo_addr 1); (0, demo_addr 0)] _ demo_addr); [lia| | | |].
  - apply (Permutation_swap 0 1).
  - repeat constructor; by vm_compute.
  - by intros r a [[= -> ->]|[= -> ->]%list_elem_of_singleton]%elem_of_cons.
  - by vm_compute.
Defined.

(** The demonstration job with servers that do not see the data set. *)
Definition blind_os : RefPosix.world := RefPosix.World ∅ ∅ "/" {[0 := ("/dev/tty", 0)]} 0.
Definition blind_server : server RefPosix.world := fresh_server blind_os.
Definition blind_start : demo_system :=
  set_servers {[demo_addr 0 := blind_server; demo_addr 1 := blind_server]} demo_start.

#[local] Existing Instance server_file_server.

Lemma blind_conn : conn_ok demo_cluster blind_start.
Proof. destruct demo_start_transparent as [[] _]. by split. Qed.

Lemma failed_remote_open_stops_server_witness :
  ∃ s1 srv1, run_call demo_env (COpen "/d/a" 0 0) blind_start = Ok (RFd 3, s1) ∧
    fd_redir_map s1 !! 3 = Some (-1) ∧ read_stops_home demo_env demo_cluster s1 3 2 "/d/a" srv1.
Proof.
  destruct (failed_remote_open_stops_server demo_mercury_ok demo_env demo_cluster demo_cluster_ok
              blind_start "/d/a" 0 0 3 (sys_open "/d/a" 0 0 demo_os).2 "/d/a" blind_server blind_conn)
    as (s1 & srv1 & Hrun & _ & Hr & Hn);
    [by vm_compute|by eexists|by vm_compute|by vm_compute|lia|by vm_compute|by vm_compute|by split; vm_compute|].
  exists s1, srv1. split; [exact Hrun|]. split; [exact Hr|]. apply Hn. lia.
Defined.
