(* ===== verification/Service.v ===== *)
(** * The service from start to answers

    The servers of a job are started by their [main], one process on each node;
    each posts its address, runs its handlers and its data mover.  The clients
    are started by the constructor of the preloaded library and call it.  This
    file puts the parts together: the start ([Comm], [Deployment]), the servers
    with their movers ([Server], [DataMover]) and the clients at the level of
    messages ([Messages]). *)
From stdpp Require Import functions.
From S2P Require Import Prelude CLib Posix Rpc Server DataMover ClientState CommClient Client Wrappers System MultiClient Messages Comm Deployment.

Section Service.
Context {W : Type} `{!Posix W, !PosixLaws W, !PosixReliable W, !StringHash} {hg : mercury}.

(** A node on which a server is started: the environment and arguments of the
    process, the address Mercury listens on, and the node's file systems. *)
Record node := Node {
  node_env : environ;
  node_argv : list string;
  node_addr : string;
  node_os : W
}.

Definition node_rank (nd : node) : Z :=
  match getenv (node_env nd) "SLURM_PROCID" with Some r => atoi r | None => 0 end.

(** The shared ports file after a node's server has started on it. *)
Definition boot (text : option string) (nd : node) : option string :=
  match main hg (node_env nd) true true true (node_addr nd) (node_argv nd) (fresh_comm text) with
  | Ok (_, s) => ports s
  | Fault _ => text
  end.

(** The ports file after the servers have started, in this order, and the
    servers by address. *)
Definition booted (l : list node) : option string := foldl boot None l.
Definition fleet (l : list node) : gmap string (server W) :=
  list_to_map ((λ nd, (node_addr nd, fresh_server (node_os nd))) <$> l).
Definition address_of (l : list node) (r : Z) : string :=
  default "" (first_posted r ((λ nd, (node_rank nd, node_addr nd)) <$> l)).

(** What an operator has to provide: a rank and a server count for each process,
    addresses that can be posted, and the data set mounted on every node. *)
Record node_ok (files : string → option bytes) (nd : node) : Prop := {
  no_rank : is_Some (getenv (node_env nd) "SLURM_PROCID");
  no_argv : (2 ≤ length (node_argv nd))%nat;
  no_addr : postable (node_rank nd, node_addr nd);
  no_files : ∀ p c, files p = Some c → file_at (node_os nd) p = Some c
}.

Hypothesis Hhg : mercury_ok hg.

Lemma boot_posts files nd text :
  node_ok files nd → boot text nd = post text (node_rank nd, node_addr nd).
Proof.
  intros [[r Hr] Hargv _ _]. destruct (node_argv nd) as [|prog [|count rest]] eqn:Ha; simpl in Hargv; [lia..|].
  unfold boot, node_rank. rewrite Ha, Hr.
  destruct (main_posts hg (node_env nd) (node_addr nd) r text prog count rest Hr Hhg) as (s & -> & ->).
  done.
Qed.

Lemma booted_posted files l :
  Forall (node_ok files) l → booted l = posted ((λ nd, (node_rank nd, node_addr nd)) <$> l).
Proof.
  intros Hl. unfold booted, posted. generalize (None : option string) as text.
  induction Hl as [|nd l Hnd _ IH]; intros text; simpl; [done|].
  by rewrite (boot_posts _ _ _ Hnd), IH.
Qed.

Lemma fleet_ok files cl l :
  Forall (node_ok files) l → cl_files cl = files → servers_ok cl (fleet l).
Proof.
  intros Hl Hf a srv Ha. apply elem_of_list_to_map_2, list_elem_of_fmap in Ha as (nd & [= -> ->] & Hnd).
  rewrite Forall_forall in Hl. specialize (Hl _ Hnd). rewrite Hf. split; [by intros p q|].
  intros p c Hp. by apply (no_files _ _ Hl).
Qed.

(** The servers, started in any order, make a well-formed cluster. *)
Lemma booted_cluster_ok files names n l :
  0 < n ≤ 2 ^ 31 → node_rank <$> l ≡ₚ seqZ 0 n → Forall (node_ok files) l →
  ∃ text, booted l = Some text ∧ cluster_ok (Cluster n text (address_of l) names files).
Proof.
  intros Hn Hl Hok. rewrite (booted_posted _ _ Hok).
  set (posts := (λ nd, (node_rank nd, node_addr nd)) <$> l).
  assert (Hranks : posts.*1 ≡ₚ seqZ 0 n) by (unfold posts; by rewrite <- list_fmap_compose).
  assert (Hposts : Forall postable posts).
  { apply Forall_fmap. eapply Forall_impl; [exact Hok|]. intros nd Hnd. by apply no_addr in Hnd. }
  assert (Hsome : ∃ text, posted posts = Some text).
  { unfold posted. destruct posts as [|ra posts']; [|eexists; apply post_all_fresh].
    assert (Hin : 0 ∈ seqZ 0 n) by (apply elem_of_seqZ; lia).
    rewrite <- Hranks in Hin. by apply not_elem_of_nil in Hin. }
  destruct Hsome as [text Ht]. exists text. split; [done|].
  apply (posted_cluster_ok n posts); try done.
  intros r a Hra. unfold address_of. fold posts.
  rewrite (first_posted_elem posts r a); [done| |done]. rewrite Hranks. apply NoDup_seqZ.
Qed.

Variable nvmepath : string.
Variable env : nat → environ.

(** C1: the service works from its start.  Start the servers of ranks 0 to n-1
    by [main], in any order, on nodes that mount the data set; then let clients
    start, call and exit their waits while the messages are handled, the movers
    run and servers die, in any interleaving: each client sees a POSIX history
    on the original files, can begin its calls, and returns from those that are
    answered.  What is left to the outside is
    the POSIX interface of the machines, a network that works, and no directory
    under the name that a failed [mkdtemp] leaves. *)
Theorem service_transparent files names n l :
  0 < n ≤ 2 ^ 31 → node_rank <$> l ≡ₚ seqZ 0 n → Forall (node_ok files) l →
  scratch_clean (W := W) nvmepath → (∀ i, is_Some (getenv (env i) "SLURM_PROCID")) →
  ∃ text, booted l = Some text ∧
    ∀ t net,
      net_run (hg := hg) env (Cluster n text (address_of l) names files) (mover_step nvmepath)
        (at_rest (Job ∅ (fleet l))) t net →
      sees_posix (hg := hg) env (Cluster n text (address_of l) names files) t net.
Proof.
  intros Hn Hl Hok Hclean Henv.
  destruct (booted_cluster_ok files names n l Hn Hl Hok) as (text & Ht & Hcl).
  exists text. split; [done|]. intros t net Hrun.
  pose proof (server_file_server_laws (W := W) Hhg) as Hlaws.
  eapply run_sees_posix; [done..| |exact Henv| |exact Hrun].
  - intros srv srv' Hsrv Hstep. by eapply mover_step_coherent.
  - by eapply fleet_ok.
Qed.
End Service.

(** ** The demonstration job, booted *)

#[local] Existing Instance demo_mercury.
#[local] Existing Instance demo_server_laws.

(** Executions do not look at the function from ranks to addresses. *)
Lemma net_run_addresses env background n text a a' names files (x : demo_net) t y :
  net_run env (Cluster n text a names files) background x t y →
  net_run env (Cluster n text a' names files) background x t y.
Proof.
  remember (Cluster n text a names files) as cl eqn:Hcl. intros Hrun.
  induction Hrun; subst.
  - constructor.
  - by eapply net_return; eauto.
  - by eapply net_begin; eauto.
  - by eapply net_deliver; eauto.
  - by eapply net_finish; eauto.
  - by eapply net_background; eauto.
  - by eapply net_died; eauto.
  - by eapply net_start; eauto.
Qed.

Definition demo_node (r : Z) : node (W := RefPosix.world) :=
  Node {["SLURM_PROCID" := decimal r]} ["hvac_server"; "2"] (demo_addr r) demo_os.
Definition demo_nodes : list (node (W := RefPosix.world)) := [demo_node 0; demo_node 1].

Lemma demo_node_ok r : r = 0 ∨ r = 1 → node_ok (cl_files demo_cluster) (demo_node r).
Proof.
  intros Hr. split; [by eexists|simpl; lia| |done].
  destruct Hr as [-> | ->]; (split; [by vm_compute|]); (split; [by vm_compute|by vm_compute]).
Qed.

Lemma service_transparent_witness :
  booted demo_nodes = Some demo_text ∧
  ∃ o : shadow, posix_run (cl_names demo_cluster) (cl_files demo_cluster) ∅
      [(COpen "/d/a" 0 0, RFd 3); (CRead 3 2, RData 2 [Byte.x61; Byte.x62])] o.
Proof.
  destruct (service_transparent demo_mercury_ok demo_nvme demo_envs (cl_files demo_cluster)
    (cl_names demo_cluster) 2 demo_nodes) as (text & Ht & Hall);
    [lia|done|repeat constructor; apply demo_node_ok; auto|exact demo_clean|exact demo_ranks|].
  assert (Hb : booted demo_nodes = Some demo_text) by (by vm_compute).
  split; [exact Hb|]. rewrite Hb in Ht. injection Ht as <-.
  destruct (Hall net_events net13) with (i := 1%nat) as (o & Hrun & _); [|by exists o].
  eapply net_run_addresses, (net_run_app _ _ _ _ _ _ _ _ net_opening net_reading).
Defined.
