(* ===== verification/Logging.v ===== *)
(** * Logging ([hvac_logging.c])

    The verbosity, the name of the log file with the buffer it is built in, the
    text of a message, and the set-up as the calls it makes of the log library,
    in order. *)
From S2P Require Import Prelude CLib.
From Stdlib Require Import DecimalString.

Section Verbosity.
(** Priorities of the log library; the sources rely on fatal being the lowest
    and trace the highest. *)
Variables LOG4C_PRIORITY_FATAL LOG4C_PRIORITY_NOTICE LOG4C_PRIORITY_TRACE : Z.

(** The priority of the root category. *)
Definition log_level (env : environ) : Z :=
  match getenv env "HVAC_LOG_LEVEL" with
  | Some v =>
      let level := atoi v in
      if level <? LOG4C_PRIORITY_FATAL then LOG4C_PRIORITY_FATAL
      else if level >? LOG4C_PRIORITY_TRACE then LOG4C_PRIORITY_TRACE
      else level
  | None => LOG4C_PRIORITY_NOTICE
  end.

(** Whatever the environment says, the verbosity lies between fatal and
    trace; a value in that range is taken as it is. *)
Theorem log_level_in_range env :
  LOG4C_PRIORITY_FATAL ≤ LOG4C_PRIORITY_NOTICE ≤ LOG4C_PRIORITY_TRACE →
  LOG4C_PRIORITY_FATAL ≤ log_level env ≤ LOG4C_PRIORITY_TRACE ∧
  ∀ n, getenv env "HVAC_LOG_LEVEL" = Some (decimal n) → is_i32 n →
    LOG4C_PRIORITY_FATAL ≤ n ≤ LOG4C_PRIORITY_TRACE → log_level env = n.
Proof.
  intros Hp. unfold log_level. split.
  - destruct (getenv env "HVAC_LOG_LEVEL") as [v|]; [|lia]. rewrite Z.gtb_ltb.
    destruct (Z.ltb_spec (atoi v) LOG4C_PRIORITY_FATAL),
      (Z.ltb_spec LOG4C_PRIORITY_TRACE (atoi v)); lia.
  - intros n -> Hn Hr. rewrite atoi_decimal, Z.gtb_ltb by done.
    destruct (Z.ltb_spec n LOG4C_PRIORITY_FATAL), (Z.ltb_spec LOG4C_PRIORITY_TRACE n); lia.
Qed.
End Verbosity.

(** ** The name of the log file *)

(** A C string of [s] takes [length s + 1] bytes. *)
Definition strlen (s : string) : Z := Z.of_nat (String.length s).

(** [malloc(strlen(prefix) + 7)], then [sprintf("%s.%d", prefix, pid)]: writing
    past the block is undefined. *)
Definition prefix_and_pid (prefix : string) (pid : Z) : outcome string :=
  let size := strlen prefix + 7 in
  let text := prefix +:+ "." +:+ decimal pid in
  if strlen text + 1 <=? size then Ok text else Fault FUndefined.

Lemma strlen_app a b : strlen (a +:+ b) = strlen a + strlen b.
Proof.
  unfold strlen. assert (String.length (a +:+ b) = (String.length a + String.length b)%nat); [|lia].
  induction a as [|c a IH]; rewrite ?append_cons; simpl; [done|by rewrite IH].
Qed.

(** Value below the power of ten that the number of digits gives. *)
Lemma uint_val_bound d : ∀ acc,
  0 ≤ acc → uint_val acc d < (acc + 1) * 10 ^ strlen (NilEmpty.string_of_uint d).
Proof.
  unfold strlen. induction d as [|d IH|d IH|d IH|d IH|d IH|d IH|d IH|d IH|d IH|d IH];
    intros acc Ha; cbn [uint_val NilEmpty.string_of_uint String.length]; [lia|..];
    (eapply Z.lt_le_trans; [apply IH; lia|]);
    rewrite Nat2Z.inj_succ, Z.pow_succ_r by lia; nia.
Qed.

Lemma decimal_long z : 100000 ≤ z → 6 ≤ strlen (decimal z).
Proof.
  intros Hz. destruct z as [|p|p]; [lia| |lia]. rewrite decimal_pos.
  pose proof (uint_val_bound (Pos.to_uint p) 0) as Hb. rewrite uint_val_to_uint in Hb.
  destruct (Z.le_gt_cases 6 (strlen (NilEmpty.string_of_uint (Pos.to_uint p)))) as [?|Hlt]; [done|].
  assert (10 ^ strlen (NilEmpty.string_of_uint (Pos.to_uint p)) ≤ 10 ^ 5)
    by (apply Z.pow_le_mono_r; lia).
  lia.
Qed.

(** The decimal numbers of up to five digits, by enumeration. *)
Fixpoint all_from (f : Z → bool) (n : nat) (z : Z) : bool :=
  match n with O => true | S n => f z && all_from f n (z + 1) end.

Lemma all_from_elem f n : ∀ z x, all_from f n z = true → z ≤ x < z + Z.of_nat n → f x = true.
Proof.
  induction n as [|n IH]; intros z x Hall Hx; [lia|]. simpl in Hall.
  apply andb_prop in Hall as [Hz Hall]. destruct (decide (x = z)) as [->|]; [done|].
  apply (IH (z + 1)); [done|lia].
Qed.

Lemma decimal_short z : 0 ≤ z < 100000 → strlen (decimal z) ≤ 5.
Proof.
  assert (Hall : all_from (λ z, strlen (decimal z) <=? 5) (Z.to_nat 100000) 0 = true)
    by (vm_compute; reflexivity).
  intros Hz. apply Z.leb_le.
  apply (all_from_elem (λ z, strlen (decimal z) <=? 5) _ 0 z Hall). lia.
Qed.

Lemma prefix_and_pid_eq prefix pid :
  0 ≤ pid →
  prefix_and_pid prefix pid =
  if pid <? 100000 then Ok (prefix +:+ "." +:+ decimal pid) else Fault FUndefined.
Proof.
  intros Hpid. unfold prefix_and_pid. rewrite !strlen_app. change (strlen ".") with 1.
  destruct (Z.ltb_spec pid 100000).
  - pose proof (decimal_short pid). destruct (Z.leb_spec (strlen prefix + (1 + strlen (decimal pid)) + 1)
      (strlen prefix + 7)); [done|lia].
  - pose proof (decimal_long pid). destruct (Z.leb_spec (strlen prefix + (1 + strlen (decimal pid)) + 1)
      (strlen prefix + 7)); [lia|done].
Qed.

(** The buffer for the name of the log file holds process ids of up to five
    digits; from 100000 on, which current kernels hand out, the write runs past
    the block. *)
Theorem pid_buffer_bound prefix pid :
  0 ≤ pid →
  prefix_and_pid prefix pid =
  if pid <? 100000 then Ok (prefix +:+ "." +:+ decimal pid) else Fault FUndefined.
Proof. apply prefix_and_pid_eq. Qed.

(** ** Messages *)

(** [vsnprintf] into a buffer of 1024 bytes. *)
Definition MAX_STR_LEN : nat := 1024.
Definition vsnprintf (text : string) : string := String.substring 0 (MAX_STR_LEN - 1) text.

(** The line for the log library, for a message already expanded. *)
Definition log_preformatter_internal (file : string) (linenum : Z) (text : string) : string :=
  "[" +:+ filename file +:+ ":" +:+ decimal linenum +:+ "] " +:+ vsnprintf text.

Lemma substring_all n s : (String.length s ≤ n)%nat → String.substring 0 n s = s.
Proof.
  revert n. induction s as [|c s IH]; intros [|n] Hn; simpl in *; try done; [lia|].
  by rewrite IH by lia.
Qed.

Lemma substring_length n s : (String.length (String.substring 0 n s) ≤ n)%nat.
Proof. revert s. induction n as [|n IH]; intros [|c s]; simpl; try lia. specialize (IH s). lia. Qed.

(** A message of up to 1023 characters is logged in full behind the file
    and line; a longer one is cut there and never runs past the buffer. *)
Theorem log_line file linenum text :
  (strlen text ≤ 1023 →
   log_preformatter_internal file linenum text =
   "[" +:+ filename file +:+ ":" +:+ decimal linenum +:+ "] " +:+ text) ∧
  strlen (vsnprintf text) ≤ 1023.
Proof.
  unfold log_preformatter_internal, vsnprintf, strlen, MAX_STR_LEN. split.
  - intros Hl. rewrite substring_all; [done|lia].
  - pose proof (substring_length (1024 - 1) text). lia.
Qed.

(** ** The whole set-up *)

(** The compile-time names of [hvac_logging.h], for the client library and for
    the server. *)
Definition L4C_LOG_DIR : string := ".".
Definition L4C_LOG_NAME_PREFIX (client : bool) : string :=
  if client then "hvac_intercept_log" else "hvac_server_log".

Definition param_max_file_size : Z := 100 * 1024 * 1024.
Definition param_max_num_files : Z := 10.
Definition param_layout_to_use : string := "dated".

(** What the set-up asks of the log library, in order; [Message] is a call of
    [log4c_category_log] for the category of the program. *)
Inductive log_call :=
  | Stderr (text : string)
  | CategoryGet (name : string)
  | SetPriority (level : Z)
  | AppenderGet (name : string)
  | AppenderSetType (type : string)
  | Message (line : string)
  | MakeUdata
  | SetLogdir (dir : string)
  | SetFilesPrefix (prefix : string)
  | PolicyGet (name : string)
  | PolicySetType (type : string)
  | MakeSizewin
  | SetFileMaxsize (n : Z)
  | SetMaxNumFiles (n : Z)
  | PolicySetUdata
  | UdataSetPolicy
  | AppenderSetUdata
  | PolicyInit
  | AppenderSetLayout (layout : string)
  | CategorySetAppender
  | Fini.

Section Setup.
Variables LOG4C_PRIORITY_FATAL LOG4C_PRIORITY_NOTICE LOG4C_PRIORITY_TRACE : Z.
Variable client : bool.

(** A parameter from the environment, else its default with a message from the
    given line of the file. *)
Definition log_param (env : environ) (var dflt : string) (linenum : Z) (notice : string) :
    string * list log_call :=
  match getenv env var with
  | Some v => (v, [])
  | None => (dflt, [Message (log_preformatter_internal "hvac_logging.c" linenum
                               (notice +:+ dflt +:+ String (Ascii.ascii_of_nat 10) ""))])
  end.

(** [log4c_init] returns [rc], [getpid] returns [pid]. *)
Definition hvac_init_logging (env : environ) (rc pid : Z) : outcome (list log_call) :=
  if negb (rc =? 0) then
    Ok [Stderr ("log4c init failed -- error " +:+ decimal rc +:+
                " -- attempting to continue without the logging system." +:+
                String (Ascii.ascii_of_nat 10) "")]
  else
    let '(param_log_dir, notices1) :=
      log_param env "HVAC_LOG_DIR" L4C_LOG_DIR 87 "Using default log directory " in
    let '(param_log_prefix, notices2) :=
      log_param env "HVAC_LOG_PREFIX" (L4C_LOG_NAME_PREFIX client) 91 "Using default log prefix " in
    match prefix_and_pid param_log_prefix pid with
    | Fault f => Fault f
    | Ok files_prefix =>
        Ok ([CategoryGet "root";
             SetPriority (log_level LOG4C_PRIORITY_FATAL LOG4C_PRIORITY_NOTICE LOG4C_PRIORITY_TRACE env);
             AppenderGet "aname"; AppenderSetType "rollingfile"] ++ notices1 ++ notices2 ++
            [MakeUdata; SetLogdir param_log_dir; SetFilesPrefix files_prefix;
             PolicyGet "a_policy_name"; PolicySetType "sizewin";
             MakeSizewin; SetFileMaxsize param_max_file_size; SetMaxNumFiles param_max_num_files;
             PolicySetUdata; UdataSetPolicy; AppenderSetUdata; PolicyInit;
             AppenderSetLayout param_layout_to_use; CategorySetAppender])
    end.

Definition HVAC_finalize_logging : list log_call := [Fini].

Definition is_message (c : log_call) : bool := match c with Message _ => true | _ => false end.

(** C40: the set-up of the log.  With a working library it is completed exactly
    when the process id has at most five digits (else the file name runs past
    its buffer): the priority is the one asked for, the directory and the prefix
    come from the environment or their defaults, and the appender is attached
    last of all; so the messages about the defaults, one for each variable that
    is not set, are logged while the category has no appender.  When the
    library fails to start, nothing of it is touched. *)
Theorem init_logging_order env pid :
  0 ≤ pid →
  let dir := default L4C_LOG_DIR (getenv env "HVAC_LOG_DIR") in
  let prefix := default (L4C_LOG_NAME_PREFIX client) (getenv env "HVAC_LOG_PREFIX") in
  (100000 ≤ pid → hvac_init_logging env 0 pid = Fault FUndefined) ∧
  (pid < 100000 → ∃ calls,
     hvac_init_logging env 0 pid = Ok (calls ++ [CategorySetAppender]) ∧
     (CategorySetAppender ∉ calls) ∧
     SetPriority (log_level LOG4C_PRIORITY_FATAL LOG4C_PRIORITY_NOTICE LOG4C_PRIORITY_TRACE env) ∈ calls ∧
     SetLogdir dir ∈ calls ∧ SetFilesPrefix (prefix +:+ "." +:+ decimal pid) ∈ calls ∧
     length (filter (λ c, is_message c = true) calls) =
       length (filter (λ v, getenv env v = None) ["HVAC_LOG_DIR"; "HVAC_LOG_PREFIX"])) ∧
  (∀ rc, rc ≠ 0 → ∃ text, hvac_init_logging env rc pid = Ok [Stderr text]).
Proof.
  intros Hpid dir prefix. unfold hvac_init_logging. simpl.
  assert (Hbuf : ∀ p, prefix_and_pid p pid =
            if pid <? 100000 then Ok (p +:+ "." +:+ decimal pid) else Fault FUndefined)
    by (intros p; by apply prefix_and_pid_eq).
  split_and!.
  - intros Hbig. rewrite (proj2 (Z.ltb_ge _ _)) in Hbuf by done.
    unfold log_param. destruct (getenv env "HVAC_LOG_DIR"), (getenv env "HVAC_LOG_PREFIX");
      by rewrite Hbuf.
  - intros Hsmall. rewrite (proj2 (Z.ltb_lt _ _)) in Hbuf by done.
    unfold dir, prefix, log_param. rewrite !filter_cons, filter_nil.
    destruct (getenv env "HVAC_LOG_DIR"), (getenv env "HVAC_LOG_PREFIX");
      rewrite Hbuf; simpl;
      (match goal with |- ∃ calls, Ok ?l = _ ∧ _ => exists (removelast l) end); simpl;
      (split; [done|]);
      (split; [repeat (apply not_elem_of_cons; split; [done|]); apply not_elem_of_nil|]);
      (split_and!; [repeat first [by left | right]..|done]).
  - intros rc Hrc. destruct (Z.eqb_spec rc 0); [done|]. by eexists.
Qed.
End Setup.

(** ** Witnesses *)

Lemma log_level_in_range_witness :
  log_level 0 500 800 {["HVAC_LOG_LEVEL" := "600"]} = 600.
Proof.
  apply (log_level_in_range 0 500 800 {["HVAC_LOG_LEVEL" := "600"]});
    [lia|by vm_compute|word|lia].
Defined.

Lemma pid_buffer_bound_witness : prefix_and_pid "hvac_server_log" 100000 = Fault FUndefined.
Proof. apply (pid_buffer_bound "hvac_server_log" 100000). lia. Defined.

Lemma log_line_witness :
  log_preformatter_internal "src/wrappers.c" 7 "open" = "[wrappers.c:7] open".
Proof. apply (log_line "src/wrappers.c" 7 "open"). by vm_compute. Defined.

Lemma init_logging_order_witness :
  ∃ calls, hvac_init_logging 0 500 800 false {["HVAC_LOG_DIR" := "/var/log"]} 0 4242 =
             Ok (calls ++ [CategorySetAppender]) ∧
    SetLogdir "/var/log" ∈ calls ∧ SetFilesPrefix "hvac_server_log.4242" ∈ calls ∧
    length (filter (λ c, is_message c = true) calls) = 1%nat.
Proof.
  destruct (init_logging_order 0 500 800 false {["HVAC_LOG_DIR" := "/var/log"]} 4242)
    as (_ & Hok & _); [lia|].
  destruct Hok as (calls & H & _ & _ & Hd & Hp & Hm); [lia|].
  exists calls. split; [exact H|]. split; [exact Hd|]. split; [exact Hp|exact Hm].
Defined.
